(** * flatui font manager: glyph-atlas cache driver and text-layout buffers

    A shallow embedding of [src/font_manager.cpp] (namespace [flatui]):
    the [WordEnumerator] iterator, the [FontBuffer] line finalisation and UV
    refresh, and the [FontManager] entry points [GetBuffer], [CreateBuffer],
    [ReleaseBuffer], [UpdateUV], [UpdatePass] and [GetCachedEntry].

    Conventions.
    - Integers are [Z]; the fixed-width C++ types are made explicit with the
      wrap-around functions of the section "Machine integers".
    - [std::vector] is [list]; an access that C++ leaves undefined (an index
      past the end, a null or dangling pointer) is a [Fault].
    - The libraries the file drives (HarfBuzz, FreeType, libunibreak, the
      glyph cache and fplbase textures) are collaborators: their operations
      are the fields of the class [Collaborators], so every theorem holds for
      all of their behaviours.
    - [float] arithmetic is never computed: the float type and its operations
      are fields of [Collaborators] as well. *)

From stdpp Require Import base numbers list option gmap countable strings sorting.

Local Open Scope Z_scope.

(* ===================================================================== *)
(** * Part I. The model                                                    *)
(* ===================================================================== *)

(** ** Machine integers *)

(** [size_t] on the LP64 targets of the library: 64 bits, unsigned. *)
Definition size_t_bits : Z := 64.
Definition to_size_t (x : Z) : Z := x mod 2 ^ size_t_bits.

(** [uint32_t]. *)
Definition to_uint32 (x : Z) : Z := x mod 2 ^ 32.

(** [int32_t] / [int]: two's complement, the conversion every supported
    compiler implements. *)
Definition to_int32 (x : Z) : Z := (x + 2 ^ 31) mod 2 ^ 32 - 2 ^ 31.

Definition int32_range (x : Z) : Prop := - 2 ^ 31 <= x < 2 ^ 31.

(** [v.size()] of a [std::vector]. *)
Definition vsize {A} (v : list A) : Z := Z.of_nat (length v).

(** [v[i]] for an index held in an unsigned variable: [None] past the end. *)
Definition vget {A} (v : list A) (i : Z) : option A :=
  if decide (0 <= i) then v !! Z.to_nat i else None.

(** ** libunibreak break classes

    Modelled from the spec: the break classifier (libunibreak's linebreak.h)
    is an external collaborator; it tags every byte with one of the classes
    must-break, allow-break, (no-break) and inside-a-character.  The numbers
    are those of linebreak.h; no proof depends on them beyond their being
    pairwise distinct. *)
Definition LINEBREAK_MUSTBREAK : Z := 0.
Definition LINEBREAK_ALLOWBREAK : Z := 1.
Definition LINEBREAK_NOBREAK : Z := 2.
Definition LINEBREAK_INSIDEACHAR : Z := 3.

(** The test of [WordEnumerator::Advance]'s scan:
    [word_info == LINEBREAK_MUSTBREAK || word_info == LINEBREAK_ALLOWBREAK]. *)
Definition is_break (word_info : Z) : bool :=
  bool_decide (word_info = LINEBREAK_MUSTBREAK)
  || bool_decide (word_info = LINEBREAK_ALLOWBREAK).

(** ** WordEnumerator (font_manager.cpp, lines 55-133) *)

Record WordEnumerator := mkWordEnumerator {
  current_index_ : Z;     (* size_t *)
  current_length_ : Z;    (* size_t *)
  buffer_ : list Z;       (* const std::vector<char> * *)
  finished_ : bool;
  single_line_ : bool
}.

(** [WordEnumerator(buffer, single_line)]. *)
Definition WordEnumerator_new (buffer : list Z) (single_line : bool)
  : WordEnumerator :=
  {| current_index_ := 0; current_length_ := 0; buffer_ := buffer;
     finished_ := false; single_line_ := single_line |}.

(** The [while (index < buffer_->size())] scan of [Advance]: [rest] is the
    part of the buffer from [index] on; the result is the value of [index]
    when the loop is left. *)
Fixpoint scan_break (rest : list Z) (index : Z) : Z :=
  match rest with
  | [] => index
  | word_info :: rest' =>
      if is_break word_info then index
      else scan_break rest' (to_size_t (index + 1))
  end.

(** [bool Advance()]: the returned flag and the enumerator afterwards. *)
Definition Advance (w : WordEnumerator) : bool * WordEnumerator :=
  if single_line_ w && negb (finished_ w) then
    (true,
     {| current_index_ := current_index_ w;
        current_length_ := vsize (buffer_ w);
        buffer_ := buffer_ w; finished_ := true;
        single_line_ := single_line_ w |})
  else
    let current_index := to_size_t (current_index_ w + current_length_ w) in
    if bool_decide (vsize (buffer_ w) <= current_index) || finished_ w then
      (false,
       {| current_index_ := current_index;
          current_length_ := current_length_ w;
          buffer_ := buffer_ w; finished_ := finished_ w;
          single_line_ := single_line_ w |})
    else
      let index :=
        scan_break (drop (Z.to_nat current_index) (buffer_ w)) current_index in
      (true,
       {| current_index_ := current_index;
          current_length_ := to_size_t (index - current_index + 1);
          buffer_ := buffer_ w; finished_ := finished_ w;
          single_line_ := single_line_ w |}).

(** [bool IsLastWord()]. *)
Definition IsLastWord (w : WordEnumerator) : bool :=
  bool_decide (vsize (buffer_ w)
               <= to_size_t (current_index_ w + current_length_ w))
  || finished_ w.

Definition GetCurrentWordIndex (w : WordEnumerator) : Z := current_index_ w.
Definition GetCurrentWordLength (w : WordEnumerator) : Z := current_length_ w.

(** The index [CurrentWordMustBreak] reads the buffer at. *)
Definition must_break_index (w : WordEnumerator) : Z :=
  to_size_t (current_index_ w + current_length_ w - 1).

(** [bool CurrentWordMustBreak()]: [None] when the read
    of the buffer at [current_index_ + current_length_ - 1] is past the end of
    the buffer (undefined behaviour in C++). *)
Definition CurrentWordMustBreak (w : WordEnumerator) : option bool :=
  if bool_decide (to_size_t (current_index_ w + current_length_ w) = 0)
  then Some false
  else word_info ← vget (buffer_ w) (must_break_index w);
       Some (bool_decide (word_info = LINEBREAK_MUSTBREAK)).

(** The enumerator after [n] further calls of [Advance]. *)
Fixpoint advance_n (n : nat) (w : WordEnumerator) : WordEnumerator :=
  match n with
  | O => w
  | S n' => advance_n n' (snd (Advance w))
  end.

(** A bound on the spans that [Advance] can still yield. *)
Definition words_left (w : WordEnumerator) : Z :=
  if finished_ w then 0
  else if single_line_ w then 1
  else Z.max 0 (vsize (buffer_ w) - (current_index_ w + current_length_ w)).

(** ** Enumerations and constants of font_manager.h *)

(** Modelled from the spec: the layout direction is declared in
    font_manager.h; the source tests for left-to-right and right-to-left
    separately (lines 384 and 439), so a third direction stands for every
    other value. *)
Inductive TextLayoutDirection :=
  | kTextLayoutDirectionLTR
  | kTextLayoutDirectionRTL
  | kTextLayoutDirectionTTB.

#[export] Instance TextLayoutDirection_eq_dec : EqDecision TextLayoutDirection.
Proof. solve_decision. Defined.

(** Modelled from the spec: the alignment is left, right or centre plus a
    justify bit ("alignment(+justify bit)"); [UpdateLine] separates the two
    with [&] and [& ~].  The numbers are those of the TextAlignment enum of
    font_manager.h. *)
Definition kTextAlignmentLeft : Z := 0.
Definition kTextAlignmentRight : Z := 1.
Definition kTextAlignmentCenter : Z := 2.
Definition kTextAlignmentJustify : Z := 4.

(** Modelled from the spec: "4 vertices + 6 indices per visible glyph". *)
Definition kVerticesPerCodePoint : Z := 4.

(** font_manager.cpp, line 51. *)
Definition kInvalidSliceIndex : Z := -1.

(** ** Floating point

    The source computes pen positions and vertex coordinates in [float].
    The model leaves the type and its operations open. *)
Class FloatModel := {
  float : Type;
  float_eq_dec :: EqDecision float;
  float_countable :: Countable float;
  f_of_int : Z → float;            (* static_cast<float>(int) *)
  f_to_int32 : float → Z;          (* static_cast<int32_t>(float) *)
  f_to_uint32 : float → Z;         (* static_cast<uint32_t>(float) *)
  f_add : float → float → float;
  f_sub : float → float → float;
  f_mul : float → float → float;
  f_div : float → float → float
}.

(** Addresses of heap objects ([FontBuffer *]) and of glyph-cache rows. *)
Definition addr := nat.

Section Buffers.
Context `{FloatModel}.

(** [FontBufferParameters]: the values its getters return. *)
Record FontBufferParameters := mkFontBufferParameters {
  get_font_id : Z;
  get_text_id : Z;
  get_font_size : float;
  get_size : Z * Z;                (* mathfu::vec2i *)
  get_text_alignment : Z;
  get_glyph_flags : Z;
  get_caret_info_flag : bool;
  get_ref_count_flag : bool;
  get_multi_line_setting : bool;
  get_line_length : Z              (* uint32_t *)
}.

#[export] Instance FontBufferParameters_eq_dec : EqDecision FontBufferParameters.
Proof. solve_decision. Defined.

#[export] Instance FontBufferParameters_countable :
  Countable FontBufferParameters.
Proof.
  refine (inj_countable'
    (λ p, (get_font_id p, get_text_id p, get_font_size p, get_size p,
           get_text_alignment p, get_glyph_flags p, get_caret_info_flag p,
           get_ref_count_flag p, get_multi_line_setting p, get_line_length p))
    (λ t, let '(a, b, c, d, e, f, g, h, i, j) := t in
          mkFontBufferParameters a b c d e f g h i j) _).
  by intros [].
Defined.

(** [FontMetrics(base_line, internal_leading, ascender, descender,
    external_leading)]. *)
Record FontMetrics := mkFontMetrics {
  base_line : Z;
  internal_leading : Z;
  ascender : Z;
  descender : Z;
  external_leading : Z
}.

(** [GlyphCacheEntry]: what the source reads of a cache entry. *)
Record GlyphCacheEntry := mkGlyphCacheEntry {
  entry_code_point : Z;
  get_offset : Z * Z;
  entry_size : Z * Z;              (* get_size() *)
  get_pos : Z * Z * Z;             (* x, y and the slice z *)
  get_uv : float * float * float * float;   (* vec4: x, y, z, w *)
  get_row : addr
}.

(** [FontVertex(x, y, z, u, v)]. *)
Record FontVertex := mkFontVertex {
  position_ : float * float * float;
  uv_ : float * float
}.

Record FontBuffer := mkFontBuffer {
  vertices_ : list FontVertex;
  indices_ : list (list Z);        (* one index list per atlas slice *)
  slices_ : list Z;
  code_points_ : list Z;
  caret_positions_ : list (Z * Z);
  has_caret_positions_ : bool;     (* HasCaretPositions() *)
  word_boundary_ : list Z;
  word_boundary_caret_ : list Z;
  line_start_index_ : Z;
  line_start_caret_index_ : Z;
  size_ : Z * Z;
  metrics_ : FontMetrics;
  revision_ : Z;
  ref_count_ : Z;
  pass_ : Z;
  referencing_rows_ : list addr;
  iterator_ : option FontBufferParameters   (* position in map_buffers_ *)
}.

(** Modelled from the spec: the constructor [FontBuffer(length, caret_info)]
    is declared in font_manager.h.  A new buffer holds no geometry and no
    line in progress; carets are recorded only when requested. *)
Definition FontBuffer_new (length : Z) (caret_info : bool) : FontBuffer :=
  {| vertices_ := []; indices_ := []; slices_ := []; code_points_ := [];
     caret_positions_ := []; has_caret_positions_ := caret_info;
     word_boundary_ := []; word_boundary_caret_ := [];
     line_start_index_ := 0; line_start_caret_index_ := 0;
     size_ := (0, 0); metrics_ := mkFontMetrics 0 0 0 0 0;
     revision_ := 0; ref_count_ := 0; pass_ := 0;
     referencing_rows_ := []; iterator_ := None |}.

(** Field updates ([b.vertices_ = v], ...). *)
Definition with_vertices (v : list FontVertex) (b : FontBuffer) : FontBuffer :=
  mkFontBuffer v (indices_ b) (slices_ b) (code_points_ b)
    (caret_positions_ b) (has_caret_positions_ b) (word_boundary_ b)
    (word_boundary_caret_ b) (line_start_index_ b) (line_start_caret_index_ b)
    (size_ b) (metrics_ b) (revision_ b) (ref_count_ b) (pass_ b)
    (referencing_rows_ b) (iterator_ b).

Definition with_indices (v : list (list Z)) (b : FontBuffer) : FontBuffer :=
  mkFontBuffer (vertices_ b) v (slices_ b) (code_points_ b)
    (caret_positions_ b) (has_caret_positions_ b) (word_boundary_ b)
    (word_boundary_caret_ b) (line_start_index_ b) (line_start_caret_index_ b)
    (size_ b) (metrics_ b) (revision_ b) (ref_count_ b) (pass_ b)
    (referencing_rows_ b) (iterator_ b).

Definition with_slices (v : list Z) (b : FontBuffer) : FontBuffer :=
  mkFontBuffer (vertices_ b) (indices_ b) v (code_points_ b)
    (caret_positions_ b) (has_caret_positions_ b) (word_boundary_ b)
    (word_boundary_caret_ b) (line_start_index_ b) (line_start_caret_index_ b)
    (size_ b) (metrics_ b) (revision_ b) (ref_count_ b) (pass_ b)
    (referencing_rows_ b) (iterator_ b).

Definition with_code_points (v : list Z) (b : FontBuffer) : FontBuffer :=
  mkFontBuffer (vertices_ b) (indices_ b) (slices_ b) v
    (caret_positions_ b) (has_caret_positions_ b) (word_boundary_ b)
    (word_boundary_caret_ b) (line_start_index_ b) (line_start_caret_index_ b)
    (size_ b) (metrics_ b) (revision_ b) (ref_count_ b) (pass_ b)
    (referencing_rows_ b) (iterator_ b).

Definition with_caret_positions (v : list (Z * Z)) (b : FontBuffer)
  : FontBuffer :=
  mkFontBuffer (vertices_ b) (indices_ b) (slices_ b) (code_points_ b)
    v (has_caret_positions_ b) (word_boundary_ b)
    (word_boundary_caret_ b) (line_start_index_ b) (line_start_caret_index_ b)
    (size_ b) (metrics_ b) (revision_ b) (ref_count_ b) (pass_ b)
    (referencing_rows_ b) (iterator_ b).

Definition with_word_boundaries (wb wbc : list Z) (b : FontBuffer)
  : FontBuffer :=
  mkFontBuffer (vertices_ b) (indices_ b) (slices_ b) (code_points_ b)
    (caret_positions_ b) (has_caret_positions_ b) wb wbc
    (line_start_index_ b) (line_start_caret_index_ b)
    (size_ b) (metrics_ b) (revision_ b) (ref_count_ b) (pass_ b)
    (referencing_rows_ b) (iterator_ b).

Definition with_line_start (i c : Z) (b : FontBuffer) : FontBuffer :=
  mkFontBuffer (vertices_ b) (indices_ b) (slices_ b) (code_points_ b)
    (caret_positions_ b) (has_caret_positions_ b) (word_boundary_ b)
    (word_boundary_caret_ b) i c
    (size_ b) (metrics_ b) (revision_ b) (ref_count_ b) (pass_ b)
    (referencing_rows_ b) (iterator_ b).

Definition set_size (v : Z * Z) (b : FontBuffer) : FontBuffer :=
  mkFontBuffer (vertices_ b) (indices_ b) (slices_ b) (code_points_ b)
    (caret_positions_ b) (has_caret_positions_ b) (word_boundary_ b)
    (word_boundary_caret_ b) (line_start_index_ b) (line_start_caret_index_ b)
    v (metrics_ b) (revision_ b) (ref_count_ b) (pass_ b)
    (referencing_rows_ b) (iterator_ b).

Definition set_metrics (v : FontMetrics) (b : FontBuffer) : FontBuffer :=
  mkFontBuffer (vertices_ b) (indices_ b) (slices_ b) (code_points_ b)
    (caret_positions_ b) (has_caret_positions_ b) (word_boundary_ b)
    (word_boundary_caret_ b) (line_start_index_ b) (line_start_caret_index_ b)
    (size_ b) v (revision_ b) (ref_count_ b) (pass_ b)
    (referencing_rows_ b) (iterator_ b).

Definition set_revision (v : Z) (b : FontBuffer) : FontBuffer :=
  mkFontBuffer (vertices_ b) (indices_ b) (slices_ b) (code_points_ b)
    (caret_positions_ b) (has_caret_positions_ b) (word_boundary_ b)
    (word_boundary_caret_ b) (line_start_index_ b) (line_start_caret_index_ b)
    (size_ b) (metrics_ b) v (ref_count_ b) (pass_ b)
    (referencing_rows_ b) (iterator_ b).

Definition set_ref_count (v : Z) (b : FontBuffer) : FontBuffer :=
  mkFontBuffer (vertices_ b) (indices_ b) (slices_ b) (code_points_ b)
    (caret_positions_ b) (has_caret_positions_ b) (word_boundary_ b)
    (word_boundary_caret_ b) (line_start_index_ b) (line_start_caret_index_ b)
    (size_ b) (metrics_ b) (revision_ b) v (pass_ b)
    (referencing_rows_ b) (iterator_ b).

Definition set_pass (v : Z) (b : FontBuffer) : FontBuffer :=
  mkFontBuffer (vertices_ b) (indices_ b) (slices_ b) (code_points_ b)
    (caret_positions_ b) (has_caret_positions_ b) (word_boundary_ b)
    (word_boundary_caret_ b) (line_start_index_ b) (line_start_caret_index_ b)
    (size_ b) (metrics_ b) (revision_ b) (ref_count_ b) v
    (referencing_rows_ b) (iterator_ b).

Definition with_referencing_rows (v : list addr) (b : FontBuffer)
  : FontBuffer :=
  mkFontBuffer (vertices_ b) (indices_ b) (slices_ b) (code_points_ b)
    (caret_positions_ b) (has_caret_positions_ b) (word_boundary_ b)
    (word_boundary_caret_ b) (line_start_index_ b) (line_start_caret_index_ b)
    (size_ b) (metrics_ b) (revision_ b) (ref_count_ b) (pass_ b)
    v (iterator_ b).

Definition set_iterator (v : option FontBufferParameters) (b : FontBuffer)
  : FontBuffer :=
  mkFontBuffer (vertices_ b) (indices_ b) (slices_ b) (code_points_ b)
    (caret_positions_ b) (has_caret_positions_ b) (word_boundary_ b)
    (word_boundary_caret_ b) (line_start_index_ b) (line_start_caret_index_ b)
    (size_ b) (metrics_ b) (revision_ b) (ref_count_ b) (pass_ b)
    (referencing_rows_ b) v.

Definition get_revision (b : FontBuffer) : Z := revision_ b.
Definition get_ref_count (b : FontBuffer) : Z := ref_count_ b.
Definition HasCaretPositions (b : FontBuffer) : bool := has_caret_positions_ b.

(** Modelled from the spec: [get_glyph_count] is declared in font_manager.h;
    a buffer holds 4 vertices per glyph. *)
Definition get_glyph_count (b : FontBuffer) : Z :=
  vsize (vertices_ b) / kVerticesPerCodePoint.

(** [FontBuffer::AddVertices] (lines 1066-1084). *)
Definition AddVertices (pos : float * float) (base_line : Z) (scale : float)
    (entry : GlyphCacheEntry) (b : FontBuffer) : FontBuffer :=
  let rounded_pos := (f_to_int32 pos.1, f_to_int32 pos.2) in
  let scaled_offset := (f_mul (f_of_int (get_offset entry).1) scale,
                        f_mul (f_of_int (get_offset entry).2) scale) in
  let scaled_size := (f_mul (f_of_int (entry_size entry).1) scale,
                      f_mul (f_of_int (entry_size entry).2) scale) in
  let scaled_base_line := f_mul (f_of_int base_line) scale in
  let x := f_add (f_of_int rounded_pos.1) scaled_offset.1 in
  let y := f_sub (f_add (f_of_int rounded_pos.2) scaled_base_line)
                 scaled_offset.2 in
  let '(ux, uy, uz, uw) := get_uv entry in
  let zero := f_of_int 0 in
  with_vertices
    (vertices_ b ++
     [ mkFontVertex (x, y, zero) (ux, uy);
       mkFontVertex (x, f_add y scaled_size.2, zero) (ux, uw);
       mkFontVertex (f_add x scaled_size.1, y, zero) (uz, uy);
       mkFontVertex (f_add x scaled_size.1, f_add y scaled_size.2, zero)
                    (uz, uw) ]) b.

(** The four texture coordinates [FontBuffer::UpdateUV] writes for a glyph,
    in vertex order. *)
Definition uv_corners (uv : float * float * float * float)
  : list (float * float) :=
  let '(x, y, z, w) := uv in [ (x, y); (x, w); (z, y); (z, w) ].

Definition set_uv (uv : float * float) (v : FontVertex) : FontVertex :=
  mkFontVertex (position_ v) uv.

(** [vertices_[i].uv_ = uv]: [None] when [i] is past the end. *)
Definition write_uv (i : Z) (uv : float * float) (vs : list FontVertex)
  : option (list FontVertex) :=
  v ← vget vs i; Some (<[Z.to_nat i := set_uv uv v]> vs).

(** [FontBuffer::UpdateUV(index, uv)] (lines 1086-1091). *)
Definition FontBuffer_UpdateUV (index : Z)
    (uv : float * float * float * float) (b : FontBuffer)
  : option FontBuffer :=
  let '(x, y, z, w) := uv in
  vs ← write_uv (index * 4) (x, y) (vertices_ b);
  vs ← write_uv (index * 4 + 1) (x, w) vs;
  vs ← write_uv (index * 4 + 2) (z, y) vs;
  vs ← write_uv (index * 4 + 3) (z, w) vs;
  Some (with_vertices vs b).

(** [FontBuffer::AddCaretPosition(x, y)] (lines 1098-1101); the assertion
    [caret_positions_.capacity()] is [HasCaretPositions]. *)
Definition AddCaretPosition_xy (x y : Z) (b : FontBuffer) : option FontBuffer :=
  if HasCaretPositions b
  then Some (with_caret_positions (caret_positions_ b ++ [(x, y)]) b)
  else None.

(** [FontBuffer::AddCaretPosition(const vec2 &)] (lines 1093-1096). *)
Definition AddCaretPosition (pos : float * float) (b : FontBuffer)
  : option FontBuffer :=
  AddCaretPosition_xy (f_to_int32 pos.1) (f_to_int32 pos.2) b.

(** Modelled from the spec: [AddCodepoint] is declared in font_manager.h and
    appends to the code-point list. *)
Definition AddCodepoint (code_point : Z) (b : FontBuffer) : FontBuffer :=
  with_code_points (code_points_ b ++ [code_point]) b.

(** [FontBuffer::AddWordBoundary] (lines 1103-1109). *)
Definition AddWordBoundary (parameters : FontBufferParameters)
    (b : FontBuffer) : FontBuffer :=
  if bool_decide
       (Z.land (get_text_alignment parameters) kTextAlignmentJustify ≠ 0)
  then with_word_boundaries
         (word_boundary_ b ++ [vsize (code_points_ b)])
         (word_boundary_caret_ b ++ [vsize (caret_positions_ b)]) b
  else b.

(** *** FontBuffer::UpdateLine (lines 1111-1182) *)

(** [it->position_.data[0] += offset]. *)
Definition add_position_x (offset : Z) (v : FontVertex) : FontVertex :=
  let '(x, y, z) := position_ v in
  mkFontVertex (f_add x (f_of_int offset), y, z) (uv_ v).

(** The inner loop over the [count] vertices of one code point, from
    [vertices_.begin() + first]. *)
Fixpoint shift_vertices (count : nat) (first : Z) (offset : Z)
    (vs : list FontVertex) : option (list FontVertex) :=
  match count with
  | O => Some vs
  | S count' =>
      v ← vget vs first;
      shift_vertices count' (first + 1) offset
        (<[Z.to_nat first := add_position_x offset v]> vs)
  end.

(** The body of the glyph loop for the code point [idx]. *)
Definition shift_glyph (idx : Z) (offset : Z) (vs : list FontVertex)
  : option (list FontVertex) :=
  shift_vertices (Z.to_nat kVerticesPerCodePoint)
    (idx * kVerticesPerCodePoint) offset vs.

(** [caret_positions_[idx].x() += offset_caret]. *)
Definition shift_caret (idx : Z) (offset : Z) (cs : list (Z * Z))
  : option (list (Z * Z)) :=
  c ← vget cs idx;
  Some (<[Z.to_nat idx := (to_int32 (c.1 + offset), c.2)]> cs).

(** The two position loops of [UpdateLine] (lines 1150-1161 for glyphs,
    lines 1165-1173 for carets) have the same shape: [count] iterations from
    [idx]; when justifying, an element at or past the boundary
    [boundary[boundary_index]] moves on to the next boundary and adds
    [boundary_offset_change] to the running offset; [shift idx offset]
    moves the element.  [None]: an access past the end of a vector. *)
Fixpoint line_offset_loop {A} (shift : Z → Z → list A → option (list A))
    (justify : bool) (boundary : list Z) (boundary_offset_change : Z)
    (count : nat) (idx boundary_index offset : Z) (xs : list A)
  : option (list A) :=
  match count with
  | O => Some xs
  | S count' =>
      '(boundary_index', offset') ←
        (if justify then
           b ← vget boundary boundary_index;
           Some (if bool_decide (b <= idx)
                 then (boundary_index + 1,
                       to_int32 (offset + boundary_offset_change))
                 else (boundary_index, offset))
         else Some (boundary_index, offset));
      xs' ← shift idx offset' xs;
      line_offset_loop shift justify boundary boundary_offset_change
        count' (idx + 1) boundary_index' offset' xs'
  end.

(** The values of [justify], [offset] and [boundary_offset_change] when the
    position loops start (lines 1115-1147). *)
Definition line_offsets (parameters : FontBufferParameters)
    (layout_direction : TextLayoutDirection) (line_width : Z)
    (justify : Z) (align : Z) (b : FontBuffer) : bool * Z * Z :=
  let free := to_int32 ((get_size parameters).1 - line_width) in
  let '(justify', offset, boundary_offset_change) :=
    if bool_decide (justify ≠ 0) && bool_decide (1 < vsize (word_boundary_ b))
    then (true, 0,
          to_int32 (to_size_t free
                    / to_size_t (vsize (word_boundary_ b) - 1)))
    else (false,
          if bool_decide (align = kTextAlignmentCenter)
          then Z.quot free 2 else free,
          0) in
  if decide (layout_direction = kTextLayoutDirectionRTL)
  then (justify', to_int32 (- offset), to_int32 (- boundary_offset_change))
  else (justify', offset, boundary_offset_change).

Definition UpdateLine (parameters : FontBufferParameters)
    (layout_direction : TextLayoutDirection) (line_width : Z)
    (last_line : bool) (b : FontBuffer) : option FontBuffer :=
  let align :=
    Z.land (get_text_alignment parameters) (Z.lnot kTextAlignmentJustify) in
  let justify :=
    if last_line then 0
    else Z.land (get_text_alignment parameters) kTextAlignmentJustify in
  b' ←
    (if bool_decide (justify ≠ 0) || bool_decide (align ≠ kTextAlignmentLeft)
     then
       let '(justify', offset, boundary_offset_change) :=
         line_offsets parameters layout_direction line_width justify align b in
       vs ← line_offset_loop shift_glyph justify' (word_boundary_ b)
               boundary_offset_change
               (Z.to_nat (vsize (code_points_ b) - line_start_index_ b))
               (line_start_index_ b) 0 offset (vertices_ b);
       cs ← (if HasCaretPositions b then
               line_offset_loop shift_caret justify' (word_boundary_caret_ b)
                 boundary_offset_change
                 (Z.to_nat (vsize (caret_positions_ b)
                            - line_start_caret_index_ b))
                 (line_start_caret_index_ b) 0 offset (caret_positions_ b)
             else Some (caret_positions_ b));
       Some (with_caret_positions cs (with_vertices vs b))
     else Some b);
  Some (with_word_boundaries [] []
          (with_line_start (vsize (code_points_ b'))
                           (vsize (caret_positions_ b')) b')).

End Buffers.

(** ** The collaborators of FontManager *)

(** [hb_glyph_info_t] and [hb_glyph_position_t] of one shaped glyph. *)
Record hb_glyph := mk_hb_glyph {
  codepoint : Z;                   (* uint32_t; 0 is a layout-only marker *)
  cluster : Z;                     (* uint32_t *)
  x_advance : Z;
  y_advance : Z
}.

(** What the source reads of [FT_GlyphSlot]. *)
Record FT_GlyphSlot := mk_FT_GlyphSlot {
  bitmap_left : Z;
  bitmap_top : Z;
  bitmap_width : Z;                (* unsigned *)
  bitmap_rows : Z;                 (* unsigned *)
  bitmap_buffer : list Z
}.

(** What the source reads of the glyph information of [HbFont]. *)
Record GlyphInfo := mkGlyphInfo {
  info_font_id : Z;                (* GetFaceData()->font_id_ *)
  info_face : Z;                   (* GetFtFace() *)
  info_codepoint : Z               (* GetCodepoint() *)
}.

(** [GlyphKey(font_id, code_point, ysize, flags)]. *)
Record GlyphKey := mkGlyphKey {
  key_font_id : Z;
  key_code_point : Z;
  key_ysize : Z;
  key_flags : Z
}.

(** Messages of [LogInfo] and [LogError]. *)
Inductive Message :=
  | MsgDoesNotFit                  (* GetBuffer, line 216 *)
  | MsgWordExceedsLine             (* CreateBuffer, line 334 *)
  | MsgCantLoadGlyph               (* GetCachedEntry, line 996 *)
  | MsgCacheFull                   (* GetCachedEntry, line 1034 *)
  | MsgMultipleSubpasses.          (* UpdatePass, line 875 *)

(** The calls the model records. *)
Inductive Call :=
  | CallCreateBuffer                                (* CreateBuffer entered *)
  | CallFlushAndUpdate                              (* FlushAndUpdate() *)
  | CallFlush                                       (* glyph_cache_->Flush() *)
  | CallLayoutText (text : list Z) (length : Z)     (* LayoutText(text, n) *)
  | CallGetCachedEntry (code_point : Z) (found : bool)
      (* GetCachedEntry returned; [found]: not null *)
  | CallUpdateTexture (slice : Z)                   (* Texture::UpdateTexture *)
  | CallLogInfo (m : Message)
  | CallLogError (m : Message).

#[export] Instance Message_eq_dec : EqDecision Message.
Proof. solve_decision. Defined.

#[export] Instance Call_eq_dec : EqDecision Call.
Proof. solve_decision. Defined.

(** HarfBuzz, FreeType, libunibreak, the glyph cache (glyph_cache.h) and the
    constants of the headers whose values the source does not show.  Every
    operation that changes a collaborator's state returns the new state. *)
Class Collaborators `{FloatModel} := {
  (* constants *)
  kRenderPass : Z;
  kFreeTypeUnit : Z;
  kGlyphCachePaddingSDF : Z;
  kGlyphFlagsOuterSDF : Z;
  kGlyphFlagsInnerSDF : Z;
  (* HbFont and FreeType *)
  HbFont : Type;
  SetPixelSize : Z → HbFont → HbFont;
  GetBaseLine : Z → HbFont → Z;
  GetGlyphInfo : Z → HbFont → GlyphInfo;
  FT_Load_Glyph : GlyphInfo → HbFont → Z * HbFont;   (* FT_Error, face *)
  ft_glyph : GlyphInfo → HbFont → FT_GlyphSlot;      (* GetFtFace()->glyph *)
  (* HarfBuzz *)
  hb_buffer_t : Type;
  hb_buffer_clear_contents : hb_buffer_t → hb_buffer_t;
  (* SetLanguageSettings, hb_buffer_set_language, hb_buffer_add_utf8 and
     hb_shape, as LayoutText calls them *)
  hb_shape_utf8 : HbFont → TextLayoutDirection → Z → list Z → Z
                  → hb_buffer_t → hb_buffer_t;
  hb_buffer_get_glyphs : hb_buffer_t → list hb_glyph;
  (* libunibreak: the classes of the first [length] bytes of [text] *)
  set_linebreaks_utf8 : list Z → Z → string → list Z;
  (* GlyphCache<uint8_t> *)
  GlyphCache : Type;
  gc_Find : GlyphKey → GlyphCache → option GlyphCacheEntry * GlyphCache;
  gc_Set : option (list Z) → GlyphKey → GlyphCacheEntry → GlyphCache
           → option GlyphCacheEntry * GlyphCache;
  gc_Flush : GlyphCache → GlyphCache;
  gc_Update : GlyphCache → GlyphCache;
  gc_get_revision : GlyphCache → Z;
  gc_get_dirty_state : GlyphCache → bool;
  gc_set_dirty_state : bool → GlyphCache → GlyphCache;
  gc_get_num_slices : GlyphCache → Z;
  gc_row_AddRef : addr → addr → GlyphCache → GlyphCache;    (* row, buffer *)
  gc_row_Release : addr → addr → GlyphCache → GlyphCache;   (* row, buffer *)
  (* sdf_computer_.Compute into the cache's pixel buffer *)
  sdf_Compute : FT_GlyphSlot → GlyphCacheEntry → Z → GlyphCache → GlyphCache
}.

Section Manager.
Context `{Collaborators}.

(** ** FontManager *)

Record FontManager := mkFontManager {
  glyph_cache_ : GlyphCache;
  current_font_ : option HbFont;   (* HbFont *, possibly null *)
  harfbuzz_buf_ : hb_buffer_t;
  map_buffers_ : gmap FontBufferParameters addr;   (* key -> the unique_ptr's pointee *)
  buffers_ : gmap addr FontBuffer;   (* the FontBuffer objects the map owns *)
  wordbreak_info_ : list Z;
  atlas_indices_ : list Z;
  atlas_textures_ : list bool;   (* per slice: does the unique_ptr hold a Texture? *)
  current_atlas_revision_ : Z;
  current_pass_ : Z;
  layout_direction_ : TextLayoutDirection;
  script_ : Z;
  language_ : string;
  line_height_ : float;
  size_selector_ : option (Z → Z);   (* std::function, possibly empty *)
  calls_ : list Call   (* ghost: calls made so far, oldest first *)
}.

Definition set_glyph_cache_ (v : GlyphCache) (fm : FontManager) : FontManager :=
  mkFontManager v (current_font_ fm) (harfbuzz_buf_ fm) (map_buffers_ fm)
    (buffers_ fm) (wordbreak_info_ fm) (atlas_indices_ fm)
    (atlas_textures_ fm) (current_atlas_revision_ fm) (current_pass_ fm)
    (layout_direction_ fm) (script_ fm) (language_ fm) (line_height_ fm)
    (size_selector_ fm) (calls_ fm).

Definition set_current_font_ (v : option HbFont) (fm : FontManager) : FontManager :=
  mkFontManager (glyph_cache_ fm) v (harfbuzz_buf_ fm) (map_buffers_ fm)
    (buffers_ fm) (wordbreak_info_ fm) (atlas_indices_ fm)
    (atlas_textures_ fm) (current_atlas_revision_ fm) (current_pass_ fm)
    (layout_direction_ fm) (script_ fm) (language_ fm) (line_height_ fm)
    (size_selector_ fm) (calls_ fm).

Definition set_harfbuzz_buf_ (v : hb_buffer_t) (fm : FontManager) : FontManager :=
  mkFontManager (glyph_cache_ fm) (current_font_ fm) v (map_buffers_ fm)
    (buffers_ fm) (wordbreak_info_ fm) (atlas_indices_ fm)
    (atlas_textures_ fm) (current_atlas_revision_ fm) (current_pass_ fm)
    (layout_direction_ fm) (script_ fm) (language_ fm) (line_height_ fm)
    (size_selector_ fm) (calls_ fm).

Definition set_map_buffers_ (v : gmap FontBufferParameters addr) (fm : FontManager) : FontManager :=
  mkFontManager (glyph_cache_ fm) (current_font_ fm) (harfbuzz_buf_ fm) v
    (buffers_ fm) (wordbreak_info_ fm) (atlas_indices_ fm)
    (atlas_textures_ fm) (current_atlas_revision_ fm) (current_pass_ fm)
    (layout_direction_ fm) (script_ fm) (language_ fm) (line_height_ fm)
    (size_selector_ fm) (calls_ fm).

Definition set_buffers_ (v : gmap addr FontBuffer) (fm : FontManager) : FontManager :=
  mkFontManager (glyph_cache_ fm) (current_font_ fm) (harfbuzz_buf_ fm)
    (map_buffers_ fm) v (wordbreak_info_ fm) (atlas_indices_ fm)
    (atlas_textures_ fm) (current_atlas_revision_ fm) (current_pass_ fm)
    (layout_direction_ fm) (script_ fm) (language_ fm) (line_height_ fm)
    (size_selector_ fm) (calls_ fm).

Definition set_wordbreak_info_ (v : list Z) (fm : FontManager) : FontManager :=
  mkFontManager (glyph_cache_ fm) (current_font_ fm) (harfbuzz_buf_ fm)
    (map_buffers_ fm) (buffers_ fm) v (atlas_indices_ fm)
    (atlas_textures_ fm) (current_atlas_revision_ fm) (current_pass_ fm)
    (layout_direction_ fm) (script_ fm) (language_ fm) (line_height_ fm)
    (size_selector_ fm) (calls_ fm).

Definition set_atlas_indices_ (v : list Z) (fm : FontManager) : FontManager :=
  mkFontManager (glyph_cache_ fm) (current_font_ fm) (harfbuzz_buf_ fm)
    (map_buffers_ fm) (buffers_ fm) (wordbreak_info_ fm) v
    (atlas_textures_ fm) (current_atlas_revision_ fm) (current_pass_ fm)
    (layout_direction_ fm) (script_ fm) (language_ fm) (line_height_ fm)
    (size_selector_ fm) (calls_ fm).

Definition set_atlas_textures_ (v : list bool) (fm : FontManager) : FontManager :=
  mkFontManager (glyph_cache_ fm) (current_font_ fm) (harfbuzz_buf_ fm)
    (map_buffers_ fm) (buffers_ fm) (wordbreak_info_ fm) (atlas_indices_ fm)
    v (current_atlas_revision_ fm) (current_pass_ fm) (layout_direction_ fm)
    (script_ fm) (language_ fm) (line_height_ fm) (size_selector_ fm)
    (calls_ fm).

Definition set_current_atlas_revision_ (v : Z) (fm : FontManager) : FontManager :=
  mkFontManager (glyph_cache_ fm) (current_font_ fm) (harfbuzz_buf_ fm)
    (map_buffers_ fm) (buffers_ fm) (wordbreak_info_ fm) (atlas_indices_ fm)
    (atlas_textures_ fm) v (current_pass_ fm) (layout_direction_ fm)
    (script_ fm) (language_ fm) (line_height_ fm) (size_selector_ fm)
    (calls_ fm).

Definition set_current_pass_ (v : Z) (fm : FontManager) : FontManager :=
  mkFontManager (glyph_cache_ fm) (current_font_ fm) (harfbuzz_buf_ fm)
    (map_buffers_ fm) (buffers_ fm) (wordbreak_info_ fm) (atlas_indices_ fm)
    (atlas_textures_ fm) (current_atlas_revision_ fm) v
    (layout_direction_ fm) (script_ fm) (language_ fm) (line_height_ fm)
    (size_selector_ fm) (calls_ fm).

Definition set_calls_ (v : list Call) (fm : FontManager) : FontManager :=
  mkFontManager (glyph_cache_ fm) (current_font_ fm) (harfbuzz_buf_ fm)
    (map_buffers_ fm) (buffers_ fm) (wordbreak_info_ fm) (atlas_indices_ fm)
    (atlas_textures_ fm) (current_atlas_revision_ fm) (current_pass_ fm)
    (layout_direction_ fm) (script_ fm) (language_ fm) (line_height_ fm)
    (size_selector_ fm) v.

(** *** Control: a state monad over [FontManager] with faults *)

(** What C++ leaves undefined or answers by aborting. *)
Inductive Fault :=
  | NullPointer        (* a null pointer is dereferenced *)
  | DanglingPointer    (* a FontBuffer* that is not a live buffer *)
  | OutOfRange         (* a vector is accessed past its end *)
  | AssertionFailed    (* assert(...) *)
  | OutOfFuel.         (* the model's loop bound was too small *)

(** The outcome of a member function: its result and the manager
    afterwards, or a fault and the manager when it happened. *)
Inductive Result (A : Type) :=
  | Ok (a : A) (fm : FontManager)
  | Abort (f : Fault) (fm : FontManager).
Arguments Ok {A} a fm.
Arguments Abort {A} f fm.

Definition final {A} (r : Result A) : FontManager :=
  match r with Ok _ fm => fm | Abort _ fm => fm end.

Definition M (A : Type) : Type := FontManager → Result A.

Definition ret {A} (a : A) : M A := λ fm, Ok a fm.

Definition bind {A B} (m : M A) (k : A → M B) : M B :=
  λ fm, match m fm with
        | Ok a fm' => k a fm'
        | Abort f fm' => Abort f fm'
        end.

#[export] Instance M_ret : MRet M := @ret.
#[export] Instance M_bind : MBind M := λ A B k m, bind m k.

Definition get : M FontManager := λ fm, Ok fm fm.
Definition modify (f : FontManager → FontManager) : M unit :=
  λ fm, Ok tt (f fm).
Definition abort {A} (f : Fault) : M A := λ fm, Abort f fm.

(** A partial operation on a value: [None] is the fault [f]. *)
Definition lift {A} (f : Fault) (o : option A) : M A :=
  match o with Some a => ret a | None => abort f end.

Definition log (c : Call) : M unit :=
  modify (λ fm, set_calls_ (calls_ fm ++ [c]) fm).

(** [*buffer] for a [FontBuffer *buffer]. *)
Definition deref (buffer : addr) : M FontBuffer :=
  fm ← get; lift DanglingPointer (buffers_ fm !! buffer).

(** [buffer->f(...)] for a member function that updates the buffer. *)
Definition update_buffer (buffer : addr) (f : FontBuffer → FontBuffer)
  : M unit :=
  b ← deref buffer;
  modify (λ fm, set_buffers_ (<[buffer := f b]> (buffers_ fm)) fm).

(** [current_font_->...]. *)
Definition font : M HbFont :=
  fm ← get; lift NullPointer (current_font_ fm).

(** *** Glyph cache access *)

Definition modify_cache (f : GlyphCache → GlyphCache) : M unit :=
  modify (λ fm, set_glyph_cache_ (f (glyph_cache_ fm)) fm).

(** [FontManager::ExpandAtlasTexture] (lines 1044-1056): [resize] leaves
    the new texture slots empty and only the last one receives a texture. *)
Definition ExpandAtlasTexture : M unit :=
  fm ← get;
  let slices := to_size_t (gc_get_num_slices (glyph_cache_ fm)) in
  if bool_decide (vsize (atlas_textures_ fm) < slices) then
    modify (λ fm,
      set_atlas_indices_
        (resize (Z.to_nat slices) kInvalidSliceIndex (atlas_indices_ fm))
        (set_atlas_textures_
           (<[Z.to_nat (slices - 1) := true]>
              (resize (Z.to_nat slices) false (atlas_textures_ fm))) fm))
  else ret tt.

(** [FontManager::GetCachedEntry] (lines 981-1042).  [None] is the null
    pointer: the glyph could not be loaded, or the cache is full. *)
Definition GetCachedEntry (code_point ysize flags : Z)
  : M (option GlyphCacheEntry) :=
  f ← font;
  let glyph_info := GetGlyphInfo code_point f in
  let key := mkGlyphKey (info_font_id glyph_info) code_point ysize flags in
  fm ← get;
  let '(found, gc) := gc_Find key (glyph_cache_ fm) in
  modify (set_glyph_cache_ gc);;
  match found with
  | Some cache =>
      ExpandAtlasTexture;;
      log (CallGetCachedEntry code_point true);;
      ret (Some cache)
  | None =>
      let '(err, f') := FT_Load_Glyph glyph_info f in
      modify (set_current_font_ (Some f'));;
      if bool_decide (err ≠ 0) then
        log (CallLogInfo MsgCantLoadGlyph);;
        log (CallGetCachedEntry code_point false);;
        ret None
      else
        let g := ft_glyph glyph_info f' in
        let new_key :=
          mkGlyphKey (info_font_id glyph_info) code_point ysize flags in
        fm ← get;
        let sdf :=
          bool_decide
            (Z.land flags (Z.lor kGlyphFlagsOuterSDF kGlyphFlagsInnerSDF) ≠ 0)
          && bool_decide (bitmap_width g ≠ 0)
          && bool_decide (bitmap_rows g ≠ 0) in
        let entry :=
          if sdf then
            mkGlyphCacheEntry code_point
              (to_int32 (bitmap_left g - kGlyphCachePaddingSDF),
               to_int32 (bitmap_top g + kGlyphCachePaddingSDF))
              (to_int32 (bitmap_width g + kGlyphCachePaddingSDF * 2),
               to_int32 (bitmap_rows g + kGlyphCachePaddingSDF * 2))
              (0, 0, 0) (f_of_int 0, f_of_int 0, f_of_int 0, f_of_int 0) O
          else
            mkGlyphCacheEntry code_point
              (bitmap_left g, bitmap_top g)
              (to_int32 (bitmap_width g), to_int32 (bitmap_rows g))
              (0, 0, 0) (f_of_int 0, f_of_int 0, f_of_int 0, f_of_int 0) O in
        let '(cache, gc) :=
          gc_Set (if sdf then None else Some (bitmap_buffer g))
                 new_key entry (glyph_cache_ fm) in
        modify (set_glyph_cache_ gc);;
        match cache with
        | Some cache =>
            (if sdf then modify_cache (sdf_Compute g cache flags)
             else ret tt);;
            ExpandAtlasTexture;;
            log (CallGetCachedEntry code_point true);;
            ret (Some cache)
        | None =>
            log (CallLogInfo MsgCacheFull);;
            log (CallGetCachedEntry code_point false);;
            ret None
        end
  end.

(** *** FontManager::UpdateUV (lines 553-580) *)

(** The loop over the recorded code points; [i] is the index of the first
    of [code_points].  [false]: the function returns [nullptr]. *)
Fixpoint UpdateUV_loop (ysize flags : Z) (buffer : addr)
    (code_points : list Z) (i : Z) : M bool :=
  match code_points with
  | [] => ret true
  | code_point :: rest =>
      cache ← GetCachedEntry code_point ysize flags;
      match cache with
      | None => ret false
      | Some cache =>
          b ← deref buffer;
          b' ← lift OutOfRange
                 (FontBuffer_UpdateUV (to_int32 i) (get_uv cache) b);
          modify (λ fm, set_buffers_ (<[buffer := b']> (buffers_ fm)) fm);;
          fm ← get;
          update_buffer buffer
            (set_revision (gc_get_revision (glyph_cache_ fm)));;
          UpdateUV_loop ysize flags buffer rest (i + 1)
      end
  end.

Definition UpdateUV (ysize flags : Z) (buffer : addr) : M (option addr) :=
  b ← deref buffer;
  fm ← get;
  if bool_decide (get_revision b ≠ current_atlas_revision_ fm) then
    f ← font;
    modify (set_current_font_ (Some (SetPixelSize ysize f)));;
    done ← UpdateUV_loop ysize flags buffer (code_points_ b) 0;
    ret (if done : bool then Some buffer else None)
  else ret (Some buffer).

(** *** FontManager::ReleaseBuffer (lines 513-523) *)

(** Modelled from the spec: [FontBuffer::ReleaseCacheRowReference] is
    declared in font_manager.h; it releases the buffer's reference on every
    cache row it cites and forgets the rows. *)
Definition ReleaseCacheRowReference (buffer : addr) : M unit :=
  b ← deref buffer;
  modify_cache
    (λ gc, foldl (λ gc row, gc_row_Release row buffer gc) gc
                 (referencing_rows_ b));;
  update_buffer buffer (with_referencing_rows []).

(** [map_buffers_.erase(it)]: the entry leaves the map and its
    [unique_ptr] destroys the buffer it owns.  An iterator that does not
    denote an entry of the map is undefined behaviour. *)
Definition erase (it : option FontBufferParameters) : M unit :=
  fm ← get;
  key ← lift DanglingPointer it;
  owned ← lift DanglingPointer (map_buffers_ fm !! key);
  modify (λ fm, set_map_buffers_ (delete key (map_buffers_ fm))
                  (set_buffers_ (delete owned (buffers_ fm)) fm)).

Definition ReleaseBuffer (buffer : addr) : M unit :=
  b ← deref buffer;
  if bool_decide (get_ref_count b < 1) then abort AssertionFailed else
  update_buffer buffer (set_ref_count (get_ref_count b - 1));;
  b ← deref buffer;
  if bool_decide (get_ref_count b = 0) then
    ReleaseCacheRowReference buffer;;
    b ← deref buffer;
    erase (iterator_ b)
  else ret tt.

(** *** FontManager::UpdatePass (lines 855-888) *)

(** The upload loop: [count] slices from [i]. *)
Fixpoint upload_slices (count : nat) (i : Z) : M unit :=
  match count with
  | O => ret tt
  | S count' =>
      fm ← get;
      texture ← lift OutOfRange (vget (atlas_textures_ fm) i);
      (if texture : bool then ret tt else abort NullPointer);;
      log (CallUpdateTexture i);;
      upload_slices count' (i + 1)
  end.

Definition UpdatePass (start_subpass : bool) : M unit :=
  modify_cache gc_Update;;
  fm ← get;
  (if gc_get_dirty_state (glyph_cache_ fm)
      && bool_decide (current_pass_ fm <= 0)
   then
     upload_slices (Z.to_nat (gc_get_num_slices (glyph_cache_ fm))) 0;;
     modify (λ fm, set_current_atlas_revision_
                     (gc_get_revision (glyph_cache_ fm)) fm);;
     modify_cache (gc_set_dirty_state false)
   else ret tt);;
  if start_subpass then
    fm ← get;
    (if bool_decide (0 < current_pass_ fm)
     then log (CallLogInfo MsgMultipleSubpasses) else ret tt);;
    modify_cache gc_Flush;;
    log CallFlush;;
    modify (λ fm, set_current_atlas_revision_
                    (gc_get_revision (glyph_cache_ fm)) fm);;
    modify (λ fm, set_current_pass_ (to_int32 (current_pass_ fm + 1)) fm)
  else
    modify (set_current_pass_ kRenderPass).

(** [FontManager::StartLayoutPass] (lines 850-853). *)
Definition StartLayoutPass : M unit := modify (set_current_pass_ 0).

(** Modelled from the spec: [FlushAndUpdate] is declared in font_manager.h.
    [GetBuffer] calls it to "flush glyph cache & upload a texture" (line
    210); the spec describes this as the coordinator's implicit flush, which
    is [update_pass] starting a subpass. *)
Definition FlushAndUpdate : M unit :=
  log CallFlushAndUpdate;;
  UpdatePass true.

(** *** Layout helpers *)

(** [FontManager::LayoutText] (lines 890-911): shapes the text into
    [harfbuzz_buf_] and returns the sum of the advances. *)
Definition LayoutText (text : list Z) (length : Z) : M Z :=
  f ← font;
  modify (λ fm,
    set_harfbuzz_buf_
      (hb_shape_utf8 f (layout_direction_ fm) (script_ fm) text length
                     (harfbuzz_buf_ fm)) fm);;
  log (CallLayoutText text length);;
  fm ← get;
  ret (foldl (λ string_width g, to_uint32 (string_width + x_advance g)) 0
             (hb_buffer_get_glyphs (harfbuzz_buf_ fm))).

(** [FontManager::UpdateMetrics] (lines 913-935): [Some new_metrics] when it
    returns true. *)
Definition UpdateMetrics (g : FT_GlyphSlot) (current_metrics : FontMetrics)
  : option FontMetrics :=
  if bool_decide (ascender current_metrics < bitmap_top g)
     || bool_decide (to_int32 (bitmap_top g - bitmap_rows g)
                     < descender current_metrics)
  then
    let il := Z.max (internal_leading current_metrics)
                    (to_int32 (bitmap_top g - ascender current_metrics)) in
    let el := Z.min (external_leading current_metrics)
                    (to_int32 (bitmap_top g - bitmap_rows g
                               - descender current_metrics)) in
    Some (mkFontMetrics (to_int32 (il + ascender current_metrics)) il
            (ascender current_metrics) (descender current_metrics) el)
  else None.

(** [FontManager::ConvertSize] (lines 1058-1064). *)
Definition ConvertSize (original_ysize : Z) : M Z :=
  fm ← get;
  ret (match size_selector_ fm with
       | Some selector => selector original_ysize
       | None => original_ysize
       end).

(** The counting loop of [GetCaretPosCount]: [count] iterations from [i];
    [None] when [at] throws. *)
Fixpoint count_characters (buffer : list Z) (first : Z) (count : nat)
    (i num_characters : Z) : option Z :=
  match count with
  | O => Some num_characters
  | S count' =>
      c ← vget buffer (to_size_t (first + i));
      count_characters buffer first count' (i + 1)
        (if bool_decide (c ≠ LINEBREAK_INSIDEACHAR)
         then num_characters + 1 else num_characters)
  end.

(** [FontManager::GetCaretPosCount] (lines 525-551). *)
Definition GetCaretPosCount (layout_direction : TextLayoutDirection)
    (word_enum : WordEnumerator) (glyph_info : list hb_glyph)
    (glyph_count index : Z) : option Z :=
  g ← vget glyph_info index;
  let byte_index := cluster g in
  let direction :=
    if decide (layout_direction = kTextLayoutDirectionLTR) then 1 else -1 in
  byte_size ←
    (if bool_decide (- direction <= index)
        && bool_decide (index < glyph_count - direction)
     then next ← vget glyph_info (index + direction);
          Some (to_int32 (to_uint32 (cluster next - byte_index)))
     else Some (to_int32 (GetCurrentWordLength word_enum - byte_index)));
  count_characters (buffer_ word_enum)
    (GetCurrentWordIndex word_enum + byte_index)
    (Z.to_nat byte_size) 0 0.

(** *** FontManager::CreateBuffer (lines 226-511) *)

Definition vadd (a b : float * float) : float * float :=
  (f_add a.1 b.1, f_add a.2 b.2).
Definition vsub (a b : float * float) : float * float :=
  (f_sub a.1 b.1, f_sub a.2 b.2).

(** The locals of [CreateBuffer] that the layout loop only reads. *)
Record Frame := mkFrame {
  text : list Z;
  length_ : Z;
  parameters : FontBufferParameters;
  ysize : Z;
  converted_ysize : Z;
  scale : float;
  base_line_ : Z;
  pos_start : float;
  line_height : float;
  buffer_address : addr            (* buffer.get() *)
}.

(** The locals the layout loop updates; [buffer] is the [FontBuffer] under
    construction, which no other object owns yet. *)
Record Locals := mkLocals {
  word_enum : WordEnumerator;
  buffer : FontBuffer;
  initial_metrics : FontMetrics;
  pos : float * float;
  line_width : Z;
  max_line_width : Z;
  total_height : Z;
  lastline_must_break : bool;
  first_character : bool
}.

Definition with_buffer (b : FontBuffer) (L : Locals) : Locals :=
  mkLocals (word_enum L) b (initial_metrics L) (pos L) (line_width L)
    (max_line_width L) (total_height L) (lastline_must_break L)
    (first_character L).

(** Modelled from the spec: [ExpandGlyphBuffers] is declared in
    font_manager.h: "expanding the per-slice buffer set on first use of a
    slice". *)
Definition ExpandGlyphBuffers (n : Z) (b : FontBuffer) : FontBuffer :=
  with_indices (resize (Z.to_nat n) [] (indices_ b)) b.

(** Modelled from the spec: [AddCacheRowReference] is declared in
    font_manager.h; the buffer keeps a back-reference to every row it
    cites. *)
Definition AddCacheRowReference (row : addr) (b : FontBuffer) : FontBuffer :=
  with_referencing_rows (referencing_rows_ b ++ [row]) b.

(** Modelled from the spec: [FontBuffer::Verify] is declared in
    font_manager.h; a buffer holds 4 vertices per recorded code point. *)
Definition Verify (b : FontBuffer) : bool :=
  bool_decide (vsize (vertices_ b)
               = vsize (code_points_ b) * kVerticesPerCodePoint).

Definition kIndices : list Z := [0; 1; 2; 1; 3; 2].

(** Lines 388-436: the vertices, indices and references of a glyph that has
    a size. *)
Definition register_glyph (F : Frame) (code_point : Z)
    (cache : GlyphCacheEntry) (pos : float * float)
    (b : FontBuffer) (metrics : FontMetrics)
  : M (FontBuffer * FontMetrics) :=
  let b := AddCodepoint code_point b in
  f ← font;
  let glyph := ft_glyph (GetGlyphInfo code_point f) f in
  let metrics := default metrics (UpdateMetrics glyph metrics) in
  let slice := (get_pos cache).2 in
  fm ← get;
  slice_idx ← lift OutOfRange (vget (atlas_indices_ fm) slice);
  '(slice_idx, b) ←
    (if bool_decide (slice_idx = kInvalidSliceIndex) then
       let slice_idx := to_int32 (vsize (slices_ b)) in
       modify (λ fm, set_atlas_indices_
                       (<[Z.to_nat slice := slice_idx]> (atlas_indices_ fm))
                       fm);;
       ret (slice_idx,
            with_slices (slices_ b ++ [slice])
              (ExpandGlyphBuffers (slice_idx + 1) b))
     else ret (slice_idx, b));
  let current_glyph_count := get_glyph_count b in
  indices ← lift OutOfRange (vget (indices_ b) slice_idx);
  let b :=
    with_indices
      (<[Z.to_nat slice_idx :=
           indices ++ map (λ index, (index + current_glyph_count * 4)
                                    mod 2 ^ 16) kIndices]> (indices_ b)) b in
  let b := AddVertices pos (base_line_ F) (scale F) cache b in
  if get_ref_count_flag (parameters F) then
    modify_cache (gc_row_AddRef (get_row cache) (buffer_address F));;
    ret (AddCacheRowReference (get_row cache) b, metrics)
  else ret (b, metrics).

(** Lines 458-463: [carets] caret positions, from [caret]. *)
Fixpoint add_carets (count : nat) (caret carets idx_advance : Z)
    (pos pos_advance : float * float) (scaled_offset scaled_base_line : float)
    (b : FontBuffer) : option FontBuffer :=
  match count with
  | O => Some b
  | S count' =>
      b' ← AddCaretPosition
             (vadd pos
                (f_mul (f_of_int idx_advance)
                   (f_add (f_sub scaled_offset pos_advance.1)
                      (f_div (f_mul (f_of_int caret) pos_advance.1)
                             (f_of_int carets))),
                 scaled_base_line)) b;
      add_carets count' (caret + 1) carets idx_advance pos pos_advance
        scaled_offset scaled_base_line b'
  end.

(** The body of the glyph loop (lines 366-465) for the loop counter [i] and
    the glyph index [idx].  [None]: [CreateBuffer] returns [nullptr]. *)
Definition layout_glyph (F : Frame) (glyph_info : list hb_glyph)
    (glyph_count idx_advance i idx : Z) (L : Locals) : M (option Locals) :=
  g ← lift OutOfRange (vget glyph_info idx);
  let code_point := codepoint g in
  if bool_decide (code_point = 0) then ret (Some L) else
  cache ← GetCachedEntry code_point (converted_ysize F)
            (get_glyph_flags (parameters F));
  match cache with
  | None =>
      modify (λ fm, set_harfbuzz_buf_
                      (hb_buffer_clear_contents (harfbuzz_buf_ fm)) fm);;
      ret None
  | Some cache =>
      fm ← get;
      let pos_advance :=
        (f_div (f_mul (f_of_int (x_advance g)) (scale F))
               (f_of_int kFreeTypeUnit),
         f_div (f_mul (f_of_int (to_int32 (- y_advance g))) (scale F))
               (f_of_int kFreeTypeUnit)) in
      let pos1 :=
        if decide (layout_direction_ fm = kTextLayoutDirectionRTL)
        then vsub (pos L) pos_advance else pos L in
      '(b, metrics) ←
        (if bool_decide ((entry_size cache).1 ≠ 0)
            && bool_decide ((entry_size cache).2 ≠ 0)
         then register_glyph F code_point cache pos1 (buffer L)
                (initial_metrics L)
         else ret (buffer L, initial_metrics L));
      let pos2 :=
        if decide (layout_direction_ fm = kTextLayoutDirectionLTR)
        then vadd pos1 pos_advance else pos1 in
      let end_of_line :=
        lastline_must_break L
        && bool_decide (i = to_uint32 (glyph_count - 1)) in
      b ←
        (if get_caret_info_flag (parameters F) && negb end_of_line then
           carets ← lift OutOfRange
                      (GetCaretPosCount (layout_direction_ fm) (word_enum L)
                         glyph_info (to_int32 glyph_count) (to_int32 idx));
           lift AssertionFailed
             (add_carets (Z.to_nat carets) 1 carets idx_advance pos2
                pos_advance
                (f_mul (f_of_int (get_offset cache).1) (scale F))
                (f_mul (f_of_int (base_line_ F)) (scale F)) b)
         else ret b);
      ret (Some (mkLocals (word_enum L) b metrics pos2 (line_width L)
                   (max_line_width L) (total_height L)
                   (lastline_must_break L) (first_character L)))
  end.

(** The glyph loop: [count] iterations from the counter [i] and the glyph
    index [idx]. *)
Fixpoint layout_glyphs (F : Frame) (glyph_info : list hb_glyph)
    (glyph_count idx_advance : Z) (count : nat) (i idx : Z) (L : Locals)
  : M (option Locals) :=
  match count with
  | O => ret (Some L)
  | S count' =>
      r ← layout_glyph F glyph_info glyph_count idx_advance i idx L;
      match r with
      | None => ret None
      | Some L' =>
          layout_glyphs F glyph_info glyph_count idx_advance count'
            (i + 1) (idx + idx_advance) L'
      end
  end.

(** How one iteration of the word loop ends. *)
Inductive WordExit :=
  | WordNext (L : Locals)          (* the end of the body is reached *)
  | WordBreak (L : Locals)         (* break: the text exceeds the size *)
  | WordReturnNull.                (* return nullptr *)

(** Lines 295-346: the line bookkeeping before the glyphs of a word are
    laid out.  [inl L]: go on with the glyphs; [inr L]: [break]. *)
Definition place_word (F : Frame) (L : Locals) : M (Locals + Locals) :=
  let size := get_size (parameters F) in
  let caret_info := get_caret_info_flag (parameters F) in
  fm ← get;
  if negb (get_multi_line_setting (parameters F)) then
    w ← LayoutText (text F) (length_ F);
    let max_line_width := f_to_uint32 (f_mul (f_of_int w) (scale F)) in
    let pos1 :=
      if bool_decide (layout_direction_ fm = kTextLayoutDirectionRTL)
         && bool_decide (size.1 = 0)
      then (f_of_int (max_line_width / kFreeTypeUnit), (pos L).2)
      else pos L in
    ret (inl (mkLocals (word_enum L) (buffer L) (initial_metrics L) pos1
                (line_width L) max_line_width (total_height L)
                (lastline_must_break L) (first_character L)))
  else
    w ← LayoutText
          (drop (Z.to_nat (GetCurrentWordIndex (word_enum L))) (text F))
          (GetCurrentWordLength (word_enum L));
    let word_width := f_to_uint32 (f_mul (f_of_int w) (scale F)) in
    r ←
      (if lastline_must_break L
          || bool_decide (to_uint32 size.1
                          < to_uint32 (line_width L + word_width)
                            / kFreeTypeUnit)
       then
         b ← lift OutOfRange
               (UpdateLine (parameters F) (layout_direction_ fm)
                  (to_int32 (line_width L / kFreeTypeUnit))
                  (lastline_must_break L) (buffer L));
         let pos1 := (pos_start F, f_add (pos L).2 (line_height F)) in
         let total_height :=
           to_uint32 (total_height L + f_to_int32 (line_height F)) in
         let first_character := lastline_must_break L in
         if bool_decide (size.2 ≠ 0)
            && bool_decide (to_uint32 size.2 < total_height)
            && negb caret_info
         then
           modify (λ fm, set_harfbuzz_buf_
                           (hb_buffer_clear_contents (harfbuzz_buf_ fm)) fm);;
           ret (inr (mkLocals (word_enum L) b (initial_metrics L) pos1
                       (line_width L) (max_line_width L) total_height
                       (lastline_must_break L) first_character))
         else
           (if bool_decide (to_uint32 (to_uint32 size.1 * kFreeTypeUnit)
                            < word_width)
            then log (CallLogInfo MsgWordExceedsLine) else ret tt);;
           ret (inl (mkLocals (word_enum L) b (initial_metrics L) pos1
                       word_width (max_line_width L) total_height
                       (lastline_must_break L) first_character))
       else
         ret (inl (mkLocals (word_enum L) (buffer L) (initial_metrics L)
                     (pos L) (to_uint32 (line_width L + word_width))
                     (max_line_width L) (total_height L)
                     (lastline_must_break L) (first_character L))));
    match r with
    | inr L' => ret (inr L')
    | inl L' =>
        must_break ← lift OutOfRange (CurrentWordMustBreak (word_enum L'));
        ret (inl (mkLocals (word_enum L') (buffer L') (initial_metrics L')
                    (pos L') (line_width L')
                    (Z.max (max_line_width L') (line_width L'))
                    (total_height L') must_break (first_character L')))
    end.

(** The body of the word loop (lines 294-475). *)
Definition layout_word (F : Frame) (L : Locals) : M WordExit :=
  placed ← place_word F L;
  match placed with
  | inr L => ret (WordBreak L)
  | inl L =>
      '(b, first_character) ←
        (if get_caret_info_flag (parameters F) && first_character L then
           b ← lift AssertionFailed
                 (AddCaretPosition
                    (vadd (pos L)
                       (f_of_int 0,
                        f_mul (f_of_int (base_line_ F)) (scale F)))
                    (buffer L));
           ret (b, false)
         else ret (buffer L, first_character L));
      let L := mkLocals (word_enum L) b (initial_metrics L) (pos L)
                 (line_width L) (max_line_width L) (total_height L)
                 (lastline_must_break L) first_character in
      fm ← get;
      let glyph_info := hb_buffer_get_glyphs (harfbuzz_buf_ fm) in
      let glyph_count := vsize glyph_info in
      let rtl :=
        bool_decide (layout_direction_ fm = kTextLayoutDirectionRTL) in
      r ← layout_glyphs F glyph_info glyph_count
            (if rtl then -1 else 1) (Z.to_nat glyph_count) 0
            (if rtl then glyph_count - 1 else 0) L;
      match r with
      | None => ret WordReturnNull
      | Some L =>
          fm ← get;
          let b :=
            set_revision (gc_get_revision (glyph_cache_ fm))
              (AddWordBoundary (parameters F) (buffer L)) in
          modify (λ fm, set_harfbuzz_buf_
                          (hb_buffer_clear_contents (harfbuzz_buf_ fm)) fm);;
          ret (WordNext (with_buffer b L))
      end
  end.

(** The word loop [while (word_enum.Advance())], at most [fuel] iterations.
    [None]: [CreateBuffer] returns [nullptr]. *)
Fixpoint layout_words (F : Frame) (fuel : nat) (L : Locals)
  : M (option Locals) :=
  match fuel with
  | O => abort OutOfFuel
  | S fuel' =>
      let '(more, w) := Advance (word_enum L) in
      let L := mkLocals w (buffer L) (initial_metrics L) (pos L)
                 (line_width L) (max_line_width L) (total_height L)
                 (lastline_must_break L) (first_character L) in
      if more then
        r ← layout_word F L;
        match r with
        | WordNext L' => layout_words F fuel' L'
        | WordBreak L' => ret (Some L')
        | WordReturnNull => ret None
        end
      else ret (Some L)
  end.

(** The number of iterations the word loop is given: one per byte of the
    break buffer, and two to spare. *)
Definition word_fuel (wordbreak_info : list Z) : nat :=
  S (S (length wordbreak_info)).

(** Lines 255-510: no buffer of these parameters exists; one is built. *)
Definition build_buffer (text : list Z) (length : Z)
    (parameters : FontBufferParameters) (ysize converted_ysize : Z)
    (scale : float) : M (option addr) :=
  let size := get_size parameters in
  let caret_info := get_caret_info_flag parameters in
  f ← font;
  modify (set_current_font_ (Some (SetPixelSize converted_ysize f)));;
  fm ← get;
  let address : addr := fresh (dom (buffers_ fm)) in
  let b := FontBuffer_new length caret_info in
  (if bool_decide (length ≠ 0) then
     modify (λ fm,
       let resized := resize (Z.to_nat length) 0 (wordbreak_info_ fm) in
       let classes := set_linebreaks_utf8 text length (language_ fm) in
       set_wordbreak_info_
         (take (Z.to_nat length) classes
          ++ drop (List.length classes) resized) fm)
   else ret tt);;
  fm ← get;
  let words :=
    WordEnumerator_new (wordbreak_info_ fm)
      (negb (get_multi_line_setting parameters)) in
  f ← font;
  let base_line := GetBaseLine ysize f in
  let metrics :=
    mkFontMetrics base_line 0 base_line (to_int32 (base_line - ysize)) 0 in
  let start :=
    if decide (layout_direction_ fm = kTextLayoutDirectionRTL)
    then f_of_int size.1 else f_of_int 0 in
  let F := mkFrame text length parameters ysize converted_ysize scale
             base_line start (f_mul (f_of_int ysize) (line_height_ fm))
             address in
  let L := mkLocals words b metrics (start, f_of_int 0)
             0 (get_line_length parameters) (to_uint32 ysize) false true in
  modify (λ fm, set_atlas_indices_
                  (replicate (List.length (atlas_indices_ fm))
                             kInvalidSliceIndex) fm);;
  r ← layout_words F (word_fuel (wordbreak_info_ fm)) L;
  match r with
  | None => ret None
  | Some L =>
      b ← (if caret_info then
             lift AssertionFailed
               (AddCaretPosition
                  (vadd (pos L)
                     (f_of_int 0, f_mul (f_of_int base_line) scale))
                  (buffer L))
           else ret (buffer L));
      fm ← get;
      b ← lift OutOfRange
            (UpdateLine parameters (layout_direction_ fm)
               (to_int32 (line_width L / kFreeTypeUnit)) true b);
      let b := set_size (to_int32 (max_line_width L / kFreeTypeUnit),
                         to_int32 (total_height L)) b in
      let b := set_metrics (initial_metrics L) b in
      let b := set_ref_count 1 b in
      let b := if bool_decide (current_pass_ fm ≠ kRenderPass)
               then set_pass (current_pass_ fm) b else b in
      (if Verify b then ret tt else abort AssertionFailed);;
      modify (λ fm,
        set_map_buffers_ (<[parameters := address]> (map_buffers_ fm))
          (set_buffers_
             (<[address := set_iterator (Some parameters) b]> (buffers_ fm))
             fm));;
      ret (Some address)
  end.

Definition CreateBuffer (text : list Z) (length : Z)
    (parameters : FontBufferParameters) : M (option addr) :=
  log CallCreateBuffer;;
  let ysize := f_to_int32 (get_font_size parameters) in
  converted_ysize ← ConvertSize ysize;
  let scale := f_div (f_of_int ysize) (f_of_int converted_ysize) in
  fm ← get;
  match map_buffers_ fm !! parameters with
  | Some it =>
      (if bool_decide (current_pass_ fm ≠ kRenderPass)
       then update_buffer it (set_pass (current_pass_ fm)) else ret tt);;
      r ← UpdateUV converted_ysize (get_glyph_flags parameters) it;
      (if get_ref_count_flag parameters then
         match r with
         | None => abort NullPointer
         | Some r => b ← deref r;
                     update_buffer r (set_ref_count (get_ref_count b + 1))
         end
       else ret tt);;
      ret r
  | None => build_buffer text length parameters ysize converted_ysize scale
  end.

(** *** FontManager::GetBuffer (lines 206-224) *)

Definition GetBuffer (text : list Z) (length : Z)
    (parameter : FontBufferParameters) : M (option addr) :=
  buffer ← CreateBuffer text (to_uint32 length) parameter;
  match buffer with
  | Some _ => ret buffer
  | None =>
      FlushAndUpdate;;
      buffer ← CreateBuffer text (to_uint32 length) parameter;
      (if buffer is None then log (CallLogError MsgDoesNotFit) else ret tt);;
      ret buffer
  end.

End Manager.

Arguments Ok {_ _ A} a fm.
Arguments Abort {_ _ A} f fm.

(** ** The other members of font_manager.cpp *)

(** *** FontManager::SetScript (lines 964-968) *)

(** [*reinterpret_cast<const uint32_t *>(script)]: the four bytes at
    [script] read as one [uint32_t] on a little-endian host (the hosts the
    library is built for); [None] when the string, terminator included, has
    fewer than four bytes. *)
Definition read_uint32 (bytes : list Z) : option Z :=
  match bytes with
  | b0 :: b1 :: b2 :: b3 :: _ =>
      Some (Z.lor (Z.lor (Z.lor b0 (Z.shiftl b1 8)) (Z.shiftl b2 16))
                  (Z.shiftl b3 24))
  | _ => None
  end.

(** [s >> 24 | (s & 0xff0000) >> 8 | (s & 0xff00) << 8 | s << 24] on
    [uint32_t]. *)
Definition swap_bytes (s : Z) : Z :=
  Z.lor
    (Z.lor
       (Z.lor (Z.shiftr s 24) (Z.shiftr (Z.land s 16711680) 8))
       (to_uint32 (Z.shiftl (Z.land s 65280) 8)))
    (to_uint32 (Z.shiftl s 24)).

Section Settings.
Context `{Collaborators}.

Definition set_script_ (v : Z) (fm : FontManager) : FontManager :=
  mkFontManager (glyph_cache_ fm) (current_font_ fm) (harfbuzz_buf_ fm)
    (map_buffers_ fm) (buffers_ fm) (wordbreak_info_ fm) (atlas_indices_ fm)
    (atlas_textures_ fm) (current_atlas_revision_ fm) (current_pass_ fm)
    (layout_direction_ fm) v (language_ fm) (line_height_ fm)
    (size_selector_ fm) (calls_ fm).

(** [script] is the array that the pointer denotes, its terminator
    included; the fault is the read past its end. *)
Definition SetScript (script : list Z) : M unit :=
  s ← lift OutOfRange (read_uint32 script);
  modify (set_script_ (swap_bytes s)).

End Settings.

(** *** FontManager::ExpandBuffer (lines 700-747) *)

Section Images.

(** [mathfu::RoundUpToPowerOf2] and [FontMetrics::total] are declared in
    headers: the properties hold whatever they compute. *)
Variable RoundUpToPowerOf2 : Z → Z.
Variable total : FontMetrics → Z.

(** [memcpy(&dst[at], src, n)] into an array: [None] when a range leaves
    its array. *)
Definition memcpy (dst : list Z) (at_ : Z) (src : list Z) (n : Z)
  : option (list Z) :=
  if bool_decide (0 <= at_) && bool_decide (0 <= n)
     && bool_decide (at_ + n <= vsize dst) && bool_decide (n <= vsize src)
  then Some (take (Z.to_nat at_) dst ++ take (Z.to_nat n) src
             ++ drop (Z.to_nat (at_ + n)) dst)
  else None.

(** [memset(&dst[at], 0, n)]. *)
Definition memset0 (dst : list Z) (at_ n : Z) : option (list Z) :=
  if bool_decide (0 <= at_) && bool_decide (0 <= n)
     && bool_decide (at_ + n <= vsize dst)
  then Some (take (Z.to_nat at_) dst ++ replicate (Z.to_nat n) 0
             ++ drop (Z.to_nat (at_ + n)) dst)
  else None.

(** Do the ranges [[a, a + n)] and [[b, b + n)] of one array overlap?
    [memcpy] between such ranges is undefined. *)
Definition ranges_overlap (a b n : Z) : bool :=
  bool_decide (0 < n) && bool_decide (a < b + n) && bool_decide (b < a + n).

(** What [ExpandBuffer] can run into. *)
Inductive ImageFault :=
  | ImageAssertion          (* assert(internal_leading_change >= 0) *)
  | ImageBadAlloc           (* new uint8_t[n] with a negative n *)
  | ImageOutOfBounds        (* a copy or a fill leaves its array *)
  | ImageOverlap.           (* memcpy between overlapping ranges *)

(** The returned flag and the image afterwards.  [fresh] are the bytes of
    the array that [new uint8_t[...]] returns, which are not initialised. *)
Definition ExpandBuffer (width height : Z)
    (original_metrics new_metrics : FontMetrics)
    (fresh : list Z) (image : list Z) : ImageFault + bool * list Z :=
  if bool_decide (total original_metrics = total new_metrics)
  then inr (false, image)
  else
    let new_height := to_int32 (RoundUpToPowerOf2 (total new_metrics)) in
    let internal_leading_change :=
      to_int32 (internal_leading new_metrics
                - internal_leading original_metrics) in
    if bool_decide (internal_leading_change < 0) then inl ImageAssertion
    else if bool_decide (height ≠ new_height) then
      if bool_decide (to_int32 (width * new_height) < 0)
      then inl ImageBadAlloc else
      let old_image := image in
      let image :=
        take (Z.to_nat (to_int32 (width * new_height)))
          (fresh ++ replicate (Z.to_nat (to_int32 (width * new_height))) 0) in
      match
        image ← memcpy image (to_int32 (width * internal_leading_change))
                  old_image (to_int32 (width * total original_metrics));
        image ← memset0 image 0 (to_int32 (width * internal_leading_change));
        let clear_offset :=
          to_int32 (total original_metrics + internal_leading_change) in
        memset0 image (to_int32 (width * clear_offset))
          (to_int32 (width * to_int32 (new_height - clear_offset)))
      with
      | Some image => inr (true, image)
      | None => inl ImageOutOfBounds
      end
    else if bool_decide (0 < internal_leading_change) then
      if ranges_overlap (to_int32 (width * internal_leading_change)) 0
           (to_int32 (width * total original_metrics))
      then inl ImageOverlap
      else
        match
          image' ← memcpy image (to_int32 (width * internal_leading_change))
                     image (to_int32 (width * total original_metrics));
          memset0 image' 0 (to_int32 (width * internal_leading_change))
        with
        | Some image => inr (false, image)
        | None => inl ImageOutOfBounds
        end
    else inr (false, image).

End Images.

(** *** The faces: Open, Close and SelectFont (lines 749-848, 1184-1189) *)

(** What the source reads and writes of a [FaceData]. *)
Record FaceData {Face : Type} := mkFaceData {
  font_data_ : list Z;             (* the bytes of the font file *)
  face_ : Face;                    (* FT_Face *)
  font_id_ : Z
}.
Arguments FaceData : clear implicits.

Definition set_font_data_ {Face} (v : list Z) (f : FaceData Face)
  : FaceData Face :=
  mkFaceData Face v (face_ f) (font_id_ f).

Definition set_face_ {Face} (v : Face) (f : FaceData Face) : FaceData Face :=
  mkFaceData Face (font_data_ f) v (font_id_ f).

Definition set_font_id_ {Face} (v : Z) (f : FaceData Face) : FaceData Face :=
  mkFaceData Face (font_data_ f) (face_ f) v.

(** The [LogInfo] lines of [Open]. *)
Inductive FaceMessage :=
  | MsgCantLoadFont (font_name : string)                    (* line 764 *)
  | MsgFailedToInitializeFont (font_name : string) (err : Z)   (* line 774 *)
  | MsgFailedToInitializeHarfbuzz (font_name : string).     (* line 785 *)

(** FreeType's faces, [HashId], the constructor of [FaceData] and the
    registry of fonts behind the static members of [HbFont] and
    [HbComplexFont], which are declared in headers.  An operation that
    changes the registry returns the new one. *)
Class FaceCollaborators `{Collaborators} := {
  FT_Face : Type;
  FontTexture : Type;              (* what map_textures_ owns *)
  FaceData_new : FaceData FT_Face;                         (* new FaceData *)
  (* the error and the face written through the last argument *)
  FT_New_Memory_Face : list Z → FT_Face → Z * FT_Face;
  FT_Done_Face : FT_Face → FT_Face;
  HashId : string → Z;
  HashId_names : list string → Z → Z;          (* HashId(font_names, count) *)
  HbFonts : Type;
  HbFont_Open : FaceData FT_Face → HbFonts → option HbFont * HbFonts;
  HbFont_Open_id : Z → HbFonts → option HbFont * HbFonts;
  HbComplexFont_Open : Z → list (FaceData FT_Face) → HbFonts
                       → option HbFont * HbFonts;
  HbFont_Close : FaceData FT_Face → HbFonts → HbFonts
}.

Section Faces.
Context `{FaceCollaborators}.

(** [fplbase::LoadFile(name, &dest)] on the files at the time of the call:
    its result and the content of [dest] afterwards, given the content
    before. *)
Definition Files : Type := string → list Z → bool * list Z.

(** The manager with the members that the faces use. *)
Record FontStore := mkFontStore {
  manager_ : FontManager;
  ft_ : bool;                      (* is the static FT_Library pointer set? *)
  map_faces_ : gmap string (FaceData FT_Face);
  map_textures_ : gmap FontBufferParameters FontTexture;
  face_initialized_ : bool;
  hb_fonts_ : HbFonts;
  face_log_ : list FaceMessage
}.

Definition with_manager (f : FontManager → FontManager) (s : FontStore)
  : FontStore :=
  mkFontStore (f (manager_ s)) (ft_ s) (map_faces_ s) (map_textures_ s)
    (face_initialized_ s) (hb_fonts_ s) (face_log_ s).

Definition set_map_faces_ (v : gmap string (FaceData FT_Face))
    (s : FontStore) : FontStore :=
  mkFontStore (manager_ s) (ft_ s) v (map_textures_ s)
    (face_initialized_ s) (hb_fonts_ s) (face_log_ s).

Definition set_map_textures_ (v : gmap FontBufferParameters FontTexture)
    (s : FontStore) : FontStore :=
  mkFontStore (manager_ s) (ft_ s) (map_faces_ s) v
    (face_initialized_ s) (hb_fonts_ s) (face_log_ s).

Definition set_face_initialized_ (v : bool) (s : FontStore) : FontStore :=
  mkFontStore (manager_ s) (ft_ s) (map_faces_ s) (map_textures_ s)
    v (hb_fonts_ s) (face_log_ s).

Definition set_hb_fonts_ (v : HbFonts) (s : FontStore) : FontStore :=
  mkFontStore (manager_ s) (ft_ s) (map_faces_ s) (map_textures_ s)
    (face_initialized_ s) v (face_log_ s).

Definition LogInfo_face (m : FaceMessage) (s : FontStore) : FontStore :=
  mkFontStore (manager_ s) (ft_ s) (map_faces_ s) (map_textures_ s)
    (face_initialized_ s) (hb_fonts_ s) (face_log_ s ++ [m]).

(** A write through the [FaceData *] of the entry [font_name]. *)
Definition set_face (font_name : string) (face : FaceData FT_Face)
    (s : FontStore) : FontStore :=
  set_map_faces_ (<[font_name := face]> (map_faces_ s)) s.

(** [current_font_ = HbFont::Open(...)], for each of the three [Open]s. *)
Definition set_font (r : option HbFont * HbFonts) (s : FontStore)
  : FontStore :=
  set_hb_fonts_ r.2 (with_manager (set_current_font_ r.1) s).

(** [FontManager::Open] (lines 749-795).  The fault is the dereference of
    [ft_] when it is null. *)
Definition Open (files : Files) (font_name : string) (s : FontStore)
  : Fault + bool * FontStore :=
  match map_faces_ s !! font_name with
  | Some _ => inr (false, s)
  | None =>
      let face := FaceData_new in
      let s := set_face font_name face s in
      let '(loaded, data) := files font_name (font_data_ face) in
      let face := set_font_data_ data face in
      let s := set_face font_name face s in
      if negb loaded
      then inr (false, LogInfo_face (MsgCantLoadFont font_name) s)
      else if negb (ft_ s) then inl NullPointer
      else
        let '(err, f) := FT_New_Memory_Face (font_data_ face) (face_ face) in
        let face := set_face_ f face in
        let s := set_face font_name face s in
        if bool_decide (err ≠ 0)
        then inr (false,
                  LogInfo_face (MsgFailedToInitializeFont font_name err) s)
        else
          let face := set_font_id_ (HashId font_name) face in
          let s := set_face font_name face s in
          if negb (face_initialized_ s) then
            let r := HbFont_Open face (hb_fonts_ s) in
            let s := set_font r s in
            match r.1 with
            | None =>
                let s :=
                  LogInfo_face (MsgFailedToInitializeHarfbuzz font_name) s in
                let face := set_font_data_ [] face in
                let face := set_face_ (FT_Done_Face (face_ face)) face in
                inr (false, set_face font_name face s)
            | Some _ => inr (true, set_face_initialized_ true s)
            end
          else inr (true, set_face_initialized_ true s)
  end.

(** [FaceData::Close] (lines 1184-1189) on the entry [font_name]. *)
Definition FaceData_Close (font_name : string) (face : FaceData FT_Face)
    (s : FontStore) : FontStore :=
  let s := set_hb_fonts_ (HbFont_Close face (hb_fonts_ s)) s in
  let face := set_face_ (FT_Done_Face (face_ face)) face in
  let face := set_font_data_ [] face in
  set_face font_name face s.

(** [FontManager::Close] (lines 797-816).  [map_buffers_.clear()] destroys
    the buffers the map owns. *)
Definition Close (font_name : string) (s : FontStore) : bool * FontStore :=
  match map_faces_ s !! font_name with
  | None => (false, s)
  | Some face =>
      let s := FaceData_Close font_name face s in
      let s := set_map_textures_ ∅ s in
      let s := with_manager
                 (λ fm, set_map_buffers_ ∅ (set_buffers_ ∅ fm)) s in
      let s := set_map_faces_ (delete font_name (map_faces_ s)) s in
      let s := if bool_decide (size (map_faces_ s) = 0%nat)
               then set_face_initialized_ false s else s in
      (true, s)
  end.

(** [FontManager::SelectFont] of one name (lines 818-825). *)
Definition SelectFont (font_name : string) (s : FontStore)
  : bool * FontStore :=
  match map_faces_ s !! font_name with
  | None => (false, s)
  | Some face =>
      let r := HbFont_Open face (hb_fonts_ s) in
      (bool_decide (is_Some r.1), set_font r s)
  end.

(** The loop of lines 839-845 from [i], [n] more rounds: the faces
    collected, [None] when a name is not open ([return false]); the fault
    is an access past the end of [font_names]. *)
Fixpoint collect_faces (faces : gmap string (FaceData FT_Face))
    (font_names : list string) (n : nat) (i : Z)
    (v : list (FaceData FT_Face))
  : Fault + option (list (FaceData FT_Face)) :=
  match n with
  | O => inr (Some v)
  | S n' =>
      match vget font_names i with
      | None => inl OutOfRange
      | Some font_name =>
          match faces !! font_name with
          | None => inr None
          | Some face =>
              collect_faces faces font_names n' (i + 1) (v ++ [face])
          end
      end
  end.

(** [FontManager::SelectFont] of [count] names (lines 827-848). *)
Definition SelectFont_names (font_names : list string) (count : Z)
    (s : FontStore) : Fault + bool * FontStore :=
  if bool_decide (count = 1) then
    match vget font_names 0 with
    | None => inl OutOfRange
    | Some font_name => inr (SelectFont font_name s)
    end
  else
    let id := HashId_names font_names count in
    let r := HbFont_Open_id id (hb_fonts_ s) in
    let s := set_font r s in
    match r.1 with
    | Some _ => inr (true, s)
    | None =>
        match collect_faces (map_faces_ s) font_names (Z.to_nat count) 0 []
        with
        | inl f => inl f
        | inr None => inr (false, s)
        | inr (Some v) =>
            let r := HbComplexFont_Open id v (hb_fonts_ s) in
            inr (bool_decide (is_Some r.1), set_font r s)
        end
    end.

End Faces.

(** ** Vocabulary of the statements *)

Section Vocabulary.
Context `{FloatModel}.

(** A shift that leaves every element below [first idx] alone. *)
Definition shifts_from {A} (shift : Z → Z → list A → option (list A))
    (first : Z → Z) : Prop :=
  ∀ idx offset xs xs',
    shift idx offset xs = Some xs' →
    length xs' = length xs
    ∧ ∀ j : nat, Z.of_nat j < first idx → xs' !! j = xs !! j.

(** Geometry is only appended between two calls of [UpdateLine]: what
    [AddCodepoint], [AddVertices], [AddCaretPosition], [AddWordBoundary] and
    the setters do to a buffer. *)
Definition appended_since (b1 b2 : FontBuffer) : Prop :=
  line_start_index_ b2 = line_start_index_ b1
  ∧ line_start_caret_index_ b2 = line_start_caret_index_ b1
  ∧ vertices_ b1 `prefix_of` vertices_ b2
  ∧ caret_positions_ b1 `prefix_of` caret_positions_ b2.

(** A list of (index, offset) pairs applied in order. *)
Fixpoint apply_shifts {A} (shift : Z → Z → list A → option (list A))
    (schedule : list (Z * Z)) (xs : list A) : option (list A) :=
  match schedule with
  | [] => Some xs
  | (idx, offset) :: rest =>
      xs' ← shift idx offset xs; apply_shifts shift rest xs'
  end.





(** [-1] for right-to-left, [1] otherwise. *)
Definition direction_sign (dir : TextLayoutDirection) : Z :=
  if decide (dir = kTextLayoutDirectionRTL) then -1 else 1.

(** [b'] is [b] up to the texture coordinates of its vertices and its
    revision: the positions, the carets, the code points and every other
    field are those of [b]. *)
Definition only_uv_and_revision_changed (b b' : FontBuffer) : Prop :=
  b' = set_revision (revision_ b') (with_vertices (vertices_ b') b)
  ∧ map position_ (vertices_ b') = map position_ (vertices_ b).

(** The glyph [k] of [b] carries the texture rectangle [uv]: its four
    vertices have the four corners. *)
Definition glyph_has_uv (b : FontBuffer) (k : nat)
    (uv : float * float * float * float) : Prop :=
  ∀ n : nat, (n < 4)%nat →
    uv_ <$> vertices_ b !! (4 * k + n)%nat = uv_corners uv !! n.

(** The layout of a buffer: everything but the texture coordinates of the
    vertices, the revision, the pass and the reference count. *)
Definition layout_of (b : FontBuffer) : FontBuffer :=
  set_ref_count 0
    (set_pass 0
       (set_revision 0
          (with_vertices
             (map (λ v, mkFontVertex (position_ v) (f_of_int 0, f_of_int 0))
                  (vertices_ b)) b))).

End Vocabulary.

Section TraceVocabulary.
Context `{Collaborators}.

(** The calls recorded between the manager [fm] and the later [fm']. *)
Definition calls_since (fm fm' : FontManager) : list Call :=
  drop (length (calls_ fm)) (calls_ fm').

(** [fm'] has recorded the calls [new] on top of those of [fm]. *)
Definition recorded (fm fm' : FontManager) (new : list Call) : Prop :=
  calls_ fm' = calls_ fm ++ new.

(** The deduplication map and the buffers it owns are as they were. *)
Definition same_buffers (fm fm' : FontManager) : Prop :=
  map_buffers_ fm' = map_buffers_ fm ∧ buffers_ fm' = buffers_ fm.

(** Kinds of calls. *)
Definition is_fetch_found (c : Call) : bool :=
  match c with CallGetCachedEntry _ true => true | _ => false end.

Definition is_fetch_failed (c : Call) : bool :=
  match c with CallGetCachedEntry _ false => true | _ => false end.

Definition is_layout (c : Call) : bool :=
  match c with CallLayoutText _ _ => true | _ => false end.

Definition is_upload (c : Call) : bool :=
  match c with CallUpdateTexture _ => true | _ => false end.

(** What a buffer construction that is not cut short records: layouts,
    glyphs found, and the notice of a word wider than the line. *)
Definition is_build_call (c : Call) : bool :=
  match c with
  | CallLayoutText _ _ | CallGetCachedEntry _ true
  | CallLogInfo MsgWordExceedsLine => true
  | _ => false
  end.

(** The calls [GetBuffer]'s retry policy is about. *)
Definition is_create_or_flush (c : Call) : bool :=
  match c with
  | CallCreateBuffer | CallFlushAndUpdate | CallFlush => true
  | _ => false
  end.

(** The outcome [o] of a step of a buffer construction that started in
    [fm]: the step keeps the deduplication map and the buffers; it records
    build calls only, unless it ends in the null signal ([null] tells which
    values are one), in which case a failed fetch, with its notice, comes
    last. *)
Definition build_step {A} (null : A → bool) (fm : FontManager)
    (o : Result A) : Prop :=
  same_buffers fm (final o)
  ∧ ∃ calls,
      Forall (λ c, is_build_call c = true) calls
      ∧ if (if o is Ok a _ then null a else false)
        then ∃ m code_point,
               recorded fm (final o)
                 (calls ++ [CallLogInfo m; CallGetCachedEntry code_point false])
        else recorded fm (final o) calls.

(** Which values are the null signal. *)
Definition never {A} (a : A) : bool := false.

Definition is_null {A} (a : option A) : bool :=
  if a is None then true else false.

Definition is_return_null (e : WordExit) : bool :=
  if e is WordReturnNull then true else false.

(** The calls of a glyph fetch: the answer of the cache, and a notice. *)
Definition is_fetch_or_notice (c : Call) : bool :=
  match c with
  | CallGetCachedEntry _ _ | CallLogInfo _ => true
  | _ => false
  end.

(** The calls of a trace that are constructions or flushes, in order. *)
Definition retry_calls (calls : list Call) : list Call :=
  filter (λ c, is_create_or_flush c = true) calls.

(** The outcome [o] is a result that satisfies [P], or a fault of the
    code: the loop bound of the model was not the reason to stop. *)
Definition ensures {A} (P : A → Prop) (o : Result A) : Prop :=
  match o with
  | Ok a _ => P a
  | Abort f _ => f ≠ OutOfFuel
  end.

(** The map and the buffers it owns belong together: every entry holds a
    live buffer whose iterator denotes the entry, and every live buffer is
    held by the entry that its iterator denotes. *)
Definition owned_buffers (fm : FontManager) : Prop :=
  (∀ key p, map_buffers_ fm !! key = Some p →
     ∃ b, buffers_ fm !! p = Some b ∧ iterator_ b = Some key)
  ∧ (∀ p b, buffers_ fm !! p = Some b →
       ∃ key, iterator_ b = Some key ∧ map_buffers_ fm !! key = Some p).

(** Every live buffer holds four vertices per code point. *)
Definition verified_buffers (fm : FontManager) : Prop :=
  ∀ p b, buffers_ fm !! p = Some b → Verify b = true.

(** The shaping buffer after a step that started in [fm]: a step that ends
    in the null signal has cleared it; any other step that completes has
    left it as it was. *)
Definition hb_step {A} (null : A → bool) (fm : FontManager)
    (o : Result A) : Prop :=
  match o with
  | Ok a fm' =>
      if null a
      then ∃ h, harfbuzz_buf_ fm' = hb_buffer_clear_contents h
      else harfbuzz_buf_ fm' = harfbuzz_buf_ fm
  | Abort _ _ => True
  end.

(** The cache holds the glyph of every code point of the list for the
    font [f]: looked up one after the other, as [UpdateUV] does, each one
    is found. *)
Fixpoint cache_holds (f : HbFont) (ysize flags : Z) (code_points : list Z)
    (gc : GlyphCache) : bool :=
  match code_points with
  | [] => true
  | code_point :: rest =>
      match gc_Find
              (mkGlyphKey (info_font_id (GetGlyphInfo code_point f))
                 code_point ysize flags) gc
      with
      | (Some _, gc') => cache_holds f ysize flags rest gc'
      | (None, _) => false
      end
  end.

(** The size that [CreateBuffer] passes to [UpdateUV]: [ConvertSize] of the
    font size of the parameters (lines 229-231). *)
Definition converted_size (parameters : FontBufferParameters)
    (fm : FontManager) : Z :=
  match size_selector_ fm with
  | Some selector => selector (f_to_int32 (get_font_size parameters))
  | None => f_to_int32 (get_font_size parameters)
  end.

(** [e] is an entry that [GetCachedEntry] returned for [code_point]. *)
Definition fetched (ysize flags code_point : Z) (e : GlyphCacheEntry)
  : Prop :=
  ∃ fm1 fm2, GetCachedEntry code_point ysize flags fm1 = Ok (Some e) fm2.

(** What a run returned, if it completed. *)
Definition returned {A} (r : Result A) : option A :=
  match r with Ok a _ => Some a | Abort _ _ => None end.

(** One successful fetch per code point, in order. *)
Definition fetches_found (code_points : list Z) : list Call :=
  map (λ code_point, CallGetCachedEntry code_point true) code_points.

End TraceVocabulary.

(** ** Sample data

    Concrete values on which the definitions are run: integers stand for
    floats, with exact arithmetic and truncating division. *)

Definition Z_float : FloatModel :=
  {| float := Z; f_of_int := id; f_to_int32 := to_int32;
     f_to_uint32 := to_uint32; f_add := Z.add; f_sub := Z.sub;
     f_mul := Z.mul; f_div := Z.quot |}.

(** Parameters of the given alignment and target width. *)
Definition sample_parameters (alignment width : Z)
  : @FontBufferParameters Z_float :=
  @mkFontBufferParameters Z_float 1 1 16 (width, 0) alignment 0 false false
    true 0.

(** A buffer whose line in progress holds [glyphs] code points, all at
    x = 0, with the given word boundaries, and no carets. *)
Definition sample_line (glyphs : nat) (boundaries : list Z)
  : @FontBuffer Z_float :=
  @with_word_boundaries Z_float boundaries []
    (@with_code_points Z_float (replicate glyphs 65)
       (@with_vertices Z_float
          (replicate (4 * glyphs)
             (@mkFontVertex Z_float (0, 0, 0) (0, 0)))
          (@FontBuffer_new Z_float 0 false))).

(** The x coordinates of the vertices of a buffer. *)
Definition positions_x (b : @FontBuffer Z_float) : list Z :=
  map (λ v, (@position_ Z_float v).1.1) (@vertices_ Z_float b).

(** A glyph cache of fixed capacity, one slice: it holds the code points
    it was given, in order; a glyph's texture rectangle is its position in
    that list.  [Set] fails when the cache is full; [Flush] empties it. *)
Record SampleCache := mkSampleCache {
  sc_code_points : list Z;
  sc_capacity : nat;
  sc_revision : Z;
  sc_dirty : bool
}.

Definition sample_entry (code_point : Z) (slot : nat)
  : @GlyphCacheEntry Z_float :=
  @mkGlyphCacheEntry Z_float code_point (0, 8)
    (if bool_decide (code_point = 32) then (0, 0) else (8, 8))
    (8 * Z.of_nat slot, 0, 0)
    (Z.of_nat slot, 0, Z.of_nat slot + 1, 1) O.

Fixpoint sample_slot (code_point : Z) (cached : list Z) (slot : nat)
  : option nat :=
  match cached with
  | [] => None
  | c :: rest =>
      if bool_decide (c = code_point) then Some slot
      else sample_slot code_point rest (S slot)
  end.

Definition sample_Find (key : GlyphKey) (gc : SampleCache)
  : option (@GlyphCacheEntry Z_float) * SampleCache :=
  (sample_entry (key_code_point key)
     <$> sample_slot (key_code_point key) (sc_code_points gc) O, gc).

Definition sample_Set (image : option (list Z)) (key : GlyphKey)
    (entry : @GlyphCacheEntry Z_float) (gc : SampleCache)
  : option (@GlyphCacheEntry Z_float) * SampleCache :=
  if bool_decide (length (sc_code_points gc) < sc_capacity gc)%nat then
    (Some (sample_entry (key_code_point key) (length (sc_code_points gc))),
     mkSampleCache (sc_code_points gc ++ [key_code_point key])
       (sc_capacity gc) (sc_revision gc + 1) true)
  else (None, gc).

Definition sample_Flush (gc : SampleCache) : SampleCache :=
  mkSampleCache [] (sc_capacity gc) (sc_revision gc + 1) true.

(** The break classes of a text: a space allows a break, a line feed and
    the last byte force one. *)
Fixpoint sample_breaks (text : list Z) : list Z :=
  match text with
  | [] => []
  | [c] => [LINEBREAK_MUSTBREAK]
  | c :: rest =>
      (if bool_decide (c = 32) then LINEBREAK_ALLOWBREAK
       else if bool_decide (c = 10) then LINEBREAK_MUSTBREAK
       else LINEBREAK_NOBREAK) :: sample_breaks rest
  end.

(** One glyph per byte, 8 pixels wide. *)
Definition sample_shape (text : list Z) : list hb_glyph :=
  imap (λ i c, mk_hb_glyph c (Z.of_nat i) (8 * 64) 0) text.

(** Collaborators that never fail to load a glyph. *)
Definition sample_collaborators : @Collaborators Z_float :=
  {| kRenderPass := -1;
     kFreeTypeUnit := 64;
     kGlyphCachePaddingSDF := 4;
     kGlyphFlagsOuterSDF := 1;
     kGlyphFlagsInnerSDF := 2;
     HbFont := Z;
     SetPixelSize := λ size _, size;
     GetBaseLine := λ ysize _, ysize;
     GetGlyphInfo := λ code_point _, mkGlyphInfo 1 1 code_point;
     FT_Load_Glyph := λ _ f, (0, f);
     ft_glyph := λ info _,
       if bool_decide (info_codepoint info = 32)
       then mk_FT_GlyphSlot 0 0 0 0 []
       else mk_FT_GlyphSlot 0 8 8 8 [];
     hb_buffer_t := list hb_glyph;
     hb_buffer_clear_contents := λ _, [];
     hb_shape_utf8 := λ _ _ _ text length buf,
       buf ++ sample_shape (take (Z.to_nat length) text);
     hb_buffer_get_glyphs := λ buf, buf;
     set_linebreaks_utf8 := λ text length _,
       sample_breaks (take (Z.to_nat length) text);
     GlyphCache := SampleCache;
     gc_Find := sample_Find;
     gc_Set := sample_Set;
     gc_Flush := sample_Flush;
     gc_Update := λ gc, gc;
     gc_get_revision := sc_revision;
     gc_get_dirty_state := sc_dirty;
     gc_set_dirty_state := λ d gc,
       mkSampleCache (sc_code_points gc) (sc_capacity gc) (sc_revision gc) d;
     gc_get_num_slices := λ _, 1;
     gc_row_AddRef := λ _ _ gc, gc;
     gc_row_Release := λ _ _ gc, gc;
     sdf_Compute := λ _ _ _ gc, gc |}.

(** A manager after [SetRenderer] and [Open], in the layout pass, with an
    empty glyph cache of the given capacity. *)
Definition sample_manager (capacity : nat)
  : @FontManager Z_float sample_collaborators :=
  @mkFontManager Z_float sample_collaborators
    (mkSampleCache [] capacity 0 false) (Some 16) [] ∅ ∅ [] [-1] [true]
    0 0 kTextLayoutDirectionLTR 0 "en" 1 None [].

(** Single-line, ref-counted parameters for a text. *)
Definition sample_text_parameters (text_id : Z)
  : @FontBufferParameters Z_float :=
  @mkFontBufferParameters Z_float 1 text_id 16 (0, 0) kTextAlignmentLeft 0
    false true false 0.

(** "Hi" and "Hello World". *)
Definition sample_Hi : list Z := [72; 105].
Definition sample_Hello_World : list Z :=
  [72; 101; 108; 108; 111; 32; 87; 111; 114; 108; 100].

(** The manager after it built the buffer of the empty text (at the
    address 0) and then that of "Hi" (at the address 1), in a cache of 20
    glyphs: the cache is at the revision 2, the manager has not uploaded it
    yet. *)
Definition sample_manager_texts
  : @FontManager Z_float sample_collaborators :=
  final (@GetBuffer Z_float sample_collaborators sample_Hi 2
           (sample_text_parameters 1)
           (final (@GetBuffer Z_float sample_collaborators [] 0
                     (sample_text_parameters 2) (sample_manager 20)))).

(** The same manager once the render pass has started: the atlas is at the
    revision 2, the buffer of the empty text still at the revision 0. *)
Definition sample_manager_rendering
  : @FontManager Z_float sample_collaborators :=
  final (@UpdatePass Z_float sample_collaborators false sample_manager_texts).

(** The buffer of "Hi" in that manager. *)
Definition sample_buffer_Hi : @FontBuffer Z_float :=
  default (@FontBuffer_new Z_float 0 false)
    (@buffers_ Z_float sample_collaborators sample_manager_texts !! 1%nat).

(** The manager in its first subpass, after "Hi" was requested again: the
    glyphs of "Hi" are in the atlas anew. *)
Definition sample_manager_subpass
  : @FontManager Z_float sample_collaborators :=
  final (@GetBuffer Z_float sample_collaborators sample_Hi 2
           (sample_text_parameters 1)
           (final (@UpdatePass Z_float sample_collaborators true
                     sample_manager_texts))).

(** A manager whose cache, of 2 glyphs, is full: it built the buffer of
    "Hi". *)
Definition sample_manager_full
  : @FontManager Z_float sample_collaborators :=
  final (@GetBuffer Z_float sample_collaborators sample_Hi 2
           (sample_text_parameters 1) (sample_manager 2)).

(** "ab". *)
Definition sample_ab : list Z := [97; 98].

(** A line of three glyphs committed, right-aligned in a width of 100. *)
Definition sample_committed_line : @FontBuffer Z_float :=
  default (@FontBuffer_new Z_float 0 false)
    (@UpdateLine Z_float (sample_parameters kTextAlignmentRight 100)
       kTextLayoutDirectionLTR 90 false (sample_line 3 [])).

(** The glyph of a next line appended to it. *)
Definition sample_next_line : @FontBuffer Z_float :=
  @AddVertices Z_float (0, 16) 16 1 (sample_entry 66 3)
    (@AddCodepoint Z_float 66 sample_committed_line).

(** Faces for the runs: a face is the number of bytes of its file and is
    rejected when the file is empty; the identifier of a name is its
    length; the registry lists the identifiers of the fonts that are open,
    and HarfBuzz opens every face. *)
Definition sample_face_collaborators
  : @FaceCollaborators Z_float sample_collaborators :=
  {| FT_Face := Z;
     FontTexture := unit;
     FaceData_new := mkFaceData Z [] 0 0;
     FT_New_Memory_Face := λ data f,
       if bool_decide (data = []) then (1, f) else (0, vsize data);
     FT_Done_Face := λ _, 0;
     HashId := λ name, Z.of_nat (String.length name);
     HashId_names := λ names count,
       foldr (λ name id, Z.of_nat (String.length name) + 31 * id) 0
         (take (Z.to_nat count) names);
     HbFonts := list Z;
     HbFont_Open := λ face fonts,
       (Some (font_id_ face : @HbFont Z_float sample_collaborators),
        font_id_ face :: fonts);
     HbFont_Open_id := λ id fonts,
       (if bool_decide (id ∈ fonts)
        then Some (id : @HbFont Z_float sample_collaborators) else None,
        fonts);
     HbComplexFont_Open := λ id _ fonts,
       (Some (id : @HbFont Z_float sample_collaborators), id :: fonts);
     HbFont_Close := λ face fonts,
       filter (λ id, id ≠ font_id_ face) fonts |}.

(** The only file is "a.ttf", of four bytes. *)
Definition sample_files : Files :=
  λ name dest,
    if bool_decide (name = "a.ttf") then (true, [0; 1; 0; 0])
    else (false, dest).

(** Later, every file is there. *)
Definition sample_files_later : Files := λ _ _, (true, [0; 1; 0; 0]).

(** A store with no face, and the stores after [Open] of "a.ttf" and then
    of "b.ttf". *)
Definition sample_store
  : @FontStore Z_float sample_collaborators sample_face_collaborators :=
  @mkFontStore Z_float sample_collaborators sample_face_collaborators
    sample_manager_texts true ∅ ∅ false [] [].

Definition store_after {A}
    (r : A + bool * @FontStore Z_float sample_collaborators
                      sample_face_collaborators)
  : @FontStore Z_float sample_collaborators sample_face_collaborators :=
  match r with inr (_, s) => s | inl _ => sample_store end.

Definition sample_store_a
  : @FontStore Z_float sample_collaborators sample_face_collaborators :=
  store_after
    (@Open Z_float sample_collaborators sample_face_collaborators
       sample_files "a.ttf" sample_store).

Definition sample_store_a_b
  : @FontStore Z_float sample_collaborators sample_face_collaborators :=
  store_after
    (@Open Z_float sample_collaborators sample_face_collaborators
       sample_files "b.ttf" sample_store_a).

(** The manager whose cache, of 2 glyphs, was flushed for "ab": the
    buffer of "Hi" is still in the map, its glyphs are not in the cache. *)
Definition sample_manager_flushed
  : @FontManager Z_float sample_collaborators :=
  final (@GetBuffer Z_float sample_collaborators sample_ab 2
           (sample_text_parameters 3) sample_manager_full).

(* ===================================================================== *)
(** * Part II. Properties                                                  *)
(* ===================================================================== *)

(** ** WordEnumerator *)

Lemma to_size_t_small x : 0 <= x < 2 ^ 64 → to_size_t x = x.
Proof. intros. unfold to_size_t, size_t_bits. by rewrite Z.mod_small. Qed.

Lemma to_size_t_range x : 0 <= to_size_t x < 2 ^ 64.
Proof. unfold to_size_t, size_t_bits. apply Z.mod_pos_bound. lia. Qed.

Lemma Advance_buffer w : buffer_ (snd (Advance w)) = buffer_ w.
Proof. unfold Advance. repeat case_match; reflexivity. Qed.

Lemma Advance_single_line w : single_line_ (snd (Advance w)) = single_line_ w.
Proof. unfold Advance. repeat case_match; reflexivity. Qed.

Lemma advance_n_buffer n w : buffer_ (advance_n n w) = buffer_ w.
Proof.
  revert w. induction n as [|n IH]; intros w; simpl; [done|].
  by rewrite IH, Advance_buffer.
Qed.

Lemma advance_n_single_line n w :
  single_line_ (advance_n n w) = single_line_ w.
Proof.
  revert w. induction n as [|n IH]; intros w; simpl; [done|].
  by rewrite IH, Advance_single_line.
Qed.

(** Once [finished_] is set, [Advance] reports exhaustion and keeps it set. *)
Lemma Advance_finished w :
  finished_ w = true →
  fst (Advance w) = false ∧ finished_ (snd (Advance w)) = true.
Proof.
  intros Hf. unfold Advance. rewrite Hf. simpl.
  rewrite andb_false_r, orb_true_r. simpl. done.
Qed.

Lemma advance_n_finished n w :
  finished_ w = true → finished_ (advance_n n w) = true.
Proof.
  revert w. induction n as [|n IH]; intros w Hf; simpl; [done|].
  apply IH. by apply Advance_finished.
Qed.

(** C8. In single-line mode the first [Advance] yields the span
    (index 0, length = size of the buffer), whatever break classes the
    buffer holds, and every later [Advance] returns false. *)
Theorem single_line_yields_one_span (buffer : list Z) :
  let w1 := snd (Advance (WordEnumerator_new buffer true)) in
  fst (Advance (WordEnumerator_new buffer true)) = true
  ∧ GetCurrentWordIndex w1 = 0
  ∧ GetCurrentWordLength w1 = vsize buffer
  ∧ ∀ n : nat, fst (Advance (advance_n n w1)) = false.
Proof.
  simpl. repeat split.
  intros n. apply Advance_finished. by apply advance_n_finished.
Qed.

(** The scan stops at the first break class of [rest], or past its end. *)
Lemma scan_break_spec rest index :
  0 <= index → index + vsize rest < 2 ^ 64 →
  let p := scan_break rest index in
  index <= p <= index + vsize rest
  ∧ (∀ k, index <= k < p → ∃ c, rest !! Z.to_nat (k - index) = Some c
                                 ∧ is_break c = false)
  ∧ (p < index + vsize rest →
     ∃ c, rest !! Z.to_nat (p - index) = Some c ∧ is_break c = true)
  ∧ (Forall (λ c, is_break c = false) rest → p = index + vsize rest).
Proof.
  revert index. induction rest as [|c rest IH]; intros index H0 Hlt; simpl.
  - unfold vsize; simpl. repeat split; intros; lia.
  - unfold vsize in *. simpl length in *.
    destruct (is_break c) eqn:Hc.
    + repeat split; try lia.
      * intros _. exists c. by replace (index - index) with 0 by lia.
      * intros HF. inversion HF; congruence.
    + rewrite to_size_t_small by lia.
      destruct (IH (index + 1)) as (Hr & Hbefore & Hat & Hall); [lia..|].
      repeat split; try lia.
      * intros k Hk. destruct (decide (k = index)) as [->|Hne].
        { exists c. by replace (index - index) with 0 by lia. }
        destruct (Hbefore k) as (c' & Hc' & Hb'); [lia|].
        exists c'. split; [|done].
        replace (Z.to_nat (k - index)) with (S (Z.to_nat (k - (index + 1))))
          by lia. done.
      * intros Hp. destruct Hat as (c' & Hc' & Hb'); [lia|].
        exists c'. split; [|done].
        replace (Z.to_nat (scan_break rest (index + 1) - index))
          with (S (Z.to_nat (scan_break rest (index + 1) - (index + 1))))
          by lia. done.
      * intros HF. inversion HF; subst. rewrite Hall by done. lia.
Qed.

Lemma vsize_drop {A} (l : list A) (i : Z) :
  0 <= i <= vsize l → i + vsize (drop (Z.to_nat i) l) = vsize l.
Proof. unfold vsize. rewrite length_drop. lia. Qed.

(** What a successful multi-line [Advance] leaves behind, from any state. *)
Lemma Advance_multi_line w :
  single_line_ w = false →
  vsize (buffer_ w) + 1 < 2 ^ 64 →
  fst (Advance w) = true →
  let w' := snd (Advance w) in
  let i := GetCurrentWordIndex w' in
  let n := GetCurrentWordLength w' in
  0 <= i < vsize (buffer_ w) ∧ 1 <= n
  ∧ ((∃ c, list.last (buffer_ w) = Some c ∧ is_break c = true) →
     i + n <= vsize (buffer_ w)
     ∧ must_break_index w' = i + n - 1
     ∧ ∃ c, vget (buffer_ w) (i + n - 1) = Some c ∧ is_break c = true
            ∧ CurrentWordMustBreak w'
              = Some (bool_decide (c = LINEBREAK_MUSTBREAK)))
  ∧ (Forall (λ c, is_break c = false) (drop (Z.to_nat i) (buffer_ w)) →
     i + n = vsize (buffer_ w) + 1
     ∧ must_break_index w' = vsize (buffer_ w)
     ∧ vget (buffer_ w) (must_break_index w') = None
     ∧ CurrentWordMustBreak w' = None).
Proof.
  intros Hs Hsz. unfold Advance. rewrite Hs. simpl.
  set (ci := to_size_t (current_index_ w + current_length_ w)).
  pose proof (to_size_t_range (current_index_ w + current_length_ w)) as Hci.
  fold ci in Hci.
  destruct (bool_decide (vsize (buffer_ w) <= ci) || finished_ w) eqn:Hc;
    simpl; [done|]. intros _.
  apply orb_false_iff in Hc as [Hlt _]. apply bool_decide_eq_false in Hlt.
  unfold GetCurrentWordIndex, GetCurrentWordLength, CurrentWordMustBreak,
    must_break_index. simpl.
  pose proof (vsize_drop (buffer_ w) ci ltac:(lia)) as Hdrop.
  destruct (scan_break_spec (drop (Z.to_nat ci) (buffer_ w)) ci)
    as (Hr & Hbefore & Hat & Hall); [lia..|].
  set (p := scan_break (drop (Z.to_nat ci) (buffer_ w)) ci) in *.
  rewrite (to_size_t_small (p - ci + 1)) by lia.
  replace (ci + (p - ci + 1) - 1) with p by lia.
  replace (ci + (p - ci + 1)) with (p + 1) by lia.
  rewrite !(to_size_t_small p), (to_size_t_small (p + 1)) by lia.
  rewrite bool_decide_eq_false_2 by lia.
  split; [lia|]. split; [lia|]. split.
  - intros (c & Hlast & Hbc).
    assert (p < vsize (buffer_ w)) as Hp.
    { destruct (decide (p < vsize (buffer_ w))) as [|Hge]; [done|].
      destruct (Hbefore (vsize (buffer_ w) - 1)) as (c' & Hc' & Hb'); [lia|].
      rewrite lookup_drop in Hc'. rewrite last_lookup in Hlast.
      unfold vsize in *.
      match type of Hc' with
      | _ !! ?k = _ => replace k with (pred (length (buffer_ w))) in Hc' by lia
      end.
      congruence. }
    split; [lia|]. split; [done|].
    destruct Hat as (c' & Hc' & Hb'); [lia|].
    rewrite lookup_drop in Hc'.
    replace (Z.to_nat ci + Z.to_nat (p - ci))%nat with (Z.to_nat p) in Hc'
      by lia.
    exists c'. unfold vget. rewrite decide_True by lia. rewrite Hc'. done.
  - intros HF.
    assert (p = vsize (buffer_ w)) as Hp by (specialize (Hall HF); lia).
    rewrite Hp. split; [lia|]. split; [done|].
    assert (vget (buffer_ w) (vsize (buffer_ w)) = None) as ->; [|done].
    unfold vget, vsize. rewrite decide_True by lia.
    apply lookup_ge_None. lia.
Qed.

(** C9. A multi-line enumerator, after any number of calls: when the last
    byte of the buffer is a break class, a span that [Advance] yields lies
    inside the buffer and ends at a break byte, which is the byte
    [CurrentWordMustBreak] reads; when no byte from the new offset on is a
    break class, the span ends at [size + 1] and [CurrentWordMustBreak]
    reads at index [size], one past the end. *)
Theorem multi_line_span_bounds (buffer : list Z) (calls : nat) :
  vsize buffer + 1 < 2 ^ 64 →
  let w := advance_n calls (WordEnumerator_new buffer false) in
  let w' := snd (Advance w) in
  let i := GetCurrentWordIndex w' in
  let n := GetCurrentWordLength w' in
  fst (Advance w) = true →
  0 <= i < vsize buffer ∧ 1 <= n
  ∧ ((∃ c, list.last buffer = Some c ∧ is_break c = true) →
     i + n <= vsize buffer
     ∧ must_break_index w' = i + n - 1
     ∧ ∃ c, vget buffer (i + n - 1) = Some c ∧ is_break c = true
            ∧ CurrentWordMustBreak w'
              = Some (bool_decide (c = LINEBREAK_MUSTBREAK)))
  ∧ (Forall (λ c, is_break c = false) (drop (Z.to_nat i) buffer) →
     i + n = vsize buffer + 1
     ∧ must_break_index w' = vsize buffer
     ∧ vget buffer (must_break_index w') = None
     ∧ CurrentWordMustBreak w' = None).
Proof.
  intros Hsz w w' i n Hadv.
  assert (buffer_ w = buffer) as Hb by apply advance_n_buffer.
  assert (single_line_ w = false) as Hs by apply advance_n_single_line.
  pose proof (Advance_multi_line w Hs) as H. rewrite Hb in H.
  apply H; done.
Qed.

(** The theorem at work: [x x A x M] yields the spans (0,3) and (3,2), each
    ending at a break byte; here the second one. *)
Lemma multi_line_span_bounds_witness :
  let buffer := [LINEBREAK_NOBREAK; LINEBREAK_NOBREAK; LINEBREAK_ALLOWBREAK;
                 LINEBREAK_NOBREAK; LINEBREAK_MUSTBREAK] in
  let w := advance_n 1 (WordEnumerator_new buffer false) in
  let w' := snd (Advance w) in
  let i := GetCurrentWordIndex w' in
  let n := GetCurrentWordLength w' in
  vsize buffer + 1 < 2 ^ 64
  ∧ fst (Advance w) = true
  ∧ 0 <= i < vsize buffer ∧ 1 <= n
  ∧ i + n <= vsize buffer
  ∧ must_break_index w' = i + n - 1
  ∧ ∃ c, vget buffer (i + n - 1) = Some c ∧ is_break c = true
         ∧ CurrentWordMustBreak w'
           = Some (bool_decide (c = LINEBREAK_MUSTBREAK)).
Proof.
  intros buffer w w' i n.
  assert (vsize buffer + 1 < 2 ^ 64) as Hsize by (vm_compute; reflexivity).
  assert (fst (Advance w) = true) as Hadv by (vm_compute; reflexivity).
  split; [exact Hsize|]. split; [exact Hadv|].
  destruct (multi_line_span_bounds buffer 1 Hsize Hadv)
    as (Hi & Hn & Hbreak & _).
  split; [exact Hi|]. split; [exact Hn|].
  exact (Hbreak (ex_intro _ LINEBREAK_MUSTBREAK (conj eq_refl eq_refl))).
Defined.

Example multi_line_spans_run :
  let buffer := [LINEBREAK_NOBREAK; LINEBREAK_NOBREAK; LINEBREAK_ALLOWBREAK;
                 LINEBREAK_NOBREAK; LINEBREAK_MUSTBREAK] in
  let w0 := WordEnumerator_new buffer false in
  let w1 := snd (Advance w0) in
  let w2 := snd (Advance w1) in
  (GetCurrentWordIndex w1, GetCurrentWordLength w1, CurrentWordMustBreak w1)
  = (0, 3, Some false)
  ∧ (GetCurrentWordIndex w2, GetCurrentWordLength w2, CurrentWordMustBreak w2)
    = (3, 2, Some true)
  ∧ fst (Advance w2) = false.
Proof. vm_compute. done. Qed.

(** A buffer that does not end in a break class: the only span is (0, 3)
    over a 2-byte buffer, and [CurrentWordMustBreak] reads past the end. *)
Example multi_line_overrun_run :
  let buffer := [LINEBREAK_NOBREAK; LINEBREAK_NOBREAK] in
  let w1 := snd (Advance (WordEnumerator_new buffer false)) in
  fst (Advance (WordEnumerator_new buffer false)) = true
  ∧ (GetCurrentWordIndex w1, GetCurrentWordLength w1) = (0, 3)
  ∧ CurrentWordMustBreak w1 = None.
Proof. vm_compute. done. Qed.

(** Every span that [Advance] yields brings a multi-line enumerator closer
    to the end of its buffer, and a single-line one to its only span. *)
Lemma Advance_words_left w :
  vsize (buffer_ w) + 1 < 2 ^ 64 →
  (single_line_ w = false →
   0 <= current_index_ w + current_length_ w <= vsize (buffer_ w) + 1) →
  fst (Advance w) = true →
  let w' := snd (Advance w) in
  (single_line_ w' = false →
   0 <= current_index_ w' + current_length_ w' <= vsize (buffer_ w') + 1)
  ∧ 0 <= words_left w' < words_left w.
Proof.
  intros Hsz Hinv. unfold Advance, words_left.
  destruct (single_line_ w) eqn:Hs, (finished_ w) eqn:Hf; simpl.
  - rewrite orb_true_r. simpl. done.
  - intros _. split; [done|lia].
  - rewrite orb_true_r. simpl. done.
  - rewrite orb_false_r. specialize (Hinv eq_refl).
    rewrite to_size_t_small by lia.
    set (ci := current_index_ w + current_length_ w) in *.
    case_bool_decide as Hci; simpl; [done|]. intros _.
    rewrite ?Hs, ?Hf.
    pose proof (vsize_drop (buffer_ w) ci ltac:(lia)) as Hdrop.
    destruct (scan_break_spec (drop (Z.to_nat ci) (buffer_ w)) ci)
      as (Hp & _); [lia|lia|].
    set (p := scan_break (drop (Z.to_nat ci) (buffer_ w)) ci) in *.
    rewrite to_size_t_small by lia. split; [intros _|]; lia.
Qed.

(** In a [while (Advance())] loop the enumerator keeps
    [current_index_ + current_length_] within the buffer, one past its end
    at most. *)
Lemma advance_n_loop (buffer : list Z) (single_line : bool) calls :
  vsize buffer + 1 < 2 ^ 64 →
  (∀ j, (j < calls)%nat →
        fst (Advance (advance_n j (WordEnumerator_new buffer single_line)))
        = true) →
  let w := advance_n calls (WordEnumerator_new buffer single_line) in
  buffer_ w = buffer
  ∧ single_line_ w = single_line
  ∧ (single_line = false →
     0 <= current_index_ w + current_length_ w <= vsize buffer + 1)
  ∧ 0 <= words_left w
  ∧ words_left w + Z.of_nat calls
    <= (if single_line then 1 else vsize buffer).
Proof.
  intros Hsz. induction calls as [|calls IH]; intros Hloop; cbn zeta.
  - simpl. unfold words_left, vsize. simpl.
    split; [done|]. split; [done|]. split; [lia|]. destruct single_line; lia.
  - assert (advance_n (S calls) (WordEnumerator_new buffer single_line)
            = snd (Advance (advance_n calls
                              (WordEnumerator_new buffer single_line))))
      as ->.
    { clear. generalize (WordEnumerator_new buffer single_line).
      induction calls as [|calls IH]; intros w; [done|].
      simpl. apply IH. }
    destruct IH as (Hb & Hs & Hinv & Hpos & Hleft);
      [intros j Hj; apply Hloop; lia|].
    set (w := advance_n calls (WordEnumerator_new buffer single_line)) in *.
    destruct (Advance_words_left w) as [Hinv' Hleft'].
    { by rewrite Hb. }
    { rewrite Hb, Hs. exact Hinv. }
    { apply Hloop. lia. }
    cbn zeta in *. rewrite Advance_buffer, Advance_single_line, Hb, Hs in *.
    split; [done|]. split; [done|]. split; [exact Hinv'|]. lia.
Qed.

(** The loop [while (word_enum.Advance())] ends: some call of [Advance],
    after at most one span of a single-line enumerator and at most as many
    spans as the buffer has bytes of a multi-line one, returns false. *)
Theorem Advance_loop_ends (buffer : list Z) (single_line : bool) :
  vsize buffer + 1 < 2 ^ 64 →
  ∃ k : nat,
    Z.of_nat k <= (if single_line then 1 else vsize buffer)
    ∧ (∀ j, (j < k)%nat →
            fst (Advance (advance_n j (WordEnumerator_new buffer single_line)))
            = true)
    ∧ fst (Advance (advance_n k (WordEnumerator_new buffer single_line)))
      = false.
Proof.
  intros Hsz.
  set (bound := if single_line then 1 else vsize buffer).
  assert (∀ n k : nat,
            Z.of_nat k + Z.of_nat n = bound + 1 →
            (∀ j, (j < k)%nat →
               fst (Advance (advance_n j
                               (WordEnumerator_new buffer single_line)))
               = true) →
            ∃ k' : nat,
              Z.of_nat k' <= bound
              ∧ (∀ j, (j < k')%nat →
                   fst (Advance (advance_n j
                                   (WordEnumerator_new buffer single_line)))
                   = true)
              ∧ fst (Advance (advance_n k'
                                (WordEnumerator_new buffer single_line)))
                = false) as Hsearch.
  { induction n as [|n IH]; intros k Hk Hloop.
    - destruct (advance_n_loop buffer single_line k Hsz Hloop)
        as (_ & _ & _ & Hpos & Hleft). fold bound in Hleft. lia.
    - destruct (fst (Advance (advance_n k
                                (WordEnumerator_new buffer single_line))))
        eqn:Hadv.
      + apply (IH (S k)); [lia|]. intros j Hj.
        destruct (decide (j = k)) as [->|Hne]; [done|]. apply Hloop. lia.
      + exists k. split; [|done].
        destruct (advance_n_loop buffer single_line k Hsz Hloop)
          as (_ & _ & _ & Hpos & Hleft). fold bound in Hleft. lia. }
  assert (0 <= bound) as Hbound
    by (subst bound; unfold vsize; destruct single_line; lia).
  apply (Hsearch (Z.to_nat (bound + 1)) O); [lia|]. intros j Hj. lia.
Qed.

(** The theorem on [x x A x M]: two spans, then the loop ends. *)
Lemma Advance_loop_ends_witness :
  let buffer := [LINEBREAK_NOBREAK; LINEBREAK_NOBREAK; LINEBREAK_ALLOWBREAK;
                 LINEBREAK_NOBREAK; LINEBREAK_MUSTBREAK] in
  vsize buffer + 1 < 2 ^ 64
  ∧ ∃ k : nat,
      Z.of_nat k <= vsize buffer
      ∧ fst (Advance (advance_n k (WordEnumerator_new buffer false))) = false.
Proof.
  intros buffer.
  assert (vsize buffer + 1 < 2 ^ 64) as Hsz by (vm_compute; reflexivity).
  split; [exact Hsz|].
  destruct (Advance_loop_ends buffer false Hsz) as (k & Hk & _ & Hend).
  exists k. split; [exact Hk|exact Hend].
Defined.

(** The spans of a multi-line enumerator in a [while (Advance())] loop tile
    the buffer: the first starts at byte 0, every other one where the one
    before it ended, none is empty, and none starts past the last byte. *)
Theorem multi_line_spans_tile (buffer : list Z) (calls : nat) :
  vsize buffer + 1 < 2 ^ 64 →
  (∀ j, (j < calls)%nat →
        fst (Advance (advance_n j (WordEnumerator_new buffer false))) = true) →
  let w := advance_n calls (WordEnumerator_new buffer false) in
  let w' := snd (Advance w) in
  fst (Advance w) = true →
  (calls = O → GetCurrentWordIndex w' = 0)
  ∧ GetCurrentWordIndex w'
    = GetCurrentWordIndex w + GetCurrentWordLength w
  ∧ 1 <= GetCurrentWordLength w'
  ∧ GetCurrentWordIndex w' < vsize buffer
  ∧ GetCurrentWordIndex w' + GetCurrentWordLength w' <= vsize buffer + 1.
Proof.
  intros Hsz Hloop w w' Hadv.
  destruct (advance_n_loop buffer false calls Hsz Hloop)
    as (Hb & Hs & Hinv & _). fold w in Hb, Hs, Hinv.
  specialize (Hinv eq_refl).
  destruct (Advance_words_left w) as [Hinv' _];
    [by rewrite Hb|by rewrite Hb|done|].
  fold w' in Hinv'. subst w'. rewrite Advance_single_line, Advance_buffer, Hs, Hb in Hinv'.
  specialize (Hinv' eq_refl).
  destruct (Advance_multi_line w Hs) as (Hi & Hn & _);
    [by rewrite Hb|done|]. rewrite Hb in Hi.
  assert (GetCurrentWordIndex (snd (Advance w))
          = GetCurrentWordIndex w + GetCurrentWordLength w) as Hnext.
  { revert Hadv. unfold Advance, GetCurrentWordIndex, GetCurrentWordLength.
    rewrite Hs. simpl. rewrite to_size_t_small by lia.
    destruct (_ || _); [done|]. by intros _. }
  split; [|split; [exact Hnext|]].
  - intros ->. rewrite Hnext. subst w. reflexivity.
  - unfold GetCurrentWordIndex, GetCurrentWordLength in *. lia.
Qed.

(** The theorem on [x x A x M]: the second span starts where the first
    ended. *)
Lemma multi_line_spans_tile_witness :
  let buffer := [LINEBREAK_NOBREAK; LINEBREAK_NOBREAK; LINEBREAK_ALLOWBREAK;
                 LINEBREAK_NOBREAK; LINEBREAK_MUSTBREAK] in
  let w := advance_n 1 (WordEnumerator_new buffer false) in
  fst (Advance w) = true
  ∧ GetCurrentWordIndex (snd (Advance w))
    = GetCurrentWordIndex w + GetCurrentWordLength w.
Proof.
  intros buffer w.
  assert (fst (Advance w) = true) as Hadv by (vm_compute; reflexivity).
  split; [exact Hadv|].
  refine (proj1 (proj2 (multi_line_spans_tile buffer 1 _ _ Hadv))).
  - vm_compute. reflexivity.
  - intros j Hj. assert (j = O) as -> by lia. vm_compute. reflexivity.
Defined.

(** ** FontBuffer::UpdateLine *)

Section BufferProps.
Context `{FloatModel}.

Lemma vget_Some {A} (l : list A) (i : Z) (x : A) :
  vget l i = Some x ↔ 0 <= i ∧ l !! Z.to_nat i = Some x.
Proof.
  unfold vget. destruct (decide (0 <= i)) as [Hi|Hi].
  - split; [by intros ->|by intros [_ ->]].
  - split; [discriminate|by intros [? _]].
Qed.

Lemma vget_lt {A} (l : list A) (i : Z) :
  0 <= i < vsize l → is_Some (vget l i).
Proof.
  intros Hi. unfold vget, vsize in *. rewrite decide_True by lia.
  apply lookup_lt_is_Some. lia.
Qed.

(** The inner vertex loop rewrites the vertices [first .. first + count). *)
Lemma shift_vertices_Some count first offset vs vs' :
  shift_vertices count first offset vs = Some vs' →
  length vs' = length vs
  ∧ ∀ j : nat,
      vs' !! j = if decide (first <= Z.of_nat j < first + Z.of_nat count)
                 then add_position_x offset <$> vs !! j else vs !! j.
Proof.
  revert first vs. induction count as [|count IH]; intros first vs; simpl.
  - intros [= <-]. split; [done|]. intros j. by rewrite decide_False by lia.
  - destruct (vget vs first) as [v|] eqn:Hv; simpl; [|done].
    apply vget_Some in Hv as [H0 Hv]. intros Hs.
    apply IH in Hs as [Hlen Hs]. rewrite length_insert in Hlen.
    split; [done|]. intros j. rewrite Hs.
    destruct (decide (Z.of_nat j = first)) as [Hj|Hj].
    + assert (j = Z.to_nat first) as -> by lia.
      rewrite decide_False by lia. rewrite decide_True by lia.
      rewrite list_lookup_insert_eq by (by eapply lookup_lt_Some).
      by rewrite Hv.
    + rewrite list_lookup_insert_ne by lia.
      repeat case_decide; try done; lia.
Qed.

Lemma shift_vertices_total count first offset vs :
  0 <= first → first + Z.of_nat count <= vsize vs →
  is_Some (shift_vertices count first offset vs).
Proof.
  revert first vs. induction count as [|count IH]; intros first vs H0 Hlen;
    simpl; [by eexists|].
  destruct (vget_lt vs first) as [v Hv]; [lia|]. rewrite Hv. simpl.
  apply IH; [lia|]. unfold vsize in *. rewrite length_insert. lia.
Qed.

Lemma shift_glyph_Some idx offset vs vs' :
  shift_glyph idx offset vs = Some vs' →
  length vs' = length vs
  ∧ ∀ j : nat,
      vs' !! j = if decide (4 * idx <= Z.of_nat j < 4 * idx + 4)
                 then add_position_x offset <$> vs !! j else vs !! j.
Proof.
  unfold shift_glyph, kVerticesPerCodePoint. intros Hs.
  apply shift_vertices_Some in Hs as [Hlen Hs]. split; [done|].
  intros j. rewrite Hs. repeat case_decide; try done; lia.
Qed.

Lemma shift_glyph_total idx offset vs :
  0 <= idx → 4 * idx + 4 <= vsize vs → is_Some (shift_glyph idx offset vs).
Proof.
  intros. apply shift_vertices_total; unfold kVerticesPerCodePoint; lia.
Qed.

Lemma shift_caret_Some idx offset cs cs' :
  shift_caret idx offset cs = Some cs' →
  length cs' = length cs
  ∧ ∀ j : nat,
      cs' !! j = if decide (Z.of_nat j = idx)
                 then (λ c, (to_int32 (c.1 + offset), c.2)) <$> cs !! j
                 else cs !! j.
Proof.
  unfold shift_caret. destruct (vget cs idx) as [c|] eqn:Hc; simpl; [|done].
  apply vget_Some in Hc as [H0 Hc]. intros [= <-].
  rewrite length_insert. split; [done|]. intros j. case_decide.
  - assert (j = Z.to_nat idx) as -> by lia.
    rewrite list_lookup_insert_eq by (by eapply lookup_lt_Some).
    by rewrite Hc.
  - by rewrite list_lookup_insert_ne by lia.
Qed.

Lemma shift_caret_total idx offset cs :
  0 <= idx < vsize cs → is_Some (shift_caret idx offset cs).
Proof.
  intros Hi. unfold shift_caret.
  destruct (vget_lt cs idx Hi) as [c ->]. by eexists.
Qed.

Lemma shift_glyph_from : shifts_from shift_glyph (λ idx, 4 * idx).
Proof.
  intros idx offset vs vs' Hs. apply shift_glyph_Some in Hs as [Hlen Hs].
  split; [done|]. intros j Hj. rewrite Hs. by rewrite decide_False by lia.
Qed.

Lemma shift_caret_from : shifts_from shift_caret (λ idx, idx).
Proof.
  intros idx offset vs vs' Hs. apply shift_caret_Some in Hs as [Hlen Hs].
  split; [done|]. intros j Hj. rewrite Hs. by rewrite decide_False by lia.
Qed.

(** The position loops never touch an element below the line start. *)
Lemma line_offset_loop_frame {A} (shift : Z → Z → list A → option (list A))
    (first : Z → Z) justify boundary change count idx k offset xs xs' :
  shifts_from shift first →
  (∀ a b, a <= b → first a <= first b) →
  line_offset_loop shift justify boundary change count idx k offset xs
    = Some xs' →
  length xs' = length xs
  ∧ ∀ j : nat, Z.of_nat j < first idx → xs' !! j = xs !! j.
Proof.
  intros Hshift Hmono.
  revert idx k offset xs. induction count as [|count IH];
    intros idx k offset xs; simpl.
  - intros [= <-]. done.
  - intros Hl.
    apply bind_Some in Hl as ([k' offset'] & _ & Hl).
    apply bind_Some in Hl as (xs1 & Hs & Hl).
    apply Hshift in Hs as [Hlen1 Hs]. apply IH in Hl as [Hlen Hl].
    split; [congruence|]. intros j Hj.
    assert (first idx <= first (idx + 1)) as Hle by (apply Hmono; lia).
    rewrite Hl by lia. by apply Hs.
Qed.

(** What [UpdateLine] leaves as it was: everything but positions from the
    line start on, the line-start markers and the word boundaries. *)
Lemma UpdateLine_frame p dir lw last b b' :
  UpdateLine p dir lw last b = Some b' →
  length (vertices_ b') = length (vertices_ b)
  ∧ (∀ j : nat, Z.of_nat j < 4 * line_start_index_ b →
       vertices_ b' !! j = vertices_ b !! j)
  ∧ length (caret_positions_ b') = length (caret_positions_ b)
  ∧ (∀ j : nat, Z.of_nat j < line_start_caret_index_ b →
       caret_positions_ b' !! j = caret_positions_ b !! j)
  ∧ code_points_ b' = code_points_ b
  ∧ line_start_index_ b' = vsize (code_points_ b)
  ∧ line_start_caret_index_ b' = vsize (caret_positions_ b)
  ∧ word_boundary_ b' = [] ∧ word_boundary_caret_ b' = [].
Proof.
  unfold UpdateLine. intros Hu.
  apply bind_Some in Hu as (b1 & Hb1 & [= <-]). simpl.
  assert (length (vertices_ b1) = length (vertices_ b)
          ∧ (∀ j : nat, Z.of_nat j < 4 * line_start_index_ b →
               vertices_ b1 !! j = vertices_ b !! j)
          ∧ length (caret_positions_ b1) = length (caret_positions_ b)
          ∧ (∀ j : nat, Z.of_nat j < line_start_caret_index_ b →
               caret_positions_ b1 !! j = caret_positions_ b !! j)
          ∧ code_points_ b1 = code_points_ b) as (Hv & Hvj & Hc & Hcj & Hcp).
  { destruct (_ || _); [|by injection Hb1 as <-].
    destruct (line_offsets _ _ _ _ _ _) as [[j' offset] change].
    apply bind_Some in Hb1 as (vs & Hvs & Hb1).
    apply bind_Some in Hb1 as (cs & Hcs & [= <-]). simpl.
    eapply line_offset_loop_frame in Hvs as [Hv Hvj];
      [|apply shift_glyph_from|intros; simpl; lia].
    destruct (HasCaretPositions b).
    - eapply line_offset_loop_frame in Hcs as [Hc Hcj];
        [|apply shift_caret_from|intros; simpl; lia]. done.
    - injection Hcs as <-. done. }
  unfold vsize. rewrite Hcp, Hc. done.
Qed.

Lemma appended_since_refl b : appended_since b b.
Proof. by repeat split. Qed.

Lemma appended_since_trans b1 b2 b3 :
  appended_since b1 b2 → appended_since b2 b3 → appended_since b1 b3.
Proof.
  intros (? & ? & ? & ?) (? & ? & ? & ?).
  repeat split; try congruence; by etrans.
Qed.

Lemma AddVertices_appended pos bl sc e b :
  appended_since b (AddVertices pos bl sc e b).
Proof.
  unfold AddVertices. destruct (get_uv e) as [[[ux uy] uz] uw]. simpl.
  repeat split; try done. by apply prefix_app_r.
Qed.

Lemma AddCodepoint_appended cp b : appended_since b (AddCodepoint cp b).
Proof. by repeat split. Qed.

Lemma AddWordBoundary_appended p b : appended_since b (AddWordBoundary p b).
Proof. unfold AddWordBoundary. case_bool_decide; by repeat split. Qed.

Lemma AddCaretPosition_appended pos b b' :
  AddCaretPosition pos b = Some b' → appended_since b b'.
Proof.
  unfold AddCaretPosition, AddCaretPosition_xy.
  destruct (HasCaretPositions b); [|done]. intros [= <-].
  repeat split; try done. simpl. by apply prefix_app_r.
Qed.

(** C10. After [UpdateLine] the line-start markers are the sizes of the
    code-point and caret lists and both word-boundary lists are empty; and
    when geometry is only appended afterwards, the next [UpdateLine] leaves
    every vertex and caret that existed at the first call as it was. *)
Theorem UpdateLine_commits_line p dir lw last b b1 :
  UpdateLine p dir lw last b = Some b1 →
  line_start_index_ b1 = vsize (code_points_ b1)
  ∧ line_start_caret_index_ b1 = vsize (caret_positions_ b1)
  ∧ word_boundary_ b1 = [] ∧ word_boundary_caret_ b1 = []
  ∧ ∀ b2 p' dir' lw' last' b3,
      Verify b1 = true →
      appended_since b1 b2 →
      UpdateLine p' dir' lw' last' b2 = Some b3 →
      vertices_ b1 `prefix_of` vertices_ b3
      ∧ caret_positions_ b1 `prefix_of` caret_positions_ b3.
Proof.
  intros Hu.
  destruct (UpdateLine_frame _ _ _ _ _ _ Hu)
    as (Hv & _ & Hc & _ & Hcp & Hls & Hlsc & Hwb & Hwbc).
  assert (line_start_index_ b1 = vsize (code_points_ b1)) as Hls1
    by (by rewrite Hcp).
  assert (line_start_caret_index_ b1 = vsize (caret_positions_ b1)) as Hlsc1
    by (unfold vsize; by rewrite Hc).
  do 4 (split; [done|]).
  intros b2 p' dir' lw' last' b3 Hverify Happ Hu3. split.
  - destruct Happ as (Hl2 & _ & [ext Hext] & _).
    apply bool_decide_eq_true in Hverify.
    destruct (UpdateLine_frame _ _ _ _ _ _ Hu3) as (Hv3 & Hvj & _).
    exists (drop (length (vertices_ b1)) (vertices_ b3)).
    rewrite <- (take_drop (length (vertices_ b1)) (vertices_ b3)) at 1.
    f_equal. apply list_eq. intros j.
    destruct (decide (j < length (vertices_ b1))%nat) as [Hj|Hj].
    + rewrite lookup_take_lt by done. rewrite Hvj.
      * rewrite Hext. by rewrite lookup_app_l.
      * rewrite Hl2, Hls1. unfold vsize, kVerticesPerCodePoint in *. lia.
    + rewrite lookup_take_ge by lia. symmetry. apply lookup_ge_None. lia.
  - destruct Happ as (_ & Hl2 & _ & [ext Hext]).
    destruct (UpdateLine_frame _ _ _ _ _ _ Hu3) as (_ & _ & Hc3 & Hcj & _).
    exists (drop (length (caret_positions_ b1)) (caret_positions_ b3)).
    rewrite <- (take_drop (length (caret_positions_ b1))
                  (caret_positions_ b3)) at 1.
    f_equal. apply list_eq. intros j.
    destruct (decide (j < length (caret_positions_ b1))%nat) as [Hj|Hj].
    + rewrite lookup_take_lt by done. rewrite Hcj.
      * rewrite Hext. by rewrite lookup_app_l.
      * rewrite Hl2, Hlsc1. unfold vsize. lia.
    + rewrite lookup_take_ge by lia. symmetry. apply lookup_ge_None. lia.
Qed.

(** *** The position loops in closed form *)

Lemma to_int32_small x : int32_range x → to_int32 x = x.
Proof.
  unfold to_int32, int32_range. intros. rewrite Z.mod_small; lia.
Qed.


Lemma filter_none {A} (P : A → Prop) `{∀ x, Decision (P x)} (l : list A) :
  Forall (λ x, ¬ P x) l → filter P l = [].
Proof.
  induction 1 as [|x l Hx _ IH]; [done|].
  by rewrite filter_cons_False by done.
Qed.


(** Without justification every element gets the same offset. *)
Lemma line_offset_loop_uniform {A} (shift : Z → Z → list A → option (list A))
    boundary change count idx k offset xs :
  line_offset_loop shift false boundary change count idx k offset xs
  = apply_shifts shift
      (map (λ i, (i, offset)) (seqZ idx (Z.of_nat count))) xs.
Proof.
  revert idx xs. induction count as [|count IH]; intros idx xs; [done|].
  rewrite seqZ_cons by lia.
  replace (Z.pred (Z.of_nat (S count))) with (Z.of_nat count) by lia.
  simpl. destruct (shift idx offset xs) as [xs'|]; simpl; [|done].
  apply IH.
Qed.


Lemma apply_shifts_glyph (off : Z → Z) count :
  ∀ idx vs,
    0 <= idx → 4 * (idx + Z.of_nat count) <= vsize vs →
    ∃ vs',
      apply_shifts shift_glyph
        (map (λ i, (i, off i)) (seqZ idx (Z.of_nat count))) vs = Some vs'
      ∧ length vs' = length vs
      ∧ ∀ j : nat,
          vs' !! j
          = if decide (4 * idx <= Z.of_nat j < 4 * (idx + Z.of_nat count))
            then add_position_x (off (Z.of_nat j / 4)) <$> vs !! j
            else vs !! j.
Proof.
  induction count as [|count IH]; intros idx vs H0 Hlen.
  - exists vs. split; [done|]. split; [done|]. intros j.
    by rewrite decide_False by lia.
  - rewrite seqZ_cons by lia.
    replace (Z.pred (Z.of_nat (S count))) with (Z.of_nat count) by lia.
    cbn [map apply_shifts].
    destruct (shift_glyph_total idx (off idx) vs) as [vs1 Hs1]; [lia..|].
    rewrite Hs1. cbn [mbind option_bind].
    apply shift_glyph_Some in Hs1 as [Hlen1 Hs1].
    destruct (IH (Z.succ idx) vs1) as (vs' & Happ & Hlen' & Hvs').
    { lia. } { unfold vsize in *. lia. }
    exists vs'. split; [done|]. split; [congruence|].
    intros j. rewrite Hvs', Hs1.
    destruct (decide (4 * idx <= Z.of_nat j < 4 * idx + 4)) as [Hj|Hj].
    + rewrite decide_False by lia. rewrite decide_True by lia.
      replace (Z.of_nat j / 4) with idx; [done|].
      apply (Z.div_unique _ _ _ (Z.of_nat j - 4 * idx)); lia.
    + repeat case_decide; try done; lia.
Qed.

Lemma apply_shifts_caret (off : Z → Z) count :
  ∀ idx cs,
    0 <= idx → idx + Z.of_nat count <= vsize cs →
    ∃ cs',
      apply_shifts shift_caret
        (map (λ i, (i, off i)) (seqZ idx (Z.of_nat count))) cs = Some cs'
      ∧ length cs' = length cs
      ∧ ∀ j : nat,
          cs' !! j
          = if decide (idx <= Z.of_nat j < idx + Z.of_nat count)
            then (λ c, (to_int32 (c.1 + off (Z.of_nat j)), c.2)) <$> cs !! j
            else cs !! j.
Proof.
  induction count as [|count IH]; intros idx cs H0 Hlen.
  - exists cs. split; [done|]. split; [done|]. intros j.
    by rewrite decide_False by lia.
  - rewrite seqZ_cons by lia.
    replace (Z.pred (Z.of_nat (S count))) with (Z.of_nat count) by lia.
    cbn [map apply_shifts].
    destruct (shift_caret_total idx (off idx) cs) as [cs1 Hs1]; [lia|].
    rewrite Hs1. cbn [mbind option_bind].
    apply shift_caret_Some in Hs1 as [Hlen1 Hs1].
    destruct (IH (Z.succ idx) cs1) as (cs' & Happ & Hlen' & Hcs').
    { lia. } { unfold vsize in *. lia. }
    exists cs'. split; [done|]. split; [congruence|].
    intros j. rewrite Hcs', Hs1.
    destruct (decide (Z.of_nat j = idx)) as [Hj|Hj].
    + rewrite decide_False by lia. rewrite decide_True by lia.
      by rewrite Hj.
    + repeat case_decide; try done; lia.
Qed.

(** *** Justified lines *)










(** *** Lines that are not justified *)



Lemma line_offsets_uniform p dir lw justify align b :
  let s := (get_size p).1 - lw in
  justify = 0 ∨ vsize (word_boundary_ b) <= 1 →
  - 2 ^ 31 < s < 2 ^ 31 →
  line_offsets p dir lw justify align b
  = (false,
     direction_sign dir
     * (if bool_decide (align = kTextAlignmentCenter) then Z.quot s 2 else s),
     0).
Proof.
  intros s Hj Hs. unfold line_offsets. fold s.
  rewrite (to_int32_small s) by (unfold int32_range; lia).
  assert (bool_decide (justify ≠ 0)
          && bool_decide (1 < vsize (word_boundary_ b)) = false) as ->.
  { destruct Hj as [-> | Hn].
    - by rewrite bool_decide_eq_false_2 by (intros Hne; by apply Hne).
    - rewrite (bool_decide_eq_false_2 (1 < _)) by lia. apply andb_false_r. }
  assert (- 2 ^ 31 < Z.quot s 2 < 2 ^ 31) as Hq.
  { pose proof (Z.quot_abs s 2 ltac:(lia)) as Habs.
    assert (Z.abs (Z.quot s 2) <= Z.abs s); [|lia].
    rewrite <- Habs. apply Z.quot_le_upper_bound; lia. }
  unfold direction_sign.
  destruct (decide (dir = kTextLayoutDirectionRTL));
    destruct (bool_decide (align = kTextAlignmentCenter));
    rewrite ?to_int32_small by (unfold int32_range; lia);
    f_equal; try f_equal; lia.
Qed.


(** A line that is aligned as a whole: every glyph and caret from the line
    start on moves by the same offset. *)
Lemma UpdateLine_uniform p dir lw last b :
  let s := (get_size p).1 - lw in
  let align :=
    Z.land (get_text_alignment p) (Z.lnot kTextAlignmentJustify) in
  let offset :=
    direction_sign dir
    * (if bool_decide (align = kTextAlignmentCenter) then Z.quot s 2 else s) in
  last = true ∨ vsize (word_boundary_ b) <= 1 →
  align ≠ kTextAlignmentLeft →
  - 2 ^ 31 < s < 2 ^ 31 →
  Verify b = true →
  0 <= line_start_index_ b <= vsize (code_points_ b) →
  0 <= line_start_caret_index_ b <= vsize (caret_positions_ b) →
  ∃ b',
    UpdateLine p dir lw last b = Some b'
    ∧ (∀ (j : nat) v,
         vertices_ b !! j = Some v →
         vertices_ b' !! j
         = Some (if decide (4 * line_start_index_ b <= Z.of_nat j)
                 then add_position_x offset v else v))
    ∧ (∀ (j : nat) cp,
         caret_positions_ b !! j = Some cp →
         caret_positions_ b' !! j
         = Some (if decide (HasCaretPositions b = true
                            ∧ line_start_caret_index_ b <= Z.of_nat j)
                 then (to_int32 (cp.1 + offset), cp.2) else cp)).
Proof.
  intros s align offset Hcase Halign Hs Hverify Hls Hlsc.
  apply bool_decide_eq_true in Hverify.
  unfold UpdateLine. fold align.
  rewrite (bool_decide_eq_true_2 _ Halign), orb_true_r.
  rewrite line_offsets_uniform; [| |done].
  2:{ destruct Hcase as [-> | Hn]; [by left|by right]. }
  fold s. fold offset.
  rewrite !line_offset_loop_uniform.
  destruct (apply_shifts_glyph (λ _, offset)
    (Z.to_nat (vsize (code_points_ b) - line_start_index_ b))
    (line_start_index_ b) (vertices_ b)) as (vs & Hvs & Hvlen & Hvj);
    [lia|unfold kVerticesPerCodePoint in *; lia|].
  cbv beta in Hvs, Hvj. rewrite Hvs. cbn [mbind option_bind].
  assert (∀ (j : nat) v,
    vertices_ b !! j = Some v →
    vs !! j = Some (if decide (4 * line_start_index_ b <= Z.of_nat j)
                    then add_position_x offset v else v)) as Hvs'.
  { intros j v Hv. rewrite Hvj, Hv. simpl. apply lookup_lt_Some in Hv.
    unfold vsize, kVerticesPerCodePoint in *.
    destruct (decide (4 * line_start_index_ b <= Z.of_nat j)).
    - by rewrite decide_True by lia.
    - by rewrite decide_False by lia. }
  destruct (HasCaretPositions b) eqn:Hhas.
  - destruct (apply_shifts_caret (λ _, offset)
      (Z.to_nat (vsize (caret_positions_ b) - line_start_caret_index_ b))
      (line_start_caret_index_ b) (caret_positions_ b))
      as (cs & Hcs & Hclen & Hcj); [lia|lia|].
    cbv beta in Hcs, Hcj. rewrite Hcs. cbn [mbind option_bind].
    eexists. split; [done|]. simpl. split; [done|].
    intros j cp Hcp. rewrite Hcj, Hcp. simpl. apply lookup_lt_Some in Hcp.
    unfold vsize in *.
    destruct (decide (line_start_caret_index_ b <= Z.of_nat j)).
    + rewrite decide_True by lia. by rewrite decide_True by done.
    + rewrite decide_False by lia.
      rewrite decide_False; [done|]. intros [_ ?]. done.
  - cbn [mbind option_bind].
    eexists. split; [done|]. simpl. split; [done|].
    intros j cp Hcp. rewrite Hcp.
    first [done | rewrite decide_False; [done|]; intros [? _]; done].
Qed.

(** *** FontBuffer::UpdateUV *)

Lemma write_uv_Some i uv vs vs' :
  write_uv i uv vs = Some vs' →
  ∃ v, 0 <= i ∧ vs !! Z.to_nat i = Some v
       ∧ vs' = <[Z.to_nat i := set_uv uv v]> vs.
Proof.
  unfold write_uv. destruct (vget vs i) as [v|] eqn:Hv; simpl; [|done].
  apply vget_Some in Hv as [H0 Hv]. intros [= <-]. by exists v.
Qed.

Lemma write_uv_total i uv vs :
  0 <= i < vsize vs → is_Some (write_uv i uv vs).
Proof.
  intros Hi. unfold write_uv. destruct (vget_lt vs i Hi) as [v ->].
  by eexists.
Qed.

Lemma write_uv_positions i uv vs vs' :
  write_uv i uv vs = Some vs' →
  length vs' = length vs ∧ map position_ vs' = map position_ vs.
Proof.
  intros (v & H0 & Hv & ->)%write_uv_Some. rewrite length_insert.
  split; [done|]. change map with (@fmap list _).
  rewrite list_fmap_insert. apply list_insert_id.
  by rewrite list_lookup_fmap, Hv.
Qed.

Lemma write_uv_lookup i uv vs vs' (j : nat) :
  write_uv i uv vs = Some vs' →
  uv_ <$> vs' !! j
  = if decide (Z.of_nat j = i) then Some uv else uv_ <$> vs !! j.
Proof.
  intros (v & H0 & Hv & ->)%write_uv_Some. case_decide as Hj.
  - assert (j = Z.to_nat i) as -> by lia.
    by rewrite list_lookup_insert_eq by (by eapply lookup_lt_Some).
  - by rewrite list_lookup_insert_ne by lia.
Qed.

Lemma write_uv_other i uv vs vs' (j : nat) :
  write_uv i uv vs = Some vs' → Z.of_nat j ≠ i → vs' !! j = vs !! j.
Proof.
  intros (v & H0 & Hv & ->)%write_uv_Some Hj.
  by rewrite list_lookup_insert_ne by lia.
Qed.

(** [FontBuffer::UpdateUV] writes the four corners of [uv] into the glyph
    [index] and nothing else. *)
Lemma FontBuffer_UpdateUV_Some index uv b b' :
  FontBuffer_UpdateUV index uv b = Some b' →
  0 <= index
  ∧ b' = with_vertices (vertices_ b') b
  ∧ length (vertices_ b') = length (vertices_ b)
  ∧ map position_ (vertices_ b') = map position_ (vertices_ b)
  ∧ glyph_has_uv b' (Z.to_nat index) uv
  ∧ ∀ j : nat, ¬ (4 * index <= Z.of_nat j < 4 * index + 4) →
      vertices_ b' !! j = vertices_ b !! j.
Proof.
  unfold FontBuffer_UpdateUV. destruct uv as [[[x y] z] w].
  intros Hu.
  apply bind_Some in Hu as (vs1 & H1 & Hu).
  apply bind_Some in Hu as (vs2 & H2 & Hu).
  apply bind_Some in Hu as (vs3 & H3 & Hu).
  apply bind_Some in Hu as (vs4 & H4 & [= <-]). simpl.
  pose proof (write_uv_Some _ _ _ _ H1) as (_ & H0 & _).
  destruct (write_uv_positions _ _ _ _ H1) as [L1 P1].
  destruct (write_uv_positions _ _ _ _ H2) as [L2 P2].
  destruct (write_uv_positions _ _ _ _ H3) as [L3 P3].
  destruct (write_uv_positions _ _ _ _ H4) as [L4 P4].
  split; [lia|]. split; [done|]. split; [congruence|].
  split; [congruence|]. split.
  - intros n Hn.
    rewrite (write_uv_lookup _ _ _ _ _ H4), (write_uv_lookup _ _ _ _ _ H3),
      (write_uv_lookup _ _ _ _ _ H2), (write_uv_lookup _ _ _ _ _ H1).
    destruct n as [|[|[|[|n]]]]; [| | | |lia]; simpl;
      repeat case_decide; try done; lia.
  - intros j Hj.
    rewrite (write_uv_other _ _ _ _ _ H4), (write_uv_other _ _ _ _ _ H3),
      (write_uv_other _ _ _ _ _ H2), (write_uv_other _ _ _ _ _ H1); [done|lia..].
Qed.

Lemma FontBuffer_UpdateUV_total index uv b :
  0 <= index → 4 * index + 4 <= vsize (vertices_ b) →
  is_Some (FontBuffer_UpdateUV index uv b).
Proof.
  intros H0 Hlen. unfold FontBuffer_UpdateUV. destruct uv as [[[x y] z] w].
  destruct (write_uv_total (index * 4) (x, y) (vertices_ b)) as [vs1 H1];
    [lia|].
  rewrite H1. simpl. destruct (write_uv_positions _ _ _ _ H1) as [L1 _].
  destruct (write_uv_total (index * 4 + 1) (x, w) vs1) as [vs2 H2];
    [unfold vsize in *; lia|].
  rewrite H2. simpl. destruct (write_uv_positions _ _ _ _ H2) as [L2 _].
  destruct (write_uv_total (index * 4 + 2) (z, y) vs2) as [vs3 H3];
    [unfold vsize in *; lia|].
  rewrite H3. simpl. destruct (write_uv_positions _ _ _ _ H3) as [L3 _].
  destruct (write_uv_total (index * 4 + 3) (z, w) vs3) as [vs4 H4];
    [unfold vsize in *; lia|].
  rewrite H4. simpl. by eexists.
Qed.

End BufferProps.

(** ** Justification (claim C4) *)

Example sample_justified_line :
  positions_x <$>
    @UpdateLine Z_float (sample_parameters kTextAlignmentJustify 100)
      kTextLayoutDirectionLTR 90 false (sample_line 3 [1; 2; 3])
  = Some [0; 0; 0; 0; 5; 5; 5; 5; 10; 10; 10; 10].
Proof. vm_compute. reflexivity. Qed.

Example sample_justified_line_rtl :
  positions_x <$>
    @UpdateLine Z_float (sample_parameters kTextAlignmentJustify 100)
      kTextLayoutDirectionRTL 90 false (sample_line 3 [1; 2; 3])
  = Some [0; 0; 0; 0; -5; -5; -5; -5; -10; -10; -10; -10].
Proof. vm_compute. reflexivity. Qed.





(** ** Alignment and the texture coordinates of a glyph *)

(** Right and centre alignment of a line that is not justified (the final
    line, or a line with at most one word boundary): [UpdateLine] moves
    every glyph and every caret of the line by the free width, or by half
    of it rounded toward zero when centred, to the left in a right-to-left
    layout; what came before the line stays. *)
Theorem UpdateLine_aligns `{FloatModel} p dir lw last b :
  let s := (get_size p).1 - lw in
  let align :=
    Z.land (get_text_alignment p) (Z.lnot kTextAlignmentJustify) in
  let offset :=
    direction_sign dir
    * (if bool_decide (align = kTextAlignmentCenter) then Z.quot s 2 else s) in
  last = true ∨ vsize (word_boundary_ b) <= 1 →
  align ≠ kTextAlignmentLeft →
  - 2 ^ 31 < s < 2 ^ 31 →
  Verify b = true →
  0 <= line_start_index_ b <= vsize (code_points_ b) →
  0 <= line_start_caret_index_ b <= vsize (caret_positions_ b) →
  ∃ b',
    UpdateLine p dir lw last b = Some b'
    ∧ (∀ (j : nat) v,
         vertices_ b !! j = Some v →
         vertices_ b' !! j
         = Some (if decide (4 * line_start_index_ b <= Z.of_nat j)
                 then add_position_x offset v else v))
    ∧ (∀ (j : nat) cp,
         caret_positions_ b !! j = Some cp →
         caret_positions_ b' !! j
         = Some (if decide (HasCaretPositions b = true
                            ∧ line_start_caret_index_ b <= Z.of_nat j)
                 then (to_int32 (cp.1 + offset), cp.2) else cp)).
Proof. exact (UpdateLine_uniform p dir lw last b). Qed.

(** A line of three glyphs, 90 wide, centred in a width of 101 from right
    to left: every vertex moves by -5. *)
Lemma UpdateLine_aligns_witness :
  ∃ b',
    @UpdateLine Z_float (sample_parameters kTextAlignmentCenter 101)
      kTextLayoutDirectionRTL 90 true (sample_line 3 []) = Some b'
    ∧ ∀ (j : nat) v,
        @vertices_ Z_float (sample_line 3 []) !! j = Some v →
        @vertices_ Z_float b' !! j
        = Some (if decide (4 * 0 <= Z.of_nat j)
                then @add_position_x Z_float (-1 * Z.quot 11 2) v else v).
Proof.
  destruct (@UpdateLine_aligns Z_float
              (sample_parameters kTextAlignmentCenter 101)
              kTextLayoutDirectionRTL 90 true (sample_line 3 [])
              ltac:(left; reflexivity)
              ltac:(vm_compute; discriminate)
              ltac:(vm_compute; split; reflexivity)
              ltac:(vm_compute; reflexivity)
              ltac:(vm_compute; split; discriminate)
              ltac:(vm_compute; split; discriminate))
    as (b' & Hb' & Hv & _).
  exists b'. split; [exact Hb'|exact Hv].
Defined.

Lemma vget_app_r {A} (l1 l2 : list A) (i : Z) :
  0 <= i → vget (l1 ++ l2) (vsize l1 + i) = l2 !! Z.to_nat i.
Proof.
  intros Hi. unfold vget, vsize. rewrite decide_True by lia.
  rewrite lookup_app_r by lia. f_equal. lia.
Qed.

Lemma write_uv_app_r `{FloatModel} (l1 l2 : list FontVertex) (i : Z) uv v :
  0 <= i → l2 !! Z.to_nat i = Some v →
  write_uv (vsize l1 + i) uv (l1 ++ l2)
  = Some (l1 ++ <[Z.to_nat i := set_uv uv v]> l2).
Proof.
  intros Hi Hv. unfold write_uv. rewrite vget_app_r, Hv by done. simpl.
  f_equal. unfold vsize.
  replace (Z.to_nat (Z.of_nat (length l1) + i))
    with (length l1 + Z.to_nat i)%nat by lia.
  apply insert_app_r.
Qed.

(** [FontBuffer::UpdateUV] on the glyph that [AddVertices] appended last
    gives the vertices that [AddVertices] gives for the entry with the new
    texture rectangle: a refresh is a layout with the moved glyph, the
    positions are not computed again. *)
Theorem AddVertices_UpdateUV `{FloatModel} pos base_line scale entry uv b k :
  vsize (vertices_ b) = 4 * k →
  FontBuffer_UpdateUV k uv (AddVertices pos base_line scale entry b)
  = Some (AddVertices pos base_line scale
            (mkGlyphCacheEntry (entry_code_point entry) (get_offset entry)
               (entry_size entry) (get_pos entry) uv (get_row entry))
            b).
Proof.
  intros Hk. unfold FontBuffer_UpdateUV, AddVertices.
  destruct uv as [[[x y] z] w].
  destruct entry as [cp off sz ps [[[ux uy] uz] uw] row].
  cbn [get_uv get_offset entry_size vertices_ with_vertices].
  replace (k * 4) with (vsize (vertices_ b) + 0) by lia.
  replace (vsize (vertices_ b) + 0 + 1) with (vsize (vertices_ b) + 1) by lia.
  replace (vsize (vertices_ b) + 0 + 2) with (vsize (vertices_ b) + 2) by lia.
  replace (vsize (vertices_ b) + 0 + 3) with (vsize (vertices_ b) + 3) by lia.
  erewrite write_uv_app_r by (done || reflexivity). cbn [mbind option_bind].
  erewrite write_uv_app_r by (done || reflexivity). cbn [mbind option_bind].
  erewrite write_uv_app_r by (done || reflexivity). cbn [mbind option_bind].
  erewrite write_uv_app_r by (done || reflexivity). cbn [mbind option_bind].
  reflexivity.
Qed.

(** The theorem on the first glyph of a buffer. *)
Lemma AddVertices_UpdateUV_witness :
  @FontBuffer_UpdateUV Z_float 0 (1, 2, 3, 4)
    (@AddVertices Z_float (0, 16) 16 1 (sample_entry 66 3)
       (@FontBuffer_new Z_float 0 false))
  = Some (@AddVertices Z_float (0, 16) 16 1
            (@mkGlyphCacheEntry Z_float
               (@entry_code_point Z_float (sample_entry 66 3))
               (@get_offset Z_float (sample_entry 66 3))
               (@entry_size Z_float (sample_entry 66 3))
               (@get_pos Z_float (sample_entry 66 3)) (1, 2, 3, 4)
               (@get_row Z_float (sample_entry 66 3)))
            (@FontBuffer_new Z_float 0 false)).
Proof.
  exact (@AddVertices_UpdateUV Z_float (0, 16) 16 1 (sample_entry 66 3)
           (1, 2, 3, 4) (@FontBuffer_new Z_float 0 false) 0 eq_refl).
Defined.

(** ** FontManager *)

Section ManagerProps.
Context `{Collaborators}.

Lemma bind_unfold {A B} (m : M A) (k : A → M B) fm :
  (m ≫= k) fm
  = match m fm with Ok a fm' => k a fm' | Abort f fm' => Abort f fm' end.
Proof. reflexivity. Qed.

(** Unfolds the monad's primitives in the goal. *)
Ltac run_once :=
  cbv [mbind M_bind bind mret M_ret ret get modify abort log modify_cache];
  cbn [lift final set_calls_ set_glyph_cache_ set_current_font_
       set_harfbuzz_buf_ set_map_buffers_ set_buffers_ set_wordbreak_info_ set_atlas_indices_
       set_atlas_textures_ set_current_atlas_revision_ set_current_pass_
       calls_ glyph_cache_ current_font_ harfbuzz_buf_ map_buffers_ buffers_
       wordbreak_info_ atlas_indices_ atlas_textures_ current_atlas_revision_
       current_pass_ layout_direction_ script_ language_ line_height_
       size_selector_].

Ltac run := repeat (progress run_once).

(** Brings the managers of the goal to the form [mkFontManager ...]. *)
Ltac norm :=
  cbv [set_calls_ set_glyph_cache_ set_current_font_ set_harfbuzz_buf_
       set_map_buffers_ set_buffers_ set_wordbreak_info_ set_atlas_indices_
       set_atlas_textures_ set_current_atlas_revision_ set_current_pass_];
  cbn [calls_ glyph_cache_ current_font_ harfbuzz_buf_ map_buffers_ buffers_
       wordbreak_info_ atlas_indices_ atlas_textures_ current_atlas_revision_
       current_pass_ layout_direction_ script_ language_ line_height_
       size_selector_].

Lemma recorded_refl fm : recorded fm fm [].
Proof. unfold recorded. by rewrite app_nil_r. Qed.

Lemma recorded_trans fm fm1 fm2 new1 new2 :
  recorded fm fm1 new1 → recorded fm1 fm2 new2 →
  recorded fm fm2 (new1 ++ new2).
Proof. unfold recorded. intros -> ->. by rewrite app_assoc. Qed.

Lemma recorded_calls_since fm fm' new :
  recorded fm fm' new → calls_since fm fm' = new.
Proof. unfold recorded, calls_since. intros ->. by rewrite drop_app_length. Qed.

Lemma same_buffers_refl fm : same_buffers fm fm.
Proof. by split. Qed.

Lemma same_buffers_trans fm fm1 fm2 :
  same_buffers fm fm1 → same_buffers fm1 fm2 → same_buffers fm fm2.
Proof. intros [? ?] [? ?]. split; congruence. Qed.

(** *** UpdatePass *)

(** The upload loop records one upload per slice and changes nothing
    else. *)
Lemma upload_slices_spec count : ∀ i fm,
  ∃ uploads,
    Forall (λ c, is_upload c = true) uploads
    ∧ final (upload_slices count i fm)
      = set_calls_ (calls_ fm ++ uploads) fm.
Proof.
  induction count as [|count IH]; intros i fm.
  - exists []. split; [done|]. simpl. rewrite app_nil_r. by destruct fm.
  - simpl. run.
    destruct (vget (atlas_textures_ fm) i) as [[|]|]; simpl.
    + destruct (IH (i + 1)
        (set_calls_ (calls_ fm ++ [CallUpdateTexture i]) fm))
        as (uploads & Hup & Hfinal).
      exists (CallUpdateTexture i :: uploads). split; [by constructor|].
      destruct (upload_slices count (i + 1) _) as [[] fm'|f fm'];
        simpl in *; subst fm'; rewrite <- app_assoc; by destruct fm.
    + exists []. split; [done|]. rewrite app_nil_r. by destruct fm.
    + exists []. split; [done|]. rewrite app_nil_r. by destruct fm.
Qed.

Lemma recorded_set_calls fm new :
  recorded fm (set_calls_ (calls_ fm ++ new) fm) new.
Proof. reflexivity. Qed.

(** C5, amended.  [UpdatePass(true)] flushes the atlas on every call that
    completes, whatever the current pass: it records the uploads (only when
    the cache is dirty and the pass is at most 0), then the warning when the
    pass is positive, then the flush; the revision snapshot is the one of
    the flushed cache and the pass is incremented.  When nothing is to be
    uploaded, as in every second subpass, the call completes; and a call
    that does not complete failed during the uploads, before the flush. *)
Theorem UpdatePass_subpass_flushes fm :
  let gc := gc_Update (glyph_cache_ fm) in
  let upload :=
    gc_get_dirty_state gc && bool_decide (current_pass_ fm <= 0) in
  let warning :=
    if bool_decide (0 < current_pass_ fm)
    then [CallLogInfo MsgMultipleSubpasses] else [] in
  (∀ fm', UpdatePass true fm = Ok tt fm' →
     ∃ uploads,
       Forall (λ c, is_upload c = true) uploads
       ∧ recorded fm fm' (uploads ++ warning ++ [CallFlush])
       ∧ glyph_cache_ fm'
         = gc_Flush (if upload then gc_set_dirty_state false gc else gc)
       ∧ current_atlas_revision_ fm' = gc_get_revision (glyph_cache_ fm')
       ∧ current_pass_ fm' = to_int32 (current_pass_ fm + 1))
  ∧ (upload = false → ∃ fm', UpdatePass true fm = Ok tt fm')
  ∧ (∀ f fm', UpdatePass true fm = Abort f fm' →
       upload = true
       ∧ Forall (λ c, is_upload c = true) (calls_since fm fm')).
Proof.
  intros gc upload warning. unfold UpdatePass. run. fold gc. fold upload.
  subst warning.
  destruct upload eqn:Hupload.
  - (* the dirty rectangles are uploaded first *)
    run.
    destruct (upload_slices_spec
      (Z.to_nat (gc_get_num_slices gc)) 0 (set_glyph_cache_ gc fm))
      as (uploads & Hup & Hfinal).
    destruct (upload_slices _ 0 _) as [[] fm1|f fm1]; simpl in Hfinal;
      subst fm1; run.
    + split; [|split]; [|done|];
        [|intros f fm'; destruct (bool_decide (0 < current_pass_ fm));
          run; done].
      intros fm'.
      destruct (bool_decide (0 < current_pass_ fm)); run; intros [= <-];
        exists uploads; (split; [done|]); run; unfold recorded; run;
        by rewrite <- !app_assoc.
    + split; [|split]; [done|done|].
      intros f' fm' [= <- <-]. split; [done|].
      erewrite recorded_calls_since; [exact Hup|]. reflexivity.
  - run. split; [|split].
    + intros fm'.
      destruct (bool_decide (0 < current_pass_ fm)); run; intros [= <-];
        exists []; (split; [done|]); run; unfold recorded; run;
        by rewrite <- ?app_assoc.
    + intros _. destruct (bool_decide (0 < current_pass_ fm)); run;
        by eexists.
    + intros f fm'. destruct (bool_decide (0 < current_pass_ fm)); run; done.
Qed.

(** *** ReleaseBuffer *)

Lemma deref_Some buffer b fm :
  buffers_ fm !! buffer = Some b → deref buffer fm = Ok b fm.
Proof. intros Hb. unfold deref. run. by rewrite Hb. Qed.

Lemma update_buffer_Some buffer b f fm :
  buffers_ fm !! buffer = Some b →
  update_buffer buffer f fm
  = Ok tt (set_buffers_ (<[buffer := f b]> (buffers_ fm)) fm).
Proof.
  intros Hb. unfold update_buffer. rewrite bind_unfold, (deref_Some _ b) by done.
  reflexivity.
Qed.

(** [ReleaseBuffer] on a buffer with a reference to give back: the count
    is decremented, and what follows depends on whether it reached 0. *)
Lemma ReleaseBuffer_step buffer b fm :
  buffers_ fm !! buffer = Some b → 1 <= get_ref_count b →
  let b1 := set_ref_count (get_ref_count b - 1) b in
  let fm1 := set_buffers_ (<[buffer := b1]> (buffers_ fm)) fm in
  ReleaseBuffer buffer fm
  = if bool_decide (get_ref_count b - 1 = 0)
    then match iterator_ b with
         | Some key =>
             match map_buffers_ fm !! key with
             | Some owned =>
                 Ok tt
                   (set_map_buffers_ (delete key (map_buffers_ fm))
                      (set_buffers_
                         (delete owned
                            (<[buffer := with_referencing_rows [] b1]>
                               (buffers_ fm)))
                         (set_glyph_cache_
                            (foldl (λ gc row, gc_row_Release row buffer gc)
                                   (glyph_cache_ fm) (referencing_rows_ b))
                            fm)))
             | None =>
                 Abort DanglingPointer
                   (set_buffers_
                      (<[buffer := with_referencing_rows [] b1]>
                         (buffers_ fm))
                      (set_glyph_cache_
                         (foldl (λ gc row, gc_row_Release row buffer gc)
                                (glyph_cache_ fm) (referencing_rows_ b))
                         fm))
             end
         | None =>
             Abort DanglingPointer
               (set_buffers_
                  (<[buffer := with_referencing_rows [] b1]> (buffers_ fm))
                  (set_glyph_cache_
                     (foldl (λ gc row, gc_row_Release row buffer gc)
                            (glyph_cache_ fm) (referencing_rows_ b))
                     fm))
         end
    else Ok tt fm1.
Proof.
  intros Hb Hrc b1 fm1. unfold ReleaseBuffer.
  rewrite bind_unfold, (deref_Some _ b) by done.
  rewrite bool_decide_eq_false_2 by lia.
  rewrite bind_unfold, (update_buffer_Some _ b) by done. fold b1 fm1.
  assert (buffers_ fm1 !! buffer = Some b1) as Hb1
    by (subst fm1; run; apply lookup_insert_eq).
  rewrite bind_unfold, (deref_Some _ b1) by done.
  change (get_ref_count b1) with (get_ref_count b - 1).
  destruct (bool_decide (get_ref_count b - 1 = 0)); [|done].
  rewrite bind_unfold. unfold ReleaseCacheRowReference.
  rewrite bind_unfold, (deref_Some _ b1) by done.
  rewrite bind_unfold. run.
  erewrite update_buffer_Some; [|subst fm1; run; apply lookup_insert_eq].
  erewrite deref_Some; [|subst fm1; run; apply lookup_insert_eq].
  unfold erase. subst fm1 b1. run. rewrite insert_insert_eq.
  cbn [iterator_ referencing_rows_ with_referencing_rows set_ref_count].
  destruct (iterator_ b) as [key|]; run; [|done].
  destruct (map_buffers_ fm !! key) as [owned|]; run; done.
Qed.

(** C7. For a live buffer with [ref_count >= 1], [ReleaseBuffer] takes one
    reference off; above 1 it does nothing else; at 1 the count reaches 0,
    the cache rows are released and the buffer leaves the map and is
    destroyed; the count it leaves is never negative.  A buffer with
    [ref_count] below 1 fails the assertion. *)
Theorem ReleaseBuffer_ref_count buffer b fm :
  buffers_ fm !! buffer = Some b →
  (1 < get_ref_count b →
   ReleaseBuffer buffer fm
   = Ok tt (set_buffers_
              (<[buffer := set_ref_count (get_ref_count b - 1) b]>
                 (buffers_ fm)) fm))
  ∧ (get_ref_count b = 1 →
     ∀ key,
       iterator_ b = Some key → map_buffers_ fm !! key = Some buffer →
       ∃ fm',
         ReleaseBuffer buffer fm = Ok tt fm'
         ∧ map_buffers_ fm' = delete key (map_buffers_ fm)
         ∧ buffers_ fm' = delete buffer (buffers_ fm)
         ∧ glyph_cache_ fm'
           = foldl (λ gc row, gc_row_Release row buffer gc) (glyph_cache_ fm)
               (referencing_rows_ b))
  ∧ (1 <= get_ref_count b →
     ∀ fm' b',
       ReleaseBuffer buffer fm = Ok tt fm' →
       buffers_ fm' !! buffer = Some b' →
       get_ref_count b' = get_ref_count b - 1 ∧ 0 <= get_ref_count b')
  ∧ (get_ref_count b < 1 →
     ReleaseBuffer buffer fm = Abort AssertionFailed fm).
Proof.
  intros Hb. split; [|split; [|split]].
  - intros Hrc. rewrite (ReleaseBuffer_step buffer b fm) by (done || lia).
    by rewrite bool_decide_eq_false_2 by lia.
  - intros Hrc key Hit Hkey.
    rewrite (ReleaseBuffer_step buffer b fm) by (done || lia).
    rewrite bool_decide_eq_true_2 by lia. rewrite Hit, Hkey.
    eexists. split; [done|]. run. split; [done|]. split; [|done].
    apply delete_insert_eq.
  - intros Hrc fm' b'.
    rewrite (ReleaseBuffer_step buffer b fm) by (done || lia).
    case_bool_decide as Hz.
    + destruct (iterator_ b) as [key|]; [|done].
      destruct (map_buffers_ fm !! key) as [owned|]; [|done].
      intros [= <-]. run.
      destruct (decide (owned = buffer)) as [->|Hne].
      * by rewrite lookup_delete_eq.
      * rewrite lookup_delete_ne, lookup_insert_eq by done.
        intros [= <-]. simpl. split; [done|lia].
    + intros [= <-]. run. rewrite lookup_insert_eq.
      intros [= <-]. simpl. split; [done|lia].
  - intros Hrc. unfold ReleaseBuffer.
    rewrite bind_unfold, (deref_Some _ b) by done.
    by rewrite bool_decide_eq_true_2 by lia.
Qed.

(** *** GetCachedEntry *)

(** [GetCachedEntry] leaves the buffers alone and records its answer: a
    glyph found, or a notice followed by the failure. *)
Lemma GetCachedEntry_spec code_point ysize flags fm :
  same_buffers fm (final (GetCachedEntry code_point ysize flags fm))
  ∧ match GetCachedEntry code_point ysize flags fm with
    | Ok (Some _) fm' => recorded fm fm' [CallGetCachedEntry code_point true]
    | Ok None fm' =>
        ∃ m, recorded fm fm'
               [CallLogInfo m; CallGetCachedEntry code_point false]
    | Abort _ fm' => recorded fm fm' []
    end.
Proof.
  unfold GetCachedEntry, font, ExpandAtlasTexture, recorded. run.
  destruct (current_font_ fm) as [f|]; run;
    [|by rewrite app_nil_r].
  destruct (gc_Find _ _) as [[cache|] gc]; run.
  - case_bool_decide; run; done.
  - destruct (FT_Load_Glyph _ f) as [err f']; run.
    case_bool_decide; run.
    + split; [done|]. eexists. by rewrite <- app_assoc.
    + destruct (gc_Set _ _ _ _) as [[cache|] gc']; run.
      * destruct (_ && _ && _); run; case_bool_decide; run; done.
      * split; [done|]. eexists. by rewrite <- app_assoc.
Qed.

(** With a font selected, [GetCachedEntry] completes and keeps a font
    selected. *)
Lemma GetCachedEntry_font code_point ysize flags fm :
  is_Some (current_font_ fm) →
  is_Some (current_font_ (final (GetCachedEntry code_point ysize flags fm)))
  ∧ ∃ r fm', GetCachedEntry code_point ysize flags fm = Ok r fm'.
Proof.
  intros [f Hf].
  unfold GetCachedEntry, font, ExpandAtlasTexture. run. rewrite Hf. run.
  destruct (gc_Find _ _) as [[cache|] gc]; run.
  - case_bool_decide; run; (split; [rewrite ?Hf; eexists; reflexivity|do 2 eexists; reflexivity]).
  - destruct (FT_Load_Glyph _ f) as [err f']; run.
    case_bool_decide; run; [split; [rewrite ?Hf; eexists; reflexivity|do 2 eexists; reflexivity]|].
    destruct (gc_Set _ _ _ _) as [[cache|] gc']; run;
      [|split; [rewrite ?Hf; eexists; reflexivity|do 2 eexists; reflexivity]].
    destruct (_ && _ && _); run; case_bool_decide; run;
      (split; [rewrite ?Hf; eexists; reflexivity|do 2 eexists; reflexivity]).
Qed.

(** *** UpdateUV *)

(** One iteration of the loop of [UpdateUV]. *)
Lemma UpdateUV_loop_cons ysize flags buffer code_point rest i fm :
  UpdateUV_loop ysize flags buffer (code_point :: rest) i fm
  = match GetCachedEntry code_point ysize flags fm with
    | Ok None fm1 => Ok false fm1
    | Ok (Some cache) fm1 =>
        match buffers_ fm1 !! buffer with
        | None => Abort DanglingPointer fm1
        | Some b =>
            match FontBuffer_UpdateUV (to_int32 i) (get_uv cache) b with
            | None => Abort OutOfRange fm1
            | Some b1 =>
                UpdateUV_loop ysize flags buffer rest (i + 1)
                  (set_buffers_
                     (<[buffer :=
                          set_revision (gc_get_revision (glyph_cache_ fm1)) b1]>
                        (buffers_ fm1)) fm1)
            end
        end
    | Abort f fm1 => Abort f fm1
    end.
Proof.
  cbn [UpdateUV_loop]. rewrite bind_unfold.
  destruct (GetCachedEntry code_point ysize flags fm) as [[cache|] fm1|f fm1];
    [|done|done].
  unfold deref, update_buffer, deref. run.
  destruct (buffers_ fm1 !! buffer) as [b|]; run; [|done].
  destruct (FontBuffer_UpdateUV _ _ b) as [b1|]; run; [|done].
  rewrite lookup_insert_eq. run. rewrite insert_insert_eq.
  f_equal.
Qed.

Lemma only_uv_and_revision_changed_refl b :
  only_uv_and_revision_changed b b.
Proof. split; [by destruct b|done]. Qed.

Lemma only_uv_and_revision_changed_trans b1 b2 b3 :
  only_uv_and_revision_changed b1 b2 →
  only_uv_and_revision_changed b2 b3 →
  only_uv_and_revision_changed b1 b3.
Proof.
  intros [E12 P12] [E23 P23]. split; [|congruence].
  etrans; [exact E23|]. generalize (revision_ b3) (vertices_ b3).
  intros r v. rewrite E12. reflexivity.
Qed.

(** The loop of [UpdateUV] over the code points [cps] of a well-formed
    buffer, from the glyph [i] on. *)
Lemma UpdateUV_loop_spec ysize flags buffer :
  ∀ cps (i : nat) fm b,
    buffers_ fm !! buffer = Some b →
    is_Some (current_font_ fm) →
    (4 * (i + length cps) <= length (vertices_ b))%nat →
    Z.of_nat (i + length cps) < 2 ^ 31 →
    ∃ b',
      let o := UpdateUV_loop ysize flags buffer cps (Z.of_nat i) fm in
      map_buffers_ (final o) = map_buffers_ fm
      ∧ buffers_ (final o) = <[buffer := b']> (buffers_ fm)
      ∧ current_atlas_revision_ (final o) = current_atlas_revision_ fm
      ∧ is_Some (current_font_ (final o))
      ∧ only_uv_and_revision_changed b b'
      ∧ (∀ j : nat, (j < 4 * i)%nat → vertices_ b' !! j = vertices_ b !! j)
      ∧ match o with
        | Ok true fm' =>
            recorded fm fm' (fetches_found cps)
            ∧ (∃ entries,
                 length entries = length cps
                 ∧ ∀ (k : nat) e,
                     entries !! k = Some e →
                     glyph_has_uv b' (i + k) (get_uv e)
                     ∧ ∃ code_point,
                         cps !! k = Some code_point
                         ∧ fetched ysize flags code_point e)
            ∧ (cps ≠ [] →
               revision_ b' = gc_get_revision (glyph_cache_ fm'))
            ∧ (cps = [] → b' = b)
        | Ok false fm' =>
            ∃ found code_point rest m,
              cps = found ++ code_point :: rest
              ∧ recorded fm fm'
                  (fetches_found found
                   ++ [CallLogInfo m; CallGetCachedEntry code_point false])
        | Abort _ _ => False
        end.
Proof.
  induction cps as [|cp rest IH]; intros i fm b Hb Hfont Hlen Hi.
  - exists b. cbn [UpdateUV_loop]. run.
    split; [done|]. split; [by rewrite insert_id|]. split; [done|].
    split; [done|].
    split; [apply only_uv_and_revision_changed_refl|]. split; [done|].
    split; [apply recorded_refl|]. split; [|done].
    exists []. split; [done|]. intros k e. by rewrite lookup_nil.
  - cbn zeta. rewrite UpdateUV_loop_cons.
    destruct (GetCachedEntry_spec cp ysize flags fm) as [[Hmap Hbuf] Hcalls].
    destruct (GetCachedEntry_font cp ysize flags fm Hfont)
      as [Hfont1 (r & fm1 & Hget)].
    assert (GetCachedEntry_frame :
      current_atlas_revision_ (final (GetCachedEntry cp ysize flags fm))
      = current_atlas_revision_ fm).
    { clear. unfold GetCachedEntry, font, ExpandAtlasTexture. run.
      destruct (current_font_ fm) as [f|]; run; [|done].
      destruct (gc_Find _ _) as [[cache|] gc]; run.
      - case_bool_decide; run; done.
      - destruct (FT_Load_Glyph _ f) as [err f']; run.
        case_bool_decide; run; [done|].
        destruct (gc_Set _ _ _ _) as [[cache|] gc']; run; [|done].
        destruct (_ && _ && _); run; case_bool_decide; run; done. }
    rewrite Hget in *. cbn [final] in *.
    destruct r as [e|].
    + (* the glyph is found *)
      rewrite Hbuf, Hb. rewrite to_int32_small by (unfold int32_range; lia).
      destruct (FontBuffer_UpdateUV_total (Z.of_nat i) (get_uv e) b)
        as [b1 Hb1]; [lia|unfold vsize; simpl in Hlen; lia|].
      rewrite Hb1.
      destruct (FontBuffer_UpdateUV_Some _ _ _ _ Hb1)
        as (_ & Eb1 & Lb1 & Pb1 & Ub1 & Fb1).
      set (b2 := set_revision (gc_get_revision (glyph_cache_ fm1)) b1).
      set (fm2 := set_buffers_ (<[buffer := b2]> (buffers_ fm)) fm1).
      replace (Z.of_nat i + 1) with (Z.of_nat (S i)) by lia.
      destruct (IH (S i) fm2 b2) as (b' & IHo); clear IH.
      { subst fm2. run. apply lookup_insert_eq. }
      { subst fm2. run. done. }
      { subst b2. simpl in *. lia. }
      { simpl in Hi. lia. }
      cbn zeta in IHo.
      destruct IHo as (Hmap' & Hbuf' & Hrev' & Hfont' & Hchg' & Hframe' & Hres).
      exists b'.
      assert (only_uv_and_revision_changed b b2) as Hchg2.
      { subst b2. split; [|done]. simpl. rewrite Eb1 at 1. done. }
      split; [rewrite Hmap'; subst fm2; run; done|].
      split.
      { rewrite Hbuf'. subst fm2. run. by rewrite insert_insert_eq. }
      split; [rewrite Hrev'; subst fm2; run; done|].
      split; [done|].
      split; [by eapply only_uv_and_revision_changed_trans|].
      split.
      { intros j Hj. rewrite Hframe' by lia. subst b2. simpl.
        apply Fb1. lia. }
      assert (∀ fm' new, recorded fm2 fm' new → recorded fm1 fm' new)
        as Hfm2 by (intros fm' new; unfold recorded; subst fm2; run; done).
      destruct (UpdateUV_loop ysize flags buffer rest _ fm2)
        as [[|] fm'|f fm'] eqn:Hloop; cbn [final] in *; [| |done].
      * destruct Hres as (Hrec & (entries & Hel & Hentries) & Hrevision & Hnil).
        pose proof (Hfm2 _ _ Hrec) as Hrec'.
        split.
        { exact (recorded_trans fm fm1 fm' [CallGetCachedEntry cp true]
                   (fetches_found rest) Hcalls Hrec'). }
        split.
        { exists (e :: entries). split; [simpl; lia|].
          intros [|k] e'; simpl.
          - intros [= <-]. split; [|exists cp; split; [done|]].
            + intros n Hn. rewrite Nat.add_0_r.
              rewrite Hframe' by lia. subst b2. simpl.
              specialize (Ub1 n Hn). by rewrite Nat2Z.id in Ub1.
            + by exists fm, fm1.
          - intros He'. destruct (Hentries k e' He') as [Hu Hc].
            split; [|done]. by replace (i + S k)%nat with (S i + k)%nat by lia. }
        split; [|done]. intros _.
        destruct rest as [|cp' rest'].
        { rewrite (Hnil eq_refl). cbn [UpdateUV_loop] in Hloop.
          revert Hloop. run. intros [= <-]. subst b2 fm2. run. done. }
        { apply Hrevision. done. }
      * destruct Hres as (found & cp' & rest' & m & -> & Hrec).
        exists (cp :: found), cp', rest', m. split; [done|].
        exact (recorded_trans fm fm1 fm' [CallGetCachedEntry cp true]
                 (fetches_found found
                  ++ [CallLogInfo m; CallGetCachedEntry cp' false])
                 Hcalls (Hfm2 _ _ Hrec)).
    + (* the glyph is not found: nullptr *)
      exists b. cbn [final]. split; [done|].
      split; [by rewrite Hbuf, insert_id|].
      split; [done|]. split; [done|].
      split; [apply only_uv_and_revision_changed_refl|]. split; [done|].
      destruct Hcalls as [m Hcalls]. exists [], cp, rest, m. done.
Qed.

(** C6 (amended): [UpdateUV] on a stale buffer that records at least one
    code point.  It fetches the code points from the cache in order.  If
    every fetch succeeds it returns the buffer, whose glyphs carry the
    texture rectangles of the fetched entries and whose revision is the
    revision of the cache; if a fetch fails it returns null, that fetch
    being the last call.  In both cases the buffer differs from the one
    before by texture coordinates and revision only (positions, carets and
    every other field are kept), no other buffer changes and the
    deduplication map is the same. *)
Theorem UpdateUV_refreshes_stale_buffer ysize flags buffer fm b :
  buffers_ fm !! buffer = Some b →
  Verify b = true →
  vsize (code_points_ b) < 2 ^ 31 →
  is_Some (current_font_ fm) →
  get_revision b ≠ current_atlas_revision_ fm →
  code_points_ b ≠ [] →
  ∃ b',
    let o := UpdateUV ysize flags buffer fm in
    map_buffers_ (final o) = map_buffers_ fm
    ∧ buffers_ (final o) = <[buffer := b']> (buffers_ fm)
    ∧ only_uv_and_revision_changed b b'
    ∧ caret_positions_ b' = caret_positions_ b
    ∧ match o with
      | Ok (Some r) fm' =>
          r = buffer
          ∧ recorded fm fm' (fetches_found (code_points_ b))
          ∧ revision_ b' = gc_get_revision (glyph_cache_ fm')
          ∧ ∃ entries,
              length entries = length (code_points_ b)
              ∧ ∀ (k : nat) e,
                  entries !! k = Some e →
                  glyph_has_uv b' k (get_uv e)
                  ∧ ∃ code_point,
                      code_points_ b !! k = Some code_point
                      ∧ fetched ysize flags code_point e
      | Ok None fm' =>
          ∃ found code_point rest m,
            code_points_ b = found ++ code_point :: rest
            ∧ recorded fm fm'
                (fetches_found found
                 ++ [CallLogInfo m; CallGetCachedEntry code_point false])
      | Abort _ _ => False
      end.
Proof.
  intros Hb Hverify Hsize [f Hfont] Hstale Hcps.
  unfold Verify, kVerticesPerCodePoint, vsize in Hverify.
  apply bool_decide_eq_true in Hverify. unfold vsize in Hsize.
  set (fm0 := set_current_font_ (Some (SetPixelSize ysize f)) fm).
  destruct (UpdateUV_loop_spec ysize flags buffer (code_points_ b) 0 fm0 b)
    as (b' & Hloop).
  { subst fm0. run. exact Hb. }
  { subst fm0. run. by eexists. }
  { lia. }
  { lia. }
  cbn zeta in Hloop. change (Z.of_nat 0) with 0 in Hloop.
  destruct Hloop as (Hmap & Hbuf & _ & _ & Hchg & _ & Hres).
  assert (∀ fm' new, recorded fm0 fm' new → recorded fm fm' new)
    as Hfm0 by (intros fm' new; unfold recorded; subst fm0; run; done).
  exists b'. cbn zeta.
  assert (UpdateUV ysize flags buffer fm
          = match UpdateUV_loop ysize flags buffer (code_points_ b) 0 fm0 with
            | Ok done fm' => Ok (if done then Some buffer else None) fm'
            | Abort e fm' => Abort e fm'
            end) as ->.
  { unfold UpdateUV, deref, font. run. rewrite Hb. run.
    unfold get_revision. rewrite bool_decide_eq_true_2 by done.
    run. rewrite Hfont. run. reflexivity. }
  destruct (UpdateUV_loop ysize flags buffer (code_points_ b) 0 fm0)
    as [[|] fm'|e fm']; cbn [final] in *; [| |done].
  - split; [rewrite Hmap; subst fm0; run; done|].
    split; [rewrite Hbuf; subst fm0; run; done|].
    split; [done|].
    split; [destruct Hchg as [-> _]; done|].
    destruct Hres as (Hrec & (entries & Hel & Hentries) & Hrev & _).
    split; [done|]. split; [by apply Hfm0|]. split; [by apply Hrev|].
    exists entries. split; [done|]. intros k e He.
    destruct (Hentries k e He) as [Hu Hc]. done.
  - split; [rewrite Hmap; subst fm0; run; done|].
    split; [rewrite Hbuf; subst fm0; run; done|].
    split; [done|].
    split; [destruct Hchg as [-> _]; done|].
    destruct Hres as (found & cp & rest & m & Hsplit & Hrec).
    exists found, cp, rest, m. split; [done|]. by apply Hfm0.
Qed.

(** *** UpdateUV, whatever the buffer *)

Lemma layout_of_only_uv b b' :
  only_uv_and_revision_changed b b' → layout_of b' = layout_of b.
Proof.
  intros [E P].
  assert (∀ vs : list FontVertex,
            map (λ v, mkFontVertex (position_ v) (f_of_int 0, f_of_int 0)) vs
            = map (λ q, mkFontVertex q (f_of_int 0, f_of_int 0))
                  (map position_ vs)) as Hmap
    by (intros vs; by rewrite map_map).
  unfold layout_of. rewrite !Hmap, P. rewrite E. reflexivity.
Qed.

Lemma UpdateUV_loop_frame ysize flags buffer :
  ∀ cps i fm b,
    buffers_ fm !! buffer = Some b →
    let o := UpdateUV_loop ysize flags buffer cps i fm in
    map_buffers_ (final o) = map_buffers_ fm
    ∧ current_pass_ (final o) = current_pass_ fm
    ∧ (∃ b', buffers_ (final o) = <[buffer := b']> (buffers_ fm)
             ∧ only_uv_and_revision_changed b b')
    ∧ ∃ calls, recorded fm (final o) calls
               ∧ Forall (λ c, is_fetch_or_notice c = true) calls.
Proof.
  induction cps as [|cp rest IH]; intros i fm b Hb; cbn zeta.
  - cbn [UpdateUV_loop]. run. split; [done|]. split; [done|]. split.
    + exists b. split; [by rewrite insert_id|].
      apply only_uv_and_revision_changed_refl.
    + exists []. split; [apply recorded_refl|done].
  - rewrite UpdateUV_loop_cons.
    destruct (GetCachedEntry_spec cp ysize flags fm) as [[Hmap Hbuf] Hcalls].
    assert (current_pass_ (final (GetCachedEntry cp ysize flags fm))
            = current_pass_ fm) as Hpass.
    { clear. unfold GetCachedEntry, font, ExpandAtlasTexture. run.
      destruct (current_font_ fm) as [f|]; run; [|done].
      destruct (gc_Find _ _) as [[cache|] gc]; run.
      - case_bool_decide; run; done.
      - destruct (FT_Load_Glyph _ f) as [err f']; run.
        case_bool_decide; run; [done|].
        destruct (gc_Set _ _ _ _) as [[cache|] gc']; run; [|done].
        destruct (_ && _ && _); run; case_bool_decide; run; done. }
    destruct (GetCachedEntry cp ysize flags fm) as [[e|] fm1|f fm1];
      cbn [final] in *.
    + rewrite Hbuf, Hb.
      destruct (FontBuffer_UpdateUV _ _ b) as [b1|] eqn:Hb1; cbn [final].
      * destruct (FontBuffer_UpdateUV_Some _ _ _ _ Hb1)
          as (_ & Eb1 & _ & Pb1 & _ & _).
        set (b2 := set_revision (gc_get_revision (glyph_cache_ fm1)) b1).
        set (fm2 := set_buffers_ (<[buffer := b2]> (buffers_ fm)) fm1).
        destruct (IH (i + 1) fm2 b2) as (Hmap' & Hpass' & Hbuf' & Hcalls').
        { subst fm2. run. apply lookup_insert_eq. }
        cbn zeta in *.
        destruct Hbuf' as (b' & Hbuf' & Hchg').
        destruct Hcalls' as (calls & Hrec & Hall).
        split; [rewrite Hmap'; subst fm2; run; done|].
        split; [rewrite Hpass'; subst fm2; run; done|].
        split.
        { exists b'. split.
          - rewrite Hbuf'. subst fm2. run. by rewrite insert_insert_eq.
          - eapply only_uv_and_revision_changed_trans; [|exact Hchg'].
            subst b2. split; [|done]. simpl. rewrite Eb1 at 1. done. }
        exists (CallGetCachedEntry cp true :: calls). split.
        { apply (recorded_trans fm fm1 _ [CallGetCachedEntry cp true] calls);
            [done|]. revert Hrec. unfold recorded. subst fm2. run. done. }
        by constructor.
      * split; [done|]. split; [done|]. split.
        { exists b. split; [by rewrite Hbuf, insert_id|].
          apply only_uv_and_revision_changed_refl. }
        exists [CallGetCachedEntry cp true]. split; [done|]. by constructor.
    + split; [done|]. split; [done|]. split.
      { exists b. split; [by rewrite Hbuf, insert_id|].
        apply only_uv_and_revision_changed_refl. }
      destruct Hcalls as [m Hcalls].
      exists [CallLogInfo m; CallGetCachedEntry cp false]. split; [done|].
      by repeat constructor.
    + split; [done|]. split; [done|]. split.
      { exists b. split; [by rewrite Hbuf, insert_id|].
        apply only_uv_and_revision_changed_refl. }
      exists []. split; [done|]. done.
Qed.

Lemma UpdateUV_frame ysize flags buffer fm b :
  buffers_ fm !! buffer = Some b →
  let o := UpdateUV ysize flags buffer fm in
  map_buffers_ (final o) = map_buffers_ fm
  ∧ current_pass_ (final o) = current_pass_ fm
  ∧ (∃ b', buffers_ (final o) = <[buffer := b']> (buffers_ fm)
           ∧ only_uv_and_revision_changed b b')
  ∧ (∃ calls, recorded fm (final o) calls
              ∧ Forall (λ c, is_fetch_or_notice c = true) calls)
  ∧ (∀ r fm', o = Ok (Some r) fm' → r = buffer)
  ∧ (get_revision b = current_atlas_revision_ fm → o = Ok (Some buffer) fm).
Proof.
  intros Hb. cbn zeta. unfold UpdateUV, deref, font. run. rewrite Hb. run.
  case_bool_decide as Hstale; run.
  - destruct (current_font_ fm) as [f|]; run.
    + set (fm0 := set_current_font_ (Some (SetPixelSize ysize f)) fm).
      destruct (UpdateUV_loop_frame ysize flags buffer (code_points_ b) 0
                  fm0 b) as (Hmap & Hpass & Hbuf & Hcalls).
      { subst fm0. run. exact Hb. }
      cbn zeta in *.
      destruct (UpdateUV_loop ysize flags buffer (code_points_ b) 0 fm0)
        as [done fm'|e fm']; cbn [final] in *.
      * split; [rewrite Hmap; subst fm0; run; done|].
        split; [rewrite Hpass; subst fm0; run; done|].
        split; [exact Hbuf|]. split; [exact Hcalls|].
        split; [destruct done; congruence|]. intros Hfresh.
        by destruct Hstale.
      * split; [rewrite Hmap; subst fm0; run; done|].
        split; [rewrite Hpass; subst fm0; run; done|].
        split; [exact Hbuf|]. split; [exact Hcalls|].
        split; [done|]. intros Hfresh. by destruct Hstale.
    + split; [done|]. split; [done|]. split.
      { exists b. split; [by rewrite insert_id|].
        apply only_uv_and_revision_changed_refl. }
      split; [exists []; split; [apply recorded_refl|done]|].
      split; [done|]. intros Hfresh. by destruct Hstale.
  - split; [done|]. split; [done|]. split.
    { exists b. split; [by rewrite insert_id|].
      apply only_uv_and_revision_changed_refl. }
    split; [exists []; split; [apply recorded_refl|done]|].
    split; [congruence|]. done.
Qed.

(** *** The steps of a buffer construction *)

Lemma build_step_bind {A B} (nullA : A → bool) (nullB : B → bool)
    (m : M A) (k : A → M B) fm :
  build_step nullA fm (m fm) →
  (∀ a fm1, m fm = Ok a fm1 → nullA a = false →
     build_step nullB fm1 (k a fm1)) →
  (∀ a fm1, m fm = Ok a fm1 → nullA a = true →
     ∃ b fm2, k a fm1 = Ok b fm2 ∧ nullB b = true
              ∧ same_buffers fm1 fm2 ∧ calls_ fm2 = calls_ fm1) →
  build_step nullB fm ((m ≫= k) fm).
Proof.
  intros [Hsame (calls & Hcalls & Hrec)] Hk Hnull. rewrite bind_unfold.
  destruct (m fm) as [a fm1|f fm1]; cbn [final] in *.
  - destruct (nullA a) eqn:Ha.
    + destruct (Hnull a fm1 eq_refl Ha) as (b & fm2 & -> & Hb & Hs & Hc).
      split; [by eapply same_buffers_trans|].
      exists calls. split; [done|]. rewrite Hb. cbn [final].
      destruct Hrec as (msg & cp & Hrec). exists msg, cp.
      unfold recorded in *. by rewrite Hc.
    + destruct (Hk a fm1 eq_refl Ha) as [Hs (calls' & Hcalls' & Hrec')].
      split; [by eapply same_buffers_trans|].
      exists (calls ++ calls'). split; [by apply Forall_app|].
      destruct (if k a fm1 is Ok b _ then nullB b else false).
      * destruct Hrec' as (msg & cp & Hrec'). exists msg, cp.
        rewrite <- app_assoc. by eapply recorded_trans.
      * by eapply recorded_trans.
  - split; [done|]. by exists calls.
Qed.

Lemma build_step_bind_never {A B} (nullB : B → bool)
    (m : M A) (k : A → M B) fm :
  build_step never fm (m fm) →
  (∀ a fm1, m fm = Ok a fm1 → build_step nullB fm1 (k a fm1)) →
  build_step nullB fm ((m ≫= k) fm).
Proof.
  intros Hm Hk. eapply build_step_bind; [exact Hm| |]; [by eauto|].
  intros a fm1 _. discriminate.
Qed.

Lemma build_step_silent {A} (null : A → bool) (a : A) fm fm' :
  null a = false → same_buffers fm fm' → calls_ fm' = calls_ fm →
  build_step null fm (Ok a fm').
Proof.
  intros Ha Hs Hc. split; [done|]. exists []. split; [done|].
  rewrite Ha. unfold recorded. cbn [final]. by rewrite Hc, app_nil_r.
Qed.

Lemma build_step_Abort {A} (null : A → bool) f fm :
  build_step null fm (Abort f fm).
Proof.
  split; [apply same_buffers_refl|]. exists []. split; [done|].
  apply recorded_refl.
Qed.

Lemma build_step_ret {A} (null : A → bool) (a : A) fm :
  null a = false → build_step null fm (ret a fm).
Proof.
  intros Ha. apply build_step_silent; [done|apply same_buffers_refl|done].
Qed.

Lemma build_step_get fm : build_step never fm (get fm).
Proof. by apply build_step_silent. Qed.

Lemma build_step_lift {A} (null : A → bool) f (o : option A) fm :
  (∀ a, o = Some a → null a = false) → build_step null fm (lift f o fm).
Proof.
  intros Ha. destruct o as [a|]; cbn [lift].
  - apply build_step_ret. by apply Ha.
  - apply build_step_Abort.
Qed.

Lemma build_step_font fm : build_step never fm (font fm).
Proof.
  unfold font. apply build_step_bind_never; [apply build_step_get|].
  intros a fm1 _. by apply build_step_lift.
Qed.

Lemma build_step_modify (f : FontManager → FontManager) fm :
  same_buffers fm (f fm) → calls_ (f fm) = calls_ fm →
  build_step never fm (modify f fm).
Proof. intros Hs Hc. by apply build_step_silent. Qed.

Lemma build_step_log c fm :
  is_build_call c = true → build_step never fm (log c fm).
Proof.
  intros Hc. split; [done|]. exists [c]. split; [by constructor|].
  reflexivity.
Qed.

Lemma build_step_GetCachedEntry code_point ysize flags fm :
  build_step is_null fm (GetCachedEntry code_point ysize flags fm).
Proof.
  destruct (GetCachedEntry_spec code_point ysize flags fm) as [Hs Hrec].
  split; [done|].
  destruct (GetCachedEntry code_point ysize flags fm) as [[e|] fm'|f fm'];
    cbn [final is_null] in *.
  - exists [CallGetCachedEntry code_point true]. split; [|done].
    by constructor.
  - exists []. split; [done|]. destruct Hrec as [m Hrec]. by exists m, code_point.
  - by exists [].
Qed.

(** Solves the goals that a step without calls leaves. *)
Ltac silent :=
  first [ reflexivity | done | split; reflexivity ].

(** Takes a construction apart, bind after bind. *)
Ltac build_one :=
  lazymatch goal with
  | |- build_step _ _ ((_ ≫= _) _) =>
      apply build_step_bind_never; [|intros ? ? _; cbn beta]
  | |- build_step _ _ (ret _ _) => apply build_step_ret; reflexivity
  | |- build_step _ _ (mret _ _) => apply build_step_ret; reflexivity
  | |- build_step _ _ (get _) => apply build_step_get
  | |- build_step _ _ (font _) => apply build_step_font
  | |- build_step _ _ (abort _ _) => apply build_step_Abort
  | |- build_step _ _ (lift _ _ _) => apply build_step_lift; by intros
  | |- build_step _ _ (log _ _) => apply build_step_log; reflexivity
  | |- build_step _ _ (modify _ _) => apply build_step_modify; silent
  | |- build_step _ _ (modify_cache _ _) => apply build_step_modify; silent
  | |- build_step _ _ ((if ?c then _ else _) _) => destruct c
  | |- build_step _ _ ((let '(_, _) := ?p in _) _) => destruct p
  | |- build_step _ _ ((match ?x with _ => _ end) _) => destruct x
  end.

Ltac build := repeat build_one.

Lemma build_step_LayoutText text length fm :
  build_step never fm (LayoutText text length fm).
Proof. unfold LayoutText. build. Qed.

Lemma build_step_register_glyph F code_point cache pos b metrics fm :
  build_step never fm (register_glyph F code_point cache pos b metrics fm).
Proof. unfold register_glyph. build. Qed.

(** A step that ends in the null signal without a call. *)
Lemma silent_null {B} (nullB : B → bool) (b : B) fm fm' :
  nullB b = true → same_buffers fm fm' → calls_ fm' = calls_ fm →
  ∃ b' fm2, Ok b fm' = Ok b' fm2 ∧ nullB b' = true
            ∧ same_buffers fm fm2 ∧ calls_ fm2 = calls_ fm.
Proof. intros. by exists b, fm'. Qed.

Lemma build_step_layout_glyph F glyph_info glyph_count idx_advance i idx L fm :
  build_step is_null fm
    (layout_glyph F glyph_info glyph_count idx_advance i idx L fm).
Proof.
  unfold layout_glyph.
  apply build_step_bind_never; [build|intros g fm1 _; cbn beta].
  case_bool_decide; [build|].
  eapply build_step_bind; [apply build_step_GetCachedEntry| |].
  - intros [cache|] fm2 _ Hn; [|discriminate]. cbn beta iota.
    apply build_step_bind_never; [build|intros fm3 fm4 _; cbn beta].
    apply build_step_bind_never.
    { destruct (_ && _); [apply build_step_register_glyph|build]. }
    intros [b metrics] fm5 _. cbn beta iota. build.
  - intros [cache|] fm2 _ Hn; [discriminate|]. cbn beta iota. run.
    by apply (silent_null is_null).
Qed.

Lemma build_step_layout_glyphs F glyph_info glyph_count idx_advance count :
  ∀ i idx L fm,
    build_step is_null fm
      (layout_glyphs F glyph_info glyph_count idx_advance count i idx L fm).
Proof.
  induction count as [|count IH]; intros i idx L fm; cbn [layout_glyphs].
  - build.
  - eapply build_step_bind; [apply build_step_layout_glyph| |].
    + intros [L'|] fm1 _ Hn; [|discriminate]. apply IH.
    + intros [L'|] fm1 _ Hn; [discriminate|]. run.
      by apply (silent_null is_null).
Qed.

Lemma build_step_place_word F L fm :
  build_step never fm (place_word F L fm).
Proof.
  unfold place_word.
  apply build_step_bind_never; [build|intros fm0 fm1 _; cbn beta].
  destruct (negb _).
  - apply build_step_bind_never; [apply build_step_LayoutText|].
    intros w fm2 _. build.
  - apply build_step_bind_never; [apply build_step_LayoutText|].
    intros w fm2 _. build.
Qed.

Lemma build_step_layout_word F L fm :
  build_step is_return_null fm (layout_word F L fm).
Proof.
  unfold layout_word.
  apply build_step_bind_never; [apply build_step_place_word|].
  intros [L1|L1] fm1 _; [|build].
  apply build_step_bind_never; [build|].
  intros [b first] fm2 _. cbn beta iota.
  apply build_step_bind_never; [build|intros fm3 fm4 _; cbn beta].
  eapply build_step_bind; [apply build_step_layout_glyphs| |].
  - intros [L2|] fm5 _ Hn; [|discriminate]. build.
  - intros [L2|] fm5 _ Hn; [discriminate|]. run.
    by apply (silent_null is_return_null).
Qed.

Lemma build_step_layout_words F fuel :
  ∀ L fm, build_step is_null fm (layout_words F fuel L fm).
Proof.
  induction fuel as [|fuel IH]; intros L fm; cbn [layout_words].
  - build.
  - destruct (Advance (word_enum L)) as [[|] w]; [|build].
    eapply build_step_bind; [apply build_step_layout_word| |].
    + intros [L1|L1|] fm1 _ Hn; [apply IH|build|discriminate].
    + intros [L1|L1|] fm1 _ Hn; [discriminate|discriminate|]. run.
      by apply (silent_null is_null).
Qed.

(** The construction of a buffer that the map does not hold yet.  It
    records build calls only, a failed fetch apart, which comes last and
    ends the construction with the null signal; it touches the map and the
    buffers only when it returns the buffer, which it has then inserted at
    a new address. *)
Lemma build_buffer_spec text length parameters ysize converted_ysize scale fm :
  ∃ calls,
    Forall (λ c, is_build_call c = true) calls
    ∧ match build_buffer text length parameters ysize converted_ysize scale fm
      with
      | Ok (Some p) fm' =>
          recorded fm fm' calls
          ∧ p = fresh (dom (buffers_ fm))
          ∧ map_buffers_ fm' = <[parameters := p]> (map_buffers_ fm)
          ∧ ∃ b, buffers_ fm' = <[p := b]> (buffers_ fm)
                 ∧ iterator_ b = Some parameters
                 ∧ get_ref_count b = 1
                 ∧ Verify b = true
      | Ok None fm' =>
          same_buffers fm fm'
          ∧ ∃ m code_point,
              recorded fm fm'
                (calls ++ [CallLogInfo m; CallGetCachedEntry code_point false])
      | Abort _ fm' => same_buffers fm fm' ∧ recorded fm fm' calls
      end.
Proof.
  unfold build_buffer, font. run.
  destruct (current_font_ fm) as [f|] eqn:Hf; run;
    [|exists []; split; [done|]; split;
        [apply same_buffers_refl|apply recorded_refl]].
  destruct (bool_decide (length ≠ 0)); run; rewrite ?Hf; run.
  all: match goal with
  | |- context [layout_words ?F ?n ?L ?fm1] =>
      destruct (build_step_layout_words F n L fm1)
        as [Hs (calls & Hcalls & Hrec)];
      destruct (layout_words F n L fm1) as [[L'|] fm'|e fm']
  end; cbn [final is_null] in Hs, Hrec; exists calls; (split; [done|]).
  all: try (by split; [exact Hs|exact Hrec]).
  all: assert (same_buffers fm fm') as Hs' by exact Hs.
  all: assert (recorded fm fm' calls) as Hrec' by exact Hrec.
  all: clear Hs Hrec.
  all: destruct (get_caret_info_flag parameters);
    [destruct (AddCaretPosition _ _) as [b0|]|]; run; try (by split).
  all: destruct (UpdateLine _ _ _ _ _) as [b1|]; run; try (by split).
  all: destruct (Verify _) eqn:Hv; run; try (by split).
  all: destruct Hs' as [Hm Hb].
  all: split; [exact Hrec'|]; split; [done|]; split; [by rewrite Hm|].
  all: eexists; split; [by rewrite Hb|].
  all: destruct (bool_decide (current_pass_ fm' ≠ kRenderPass));
    (split; [done|split; [done|exact Hv]]).
Qed.

(** *** CreateBuffer *)

Lemma ref_count_only_uv b b' :
  only_uv_and_revision_changed b b' → get_ref_count b' = get_ref_count b.
Proof. intros [E _]. rewrite E. reflexivity. Qed.

(** [CreateBuffer] for parameters that the map holds: the buffer of the map
    is refreshed and returned; no other buffer changes. *)
Lemma CreateBuffer_hit text length parameters fm p b :
  map_buffers_ fm !! parameters = Some p →
  buffers_ fm !! p = Some b →
  let o := CreateBuffer text length parameters fm in
  map_buffers_ (final o) = map_buffers_ fm
  ∧ (∃ calls, recorded fm (final o) (CallCreateBuffer :: calls)
              ∧ Forall (λ c, is_fetch_or_notice c = true) calls)
  ∧ (∃ b', buffers_ (final o) = <[p := b']> (buffers_ fm)
           ∧ layout_of b' = layout_of b
           ∧ match o with
             | Ok (Some q) _ =>
                 q = p
                 ∧ get_ref_count b'
                   = get_ref_count b
                     + (if get_ref_count_flag parameters then 1 else 0)
             | Ok None _ =>
                 get_ref_count_flag parameters = false
                 ∧ get_ref_count b' = get_ref_count b
             | Abort _ _ => True
             end)
  ∧ (get_revision b = current_atlas_revision_ fm →
     o = Ok (Some p)
           (set_buffers_
              (<[p := (if get_ref_count_flag parameters
                       then set_ref_count (get_ref_count b + 1) else id)
                        (if bool_decide (current_pass_ fm ≠ kRenderPass)
                         then set_pass (current_pass_ fm) b else b)]>
                 (buffers_ fm))
              (set_calls_ (calls_ fm ++ [CallCreateBuffer]) fm))).
Proof.
  intros Hmap Hb. cbn zeta. unfold CreateBuffer, ConvertSize. run.
  rewrite Hmap. run.
  set (fm0 := set_calls_ (calls_ fm ++ [CallCreateBuffer]) fm).
  set (b0 := if bool_decide (current_pass_ fm ≠ kRenderPass)
             then set_pass (current_pass_ fm) b else b).
  set (fm1 := set_buffers_ (<[p := b0]> (buffers_ fm)) fm0).
  assert (buffers_ fm1 !! p = Some b0) as Hb0
    by (subst fm1; run; apply lookup_insert_eq).
  assert ((if bool_decide (current_pass_ fm ≠ kRenderPass)
           then update_buffer p (set_pass (current_pass_ fm))
           else λ fm2 : FontManager, Ok () fm2) fm0 = Ok tt fm1) as ->.
  { subst fm1 b0 fm0. case_bool_decide.
    - erewrite update_buffer_Some; [reflexivity|]. run. exact Hb.
    - rewrite insert_id by done. by destruct fm. }
  assert (layout_of b0 = layout_of b ∧ get_ref_count b0 = get_ref_count b
          ∧ get_revision b0 = get_revision b) as (Hl0 & Hrc0 & Hrev0)
    by (subst b0; case_bool_decide; done).
  destruct (UpdateUV_frame
              match size_selector_ fm with
              | Some selector =>
                  selector (f_to_int32 (get_font_size parameters))
              | None => f_to_int32 (get_font_size parameters)
              end (get_glyph_flags parameters) p fm1 b0 Hb0)
    as (Hm & _ & (b1 & Hbuf & Hchg) & (calls & Hrec & Hall) & Hr & Hfresh).
  cbn zeta in *.
  set (cy := match size_selector_ fm with
             | Some selector =>
                 selector (f_to_int32 (get_font_size parameters))
             | None => f_to_int32 (get_font_size parameters)
             end) in *.
  assert (recorded fm fm1 [CallCreateBuffer]) as Hrec1 by reflexivity.
  assert (layout_of b1 = layout_of b) as Hl1
    by (rewrite <- Hl0; by apply layout_of_only_uv).
  assert (get_ref_count b1 = get_ref_count b) as Hrc1
    by (rewrite <- Hrc0; by apply ref_count_only_uv).
  assert (<[p := b1]> (buffers_ fm1) = <[p := b1]> (buffers_ fm)) as Hins
    by (subst fm1; run; apply insert_insert_eq).
  rewrite Hins in Hbuf.
  split; [|split; [|split]].
  4: { intros Hrev. rewrite Hfresh by (rewrite Hrev0; subst fm1 fm0; run; done).
       destruct (get_ref_count_flag parameters).
       - erewrite deref_Some by exact Hb0.
         erewrite update_buffer_Some by exact Hb0.
         subst fm1. run. by rewrite insert_insert_eq, Hrc0.
       - reflexivity. }
  all: destruct (UpdateUV cy (get_glyph_flags parameters) p fm1)
         as [[r|] fm2|e fm2] eqn:Hrun; cbn [final] in *.
  all: try (assert (r = p) as -> by (by eapply Hr)).
  all: assert (buffers_ fm2 !! p = Some b1) as Hb1
         by (rewrite Hbuf; apply lookup_insert_eq).
  all: destruct (get_ref_count_flag parameters) eqn:Hflag; run.
  all: rewrite ?(deref_Some p b1 fm2 Hb1).
  all: rewrite ?(update_buffer_Some p b1 _ fm2 Hb1).
  all: cbn [final]; run.
  all: try (rewrite Hm; subst fm1 fm0; run; done).
  all: try (exists calls; split; [|done];
            apply (recorded_trans fm fm1 _ [CallCreateBuffer] calls);
            [done|exact Hrec]).
  - exists (set_ref_count (get_ref_count b1 + 1) b1).
    split; [by rewrite Hbuf, insert_insert_eq|].
    split; [exact Hl1|]. split; [done|]. simpl. unfold get_ref_count in *. lia.
  - exists b1. split; [done|]. split; [done|]. split; [done|]. lia.
  - by exists b1.
  - by exists b1.
  - by exists b1.
  - by exists b1.
Qed.

(** [CreateBuffer] for parameters that the map does not hold. *)
Lemma CreateBuffer_miss text length parameters fm :
  map_buffers_ fm !! parameters = None →
  CreateBuffer text length parameters fm
  = build_buffer text length parameters
      (f_to_int32 (get_font_size parameters))
      match size_selector_ fm with
      | Some selector => selector (f_to_int32 (get_font_size parameters))
      | None => f_to_int32 (get_font_size parameters)
      end
      (f_div (f_of_int (f_to_int32 (get_font_size parameters)))
         (f_of_int
            match size_selector_ fm with
            | Some selector =>
                selector (f_to_int32 (get_font_size parameters))
            | None => f_to_int32 (get_font_size parameters)
            end))
      (set_calls_ (calls_ fm ++ [CallCreateBuffer]) fm).
Proof.
  intros Hmap. unfold CreateBuffer, ConvertSize. run. rewrite Hmap.
  reflexivity.
Qed.

(** A buffer of the map that is not alive: undefined behaviour. *)
Lemma CreateBuffer_dangling text length parameters fm p :
  map_buffers_ fm !! parameters = Some p →
  buffers_ fm !! p = None →
  ∃ f fm', CreateBuffer text length parameters fm = Abort f fm'
           ∧ same_buffers fm fm'
           ∧ recorded fm fm' [CallCreateBuffer].
Proof.
  intros Hmap Hb. unfold CreateBuffer, ConvertSize. run. rewrite Hmap. run.
  case_bool_decide.
  - unfold update_buffer, deref. run. rewrite Hb. run.
    eexists _, _. split; [reflexivity|]. split; [|reflexivity].
    by split.
  - run. unfold UpdateUV, deref. run. rewrite Hb. run.
    eexists _, _. split; [reflexivity|]. split; [|reflexivity].
    by split.
Qed.

Lemma build_call_kinds c :
  is_build_call c = true →
  is_fetch_failed c = false ∧ is_create_or_flush c = false.
Proof. by destruct c as [| | | |? []| | []|]. Qed.

Lemma fetch_or_notice_kinds c :
  is_fetch_or_notice c = true →
  is_layout c = false ∧ is_create_or_flush c = false.
Proof. by destruct c. Qed.

(** A buffer that [CreateBuffer] returns is the buffer of the map for the
    parameters, and it is alive. *)
Lemma CreateBuffer_returns text length parameters fm p fm' :
  CreateBuffer text length parameters fm = Ok (Some p) fm' →
  map_buffers_ fm' !! parameters = Some p ∧ is_Some (buffers_ fm' !! p).
Proof.
  intros Hrun.
  destruct (map_buffers_ fm !! parameters) as [it|] eqn:Hmap.
  - destruct (buffers_ fm !! it) as [b|] eqn:Hb.
    + destruct (CreateBuffer_hit text length parameters fm it b Hmap Hb)
        as (Hm & _ & (b' & Hbuf & _ & Hres) & _).
      cbn zeta in *. rewrite Hrun in *. cbn [final] in *.
      destruct Hres as [-> _]. rewrite Hm, Hbuf. split; [done|].
      rewrite lookup_insert_eq. by eexists.
    + destruct (CreateBuffer_dangling text length parameters fm it Hmap Hb)
        as (f & fm1 & Hab & _). congruence.
  - rewrite (CreateBuffer_miss _ _ _ _ Hmap) in Hrun.
    match type of Hrun with
    | build_buffer ?t ?l ?p ?y ?c ?s ?m = _ =>
        destruct (build_buffer_spec t l p y c s m) as (calls & _ & Hspec)
    end.
    rewrite Hrun in Hspec.
    destruct Hspec as (_ & -> & -> & b & -> & _).
    rewrite !lookup_insert_eq. split; [done|]. by eexists.
Qed.

(** What any [CreateBuffer] records: its own call first, and neither a
    second one nor a flush; no layout when the map holds the parameters. *)
Lemma CreateBuffer_calls text length parameters fm :
  ∃ calls,
    recorded fm (final (CreateBuffer text length parameters fm))
      (CallCreateBuffer :: calls)
    ∧ Forall (λ c, is_create_or_flush c = false) calls
    ∧ (is_Some (map_buffers_ fm !! parameters) →
       Forall (λ c, is_layout c = false) calls).
Proof.
  destruct (map_buffers_ fm !! parameters) as [it|] eqn:Hmap.
  - destruct (buffers_ fm !! it) as [b|] eqn:Hb.
    + destruct (CreateBuffer_hit text length parameters fm it b Hmap Hb)
        as (_ & (calls & Hrec & Hall) & _).
      exists calls. split; [exact Hrec|].
      split; [|intros _]; eapply Forall_impl; try exact Hall;
        intros c Hc; by apply fetch_or_notice_kinds.
    + destruct (CreateBuffer_dangling text length parameters fm it Hmap Hb)
        as (f & fm1 & -> & _ & Hrec).
      exists []. by split.
  - rewrite (CreateBuffer_miss _ _ _ _ Hmap).
    match goal with
    | |- context [build_buffer ?t ?l ?p ?y ?c ?s ?m] =>
        destruct (build_buffer_spec t l p y c s m) as (calls & Hall & Hspec);
        destruct (build_buffer t l p y c s m) as [[q|] fm'|f fm']
    end; cbn [final].
    + exists calls. destruct Hspec as (Hrec & _).
      split; [|split; [|by intros []]].
      * apply (recorded_trans fm
                 (set_calls_ (calls_ fm ++ [CallCreateBuffer]) fm) fm'
                 [CallCreateBuffer] calls); [reflexivity|exact Hrec].
      * eapply Forall_impl; [exact Hall|].
        intros c Hc. by apply build_call_kinds.
    + destruct Hspec as (_ & m & cp & Hrec).
      exists (calls ++ [CallLogInfo m; CallGetCachedEntry cp false]).
      split; [|split; [|by intros []]].
      * apply (recorded_trans fm
                 (set_calls_ (calls_ fm ++ [CallCreateBuffer]) fm) fm'
                 [CallCreateBuffer]); [reflexivity|exact Hrec].
      * apply Forall_app. split; [|by repeat constructor].
        eapply Forall_impl; [exact Hall|].
        intros c Hc. by apply build_call_kinds.
    + exists calls. destruct Hspec as (_ & Hrec).
      split; [|split; [|by intros []]].
      * apply (recorded_trans fm
                 (set_calls_ (calls_ fm ++ [CallCreateBuffer]) fm) fm'
                 [CallCreateBuffer] calls); [reflexivity|exact Hrec].
      * eapply Forall_impl; [exact Hall|].
        intros c Hc. by apply build_call_kinds.
Qed.

(** *** GetBuffer *)

(** What [UpdatePass(true)] records, and that it keeps the buffers. *)
Lemma UpdatePass_true_calls fm :
  let o := UpdatePass true fm in
  same_buffers fm (final o)
  ∧ ∃ uploads notices,
      Forall (λ c, is_upload c = true) uploads
      ∧ Forall (λ c, is_fetch_or_notice c = true) notices
      ∧ recorded fm (final o)
          (uploads ++ notices ++ if o is Ok _ _ then [CallFlush] else []).
Proof.
  cbn zeta. unfold UpdatePass. run.
  set (gc := gc_Update (glyph_cache_ fm)).
  destruct (gc_get_dirty_state gc && bool_decide (current_pass_ fm <= 0)).
  - run.
    destruct (upload_slices_spec
      (Z.to_nat (gc_get_num_slices gc)) 0 (set_glyph_cache_ gc fm))
      as (uploads & Hup & Hfinal).
    destruct (upload_slices _ 0 _) as [[] fm1|f fm1]; simpl in Hfinal;
      subst fm1; run.
    + destruct (bool_decide (0 < current_pass_ fm)); run.
      * split; [by split|].
        exists uploads, [CallLogInfo MsgMultipleSubpasses].
        split; [done|]. split; [by repeat constructor|].
        unfold recorded. run. by rewrite <- !app_assoc.
      * split; [by split|]. exists uploads, [].
        split; [done|]. split; [done|].
        unfold recorded. run. by rewrite <- !app_assoc.
    + split; [by split|]. exists uploads, [].
      split; [done|]. split; [done|].
      unfold recorded. run. by rewrite app_nil_r.
  - run. destruct (bool_decide (0 < current_pass_ fm)); run.
    + split; [by split|].
      exists [], [CallLogInfo MsgMultipleSubpasses].
      split; [done|]. split; [by repeat constructor|].
      unfold recorded. run. by rewrite <- !app_assoc.
    + split; [by split|]. exists [], [].
      split; [done|]. split; [done|]. reflexivity.
Qed.

Lemma upload_kinds c :
  is_upload c = true → is_layout c = false ∧ is_create_or_flush c = false.
Proof. by destruct c. Qed.

(** C2.  A construction, that is [CreateBuffer] for parameters that the map
    does not hold yet.  When a glyph fetch reports that the cache is full,
    the construction returns null, the failed fetch being its last call, and
    the map and the buffers are as they were: no partial buffer is inserted
    or returned.  A construction that returns null had such a fetch; one
    that returns a buffer had none, and the buffer it inserted is whole (it
    passes [Verify]). *)
Theorem CreateBuffer_cache_full text length parameters fm :
  map_buffers_ fm !! parameters = None →
  let o := CreateBuffer text length parameters fm in
  ((∃ c, c ∈ calls_since fm (final o) ∧ is_fetch_failed c = true) →
   ∃ fm', o = Ok None fm' ∧ same_buffers fm fm')
  ∧ (∀ fm', o = Ok None fm' →
       same_buffers fm fm'
       ∧ ∃ code_point,
           list.last (calls_ fm') = Some (CallGetCachedEntry code_point false))
  ∧ (∀ p fm', o = Ok (Some p) fm' →
       Forall (λ c, is_fetch_failed c = false) (calls_since fm fm')
       ∧ map_buffers_ fm' = <[parameters := p]> (map_buffers_ fm)
       ∧ ∃ b, buffers_ fm' = <[p := b]> (buffers_ fm)
              ∧ buffers_ fm !! p = None
              ∧ Verify b = true).
Proof.
  intros Hmap. cbn zeta. rewrite (CreateBuffer_miss _ _ _ _ Hmap).
  set (fm0 := set_calls_ (calls_ fm ++ [CallCreateBuffer]) fm).
  match goal with
  | |- context [build_buffer ?t ?l ?p ?y ?c ?s fm0] =>
      destruct (build_buffer_spec t l p y c s fm0) as (calls & Hall & Hspec);
      destruct (build_buffer t l p y c s fm0) as [[q|] fm'|f fm']
  end; cbn [final].
  - (* a buffer is returned *)
    destruct Hspec as (Hrec & -> & Hm & b & Hbuf & _ & _ & Hverify).
    assert (calls_since fm fm' = CallCreateBuffer :: calls) as Hsince.
    { apply recorded_calls_since.
      apply (recorded_trans fm fm0 fm' [CallCreateBuffer] calls);
        [reflexivity|exact Hrec]. }
    assert (Forall (λ c, is_fetch_failed c = false) (calls_since fm fm'))
      as Hnone.
    { rewrite Hsince. constructor; [done|].
      eapply Forall_impl; [exact Hall|]. intros c Hc.
      by apply build_call_kinds. }
    split; [|split; [done|]].
    + intros (c & Hin & Hc). rewrite Forall_forall in Hnone.
      rewrite (Hnone c Hin) in Hc. discriminate.
    + intros p fm2 [= <- <-]. split; [done|]. split; [exact Hm|].
      exists b. split; [exact Hbuf|]. split; [|exact Hverify].
      apply not_elem_of_dom. apply is_fresh.
  - (* null is returned *)
    destruct Hspec as (Hsame & m & cp & Hrec).
    assert (same_buffers fm fm') as Hsame' by exact Hsame.
    split; [intros _; by exists fm'|]. split; [|done].
    intros fm2 [= <-]. split; [done|]. exists cp.
    rewrite Hrec.
    change [CallLogInfo m; CallGetCachedEntry cp false]
      with ([CallLogInfo m] ++ [CallGetCachedEntry cp false]).
    rewrite !app_assoc. apply last_snoc.
  - (* undefined behaviour *)
    destruct Hspec as (Hsame & Hrec).
    assert (calls_since fm fm' = CallCreateBuffer :: calls) as Hsince.
    { apply recorded_calls_since.
      apply (recorded_trans fm fm0 fm' [CallCreateBuffer] calls);
        [reflexivity|exact Hrec]. }
    split; [|done].
    intros (c & Hin & Hc). rewrite Hsince in Hin.
    apply elem_of_cons in Hin as [->|Hin]; [discriminate|].
    rewrite Forall_forall in Hall.
    destruct (build_call_kinds c (Hall c Hin)) as [Hf _]. congruence.
Qed.

Lemma GetBuffer_unfold text length parameter fm :
  GetBuffer text length parameter fm
  = match CreateBuffer text (to_uint32 length) parameter fm with
    | Ok (Some p) fm1 => Ok (Some p) fm1
    | Ok None fm1 =>
        match UpdatePass true
                (set_calls_ (calls_ fm1 ++ [CallFlushAndUpdate]) fm1) with
        | Ok _ fm2 =>
            match CreateBuffer text (to_uint32 length) parameter fm2 with
            | Ok (Some p) fm3 => Ok (Some p) fm3
            | Ok None fm3 =>
                Ok None
                  (set_calls_ (calls_ fm3 ++ [CallLogError MsgDoesNotFit])
                     fm3)
            | Abort f fm3 => Abort f fm3
            end
        | Abort f fm2 => Abort f fm2
        end
    | Abort f fm1 => Abort f fm1
    end.
Proof.
  unfold GetBuffer, FlushAndUpdate. run.
  destruct (CreateBuffer _ _ _ fm) as [[p|] fm1|f fm1]; run; [done| |done].
  destruct (UpdatePass true _) as [[] fm2|f fm2]; run; [|done].
  destruct (CreateBuffer _ _ _ fm2) as [[p|] fm3|f fm3]; run; done.
Qed.

Lemma retry_calls_app calls1 calls2 :
  retry_calls (calls1 ++ calls2) = retry_calls calls1 ++ retry_calls calls2.
Proof. apply filter_app. Qed.

Lemma retry_calls_quiet calls :
  Forall (λ c, is_create_or_flush c = false) calls → retry_calls calls = [].
Proof.
  intros Hall. apply filter_none. eapply Forall_impl; [exact Hall|].
  intros c Hc. simpl. congruence.
Qed.

(** C1.  A [GetBuffer] whose first [CreateBuffer] returns null flushes the
    atlas once and constructs once more.  When it completes, its calls that
    are constructions or flushes are, in order: the first construction, the
    flush and update, the flush of the cache, the second construction; and
    its result is the result of that second construction, null (with the
    error logged) only when the second construction returns null.  When it
    does not complete, its constructions and flushes are a prefix of
    these: in no case is there a second flush or a third construction. *)
Theorem GetBuffer_single_retry text length parameter fm fm1 :
  CreateBuffer text (to_uint32 length) parameter fm = Ok None fm1 →
  let o := GetBuffer text length parameter fm in
  let expected :=
    [CallCreateBuffer; CallFlushAndUpdate; CallFlush; CallCreateBuffer] in
  (∀ r fm', o = Ok r fm' →
     retry_calls (calls_since fm fm') = expected
     ∧ ∃ fm2 fm3,
         FlushAndUpdate fm1 = Ok tt fm2
         ∧ CreateBuffer text (to_uint32 length) parameter fm2 = Ok r fm3
         ∧ fm' = (if r is None
                  then set_calls_
                         (calls_ fm3 ++ [CallLogError MsgDoesNotFit]) fm3
                  else fm3))
  ∧ retry_calls (calls_since fm (final o)) `prefix_of` expected.
Proof.
  intros Hfirst. cbn zeta. rewrite GetBuffer_unfold, Hfirst.
  destruct (CreateBuffer_calls text (to_uint32 length) parameter fm)
    as (calls1 & Hrec1 & Hquiet1 & _).
  rewrite Hfirst in Hrec1. cbn [final] in Hrec1.
  set (fmF := set_calls_ (calls_ fm1 ++ [CallFlushAndUpdate]) fm1).
  assert (FlushAndUpdate fm1 = UpdatePass true fmF) as HF by reflexivity.
  rewrite HF.
  destruct (UpdatePass_true_calls fmF)
    as (_ & uploads & notices & Hup & Hnot & HrecU).
  cbn zeta in HrecU.
  assert (retry_calls (CallCreateBuffer :: calls1) = [CallCreateBuffer])
    as Hr1.
  { change (CallCreateBuffer :: calls1) with ([CallCreateBuffer] ++ calls1).
    by rewrite retry_calls_app, (retry_calls_quiet calls1). }
  assert (retry_calls uploads = []) as Hr2.
  { apply retry_calls_quiet. eapply Forall_impl; [exact Hup|].
    intros c Hc. by apply upload_kinds. }
  assert (retry_calls notices = []) as Hr3.
  { apply retry_calls_quiet. eapply Forall_impl; [exact Hnot|].
    intros c Hc. by apply fetch_or_notice_kinds. }
  assert (recorded fm fmF ((CallCreateBuffer :: calls1)
                           ++ [CallFlushAndUpdate])) as HrecF.
  { apply (recorded_trans fm fm1 fmF); [exact Hrec1|reflexivity]. }
  destruct (UpdatePass true fmF) as [[] fm2|f fm2]; cbn [final] in *.
  - destruct (CreateBuffer_calls text (to_uint32 length) parameter fm2)
      as (calls2 & Hrec2 & Hquiet2 & _).
    assert (retry_calls (CallCreateBuffer :: calls2) = [CallCreateBuffer])
      as Hr4.
    { change (CallCreateBuffer :: calls2) with ([CallCreateBuffer] ++ calls2).
      by rewrite retry_calls_app, (retry_calls_quiet calls2). }
    pose proof (recorded_trans _ _ _ _ _
                  (recorded_trans _ _ _ _ _ HrecF HrecU) Hrec2) as Hrec.
    assert (retry_calls
              ((((CallCreateBuffer :: calls1) ++ [CallFlushAndUpdate])
                ++ (uploads ++ notices ++ [CallFlush]))
               ++ CallCreateBuffer :: calls2)
            = [CallCreateBuffer; CallFlushAndUpdate; CallFlush;
               CallCreateBuffer]) as Hretry.
    { rewrite !retry_calls_app, Hr1, Hr2, Hr3, Hr4. reflexivity. }
    destruct (CreateBuffer text (to_uint32 length) parameter fm2)
      as [[p|] fm3|f fm3] eqn:Hsecond; cbn [final] in *.
    + rewrite (recorded_calls_since _ _ _ Hrec), Hretry. split; [|done].
      intros r fm' [= <- <-].
      rewrite (recorded_calls_since _ _ _ Hrec), Hretry. split; [done|].
      exists fm2, fm3. by rewrite Hsecond.
    + assert (recorded fm
                (set_calls_ (calls_ fm3 ++ [CallLogError MsgDoesNotFit]) fm3)
                (((((CallCreateBuffer :: calls1) ++ [CallFlushAndUpdate])
                   ++ (uploads ++ notices ++ [CallFlush]))
                  ++ CallCreateBuffer :: calls2)
                 ++ [CallLogError MsgDoesNotFit])) as Hrec'
        by (apply (recorded_trans fm fm3); [exact Hrec|reflexivity]).
      rewrite (recorded_calls_since _ _ _ Hrec'), retry_calls_app, Hretry.
      split; [|done].
      intros r fm' [= <- <-].
      rewrite (recorded_calls_since _ _ _ Hrec'), retry_calls_app, Hretry.
      split; [done|]. exists fm2, fm3. by rewrite Hsecond.
    + rewrite (recorded_calls_since _ _ _ Hrec), Hretry. by split.
  - split; [done|].
    pose proof (recorded_trans _ _ _ _ _ HrecF HrecU) as Hrec.
    rewrite (recorded_calls_since _ _ _ Hrec).
    rewrite !retry_calls_app, Hr1, Hr2, Hr3. simpl.
    by exists [CallFlush; CallCreateBuffer].
Qed.

(** A buffer that [GetBuffer] returns is the buffer of the map for the
    parameters, and it is alive. *)
Lemma GetBuffer_returns text length parameters fm p fm' :
  GetBuffer text length parameters fm = Ok (Some p) fm' →
  map_buffers_ fm' !! parameters = Some p ∧ is_Some (buffers_ fm' !! p).
Proof.
  rewrite GetBuffer_unfold.
  destruct (CreateBuffer _ _ _ fm) as [[q|] fm1|f fm1] eqn:Hfirst;
    [|destruct (UpdatePass true _) as [[] fm2|f fm2]|]; try done.
  - intros [= <- <-]. by eapply CreateBuffer_returns.
  - destruct (CreateBuffer _ _ _ fm2) as [[q|] fm3|f fm3] eqn:Hsecond;
      try done.
    intros [= <- <-]. by eapply CreateBuffer_returns.
Qed.

Lemma quiet_layout_fetches calls :
  Forall (λ c, is_fetch_or_notice c = true) calls →
  Forall (λ c, is_layout c = false) calls.
Proof.
  intros Hall. eapply Forall_impl; [exact Hall|].
  intros c Hc. by apply fetch_or_notice_kinds.
Qed.

Lemma quiet_layout_uploads calls :
  Forall (λ c, is_upload c = true) calls →
  Forall (λ c, is_layout c = false) calls.
Proof.
  intros Hall. eapply Forall_impl; [exact Hall|].
  intros c Hc. by apply upload_kinds.
Qed.

(** A glyph that the cache holds is returned as it is found: the font and
    the buffers are as before. *)
Lemma GetCachedEntry_found code_point ysize flags fm f e gc :
  current_font_ fm = Some f →
  gc_Find (mkGlyphKey (info_font_id (GetGlyphInfo code_point f))
             code_point ysize flags) (glyph_cache_ fm)
  = (Some e, gc) →
  ∃ fm',
    GetCachedEntry code_point ysize flags fm = Ok (Some e) fm'
    ∧ glyph_cache_ fm' = gc
    ∧ current_font_ fm' = Some f
    ∧ buffers_ fm' = buffers_ fm
    ∧ recorded fm fm' [CallGetCachedEntry code_point true].
Proof.
  intros Hfont Hfind. unfold GetCachedEntry, font, ExpandAtlasTexture. run.
  rewrite Hfont. run. rewrite Hfind. run.
  case_bool_decide; run; eexists; (split; [reflexivity|]); done.
Qed.

(** The loop of [UpdateUV] over code points that the cache holds, on a
    well-formed buffer: every fetch succeeds and the loop completes. *)
Lemma UpdateUV_loop_found ysize flags buffer :
  ∀ cps (i : nat) fm b f,
    buffers_ fm !! buffer = Some b →
    current_font_ fm = Some f →
    (4 * (i + length cps) <= length (vertices_ b))%nat →
    Z.of_nat (i + length cps) < 2 ^ 31 →
    cache_holds f ysize flags cps (glyph_cache_ fm) = true →
    ∃ fm' b',
      UpdateUV_loop ysize flags buffer cps (Z.of_nat i) fm = Ok true fm'
      ∧ recorded fm fm' (fetches_found cps)
      ∧ buffers_ fm' !! buffer = Some b'.
Proof.
  induction cps as [|cp rest IH]; intros i fm b f Hb Hfont Hlen Hi Hholds.
  - cbn [UpdateUV_loop]. run. exists fm, b.
    split; [done|]. split; [apply recorded_refl|done].
  - cbn [cache_holds] in Hholds.
    destruct (gc_Find _ (glyph_cache_ fm)) as [[e|] gc] eqn:Hfind; [|done].
    destruct (GetCachedEntry_found cp ysize flags fm f e gc Hfont Hfind)
      as (fm1 & Hget & Hgc & Hfont1 & Hbuf1 & Hrec1).
    rewrite <- Hbuf1 in Hb. rewrite UpdateUV_loop_cons, Hget, Hb.
    cbn [length] in Hlen, Hi.
    rewrite to_int32_small by (unfold int32_range; lia).
    destruct (FontBuffer_UpdateUV_total (Z.of_nat i) (get_uv e) b)
      as [b1 Hb1]; [lia|unfold vsize; lia|].
    rewrite Hb1.
    destruct (FontBuffer_UpdateUV_Some _ _ _ _ Hb1) as (_ & _ & Hlen1 & _).
    set (b2 := set_revision (gc_get_revision (glyph_cache_ fm1)) b1).
    set (fm2 := set_buffers_ (<[buffer := b2]> (buffers_ fm1)) fm1).
    replace (Z.of_nat i + 1) with (Z.of_nat (S i)) by lia.
    destruct (IH (S i) fm2 b2 f) as (fm' & b' & Hloop & Hrec & Hb').
    + subst fm2. run. apply lookup_insert_eq.
    + subst fm2. run. exact Hfont1.
    + subst b2. cbn [vertices_ set_revision]. lia.
    + lia.
    + subst fm2. run. by rewrite Hgc.
    + exists fm', b'. split; [exact Hloop|]. split; [|exact Hb'].
      apply (recorded_trans fm fm1 fm' [CallGetCachedEntry cp true]
               (fetches_found rest)); [exact Hrec1|].
      revert Hrec. unfold recorded. subst fm2. run. done.
Qed.

(** [CreateBuffer] for parameters of the map whose buffer is stale, when
    the cache holds the glyphs of the buffer: the buffer is refreshed and
    returned, and the fetches of its code points are all that is done. *)
Lemma CreateBuffer_hit_found text length parameters fm p b f :
  map_buffers_ fm !! parameters = Some p →
  buffers_ fm !! p = Some b →
  current_font_ fm = Some f →
  Verify b = true →
  vsize (code_points_ b) < 2 ^ 31 →
  get_revision b ≠ current_atlas_revision_ fm →
  cache_holds (SetPixelSize (converted_size parameters fm) f)
    (converted_size parameters fm) (get_glyph_flags parameters)
    (code_points_ b) (glyph_cache_ fm) = true →
  ∃ fm',
    CreateBuffer text length parameters fm = Ok (Some p) fm'
    ∧ recorded fm fm' (CallCreateBuffer :: fetches_found (code_points_ b)).
Proof.
  intros Hmap Hb Hfont Hverify Hsize Hstale Hholds.
  unfold Verify, kVerticesPerCodePoint, vsize in Hverify.
  apply bool_decide_eq_true in Hverify. unfold vsize in Hsize.
  unfold CreateBuffer, ConvertSize. run. rewrite Hmap. run.
  fold (converted_size parameters fm).
  set (cy := converted_size parameters fm) in *.
  set (fm0 := set_calls_ (calls_ fm ++ [CallCreateBuffer]) fm).
  set (b0 := if bool_decide (current_pass_ fm ≠ kRenderPass)
             then set_pass (current_pass_ fm) b else b).
  set (fm1 := set_buffers_ (<[p := b0]> (buffers_ fm)) fm0).
  assert (buffers_ fm1 !! p = Some b0) as Hb0
    by (subst fm1; run; apply lookup_insert_eq).
  assert ((if bool_decide (current_pass_ fm ≠ kRenderPass)
           then update_buffer p (set_pass (current_pass_ fm))
           else λ fm2 : FontManager, Ok () fm2) fm0 = Ok tt fm1) as ->.
  { subst fm1 b0 fm0. case_bool_decide.
    - erewrite update_buffer_Some; [reflexivity|]. run. exact Hb.
    - rewrite insert_id by done. by destruct fm. }
  assert (vertices_ b0 = vertices_ b ∧ code_points_ b0 = code_points_ b
          ∧ get_revision b0 = get_revision b) as (Hv0 & Hc0 & Hrev0)
    by (subst b0; case_bool_decide; done).
  set (fmU := set_current_font_ (Some (SetPixelSize cy f)) fm1).
  destruct (UpdateUV_loop_found cy (get_glyph_flags parameters) p
              (code_points_ b0) 0 fmU b0 (SetPixelSize cy f))
    as (fm2 & b2 & Hloop & Hrec & Hb2).
  { subst fmU. run. exact Hb0. }
  { subst fmU. run. reflexivity. }
  { rewrite Hv0, Hc0. lia. }
  { rewrite Hc0. lia. }
  { rewrite Hc0. subst fmU fm1 fm0. run. exact Hholds. }
  change (Z.of_nat 0) with 0 in Hloop.
  assert (UpdateUV cy (get_glyph_flags parameters) p fm1 = Ok (Some p) fm2)
    as ->.
  { unfold UpdateUV, deref, font. run. rewrite Hb0. run.
    rewrite Hrev0.
    rewrite bool_decide_eq_true_2
      by (subst fm1 fm0; run; exact Hstale).
    run. assert (current_font_ fm1 = Some f) as ->
      by (subst fm1 fm0; run; exact Hfont).
    run. fold fmU. by rewrite Hloop. }
  assert (recorded fm fm2 (CallCreateBuffer :: fetches_found (code_points_ b)))
    as Hall.
  { rewrite <- Hc0.
    apply (recorded_trans fm fm1 fm2 [CallCreateBuffer]); [reflexivity|].
    revert Hrec. unfold recorded. subst fmU. run. done. }
  destruct (get_ref_count_flag parameters); run.
  - rewrite (deref_Some p b2 fm2 Hb2).
    rewrite (update_buffer_Some p b2 _ fm2 Hb2).
    eexists. split; [reflexivity|]. exact Hall.
  - eexists. split; [reflexivity|]. exact Hall.
Qed.

(** C3.  After a [GetBuffer] that returned a buffer, the map holds that
    buffer for the parameters.  A second [GetBuffer] with the same
    parameters (whatever its text), called in the state the first one
    left, never lays a text out.  When the cache holds the glyphs of the
    buffer (its code points are found when they are looked up), the
    buffer is well-formed and a font is selected, the second call returns:
    it returns the same buffer, with the same layout (only texture
    coordinates, revision and pass may differ) and one more reference if
    and only if the parameters ask for reference counting, and besides its
    construction call it records one successful fetch per code point when
    the buffer is stale against the atlas, and nothing when it is not.
    Whenever the second call returns a buffer, this is the same one, with
    the same layout and that reference count; and when the revision of
    the buffer is the revision of the atlas, the call does nothing but
    record its construction call and return the buffer. *)
Theorem GetBuffer_deduplicates text length text' length' parameters fm0 p fm1 :
  GetBuffer text length parameters fm0 = Ok (Some p) fm1 →
  ∃ b1,
    map_buffers_ fm1 !! parameters = Some p
    ∧ buffers_ fm1 !! p = Some b1
    ∧ let o := GetBuffer text' length' parameters fm1 in
      Forall (λ c, is_layout c = false) (calls_since fm1 (final o))
      ∧ (∀ q fm2, o = Ok (Some q) fm2 →
           q = p
           ∧ ∃ b2,
               buffers_ fm2 !! p = Some b2
               ∧ layout_of b2 = layout_of b1
               ∧ get_ref_count b2
                 = get_ref_count b1
                   + (if get_ref_count_flag parameters then 1 else 0))
      ∧ (get_revision b1 = current_atlas_revision_ fm1 →
         o = Ok (Some p)
               (set_buffers_
                  (<[p := (if get_ref_count_flag parameters
                           then set_ref_count (get_ref_count b1 + 1) else id)
                            (if bool_decide (current_pass_ fm1 ≠ kRenderPass)
                             then set_pass (current_pass_ fm1) b1 else b1)]>
                     (buffers_ fm1))
                  (set_calls_ (calls_ fm1 ++ [CallCreateBuffer]) fm1)))
      ∧ (∀ f,
           current_font_ fm1 = Some f →
           Verify b1 = true →
           vsize (code_points_ b1) < 2 ^ 31 →
           cache_holds (SetPixelSize (converted_size parameters fm1) f)
             (converted_size parameters fm1) (get_glyph_flags parameters)
             (code_points_ b1) (glyph_cache_ fm1) = true →
           ∃ fm2 b2,
             o = Ok (Some p) fm2
             ∧ recorded fm1 fm2
                 (CallCreateBuffer
                  :: if bool_decide
                          (get_revision b1 = current_atlas_revision_ fm1)
                     then [] else fetches_found (code_points_ b1))
             ∧ buffers_ fm2 !! p = Some b2
             ∧ layout_of b2 = layout_of b1
             ∧ get_ref_count b2
               = get_ref_count b1
                 + (if get_ref_count_flag parameters then 1 else 0)).
Proof.
  intros Hfirst.
  destruct (GetBuffer_returns _ _ _ _ _ _ Hfirst) as [Hmap [b1 Hb1]].
  exists b1. split; [exact Hmap|]. split; [exact Hb1|]. cbn zeta.
  rewrite GetBuffer_unfold.
  destruct (CreateBuffer_hit text' (to_uint32 length') parameters fm1 p b1
              Hmap Hb1)
    as (Hm & (calls & Hrec & Hall) & (b' & Hbuf & Hl & Hres) & Hfresh).
  cbn zeta in *.
  split; [|split; [|split]];
    [| |by intros Hrev; rewrite (Hfresh Hrev)|].
  - (* no layout *)
    destruct (CreateBuffer text' (to_uint32 length') parameters fm1)
      as [[q|] fmA|f fmA]; cbn [final] in *.
    + rewrite (recorded_calls_since _ _ _ Hrec).
      constructor; [done|]. by apply quiet_layout_fetches.
    + set (fmF := set_calls_ (calls_ fmA ++ [CallFlushAndUpdate]) fmA).
      assert (recorded fm1 fmF ((CallCreateBuffer :: calls)
                                ++ [CallFlushAndUpdate])) as HrecF
        by (apply (recorded_trans fm1 fmA fmF); [exact Hrec|reflexivity]).
      destruct (UpdatePass_true_calls fmF)
        as ([HmU HbU] & uploads & notices & Hup & Hnot & HrecU).
      cbn zeta in *.
      assert (Forall (λ c, is_layout c = false)
                (((CallCreateBuffer :: calls) ++ [CallFlushAndUpdate])
                 ++ uploads ++ notices)) as Hquiet.
      { rewrite ?Forall_app, ?Forall_cons, ?Forall_nil.
        repeat split; try done;
          first [by apply quiet_layout_fetches
                |by apply quiet_layout_uploads]. }
      destruct (UpdatePass true fmF) as [[] fmB|f fmB]; cbn [final] in *.
      * destruct (CreateBuffer_calls text' (to_uint32 length') parameters fmB)
          as (calls2 & Hrec2 & _ & Hquiet2).
        assert (Forall (λ c, is_layout c = false) calls2) as Hq2.
        { apply Hquiet2. rewrite HmU. subst fmF. run. rewrite Hm, Hmap.
          by eexists. }
        pose proof (recorded_trans _ _ _ _ _
                      (recorded_trans _ _ _ _ _ HrecF HrecU) Hrec2) as Hrec3.
        assert (Forall (λ c, is_layout c = false)
                  ((((CallCreateBuffer :: calls) ++ [CallFlushAndUpdate])
                    ++ uploads ++ notices ++ [CallFlush])
                   ++ CallCreateBuffer :: calls2)) as Hquiet3.
        { rewrite ?Forall_app, ?Forall_cons, ?Forall_nil.
          repeat split; try done;
            first [by apply quiet_layout_fetches
                  |by apply quiet_layout_uploads]. }
        destruct (CreateBuffer text' (to_uint32 length') parameters fmB)
          as [[q|] fmC|f fmC]; cbn [final] in *.
        -- by rewrite (recorded_calls_since _ _ _ Hrec3).
        -- assert (recorded fm1
                     (set_calls_
                        (calls_ fmC ++ [CallLogError MsgDoesNotFit]) fmC)
                     (((((CallCreateBuffer :: calls) ++ [CallFlushAndUpdate])
                        ++ uploads ++ notices ++ [CallFlush])
                       ++ CallCreateBuffer :: calls2)
                      ++ [CallLogError MsgDoesNotFit])) as Hrec4
             by (apply (recorded_trans fm1 fmC); [exact Hrec3|reflexivity]).
           rewrite (recorded_calls_since _ _ _ Hrec4).
           apply Forall_app. split; [done|]. by repeat constructor.
        -- by rewrite (recorded_calls_since _ _ _ Hrec3).
      * pose proof (recorded_trans _ _ _ _ _ HrecF HrecU) as Hrec3.
        rewrite (recorded_calls_since _ _ _ Hrec3).
        rewrite !app_nil_r. exact Hquiet.
    + rewrite (recorded_calls_since _ _ _ Hrec).
      constructor; [done|]. by apply quiet_layout_fetches.
  - (* the same buffer, one more reference if asked for *)
    intros q fm2.
    destruct (CreateBuffer text' (to_uint32 length') parameters fm1)
      as [[q'|] fmA|f fmA]; cbn [final] in *; [| |done].
    + intros [= <- <-]. destruct Hres as [-> Hrc]. split; [done|].
      exists b'. split; [|done]. rewrite Hbuf. apply lookup_insert_eq.
    + destruct Hres as [Hflag Hrc].
      set (fmF := set_calls_ (calls_ fmA ++ [CallFlushAndUpdate]) fmA).
      destruct (UpdatePass_true_calls fmF) as ([HmU HbU] & _).
      cbn zeta in *.
      destruct (UpdatePass true fmF) as [[] fmB|f fmB]; cbn [final] in *;
        [|done].
      assert (map_buffers_ fmB !! parameters = Some p) as HmapB
        by (rewrite HmU; subst fmF; run; by rewrite Hm).
      assert (buffers_ fmB !! p = Some b') as HbB
        by (rewrite HbU; subst fmF; run; rewrite Hbuf;
            apply lookup_insert_eq).
      destruct (CreateBuffer_hit text' (to_uint32 length') parameters fmB p
                  b' HmapB HbB)
        as (_ & _ & (b'' & Hbuf2 & Hl2 & Hres2) & _).
      cbn zeta in *.
      destruct (CreateBuffer text' (to_uint32 length') parameters fmB)
        as [[q'|] fmC|f fmC]; cbn [final] in *; [| |done].
      * intros [= <- <-]. destruct Hres2 as [-> Hrc2]. split; [done|].
        exists b''. split; [rewrite Hbuf2; apply lookup_insert_eq|].
        split; [congruence|]. rewrite Hrc2, Hrc. done.
      * done.
  - (* the cache holds the glyphs: the call returns *)
    intros f Hfont Hverify Hsize Hholds.
    assert (∃ fm2,
              CreateBuffer text' (to_uint32 length') parameters fm1
              = Ok (Some p) fm2
              ∧ recorded fm1 fm2
                  (CallCreateBuffer
                   :: if bool_decide
                           (get_revision b1 = current_atlas_revision_ fm1)
                      then [] else fetches_found (code_points_ b1)))
      as (fm2 & Hrun & Hrec2).
    { destruct (decide (get_revision b1 = current_atlas_revision_ fm1))
        as [Hrev|Hrev].
      - rewrite (bool_decide_eq_true_2 _ Hrev), (Hfresh Hrev).
        eexists. split; reflexivity.
      - rewrite (bool_decide_eq_false_2 _ Hrev).
        exact (CreateBuffer_hit_found text' (to_uint32 length') parameters
                 fm1 p b1 f Hmap Hb1 Hfont Hverify Hsize Hrev Hholds). }
    rewrite Hrun in *. cbn [final] in *. destruct Hres as [_ Hrc].
    exists fm2, b'. split; [done|]. split; [exact Hrec2|].
    split; [rewrite Hbuf; apply lookup_insert_eq|].
    split; [exact Hl|exact Hrc].
Qed.

(** *** The loop bound of the model *)

Lemma ensures_bind {A B} (Q : A → Prop) (P : B → Prop)
    (m : M A) (k : A → M B) fm :
  ensures Q (m fm) →
  (∀ a fm1, m fm = Ok a fm1 → Q a → ensures P (k a fm1)) →
  ensures P ((m ≫= k) fm).
Proof.
  intros Hm Hk. rewrite bind_unfold.
  destruct (m fm) as [a fm1|f fm1]; [by apply Hk|done].
Qed.

Lemma ensures_weaken {A} (P Q : A → Prop) (o : Result A) :
  ensures P o → (∀ a, P a → Q a) → ensures Q o.
Proof. destruct o; simpl; auto. Qed.

Lemma ensures_ret {A} (P : A → Prop) (a : A) fm : P a → ensures P (ret a fm).
Proof. done. Qed.

Lemma ensures_get fm : ensures (λ _, True) (get fm).
Proof. done. Qed.

Lemma ensures_modify f fm : ensures (λ _, True) (modify f fm).
Proof. done. Qed.

Lemma ensures_log c fm : ensures (λ _, True) (log c fm).
Proof. done. Qed.

Lemma ensures_abort {A} (P : A → Prop) f fm :
  f ≠ OutOfFuel → ensures P (abort f fm).
Proof. done. Qed.

Lemma ensures_lift {A} (P : A → Prop) f (o : option A) fm :
  f ≠ OutOfFuel → (∀ a, o = Some a → P a) → ensures P (lift f o fm).
Proof. intros Hf HP. destruct o as [a|]; simpl; [by apply HP|done]. Qed.

Lemma ensures_font fm : ensures (λ _, True) (font fm).
Proof.
  unfold font. eapply ensures_bind; [apply ensures_get|].
  intros a fm1 _ _. by apply ensures_lift.
Qed.

(** Takes a run apart, bind after bind; a result whose property is still
    open gets the trivial one. *)
Ltac fuel_one :=
  try lazymatch goal with
      | |- @ensures _ _ ?A ?Q _ => is_evar Q; unify Q (λ _ : A, True)
      end;
  lazymatch goal with
  | |- ensures _ ((_ ≫= _) _) =>
      eapply ensures_bind; [|intros ? ? _ ?; cbn beta]
  | |- ensures _ (ret _ _) => apply ensures_ret; try done
  | |- ensures _ (mret _ _) => apply ensures_ret; try done
  | |- ensures _ (get _) => apply ensures_get
  | |- ensures _ (font _) => apply ensures_font
  | |- ensures _ (abort _ _) => apply ensures_abort; discriminate
  | |- ensures _ (lift _ _ _) =>
      apply ensures_lift; [discriminate|try done]
  | |- ensures _ (log _ _) => apply ensures_log
  | |- ensures _ (modify _ _) => apply ensures_modify
  | |- ensures _ (modify_cache _ _) => apply ensures_modify
  | |- ensures _ ((if ?c then _ else _) _) => destruct c
  | |- ensures _ ((let '(_, _) := ?p in _) _) => destruct p
  | |- ensures _ ((match ?x with _ => _ end) _) => destruct x
  end.

Ltac fuel := repeat fuel_one.

Lemma ensures_GetCachedEntry code_point ysize flags fm :
  ensures (λ _, True) (GetCachedEntry code_point ysize flags fm).
Proof. unfold GetCachedEntry, ExpandAtlasTexture. fuel. Qed.

Lemma ensures_LayoutText text length fm :
  ensures (λ _, True) (LayoutText text length fm).
Proof. unfold LayoutText. fuel. Qed.

Lemma ensures_register_glyph F code_point cache pos b metrics fm :
  ensures (λ _, True) (register_glyph F code_point cache pos b metrics fm).
Proof. unfold register_glyph. fuel. Qed.

Lemma ensures_layout_glyph F glyph_info glyph_count idx_advance i idx L fm :
  ensures (λ r, ∀ L', r = Some L' → word_enum L' = word_enum L)
    (layout_glyph F glyph_info glyph_count idx_advance i idx L fm).
Proof.
  unfold layout_glyph.
  eapply ensures_bind; [fuel|intros g fm1 _ _; cbn beta].
  case_bool_decide; [apply ensures_ret; by intros ? [= <-]|].
  eapply ensures_bind; [apply ensures_GetCachedEntry|].
  intros [cache|] fm2 _ _; cbn beta iota; [|fuel].
  eapply ensures_bind; [fuel|intros fm3 fm4 _ _; cbn beta].
  eapply ensures_bind.
  { destruct (_ && _); [apply ensures_register_glyph|fuel]. }
  intros [b metrics] fm5 _ _. cbn beta iota.
  eapply ensures_bind; [fuel|intros b' fm6 _ _; cbn beta].
  apply ensures_ret. by intros ? [= <-].
Qed.

Lemma ensures_layout_glyphs F glyph_info glyph_count idx_advance count :
  ∀ i idx L fm,
    ensures (λ r, ∀ L', r = Some L' → word_enum L' = word_enum L)
      (layout_glyphs F glyph_info glyph_count idx_advance count i idx L fm).
Proof.
  induction count as [|count IH]; intros i idx L fm; cbn [layout_glyphs].
  - apply ensures_ret. by intros ? [= <-].
  - eapply ensures_bind; [apply ensures_layout_glyph|].
    intros [L1|] fm1 _ HL1; cbn beta iota; [|fuel].
    eapply ensures_weaken; [apply IH|].
    intros r Hr L' ->. cbn beta in Hr. rewrite (Hr L' eq_refl).
    by apply HL1.
Qed.

Lemma ensures_place_word F L fm :
  ensures (λ r, word_enum (match r with inl L' | inr L' => L' end)
                = word_enum L)
    (place_word F L fm).
Proof.
  unfold place_word.
  eapply ensures_bind; [fuel|intros fm0 fm1 _ _; cbn beta].
  destruct (negb _).
  - eapply ensures_bind; [apply ensures_LayoutText|].
    intros w fm2 _ _. by apply ensures_ret.
  - eapply ensures_bind; [apply ensures_LayoutText|].
    intros w fm2 _ _. cbn beta.
    eapply (ensures_bind
              (λ r, word_enum (match r with inl L' | inr L' => L' end)
                    = word_enum L)).
    + destruct (_ || _); [|by apply ensures_ret].
      eapply ensures_bind; [fuel|intros b fm3 _ _; cbn beta].
      destruct (_ && _ && _).
      * eapply ensures_bind; [fuel|intros ? fm4 _ _; cbn beta].
        by apply ensures_ret.
      * eapply ensures_bind; [fuel|intros ? fm4 _ _; cbn beta].
        by apply ensures_ret.
    + intros [L1|L1] fm3 _ HL1; cbn beta iota; [|by apply ensures_ret].
      eapply ensures_bind; [fuel|intros mb fm4 _ _; cbn beta].
      by apply ensures_ret.
Qed.

Lemma ensures_layout_word F L fm :
  ensures (λ r, ∀ L', r = WordNext L' → word_enum L' = word_enum L)
    (layout_word F L fm).
Proof.
  unfold layout_word.
  eapply ensures_bind; [apply ensures_place_word|].
  intros [L1|L1] fm1 _ HL1; cbn beta iota; [|by apply ensures_ret].
  eapply ensures_bind; [fuel|].
  intros [b first] fm2 _ _. cbn beta iota.
  eapply ensures_bind; [fuel|intros fm3 fm4 _ _; cbn beta].
  eapply ensures_bind; [apply ensures_layout_glyphs|].
  intros [L2|] fm5 _ HL2; cbn beta iota; [|fuel].
  eapply ensures_bind; [fuel|intros fm6 fm7 _ _; cbn beta].
  eapply ensures_bind; [fuel|intros ? fm8 _ _; cbn beta].
  apply ensures_ret. intros L' [= <-]. cbn.
  rewrite (HL2 L2 eq_refl). exact HL1.
Qed.

(** The word loop does not stop for want of iterations when it is given
    more of them than the enumerator has spans left. *)
Lemma ensures_layout_words F fuel :
  ∀ L fm,
    vsize (buffer_ (word_enum L)) + 1 < 2 ^ 64 →
    (single_line_ (word_enum L) = false →
     0 <= current_index_ (word_enum L) + current_length_ (word_enum L)
       <= vsize (buffer_ (word_enum L)) + 1) →
    words_left (word_enum L) < Z.of_nat fuel →
    ensures (λ _, True) (layout_words F fuel L fm).
Proof.
  induction fuel as [|fuel IH]; intros L fm Hsz Hinv Hleft;
    cbn [layout_words].
  - pose proof (Advance_words_left (word_enum L) Hsz Hinv) as Hadv.
    exfalso. unfold words_left in Hleft.
    destruct (finished_ _), (single_line_ _); lia.
  - pose proof (Advance_words_left (word_enum L) Hsz Hinv) as Hadv.
    pose proof (Advance_buffer (word_enum L)) as Hbuf.
    destruct (Advance (word_enum L)) as [[|] w]; [|by apply ensures_ret].
    cbn [fst snd] in *. destruct (Hadv eq_refl) as [Hinv' Hleft'].
    eapply ensures_bind; [apply ensures_layout_word|].
    intros [L1|L1|] fm1 _ HL1; cbn beta iota; [|by apply ensures_ret..].
    specialize (HL1 L1 eq_refl). cbn in HL1.
    apply IH; rewrite HL1; [by rewrite Hbuf|done|lia].
Qed.

Lemma length_wordbreak_info (classes resized : list Z) n :
  length resized = n →
  length (take n classes ++ drop (length classes) resized) = n.
Proof. intros <-. rewrite length_app, length_take, length_drop. lia. Qed.

Lemma ensures_build_buffer text length parameters ysize converted_ysize
    scale fm :
  length < 2 ^ 32 →
  (length = 0 → vsize (wordbreak_info_ fm) + 1 < 2 ^ 64) →
  ensures (λ _, True)
    (build_buffer text length parameters ysize converted_ysize scale fm).
Proof.
  intros Hlen Hold. unfold build_buffer.
  eapply ensures_bind; [fuel|intros f fm1 Hf _; cbn beta].
  eapply ensures_bind; [fuel|intros ? fm2 Hfm2 _; cbn beta].
  eapply ensures_bind; [fuel|intros fm3 fm4 Hfm4 _; cbn beta].
  eapply ensures_bind; [fuel|intros ? fm5 Hfm5 _; cbn beta].
  eapply ensures_bind; [fuel|intros fm6 fm7 Hfm7 _; cbn beta].
  eapply ensures_bind; [fuel|intros f' fm8 Hfm8 _; cbn beta].
  eapply ensures_bind; [fuel|intros ? fm9 Hfm9 _; cbn beta].
  injection Hfm7 as <- <-.
  assert (vsize (wordbreak_info_ fm5) + 1 < 2 ^ 64) as Hsize.
  { assert (wordbreak_info_ fm4 = wordbreak_info_ fm) as Hsame.
    { injection Hfm4 as <- <-. injection Hfm2 as <- <-.
      unfold font in Hf. revert Hf. run.
      destruct (current_font_ fm) as [f0|]; run; [|done].
      by intros [= <- <-]. }
    revert Hfm5. case_bool_decide as Hz; run; intros Heq;
      apply (f_equal final) in Heq; cbn [final] in Heq; rewrite <- Heq; run.
    - unfold vsize. rewrite length_wordbreak_info by apply length_resize.
      lia.
    - rewrite Hsame. apply Hold. first [done|by apply dec_stable]. }
  eapply ensures_bind.
  { apply ensures_layout_words; cbn; [exact Hsize|unfold vsize; lia|].
    unfold word_fuel, vsize in *. destruct (negb _); lia. }
  intros [L|] fm10 _ _; cbn beta iota; [|by apply ensures_ret].
  fuel.
Qed.

Lemma ensures_deref buffer fm : ensures (λ _, True) (deref buffer fm).
Proof. unfold deref. fuel. Qed.

Lemma ensures_update_buffer buffer f fm :
  ensures (λ _, True) (update_buffer buffer f fm).
Proof.
  unfold update_buffer. eapply ensures_bind; [apply ensures_deref|].
  intros b fm1 _ _. fuel.
Qed.

Lemma ensures_UpdateUV_loop ysize flags buffer :
  ∀ cps i fm,
    ensures (λ _, True) (UpdateUV_loop ysize flags buffer cps i fm).
Proof.
  induction cps as [|cp rest IH]; intros i fm; cbn [UpdateUV_loop].
  - fuel.
  - eapply ensures_bind; [apply ensures_GetCachedEntry|].
    intros [cache|] fm1 _ _; cbn beta iota; [|fuel].
    eapply ensures_bind; [apply ensures_deref|intros b fm2 _ _; cbn beta].
    eapply ensures_bind; [fuel|intros b' fm3 _ _; cbn beta].
    eapply ensures_bind; [fuel|intros ? fm4 _ _; cbn beta].
    eapply ensures_bind; [fuel|intros fm5 fm6 _ _; cbn beta].
    eapply ensures_bind; [apply ensures_update_buffer|].
    intros ? fm7 _ _. apply IH.
Qed.

Lemma ensures_UpdateUV ysize flags buffer fm :
  ensures (λ _, True) (UpdateUV ysize flags buffer fm).
Proof.
  unfold UpdateUV.
  eapply ensures_bind; [apply ensures_deref|intros b fm1 _ _; cbn beta].
  eapply ensures_bind; [fuel|intros fm2 fm3 _ _; cbn beta].
  case_bool_decide; [|fuel].
  eapply ensures_bind; [fuel|intros f fm4 _ _; cbn beta].
  eapply ensures_bind; [fuel|intros ? fm5 _ _; cbn beta].
  eapply ensures_bind; [apply ensures_UpdateUV_loop|].
  intros done fm6 _ _. fuel.
Qed.

(** The loop bound of the model is never what stops [CreateBuffer]: for a
    text length that is a [uint32_t], an outcome is a result of the code or
    one of its faults. *)
Lemma ensures_CreateBuffer text length parameters fm :
  length < 2 ^ 32 →
  (length = 0 → vsize (wordbreak_info_ fm) + 1 < 2 ^ 64) →
  ensures (λ _, True) (CreateBuffer text length parameters fm).
Proof.
  intros Hlen Hold. unfold CreateBuffer, ConvertSize.
  eapply ensures_bind; [fuel|intros ? fm1 Hfm1 _; cbn beta].
  eapply ensures_bind; [fuel|intros cy fm2 Hfm2 _; cbn beta].
  eapply ensures_bind; [fuel|intros fm3 fm4 Hfm4 _; cbn beta].
  destruct (map_buffers_ fm3 !! parameters) as [it|].
  - eapply ensures_bind.
    { case_bool_decide; [apply ensures_update_buffer|fuel]. }
    intros ? fm5 _ _. cbn beta.
    eapply ensures_bind; [apply ensures_UpdateUV|].
    intros r fm6 _ _. cbn beta.
    eapply ensures_bind; [|intros ? fm7 _ _; fuel].
    destruct (get_ref_count_flag parameters); [|fuel].
    destruct r as [r|]; [|fuel].
    eapply ensures_bind; [apply ensures_deref|intros b fm7 _ _].
    apply ensures_update_buffer.
  - apply ensures_build_buffer; [done|].
    intros Hz. injection Hfm4 as <- <-.
    apply (f_equal final) in Hfm2, Hfm1. cbn [final] in Hfm2, Hfm1.
    revert Hfm2 Hfm1. unfold log. run. intros <- <-. run.
    by apply Hold.
Qed.

(** *** UpdateMetrics and GetCaretPosCount *)

(** [UpdateMetrics] only lets the leadings grow: when it returns true the
    ascender and the descender are those of before, the internal leading is
    not smaller and the external leading not larger, the base line is their
    sum with the ascender, and (the differences being [int32_t]) the glyph
    fits between the two leadings. *)
Theorem UpdateMetrics_grows g m m' :
  UpdateMetrics g m = Some m' →
  ascender m' = ascender m
  ∧ descender m' = descender m
  ∧ internal_leading m <= internal_leading m'
  ∧ external_leading m' <= external_leading m
  ∧ base_line m' = to_int32 (internal_leading m' + ascender m')
  ∧ (int32_range (bitmap_top g - ascender m) →
     bitmap_top g <= ascender m' + internal_leading m')
  ∧ (int32_range (bitmap_top g - bitmap_rows g - descender m) →
     descender m' + external_leading m' <= bitmap_top g - bitmap_rows g).
Proof.
  unfold UpdateMetrics. destruct (_ || _); [|done]. cbv zeta.
  intros [= <-]. simpl.
  split; [done|]. split; [done|]. split; [lia|]. split; [lia|].
  split; [done|]. split; intros Hr; rewrite (to_int32_small _ Hr); lia.
Qed.

Lemma UpdateMetrics_grows_witness :
  UpdateMetrics (mk_FT_GlyphSlot 0 20 8 24 [])
    (mkFontMetrics 16 0 16 0 0)
  = Some (mkFontMetrics 20 4 16 0 (-4))
  ∧ internal_leading (mkFontMetrics 16 0 16 0 0)
    <= internal_leading (mkFontMetrics 20 4 16 0 (-4))
  ∧ 20 <= ascender (mkFontMetrics 20 4 16 0 (-4))
           + internal_leading (mkFontMetrics 20 4 16 0 (-4)).
Proof.
  assert (UpdateMetrics (mk_FT_GlyphSlot 0 20 8 24 [])
            (mkFontMetrics 16 0 16 0 0)
          = Some (mkFontMetrics 20 4 16 0 (-4))) as Hu
    by (vm_compute; reflexivity).
  split; [exact Hu|].
  destruct (UpdateMetrics_grows _ _ _ Hu) as (_ & _ & Hil & _ & _ & Hfit & _).
  split; [exact Hil|]. apply Hfit. unfold int32_range. simpl. lia.
Defined.

(** The metrics a run of glyphs leaves do not depend on the order of the
    glyphs: [initial_metrics = new_metrics] after every [UpdateMetrics] that
    returns true. *)
Theorem UpdateMetrics_order g1 g2 m :
  let update g m := default m (UpdateMetrics g m) in
  update g2 (update g1 m) = update g1 (update g2 m).
Proof.
  cbn zeta. unfold UpdateMetrics.
  destruct (bool_decide (ascender m < bitmap_top g1)
            || bool_decide (to_int32 (bitmap_top g1 - bitmap_rows g1)
                            < descender m)) eqn:H1,
           (bool_decide (ascender m < bitmap_top g2)
            || bool_decide (to_int32 (bitmap_top g2 - bitmap_rows g2)
                            < descender m)) eqn:H2;
    simpl; rewrite ?H1, ?H2; simpl; try done.
  f_equal; try lia.
  f_equal. lia.
Qed.

(** The counting loop of [GetCaretPosCount]. *)
Lemma count_characters_spec buffer first :
  ∀ count i num r,
    count_characters buffer first count i num = Some r →
    num <= r <= num + Z.of_nat count
    ∧ (0 <= first + i → first + i + Z.of_nat count < 2 ^ 64 →
       r = num + vsize (filter (λ c, c ≠ LINEBREAK_INSIDEACHAR)
                          (take count (drop (Z.to_nat (first + i)) buffer)))).
Proof.
  induction count as [|count IH]; intros i num r; cbn [count_characters].
  - intros [= <-]. split; [lia|]. intros _ _. rewrite take_0.
    unfold vsize. simpl. lia.
  - destruct (vget buffer (to_size_t (first + i))) as [c|] eqn:Hc; [|done].
    cbn. intros Hr. destruct (IH _ _ _ Hr) as [Hbound Hcount].
    split; [case_bool_decide; lia|]. intros Hfirst Hlt.
    rewrite to_size_t_small in Hc by lia.
    apply vget_Some in Hc as [_ Hc].
    rewrite (drop_S _ _ _ Hc). cbn [take].
    rewrite Hcount by lia.
    replace (Z.to_nat (first + (i + 1))) with (S (Z.to_nat (first + i)))
      by lia.
    unfold vsize. case_bool_decide as Hin.
    + rewrite filter_cons_True by exact Hin. simpl length. lia.
    + rewrite filter_cons_False by (intros Hne; by apply Hne). lia.
Qed.

(** [GetCaretPosCount] counts characters, not bytes: its result is the
    number of bytes of the glyph's cluster that are not inside a
    character, at most the byte size of the cluster, and 0 when that size
    is not positive.  The cluster ends where the next glyph's begins (the
    previous one's, right to left), or at the end of the word. *)
Theorem GetCaretPosCount_counts dir w glyph_info glyph_count index n :
  GetCaretPosCount dir w glyph_info glyph_count index = Some n →
  let direction :=
    if decide (dir = kTextLayoutDirectionLTR) then 1 else -1 in
  ∃ g byte_size,
    vget glyph_info index = Some g
    ∧ (if bool_decide (- direction <= index)
          && bool_decide (index < glyph_count - direction)
       then ∃ next, vget glyph_info (index + direction) = Some next
                    ∧ byte_size
                      = to_int32 (to_uint32 (cluster next - cluster g))
       else byte_size = to_int32 (GetCurrentWordLength w - cluster g))
    ∧ 0 <= n <= Z.max 0 byte_size
    ∧ (0 <= GetCurrentWordIndex w + cluster g →
       GetCurrentWordIndex w + cluster g + Z.max 0 byte_size < 2 ^ 64 →
       n = vsize (filter (λ c, c ≠ LINEBREAK_INSIDEACHAR)
                    (take (Z.to_nat byte_size)
                       (drop (Z.to_nat (GetCurrentWordIndex w + cluster g))
                          (buffer_ w))))).
Proof.
  unfold GetCaretPosCount. intros Hn. cbn zeta.
  destruct (vget glyph_info index) as [g|]; [|done]. cbn in Hn.
  set (direction := if decide (dir = kTextLayoutDirectionLTR) then 1 else -1)
    in *.
  assert (∀ byte_size,
            count_characters (buffer_ w)
              (GetCurrentWordIndex w + cluster g) (Z.to_nat byte_size) 0 0
            = Some n →
            0 <= n <= Z.max 0 byte_size
            ∧ (0 <= GetCurrentWordIndex w + cluster g →
               GetCurrentWordIndex w + cluster g + Z.max 0 byte_size
               < 2 ^ 64 →
               n = vsize (filter (λ c, c ≠ LINEBREAK_INSIDEACHAR)
                            (take (Z.to_nat byte_size)
                               (drop (Z.to_nat (GetCurrentWordIndex w
                                                + cluster g))
                                  (buffer_ w))))))
    as Hcount.
  { intros byte_size Hc.
    destruct (count_characters_spec _ _ _ _ _ _ Hc) as [Hb Hv].
    split; [lia|]. intros Hfirst Hlt.
    rewrite Z.add_0_r in Hv. rewrite Hv by lia. lia. }
  exists g.
  destruct (bool_decide (- direction <= index)
            && bool_decide (index < glyph_count - direction)).
  - destruct (vget glyph_info (index + direction)) as [next|]; [|done].
    cbn in Hn.
    exists (to_int32 (to_uint32 (cluster next - cluster g))).
    split; [done|]. split; [by exists next|]. by apply Hcount.
  - cbn in Hn. exists (to_int32 (GetCurrentWordLength w - cluster g)).
    split; [done|]. split; [done|]. by apply Hcount.
Qed.

(** The theorem on a two-byte character followed by a one-byte one: the
    first glyph gets one caret for its two bytes. *)
Lemma GetCaretPosCount_counts_witness :
  let w := snd (Advance (WordEnumerator_new
                           [LINEBREAK_NOBREAK; LINEBREAK_INSIDEACHAR;
                            LINEBREAK_MUSTBREAK] true)) in
  let glyph_info := [mk_hb_glyph 233 0 512 0; mk_hb_glyph 120 2 512 0] in
  GetCaretPosCount kTextLayoutDirectionLTR w glyph_info 2 0 = Some 1
  ∧ ∃ byte_size, 0 <= 1 <= Z.max 0 byte_size.
Proof.
  intros w glyph_info.
  assert (GetCaretPosCount kTextLayoutDirectionLTR w glyph_info 2 0 = Some 1)
    as Hn by (vm_compute; reflexivity).
  split; [exact Hn|].
  destruct (GetCaretPosCount_counts _ _ _ _ _ _ Hn)
    as (g & byte_size & _ & _ & Hbound & _).
  exists byte_size. exact Hbound.
Defined.

(** *** The atlas: ExpandAtlasTexture, GetCachedEntry, UpdatePass(false) *)

(** [ExpandAtlasTexture] always returns.  When the cache has no more slices
    than the atlas has textures nothing changes; otherwise both vectors get
    one slot per slice, the slots there were keep their content, and of the
    new ones only the last receives a texture: the others are left null. *)
Theorem ExpandAtlasTexture_slots fm :
  let slices := to_size_t (gc_get_num_slices (glyph_cache_ fm)) in
  ∃ fm',
    ExpandAtlasTexture fm = Ok tt fm'
    ∧ same_buffers fm fm'
    ∧ glyph_cache_ fm' = glyph_cache_ fm
    ∧ calls_ fm' = calls_ fm
    ∧ (slices <= vsize (atlas_textures_ fm) → fm' = fm)
    ∧ (vsize (atlas_textures_ fm) < slices →
       vsize (atlas_textures_ fm') = slices
       ∧ vsize (atlas_indices_ fm') = slices
       ∧ atlas_textures_ fm' !! Z.to_nat (slices - 1) = Some true
       ∧ (∀ (i : nat) t, atlas_textures_ fm !! i = Some t →
                         atlas_textures_ fm' !! i = Some t)
       ∧ (∀ (i : nat) x, Z.of_nat i < slices →
                         atlas_indices_ fm !! i = Some x →
                         atlas_indices_ fm' !! i = Some x)
       ∧ (∀ i : nat, vsize (atlas_textures_ fm) <= Z.of_nat i < slices - 1 →
                     atlas_textures_ fm' !! i = Some false)
       ∧ (∀ i : nat, vsize (atlas_indices_ fm) <= Z.of_nat i < slices →
                     atlas_indices_ fm' !! i = Some kInvalidSliceIndex)).
Proof.
  cbn zeta. unfold ExpandAtlasTexture. run.
  set (slices := to_size_t (gc_get_num_slices (glyph_cache_ fm))).
  pose proof (to_size_t_range (gc_get_num_slices (glyph_cache_ fm))) as Hs.
  fold slices in Hs. unfold vsize in *.
  case_bool_decide as Hgrow; run.
  - eexists. split; [reflexivity|]. run.
    split; [done|]. split; [done|]. split; [done|]. split; [lia|]. intros _.
    split; [rewrite length_insert, length_resize; lia|].
    split; [rewrite length_resize; lia|].
    split.
    { apply list_lookup_insert_eq. rewrite length_resize. lia. }
    split.
    { intros i t Hi. pose proof (lookup_lt_Some _ _ _ Hi) as Hlt.
      rewrite list_lookup_insert_ne by lia.
      rewrite lookup_resize by lia. exact Hi. }
    split.
    { intros i x Hin Hi. pose proof (lookup_lt_Some _ _ _ Hi) as Hlt.
      by rewrite lookup_resize by lia. }
    split.
    { intros i Hi. rewrite list_lookup_insert_ne by lia.
      apply lookup_resize_new; lia. }
    intros i Hi. apply lookup_resize_new; lia.
  - exists fm. split; [done|]. split; [done|]. split; [done|].
    split; [done|]. split; [done|]. lia.
Qed.

(** [GetCachedEntry] never touches the buffers, the map, the pass, the
    revision snapshot or the shaping buffer.  With a font selected it always
    returns.  When it returns null it has logged a notice and left the atlas
    as it was; when it returns an entry the atlas has a slot for every slice
    of the cache; and an entry that the cache already holds is returned
    without loading the glyph: the font is as before. *)
Theorem GetCachedEntry_effects code_point ysize flags fm :
  let o := GetCachedEntry code_point ysize flags fm in
  same_buffers fm (final o)
  ∧ current_pass_ (final o) = current_pass_ fm
  ∧ current_atlas_revision_ (final o) = current_atlas_revision_ fm
  ∧ harfbuzz_buf_ (final o) = harfbuzz_buf_ fm
  ∧ (is_Some (current_font_ fm) → is_Some (returned o))
  ∧ (∀ fm', o = Ok None fm' →
       (∃ m, recorded fm fm'
               [CallLogInfo m; CallGetCachedEntry code_point false])
       ∧ atlas_textures_ fm' = atlas_textures_ fm
       ∧ atlas_indices_ fm' = atlas_indices_ fm)
  ∧ (∀ e fm', o = Ok (Some e) fm' →
       recorded fm fm' [CallGetCachedEntry code_point true]
       ∧ to_size_t (gc_get_num_slices (glyph_cache_ fm'))
         <= vsize (atlas_textures_ fm'))
  ∧ (∀ f e gc,
       current_font_ fm = Some f →
       gc_Find (mkGlyphKey (info_font_id (GetGlyphInfo code_point f))
                  code_point ysize flags) (glyph_cache_ fm) = (Some e, gc) →
       returned o = Some (Some e)
       ∧ current_font_ (final o) = Some f
       ∧ glyph_cache_ (final o) = gc).
Proof.
  cbn zeta.
  assert (∀ fm0 : FontManager,
            let o := ExpandAtlasTexture fm0 in
            o = Ok tt (final o)
            ∧ same_buffers fm0 (final o)
            ∧ current_pass_ (final o) = current_pass_ fm0
            ∧ current_atlas_revision_ (final o) = current_atlas_revision_ fm0
            ∧ harfbuzz_buf_ (final o) = harfbuzz_buf_ fm0
            ∧ calls_ (final o) = calls_ fm0
            ∧ current_font_ (final o) = current_font_ fm0
            ∧ glyph_cache_ (final o) = glyph_cache_ fm0
            ∧ to_size_t (gc_get_num_slices (glyph_cache_ fm0))
              <= vsize (atlas_textures_ (final o))) as Hexpand.
  { intros fm0. cbn zeta. unfold ExpandAtlasTexture. run.
    pose proof (to_size_t_range (gc_get_num_slices (glyph_cache_ fm0))).
    case_bool_decide; run; repeat (split; [done|]).
    - unfold vsize. rewrite length_insert, length_resize. lia.
    - lia. }
  unfold GetCachedEntry, font. run.
  destruct (current_font_ fm) as [f|] eqn:Hfont; run.
  2: { do 4 (split; [done|]). split; [by intros [? ?]|].
       split; [done|]. split; [done|]. intros ? ? ? ?. discriminate. }
  destruct (gc_Find _ (glyph_cache_ fm)) as [[cache|] gc] eqn:Hfind; run.
  - (* the cache holds the glyph *)
    destruct (Hexpand (set_glyph_cache_ gc fm))
      as (Hrun & Hs & Hp & Hr & Hh & Hc & Hf & Hg & Hslots).
    cbn zeta in *. rewrite Hrun. run.
    split; [exact Hs|]. split; [exact Hp|]. split; [exact Hr|].
    split; [exact Hh|]. split; [by eexists|]. split; [done|].
    split.
    { intros e fm' [= <- <-]. run. split.
      - unfold recorded. run. by rewrite Hc.
      - by rewrite Hg. }
    intros f0 e gc0 [= <-] Hfind'. rewrite Hfind in Hfind'.
    injection Hfind' as <- <-. run.
    split; [done|]. split; [by rewrite Hf|exact Hg].
  - destruct (FT_Load_Glyph _ f) as [err f'] eqn:Hload; run.
    case_bool_decide as Herr; run.
    + (* the glyph cannot be loaded *)
      do 4 (split; [done|]). split; [by eexists|].
      split.
      { intros fm' [= <-]. run. split; [|done].
        eexists. unfold recorded. run. by rewrite <- app_assoc. }
      split; [done|]. intros f0 e gc0 [= <-] Hfind'. rewrite Hfind in Hfind'. discriminate.
    + destruct (gc_Set _ _ _ _) as [[cache|] gc'] eqn:Hset; run.
      * (* the glyph enters the cache *)
        destruct (_ && _ && _) eqn:Hsdf; run.
        all: match goal with
        | |- context [ExpandAtlasTexture ?fm0] =>
            destruct (Hexpand fm0)
              as (Hrun & Hs & Hp & Hr & Hh & Hc & Hf & Hg & Hslots);
            cbn zeta in *; revert Hs Hp Hr Hh Hc Hf Hg Hslots;
            rewrite Hrun
        end.
        all: run; intros Hs Hp Hr Hh Hc Hf Hg Hslots.
        all: split; [exact Hs|]; split; [exact Hp|]; split; [exact Hr|].
        all: split; [exact Hh|]; split; [by eexists|]; split; [done|].
        all: split; [|intros f0 e gc0 [= <-] Hfind'; rewrite Hfind in Hfind'; discriminate].
        all: intros e fm' [= <- <-]; run; split;
          [unfold recorded; run; by rewrite Hc|by rewrite Hg].
      * (* the cache is full *)
        do 4 (split; [done|]). split; [by eexists|].
        split.
        { intros fm' [= <-]. run. split; [|done].
          eexists. unfold recorded. run. by rewrite <- app_assoc. }
        split; [done|]. intros f0 e gc0 [= <-] Hfind'. rewrite Hfind in Hfind'. discriminate.
Qed.

(** [UpdatePass(false)], the start of the render pass.  It keeps the buffers
    and records uploads only: no flush, no notice.  When it returns, the
    pass is [kRenderPass]; the dirty mark is cleared and the revision
    snapshot taken only if an upload happened, that is if the cache was
    dirty and the pass at most 0: after a subpass (pass above 0) a dirty
    cache is not uploaded and stays dirty for the render pass. *)
Theorem UpdatePass_render fm :
  let gc := gc_Update (glyph_cache_ fm) in
  let upload :=
    gc_get_dirty_state gc && bool_decide (current_pass_ fm <= 0) in
  let o := UpdatePass false fm in
  same_buffers fm (final o)
  ∧ Forall (λ c, is_upload c = true) (calls_since fm (final o))
  ∧ (upload = false →
     o = Ok tt (set_current_pass_ kRenderPass (set_glyph_cache_ gc fm)))
  ∧ (∀ fm', o = Ok tt fm' →
       current_pass_ fm' = kRenderPass
       ∧ glyph_cache_ fm'
         = (if upload then gc_set_dirty_state false gc else gc)
       ∧ current_atlas_revision_ fm'
         = (if upload then gc_get_revision gc
            else current_atlas_revision_ fm))
  ∧ (∀ f fm', o = Abort f fm' → upload = true).
Proof.
  cbn zeta. unfold UpdatePass. run.
  set (gc := gc_Update (glyph_cache_ fm)).
  destruct (gc_get_dirty_state gc && bool_decide (current_pass_ fm <= 0)).
  - run.
    destruct (upload_slices_spec
      (Z.to_nat (gc_get_num_slices gc)) 0 (set_glyph_cache_ gc fm))
      as (uploads & Hup & Hfinal).
    destruct (upload_slices _ 0 _) as [[] fm1|f fm1]; simpl in Hfinal;
      subst fm1; run.
    + split; [by split|]. split.
      { erewrite recorded_calls_since; [exact Hup|]. reflexivity. }
      split; [done|]. split; [|done]. by intros fm' [= <-].
    + split; [by split|]. split.
      { erewrite recorded_calls_since; [exact Hup|]. reflexivity. }
      split; [done|]. split; [done|]. done.
  - run. split; [by split|]. split.
    { erewrite (recorded_calls_since _ _ []); [done|].
      unfold recorded. run. by rewrite app_nil_r. }
    split; [done|]. split; [|done]. by intros fm' [= <-].
Qed.

(** *** Acquiring and releasing a buffer *)

Lemma set_ref_count_id b : set_ref_count (ref_count_ b) b = b.
Proof. by destruct b. Qed.

(** Acquiring a live buffer of the map that is up to date, with reference
    counting, and releasing it again leaves the map, the cache and all
    buffers as they were; only the pass of the buffer is the current one. *)
Theorem CreateBuffer_ReleaseBuffer_round_trip text length parameters fm p b :
  map_buffers_ fm !! parameters = Some p →
  buffers_ fm !! p = Some b →
  get_ref_count_flag parameters = true →
  get_revision b = current_atlas_revision_ fm →
  1 <= get_ref_count b →
  ∃ fm1 fm2,
    CreateBuffer text length parameters fm = Ok (Some p) fm1
    ∧ (get_ref_count <$> buffers_ fm1 !! p) = Some (get_ref_count b + 1)
    ∧ ReleaseBuffer p fm1 = Ok tt fm2
    ∧ map_buffers_ fm2 = map_buffers_ fm
    ∧ glyph_cache_ fm2 = glyph_cache_ fm
    ∧ buffers_ fm2
      = <[p := if bool_decide (current_pass_ fm ≠ kRenderPass)
               then set_pass (current_pass_ fm) b else b]> (buffers_ fm).
Proof.
  intros Hmap Hb Hflag Hrev Hrc.
  destruct (CreateBuffer_hit text length parameters fm p b Hmap Hb)
    as (_ & _ & _ & Hfresh).
  cbn zeta in Hfresh. rewrite (Hfresh Hrev), Hflag. clear Hfresh.
  set (b0 := if bool_decide (current_pass_ fm ≠ kRenderPass)
             then set_pass (current_pass_ fm) b else b).
  assert (get_ref_count b0 = get_ref_count b) as Hrc0
    by (subst b0; by case_bool_decide).
  set (b1 := set_ref_count (get_ref_count b + 1) b0).
  eexists _, _. split; [reflexivity|]. run.
  split; [by rewrite lookup_insert_eq|].
  erewrite (ReleaseBuffer_step p b1);
    [|run; apply lookup_insert_eq|simpl; lia].
  cbn zeta. simpl get_ref_count.
  rewrite bool_decide_eq_false_2 by lia.
  split; [reflexivity|]. run. split; [done|]. split; [done|].
  rewrite insert_insert_eq. f_equal. subst b1.
  replace (get_ref_count b + 1 - 1) with (ref_count_ b0)
    by (unfold get_ref_count in *; lia).
  destruct b0; reflexivity.
Qed.

(** The release that takes the last reference destroys the buffer: the
    pointer is dangling from then on, so that a second release of it reads
    freed memory, and the map no longer holds the parameters. *)
Theorem ReleaseBuffer_then_dangling buffer b key fm :
  buffers_ fm !! buffer = Some b →
  get_ref_count b = 1 →
  iterator_ b = Some key →
  map_buffers_ fm !! key = Some buffer →
  ∃ fm',
    ReleaseBuffer buffer fm = Ok tt fm'
    ∧ buffers_ fm' !! buffer = None
    ∧ map_buffers_ fm' !! key = None
    ∧ ReleaseBuffer buffer fm' = Abort DanglingPointer fm'.
Proof.
  intros Hb Hrc Hit Hkey.
  rewrite (ReleaseBuffer_step buffer b fm) by (done || lia).
  rewrite bool_decide_eq_true_2 by lia. rewrite Hit, Hkey.
  eexists. split; [reflexivity|]. run.
  split; [apply lookup_delete_eq|]. split; [apply lookup_delete_eq|].
  unfold ReleaseBuffer, deref. run. rewrite lookup_delete_eq. reflexivity.
Qed.

(** *** A refresh that fails for a reference-counted buffer *)

(** The fetches of the loop of [UpdateUV]: when it gives up, the failed
    fetch is its last call; otherwise every fetch found its glyph. *)
Lemma UpdateUV_loop_last ysize flags buffer :
  ∀ cps i fm,
    let o := UpdateUV_loop ysize flags buffer cps i fm in
    ∃ calls,
      recorded fm (final o) calls
      ∧ match o with
        | Ok false _ =>
            ∃ pre code_point m,
              calls = pre ++ [CallLogInfo m;
                              CallGetCachedEntry code_point false]
        | _ => Forall (λ c, is_fetch_found c = true) calls
        end.
Proof.
  induction cps as [|cp rest IH]; intros i fm; cbn zeta.
  - cbn [UpdateUV_loop]. run. exists []. split; [apply recorded_refl|done].
  - rewrite UpdateUV_loop_cons.
    destruct (GetCachedEntry_spec cp ysize flags fm) as [_ Hcalls].
    destruct (GetCachedEntry cp ysize flags fm) as [[e|] fm1|f fm1];
      cbn [final] in *.
    + destruct (buffers_ fm1 !! buffer) as [b|]; cbn [final].
      2:{ exists [CallGetCachedEntry cp true]. split; [done|].
          by constructor. }
      destruct (FontBuffer_UpdateUV _ _ b) as [b1|]; cbn [final].
      2:{ exists [CallGetCachedEntry cp true]. split; [done|].
          by constructor. }
      set (fm2 := set_buffers_ _ fm1).
      destruct (IH (i + 1) fm2) as (calls & Hrec & Hshape).
      cbn zeta in *.
      assert (recorded fm (final (UpdateUV_loop ysize flags buffer rest
                                    (i + 1) fm2))
                ([CallGetCachedEntry cp true] ++ calls)) as Hrec'.
      { apply (recorded_trans fm fm1 _ [CallGetCachedEntry cp true] calls);
          [done|]. revert Hrec. unfold recorded. subst fm2. run. done. }
      exists ([CallGetCachedEntry cp true] ++ calls). split; [exact Hrec'|].
      destruct (UpdateUV_loop ysize flags buffer rest (i + 1) fm2)
        as [[] fm3|f fm3].
      * by constructor.
      * destruct Hshape as (pre & cp' & m & ->).
        exists ([CallGetCachedEntry cp true] ++ pre), cp', m.
        by rewrite <- app_assoc.
      * by constructor.
    + destruct Hcalls as [m Hcalls].
      exists [CallLogInfo m; CallGetCachedEntry cp false].
      split; [done|]. by exists [], cp, m.
    + exists []. split; [done|]. done.
Qed.

Lemma UpdateUV_last ysize flags buffer fm :
  let o := UpdateUV ysize flags buffer fm in
  ∃ calls,
    recorded fm (final o) calls
    ∧ match o with
      | Ok None _ =>
          ∃ pre code_point m,
            calls = pre ++ [CallLogInfo m;
                            CallGetCachedEntry code_point false]
      | _ => Forall (λ c, is_fetch_found c = true) calls
      end.
Proof.
  cbn zeta. unfold UpdateUV, deref, font. run.
  destruct (buffers_ fm !! buffer) as [b|]; run;
    [|exists []; split; [apply recorded_refl|done]].
  case_bool_decide as Hstale; run;
    [|exists []; split; [apply recorded_refl|done]].
  destruct (current_font_ fm) as [f|]; run;
    [|exists []; split; [apply recorded_refl|done]].
  set (fm0 := set_current_font_ (Some (SetPixelSize ysize f)) fm).
  destruct (UpdateUV_loop_last ysize flags buffer (code_points_ b) 0 fm0)
    as (calls & Hrec & Hshape).
  cbn zeta in *. exists calls.
  destruct (UpdateUV_loop ysize flags buffer (code_points_ b) 0 fm0)
    as [[] fm'|e fm']; cbn [final] in *; run; (split; [exact Hrec|done]).
Qed.

Lemma last_fetch_found calls code_point :
  Forall (λ c, is_fetch_found c = true) calls →
  last calls ≠ Some (CallGetCachedEntry code_point false).
Proof.
  intros Hall Hlast. apply last_Some_elem_of in Hlast.
  by apply (proj1 (Forall_forall _ _) Hall) in Hlast.
Qed.

(** [GetBuffer] for parameters of the map that ask for reference counting.
    It constructs once and never flushes: when it returns, it returns the
    buffer of the map, never null; and when the refresh of the texture
    coordinates ends with a glyph that the cache cannot take, the null
    pointer that [UpdateUV] returns is dereferenced (line 250), so the
    flush and the retry of [GetBuffer] are not reached. *)
Theorem GetBuffer_refresh_failure text length parameters fm p b :
  map_buffers_ fm !! parameters = Some p →
  buffers_ fm !! p = Some b →
  get_ref_count_flag parameters = true →
  let o := GetBuffer text length parameters fm in
  ∃ calls,
    recorded fm (final o) (CallCreateBuffer :: calls)
    ∧ Forall (λ c, is_fetch_or_notice c = true) calls
    ∧ (∀ r fm', o = Ok r fm' → r = Some p)
    ∧ (∀ code_point,
         last calls = Some (CallGetCachedEntry code_point false) →
         ∃ fm', o = Abort NullPointer fm').
Proof.
  intros Hmap Hb Hflag. cbn zeta.
  assert (∃ calls,
            let o := CreateBuffer text (to_uint32 length) parameters fm in
            recorded fm (final o) (CallCreateBuffer :: calls)
            ∧ Forall (λ c, is_fetch_or_notice c = true) calls
            ∧ (∀ r fm', o = Ok r fm' → r = Some p)
            ∧ (∀ code_point,
                 last calls = Some (CallGetCachedEntry code_point false) →
                 ∃ fm', o = Abort NullPointer fm')) as (calls & Hcreate).
  { cbn zeta. unfold CreateBuffer, ConvertSize. run. rewrite Hmap, Hflag. run.
    set (fm0 := set_calls_ (calls_ fm ++ [CallCreateBuffer]) fm).
    set (b0 := if bool_decide (current_pass_ fm ≠ kRenderPass)
               then set_pass (current_pass_ fm) b else b).
    set (fm1 := set_buffers_ (<[p := b0]> (buffers_ fm)) fm0).
    assert (buffers_ fm1 !! p = Some b0) as Hb0
      by (subst fm1; run; apply lookup_insert_eq).
    assert ((if bool_decide (current_pass_ fm ≠ kRenderPass)
             then update_buffer p (set_pass (current_pass_ fm))
             else λ fm2 : FontManager, Ok () fm2) fm0 = Ok tt fm1) as ->.
    { subst fm1 b0 fm0. case_bool_decide.
      - erewrite update_buffer_Some; [reflexivity|]. run. exact Hb.
      - rewrite insert_id by done. by destruct fm. }
    set (cy := match size_selector_ fm with
               | Some selector =>
                   selector (f_to_int32 (get_font_size parameters))
               | None => f_to_int32 (get_font_size parameters)
               end).
    destruct (UpdateUV_frame cy (get_glyph_flags parameters) p fm1 b0 Hb0)
      as (_ & _ & (b1 & Hbuf & _) & (calls & Hrec & Hall) & Hr & _).
    destruct (UpdateUV_last cy (get_glyph_flags parameters) p fm1)
      as (calls' & Hrec' & Hshape).
    cbn zeta in *.
    assert (calls' = calls) as ->.
    { rewrite <- (recorded_calls_since _ _ _ Hrec').
      exact (recorded_calls_since _ _ _ Hrec). }
    assert (recorded fm fm1 [CallCreateBuffer]) as Hrec1 by reflexivity.
    exists calls.
    destruct (UpdateUV cy (get_glyph_flags parameters) p fm1)
      as [[r|] fm2|e fm2] eqn:Hrun; cbn [final] in *.
    - assert (r = p) as -> by (by eapply Hr).
      assert (buffers_ fm2 !! p = Some b1) as Hb1
        by (rewrite Hbuf; apply lookup_insert_eq).
      rewrite (deref_Some p b1 fm2 Hb1).
      rewrite (update_buffer_Some p b1 _ fm2 Hb1).
      cbn [final]. run.
      split; [exact (recorded_trans fm fm1 _ [CallCreateBuffer] calls
                       Hrec1 Hrec)|].
      split; [exact Hall|]. split; [by intros r fm' [= <- _]|].
      intros cp Hlast. by destruct (last_fetch_found calls cp Hshape).
    - run.
      split; [exact (recorded_trans fm fm1 _ [CallCreateBuffer] calls
                       Hrec1 Hrec)|].
      split; [exact Hall|]. split; [done|].
      intros cp Hlast. by eexists.
    - run.
      split; [exact (recorded_trans fm fm1 _ [CallCreateBuffer] calls
                       Hrec1 Hrec)|].
      split; [exact Hall|]. split; [done|].
      intros cp Hlast. by destruct (last_fetch_found calls cp Hshape). }
  cbn zeta in Hcreate. destruct Hcreate as (Hrec & Hall & Hret & Hfault).
  exists calls. rewrite GetBuffer_unfold.
  destruct (CreateBuffer text (to_uint32 length) parameters fm)
    as [[r|] fm1|f fm1] eqn:Hrun; cbn [final] in *.
  - split; [exact Hrec|]. split; [exact Hall|]. split.
    + intros r' fm' [= <- <-]. by apply (Hret _ fm1).
    + intros cp Hlast. destruct (Hfault cp Hlast) as [fm' Hf]. done.
  - by specialize (Hret None fm1 eq_refl).
  - split; [exact Hrec|]. split; [exact Hall|]. split; [done|].
    exact Hfault.
Qed.

(** [GetBuffer] for parameters that the map does not hold, when no font is
    selected: the null [current_font_] is dereferenced (line 258) before
    anything is built; the map and the buffers are as they were. *)
Theorem GetBuffer_without_font text length parameters fm :
  current_font_ fm = None →
  map_buffers_ fm !! parameters = None →
  ∃ fm',
    GetBuffer text length parameters fm = Abort NullPointer fm'
    ∧ same_buffers fm fm'
    ∧ recorded fm fm' [CallCreateBuffer].
Proof.
  intros Hfont Hmap. rewrite GetBuffer_unfold, CreateBuffer_miss by done.
  unfold build_buffer, font. run. rewrite Hfont. run.
  eexists. split; [reflexivity|]. split; [by split|reflexivity].
Qed.

(** *** The map and its buffers *)

Lemma owned_buffers_same fm fm' :
  same_buffers fm fm' → owned_buffers fm → owned_buffers fm'.
Proof. intros [Hm Hb] [H1 H2]. unfold owned_buffers. by rewrite Hm, Hb. Qed.

Lemma owned_buffers_update fm fm' p b b' :
  owned_buffers fm →
  buffers_ fm !! p = Some b →
  map_buffers_ fm' = map_buffers_ fm →
  buffers_ fm' = <[p := b']> (buffers_ fm) →
  iterator_ b' = iterator_ b →
  owned_buffers fm'.
Proof.
  intros [H1 H2] Hb Hm Hbuf Hit. unfold owned_buffers. rewrite Hm, Hbuf.
  split.
  - intros key q Hq. destruct (H1 key q Hq) as (c & Hc & Hkey).
    destruct (decide (q = p)) as [->|Hne].
    + rewrite lookup_insert_eq. exists b'. split; [done|].
      rewrite Hit. unfold addr in *. congruence.
    + rewrite lookup_insert_ne by done. by exists c.
  - intros q c. destruct (decide (q = p)) as [->|Hne].
    + rewrite lookup_insert_eq. intros [= <-]. rewrite Hit. by apply H2.
    + rewrite lookup_insert_ne by done. apply H2.
Qed.

Lemma owned_buffers_insert fm fm' key p b :
  owned_buffers fm →
  buffers_ fm !! p = None →
  map_buffers_ fm !! key = None →
  map_buffers_ fm' = <[key := p]> (map_buffers_ fm) →
  buffers_ fm' = <[p := b]> (buffers_ fm) →
  iterator_ b = Some key →
  owned_buffers fm'.
Proof.
  intros [H1 H2] Hb Hkey Hm Hbuf Hit. unfold owned_buffers. rewrite Hm, Hbuf.
  split.
  - intros key' q. destruct (decide (key' = key)) as [->|Hne].
    + rewrite lookup_insert_eq. intros [= <-]. exists b.
      by rewrite lookup_insert_eq.
    + rewrite lookup_insert_ne by done. intros Hq.
      destruct (H1 key' q Hq) as (c & Hc & Hkey').
      exists c. split; [|done]. rewrite lookup_insert_ne; [done|].
      intros <-. unfold addr in *. congruence.
  - intros q c. destruct (decide (q = p)) as [->|Hne].
    + rewrite lookup_insert_eq. intros [= <-]. exists key.
      by rewrite lookup_insert_eq.
    + rewrite lookup_insert_ne by done. intros Hc.
      destruct (H2 q c Hc) as (key' & Hkey' & Hq). exists key'.
      split; [done|]. rewrite lookup_insert_ne; [done|]. congruence.
Qed.

Lemma owned_buffers_delete fm fm' key p :
  owned_buffers fm →
  map_buffers_ fm !! key = Some p →
  map_buffers_ fm' = delete key (map_buffers_ fm) →
  buffers_ fm' = delete p (buffers_ fm) →
  owned_buffers fm'.
Proof.
  intros [H1 H2] Hkey Hm Hbuf. unfold owned_buffers. rewrite Hm, Hbuf.
  split.
  - intros key' q. destruct (decide (key' = key)) as [->|Hne].
    + by rewrite lookup_delete_eq.
    + rewrite lookup_delete_ne by done. intros Hq.
      destruct (H1 key' q Hq) as (c & Hc & Hkey').
      exists c. split; [|done]. rewrite lookup_delete_ne; [done|].
      intros <-. destruct (H1 key p Hkey) as (c' & Hc' & Hkey'').
      unfold addr in *. congruence.
  - intros q c. destruct (decide (q = p)) as [->|Hne].
    + by rewrite lookup_delete_eq.
    + rewrite lookup_delete_ne by done. intros Hc.
      destruct (H2 q c Hc) as (key' & Hkey' & Hq). exists key'.
      split; [done|]. rewrite lookup_delete_ne; [done|].
      intros <-. congruence.
Qed.

Lemma iterator_layout_of b b' :
  layout_of b' = layout_of b → iterator_ b' = iterator_ b.
Proof. intros Hl. exact (f_equal iterator_ Hl). Qed.

Lemma owned_buffers_set_calls fm calls :
  owned_buffers fm → owned_buffers (set_calls_ calls fm).
Proof. apply owned_buffers_same. by split. Qed.

Lemma owned_buffers_CreateBuffer text length parameters fm :
  owned_buffers fm →
  owned_buffers (final (CreateBuffer text length parameters fm)).
Proof.
  intros Howned.
  destruct (map_buffers_ fm !! parameters) as [p|] eqn:Hmap.
  - destruct (proj1 Howned _ _ Hmap) as (b & Hb & _).
    destruct (CreateBuffer_hit text length parameters fm p b Hmap Hb)
      as (Hm & _ & (b' & Hbuf & Hl & _) & _).
    cbn zeta in *.
    exact (owned_buffers_update fm _ p b b' Howned Hb Hm Hbuf
             (iterator_layout_of _ _ Hl)).
  - rewrite (CreateBuffer_miss _ _ _ _ Hmap).
    match goal with
    | |- context [build_buffer ?t ?l ?p ?y ?c ?s ?m] =>
        destruct (build_buffer_spec t l p y c s m) as (calls & _ & Hspec);
        destruct (build_buffer t l p y c s m) as [[q|] fm'|f fm'];
        cbn [final]
    end.
    + destruct Hspec as (_ & Hq & Hm & b & Hbuf & Hit & _).
      apply (owned_buffers_insert
               (set_calls_ (calls_ fm ++ [CallCreateBuffer]) fm)
               fm' parameters q b);
        [by apply owned_buffers_set_calls| |done|done|done|done].
      rewrite Hq. apply not_elem_of_dom, is_fresh.
    + destruct Hspec as [Hs _].
      apply (owned_buffers_same _ _ Hs). by apply owned_buffers_set_calls.
    + destruct Hspec as [Hs _].
      apply (owned_buffers_same _ _ Hs). by apply owned_buffers_set_calls.
Qed.

Lemma UpdatePass_render_buffers fm :
  same_buffers fm (final (UpdatePass false fm)).
Proof.
  unfold UpdatePass. run.
  set (gc := gc_Update (glyph_cache_ fm)).
  destruct (gc_get_dirty_state gc && bool_decide (current_pass_ fm <= 0)).
  - run.
    destruct (upload_slices_spec
      (Z.to_nat (gc_get_num_slices gc)) 0 (set_glyph_cache_ gc fm))
      as (uploads & Hup & Hfinal).
    destruct (upload_slices _ 0 _) as [[] fm1|f fm1]; simpl in Hfinal;
      subst fm1; run; by split.
  - run. by split.
Qed.

(** The map and the buffers belong together after every [GetBuffer], every
    [ReleaseBuffer] and every [UpdatePass] when they did so before, however
    the call ends.  So a live buffer that holds a reference can always be
    released: its entry is there to be erased. *)
Theorem owned_buffers_kept fm :
  owned_buffers fm →
  (∀ text length parameters,
     owned_buffers (final (GetBuffer text length parameters fm)))
  ∧ (∀ buffer, owned_buffers (final (ReleaseBuffer buffer fm)))
  ∧ (∀ start_subpass, owned_buffers (final (UpdatePass start_subpass fm)))
  ∧ (∀ buffer b,
       buffers_ fm !! buffer = Some b → 1 <= get_ref_count b →
       ∃ fm', ReleaseBuffer buffer fm = Ok tt fm').
Proof.
  intros Howned.
  assert (∀ fm0, owned_buffers fm0 →
            owned_buffers (final (UpdatePass true fm0))) as Hflush.
  { intros fm0 Hfm0. destruct (UpdatePass_true_calls fm0) as [Hs _].
    exact (owned_buffers_same _ _ Hs Hfm0). }
  assert (∀ buffer b,
            buffers_ fm !! buffer = Some b → 1 <= get_ref_count b →
            owned_buffers (final (ReleaseBuffer buffer fm))
            ∧ ∃ fm', ReleaseBuffer buffer fm = Ok tt fm') as Hrelease.
  { intros buffer b Hb Hrc.
    rewrite (ReleaseBuffer_step buffer b fm Hb Hrc).
    destruct (proj2 Howned _ _ Hb) as (key & Hit & Hkey).
    case_bool_decide.
    - rewrite Hit, Hkey. cbn [final]. split; [|by eexists].
      apply (owned_buffers_delete fm _ key buffer Howned Hkey); [done|].
      cbn [buffers_ set_map_buffers_ set_buffers_ set_glyph_cache_].
      by rewrite delete_insert_eq.
    - cbn [final]. split; [|by eexists].
      by apply (owned_buffers_update fm _ buffer b
                  (set_ref_count (get_ref_count b - 1) b) Howned Hb). }
  split; [|split; [|split]].
  - intros text length parameters. rewrite GetBuffer_unfold.
    pose proof (owned_buffers_CreateBuffer text (to_uint32 length)
                  parameters fm Howned) as H1.
    destruct (CreateBuffer text (to_uint32 length) parameters fm)
      as [[p|] fm1|f fm1]; cbn [final] in *; [done| |done].
    pose proof (Hflush _ (owned_buffers_set_calls fm1
                            (calls_ fm1 ++ [CallFlushAndUpdate]) H1)) as H2.
    destruct (UpdatePass true _) as [[] fm2|f fm2]; cbn [final] in *;
      [|done].
    pose proof (owned_buffers_CreateBuffer text (to_uint32 length)
                  parameters fm2 H2) as H3.
    destruct (CreateBuffer text (to_uint32 length) parameters fm2)
      as [[p|] fm3|f fm3]; cbn [final] in *; [done| |done].
    by apply owned_buffers_set_calls.
  - intros buffer.
    destruct (buffers_ fm !! buffer) as [b|] eqn:Hb.
    + destruct (decide (1 <= get_ref_count b)) as [Hrc|Hrc].
      * by destruct (Hrelease buffer b Hb Hrc).
      * unfold ReleaseBuffer. rewrite bind_unfold, (deref_Some _ b) by done.
        by rewrite bool_decide_eq_true_2 by lia.
    + unfold ReleaseBuffer, deref. run. by rewrite Hb.
  - intros [|]; [by apply Hflush|].
    exact (owned_buffers_same _ _ (UpdatePass_render_buffers fm) Howned).
  - intros buffer b Hb Hrc. by destruct (Hrelease buffer b Hb Hrc).
Qed.

(** *** Well-formed buffers *)

Lemma Verify_layout_of b b' :
  layout_of b' = layout_of b → Verify b' = Verify b.
Proof.
  intros Hl. unfold Verify, vsize.
  pose proof (f_equal (λ b, length (vertices_ b)) Hl) as Hv.
  pose proof (f_equal code_points_ Hl) as Hc.
  cbn in Hv, Hc. rewrite !length_map in Hv. by rewrite Hv, Hc.
Qed.

Lemma verified_buffers_same fm fm' :
  buffers_ fm' = buffers_ fm → verified_buffers fm → verified_buffers fm'.
Proof. intros Hb Hv. unfold verified_buffers. by rewrite Hb. Qed.

Lemma verified_buffers_insert fm fm' p b :
  buffers_ fm' = <[p := b]> (buffers_ fm) → Verify b = true →
  verified_buffers fm → verified_buffers fm'.
Proof.
  intros Hb Hverify Hv q c. rewrite Hb.
  destruct (decide (q = p)) as [->|Hne].
  - rewrite lookup_insert_eq. by intros [= <-].
  - rewrite lookup_insert_ne by done. apply Hv.
Qed.

Lemma verified_buffers_delete fm fm' p :
  buffers_ fm' = delete p (buffers_ fm) →
  verified_buffers fm → verified_buffers fm'.
Proof.
  intros Hb Hv q c. rewrite Hb. intros Hc.
  apply lookup_delete_Some in Hc as [_ Hc]. by apply (Hv q).
Qed.

Lemma verified_buffers_CreateBuffer text length parameters fm :
  verified_buffers fm →
  verified_buffers (final (CreateBuffer text length parameters fm)).
Proof.
  intros Hv.
  destruct (map_buffers_ fm !! parameters) as [p|] eqn:Hmap.
  - destruct (buffers_ fm !! p) as [b|] eqn:Hb.
    + destruct (CreateBuffer_hit text length parameters fm p b Hmap Hb)
        as (_ & _ & (b' & Hbuf & Hl & _) & _).
      cbn zeta in *.
      apply (verified_buffers_insert fm _ p b' Hbuf); [|done].
      rewrite (Verify_layout_of _ _ Hl). by apply (Hv p).
    + destruct (CreateBuffer_dangling text length parameters fm p Hmap Hb)
        as (f & fm' & -> & [_ Hs] & _).
      by apply (verified_buffers_same fm).
  - rewrite (CreateBuffer_miss _ _ _ _ Hmap).
    match goal with
    | |- context [build_buffer ?t ?l ?p ?y ?c ?s ?m] =>
        destruct (build_buffer_spec t l p y c s m) as (calls & _ & Hspec);
        destruct (build_buffer t l p y c s m) as [[q|] fm'|f fm'];
        cbn [final]
    end.
    + destruct Hspec as (_ & _ & _ & b & Hbuf & _ & _ & Hverify).
      by apply (verified_buffers_insert fm _ q b).
    + destruct Hspec as [[_ Hs] _]. by apply (verified_buffers_same fm).
    + destruct Hspec as [[_ Hs] _]. by apply (verified_buffers_same fm).
Qed.

(** Every live buffer holds four vertices per code point after every
    [GetBuffer], every [ReleaseBuffer] and every [UpdatePass] when it was
    so before, however the call ends: the refresh of the texture
    coordinates finds the vertices of every code point it visits. *)
Theorem verified_buffers_kept fm :
  verified_buffers fm →
  (∀ text length parameters,
     verified_buffers (final (GetBuffer text length parameters fm)))
  ∧ (∀ buffer, verified_buffers (final (ReleaseBuffer buffer fm)))
  ∧ (∀ start_subpass,
       verified_buffers (final (UpdatePass start_subpass fm))).
Proof.
  intros Hv.
  assert (∀ fm0, verified_buffers fm0 →
            verified_buffers (final (UpdatePass true fm0))) as Hflush.
  { intros fm0 Hfm0. destruct (UpdatePass_true_calls fm0) as [[_ Hs] _].
    exact (verified_buffers_same _ _ Hs Hfm0). }
  split; [|split].
  - intros text length parameters. rewrite GetBuffer_unfold.
    pose proof (verified_buffers_CreateBuffer text (to_uint32 length)
                  parameters fm Hv) as H1.
    destruct (CreateBuffer text (to_uint32 length) parameters fm)
      as [[p|] fm1|f fm1]; cbn [final] in *; [done| |done].
    pose proof (Hflush (set_calls_ (calls_ fm1 ++ [CallFlushAndUpdate]) fm1)
                  H1) as H2.
    destruct (UpdatePass true _) as [[] fm2|f fm2]; cbn [final] in *;
      [|done].
    pose proof (verified_buffers_CreateBuffer text (to_uint32 length)
                  parameters fm2 H2) as H3.
    destruct (CreateBuffer text (to_uint32 length) parameters fm2)
      as [[p|] fm3|f fm3]; cbn [final] in *; done.
  - intros buffer.
    destruct (buffers_ fm !! buffer) as [b|] eqn:Hb.
    + destruct (decide (1 <= get_ref_count b)) as [Hrc|Hrc].
      * rewrite (ReleaseBuffer_step buffer b fm Hb Hrc).
        pose proof (Hv _ _ Hb) as Hverify.
        case_bool_decide; [|cbn [final];
          by apply (verified_buffers_insert fm _ buffer
                      (set_ref_count (get_ref_count b - 1) b))].
        destruct (iterator_ b) as [key|]; cbn [final];
          [destruct (map_buffers_ fm !! key) as [owned|]; cbn [final]|].
        -- apply (verified_buffers_delete
                    (set_buffers_
                       (<[buffer := with_referencing_rows []
                                      (set_ref_count (get_ref_count b - 1)
                                         b)]> (buffers_ fm)) fm)
                    _ owned); [done|].
           by apply (verified_buffers_insert fm _ buffer
                       (with_referencing_rows []
                          (set_ref_count (get_ref_count b - 1) b))).
        -- by apply (verified_buffers_insert fm _ buffer
                       (with_referencing_rows []
                          (set_ref_count (get_ref_count b - 1) b))).
        -- by apply (verified_buffers_insert fm _ buffer
                       (with_referencing_rows []
                          (set_ref_count (get_ref_count b - 1) b))).
      * unfold ReleaseBuffer. rewrite bind_unfold, (deref_Some _ b) by done.
        by rewrite bool_decide_eq_true_2 by lia.
    + unfold ReleaseBuffer, deref. run. by rewrite Hb.
  - intros [|]; [by apply Hflush|].
    destruct (UpdatePass_render_buffers fm) as [_ Hs].
    exact (verified_buffers_same _ _ Hs Hv).
Qed.

(** *** The empty text *)

(** A step of a construction only adds to the trace. *)
Lemma build_step_recorded {A} (null : A → bool) fm (o : Result A) :
  build_step null fm o → ∃ calls, recorded fm (final o) calls.
Proof.
  intros [_ (calls & _ & Hrec)].
  destruct (if o is Ok a _ then null a else false).
  - destruct Hrec as (m & cp & Hrec). by eexists.
  - by eexists.
Qed.

(** What a computation records first is what its first part records
    first. *)
Lemma recorded_bind_first {A B} (m : M A) (k : A → M B) fm pre :
  (∃ calls, recorded fm (final (m fm)) (pre ++ calls)) →
  (∀ a fm1, m fm = Ok a fm1 → ∃ calls, recorded fm1 (final (k a fm1)) calls) →
  ∃ calls, recorded fm (final ((m ≫= k) fm)) (pre ++ calls).
Proof.
  intros [calls Hrec] Hk. rewrite bind_unfold.
  destruct (m fm) as [a fm1|f fm1]; cbn [final] in *; [|by exists calls].
  destruct (Hk a fm1 eq_refl) as [calls' Hrec'].
  exists (calls ++ calls'). rewrite app_assoc. by eapply recorded_trans.
Qed.

Lemma LayoutText_first text length fm :
  is_Some (current_font_ fm) →
  ∃ calls,
    recorded fm (final (LayoutText text length fm))
      ([CallLayoutText text length] ++ calls).
Proof.
  intros [f Hf]. unfold LayoutText, font. run. rewrite Hf. run.
  exists []. reflexivity.
Qed.

Lemma place_word_first F L fm :
  is_Some (current_font_ fm) →
  get_multi_line_setting (parameters F) = true →
  ∃ calls,
    recorded fm (final (place_word F L fm))
      ([CallLayoutText
          (drop (Z.to_nat (GetCurrentWordIndex (word_enum L))) (text F))
          (GetCurrentWordLength (word_enum L))] ++ calls).
Proof.
  intros Hfont Hmulti. unfold place_word. rewrite Hmulti, bind_unfold.
  change (get fm) with (Ok fm fm). cbn beta iota. cbn [negb].
  apply recorded_bind_first; [by apply LayoutText_first|].
  intros w fm1 _. eapply (build_step_recorded never). build.
Qed.

Lemma layout_word_first F L fm :
  is_Some (current_font_ fm) →
  get_multi_line_setting (parameters F) = true →
  ∃ calls,
    recorded fm (final (layout_word F L fm))
      ([CallLayoutText
          (drop (Z.to_nat (GetCurrentWordIndex (word_enum L))) (text F))
          (GetCurrentWordLength (word_enum L))] ++ calls).
Proof.
  intros Hfont Hmulti. unfold layout_word.
  apply recorded_bind_first; [by apply place_word_first|].
  intros [L1|L1] fm1 _; [|eapply (build_step_recorded never); build].
  eapply (build_step_recorded is_return_null).
  apply build_step_bind_never; [build|].
  intros [b first] fm2 _. cbn beta iota.
  apply build_step_bind_never; [build|intros fm3 fm4 _; cbn beta].
  eapply build_step_bind; [apply build_step_layout_glyphs| |].
  - intros [L2|] fm5 _ Hn; [|discriminate]. build.
  - intros [L2|] fm5 _ Hn; [discriminate|]. run.
    by apply (silent_null is_return_null).
Qed.

Lemma Advance_first buffer :
  buffer ≠ [] → vsize buffer + 1 < 2 ^ 64 →
  ∃ w,
    Advance (WordEnumerator_new buffer false) = (true, w)
    ∧ GetCurrentWordIndex w = 0
    ∧ 1 <= GetCurrentWordLength w <= vsize buffer + 1.
Proof.
  intros Hne Hsz. unfold Advance, WordEnumerator_new. cbn.
  assert (0 < vsize buffer) as Hpos
    by (destruct buffer; [done|unfold vsize; cbn [length]; lia]).
  rewrite to_size_t_small by lia.
  rewrite bool_decide_eq_false_2 by lia. cbn.
  eexists. split; [reflexivity|]. cbn. split; [done|].
  destruct (scan_break_spec buffer 0 ltac:(lia) ltac:(lia)) as [Hp _].
  cbn zeta in Hp. change (0 + 0) with 0. change (Z.to_nat 0) with 0%nat.
  rewrite drop_0, to_size_t_small by lia. lia.
Qed.

Lemma layout_words_first F fuel L fm w :
  Advance (word_enum L) = (true, w) →
  is_Some (current_font_ fm) →
  get_multi_line_setting (parameters F) = true →
  ∃ calls,
    recorded fm (final (layout_words F (S fuel) L fm))
      ([CallLayoutText (drop (Z.to_nat (GetCurrentWordIndex w)) (text F))
          (GetCurrentWordLength w)] ++ calls).
Proof.
  intros Hadv Hfont Hmulti. cbn [layout_words]. rewrite Hadv.
  apply recorded_bind_first.
  - exact (layout_word_first F
             (mkLocals w (buffer L) (initial_metrics L) (pos L)
                (line_width L) (max_line_width L) (total_height L)
                (lastline_must_break L) (first_character L))
             fm Hfont Hmulti).
  - intros [L1|L1|] fm1 _.
    + exact (build_step_recorded is_null _ _
               (build_step_layout_words F fuel L1 fm1)).
    + exists []. apply recorded_refl.
    + exists []. apply recorded_refl.
Qed.

(** A request of length 0 leaves the break information of the request
    before it in place (line 264), and the word loop runs over it.  In a
    multi-line layout the first thing [CreateBuffer] does is then to lay
    out, at the start of the text of length 0, as many bytes as the first
    word of the earlier text had. *)
Theorem CreateBuffer_empty_text text parameters fm :
  map_buffers_ fm !! parameters = None →
  is_Some (current_font_ fm) →
  get_multi_line_setting parameters = true →
  wordbreak_info_ fm ≠ [] →
  vsize (wordbreak_info_ fm) + 1 < 2 ^ 64 →
  ∃ n calls,
    1 <= n
    ∧ n = GetCurrentWordLength
            (snd (Advance (WordEnumerator_new (wordbreak_info_ fm) false)))
    ∧ recorded fm (final (CreateBuffer text 0 parameters fm))
        (CallCreateBuffer :: CallLayoutText text n :: calls).
Proof.
  intros Hmap [f Hfont] Hmulti Hstale Hsz. rename text into bytes.
  destruct (Advance_first _ Hstale Hsz) as (w & Hadv & Hindex & Hn & _).
  exists (GetCurrentWordLength w). rewrite Hadv. cbn [snd].
  rewrite (CreateBuffer_miss _ _ _ _ Hmap).
  unfold build_buffer, font. run. rewrite Hfont. run.
  rewrite (bool_decide_eq_false_2 (0 ≠ 0)) by (by intros []). run.
  rewrite Hmulti. cbn [negb].
  match goal with
  | |- context [layout_words ?F (word_fuel _) ?L ?fm2] =>
      destruct (layout_words_first F (S (length (wordbreak_info_ fm))) L fm2
                  w Hadv ltac:(by eexists) Hmulti) as [calls Hrec];
      change (word_fuel (wordbreak_info_ fm))
        with (S (S (length (wordbreak_info_ fm))));
      destruct (layout_words F (S (S (length (wordbreak_info_ fm)))) L fm2)
        as [[L'|] fm'|e fm']
  end; cbn [final text] in Hrec; rewrite Hindex in Hrec;
    change (Z.to_nat 0) with 0%nat in Hrec; rewrite drop_0 in Hrec.
  all: assert (recorded fm fm'
                 (CallCreateBuffer
                  :: CallLayoutText bytes (GetCurrentWordLength w) :: calls))
         as Hall
         by (revert Hrec; unfold recorded; run; intros ->;
             by rewrite <- app_assoc).
  all: clear Hrec.
  2,3: by exists calls.
  exists calls. split; [done|]. split; [done|].
  destruct (get_caret_info_flag parameters);
    [destruct (AddCaretPosition _ _) as [b0|]|]; run; try done.
  all: destruct (UpdateLine _ _ _ _ _) as [b1|]; run; try done.
  all: destruct (Verify _) eqn:Hv; run; done.
Qed.

(** *** The shaping buffer *)

Lemma hb_step_bind_never {A B} (nullB : B → bool)
    (m : M A) (k : A → M B) fm :
  hb_step never fm (m fm) →
  (∀ a fm1, m fm = Ok a fm1 → hb_step nullB fm1 (k a fm1)) →
  hb_step nullB fm ((m ≫= k) fm).
Proof.
  intros Hm Hk. rewrite bind_unfold.
  destruct (m fm) as [a fm1|f fm1]; [|done].
  specialize (Hk a fm1 eq_refl). unfold hb_step, never in *.
  destruct (k a fm1) as [b fm2|f fm2]; [|done].
  destruct (nullB b); [done|]. by rewrite Hk.
Qed.

Lemma hb_step_ret {A} (null : A → bool) (a : A) fm :
  null a = false → hb_step null fm (ret a fm).
Proof. intros Ha. unfold hb_step, ret. by rewrite Ha. Qed.

Lemma hb_step_modify f fm :
  harfbuzz_buf_ (f fm) = harfbuzz_buf_ fm →
  hb_step never fm (modify f fm).
Proof. done. Qed.

Lemma hb_step_lift {A} (null : A → bool) (e : Fault) (o : option A) fm :
  (∀ a, o = Some a → null a = false) → hb_step null fm (lift e o fm).
Proof.
  intros Ha. destruct o as [a|]; [|done]. simpl.
  unfold hb_step, ret. by rewrite (Ha a eq_refl).
Qed.

Ltac hb_one :=
  lazymatch goal with
  | |- hb_step _ _ ((_ ≫= _) _) =>
      apply hb_step_bind_never; [|intros ? ? _; cbn beta]
  | |- hb_step _ _ (ret _ _) => apply hb_step_ret; reflexivity
  | |- hb_step _ _ (mret _ _) => apply hb_step_ret; reflexivity
  | |- hb_step _ _ (get _) => apply hb_step_ret; reflexivity
  | |- hb_step _ _ (font _) => apply hb_step_lift; by intros
  | |- hb_step _ _ (abort _ _) => exact I
  | |- hb_step _ _ (lift _ _ _) => apply hb_step_lift; by intros
  | |- hb_step _ _ (log _ _) => apply hb_step_modify; reflexivity
  | |- hb_step _ _ (modify _ _) => apply hb_step_modify; reflexivity
  | |- hb_step _ _ (modify_cache _ _) => apply hb_step_modify; reflexivity
  | |- hb_step _ _ ((if ?c then _ else _) _) => destruct c
  | |- hb_step _ _ ((let '(_, _) := ?p in _) _) => destruct p
  | |- hb_step _ _ ((match ?x with _ => _ end) _) => destruct x
  end.

Ltac hb := repeat hb_one.

Lemma hb_step_GetCachedEntry code_point ysize flags fm :
  hb_step never fm (GetCachedEntry code_point ysize flags fm).
Proof. unfold GetCachedEntry, ExpandAtlasTexture. hb. Qed.

Lemma hb_step_register_glyph F code_point cache pos b metrics fm :
  hb_step never fm (register_glyph F code_point cache pos b metrics fm).
Proof. unfold register_glyph. hb. Qed.

Lemma hb_step_cleared {B} (null : B → bool) (b : B) fm fm' :
  null b = true →
  hb_step null fm
    ((modify (λ fm, set_harfbuzz_buf_
                      (hb_buffer_clear_contents (harfbuzz_buf_ fm)) fm);;
      ret b) fm').
Proof. intros Hb. run. unfold hb_step. rewrite Hb. by eexists. Qed.

Lemma hb_step_layout_glyph F glyph_info glyph_count idx_advance i idx L fm :
  hb_step is_null fm
    (layout_glyph F glyph_info glyph_count idx_advance i idx L fm).
Proof.
  unfold layout_glyph.
  apply hb_step_bind_never; [hb|intros g fm1 _; cbn beta].
  case_bool_decide; [hb|].
  rewrite bind_unfold.
  pose proof (hb_step_GetCachedEntry (codepoint g) (converted_ysize F)
                (get_glyph_flags (parameters F)) fm1) as Hget.
  destruct (GetCachedEntry _ _ _ fm1) as [[cache|] fm2|f fm2]; [| |done].
  - cbn in Hget. unfold hb_step.
    match goal with
    | |- match ?k fm2 with _ => _ end =>
        assert (hb_step is_null fm2 (k fm2)) as Hk
          by (hb; try apply hb_step_register_glyph; hb);
        unfold hb_step in Hk; destruct (k fm2) as [[L'|] fm3|f fm3]
    end; try done. by rewrite Hk.
  - run. unfold hb_step. cbn. by eexists.
Qed.

Lemma hb_step_layout_glyphs F glyph_info glyph_count idx_advance count :
  ∀ i idx L fm,
    hb_step is_null fm
      (layout_glyphs F glyph_info glyph_count idx_advance count i idx L fm).
Proof.
  induction count as [|count IH]; intros i idx L fm; cbn [layout_glyphs].
  - hb.
  - rewrite bind_unfold.
    pose proof (hb_step_layout_glyph F glyph_info glyph_count idx_advance
                  i idx L fm) as Hglyph.
    destruct (layout_glyph _ _ _ _ _ _ _ fm) as [[L'|] fm1|f fm1]; [| |done].
    + cbn in Hglyph.
      specialize (IH (i + 1) (idx + idx_advance) L' fm1).
      unfold hb_step in *.
      destruct (layout_glyphs _ _ _ _ _ _ _ _ fm1) as [[L2|] fm2|f fm2];
        try done. cbn in *. by rewrite IH.
    + exact Hglyph.
Qed.

(** [place_word] breaks off with a cleared shaping buffer. *)
Lemma place_word_cleared F L fm :
  match place_word F L fm with
  | Ok (inr _) fm' => ∃ h, harfbuzz_buf_ fm' = hb_buffer_clear_contents h
  | _ => True
  end.
Proof.
  unfold place_word, LayoutText, font. run.
  destruct (negb _); run; (destruct (current_font_ fm); run; [|done]).
  - done.
  - destruct (_ || _); run.
    + destruct (UpdateLine _ _ _ _ _); run; [|done].
      destruct (_ && _ && _); run; [by eexists|].
      case_bool_decide; run;
        (destruct (CurrentWordMustBreak _); run; done).
    + destruct (CurrentWordMustBreak _); run; done.
Qed.

(** Every iteration of the word loop that completes has cleared the
    shaping buffer. *)
Lemma layout_word_cleared F L fm :
  hb_step (λ _, true) fm (layout_word F L fm).
Proof.
  unfold layout_word. rewrite bind_unfold.
  pose proof (place_word_cleared F L fm) as Hplace.
  destruct (place_word F L fm) as [[L1|L1] fm1|f fm1]; [|exact Hplace|done].
  clear Hplace. rewrite bind_unfold.
  match goal with
  | |- hb_step _ _ match ?m fm1 with _ => _ end =>
      assert (hb_step never fm1 (m fm1)) as Hcaret by hb;
      destruct (m fm1) as [[b first] fm2|f fm2]; [|done]
  end.
  run.
  match goal with
  | |- context [layout_glyphs ?F ?g ?n ?a ?c ?i ?idx ?L fm2] =>
      pose proof (hb_step_layout_glyphs F g n a c i idx L fm2) as Hglyphs;
      destruct (layout_glyphs F g n a c i idx L fm2) as [[L2|] fm3|f fm3]
  end; [| |done].
  - run. unfold hb_step. by eexists.
  - exact Hglyphs.
Qed.

Lemma layout_words_cleared F fuel :
  ∀ L fm,
    match layout_words F fuel L fm with
    | Ok _ fm' =>
        harfbuzz_buf_ fm' = harfbuzz_buf_ fm
        ∨ ∃ h, harfbuzz_buf_ fm' = hb_buffer_clear_contents h
    | Abort _ _ => True
    end.
Proof.
  induction fuel as [|fuel IH]; intros L fm; cbn [layout_words]; [done|].
  destruct (Advance (word_enum L)) as [[|] w]; [|by left].
  rewrite bind_unfold.
  match goal with
  | |- context [layout_word F ?L' fm] =>
      pose proof (layout_word_cleared F L' fm) as Hword;
      destruct (layout_word F L' fm) as [[L1|L1|] fm1|f fm1]
  end; [| | |done].
  - specialize (IH L1 fm1). cbn in Hword.
    destruct (layout_words F fuel L1 fm1) as [r fm2|f fm2]; [|done].
    right. destruct IH as [->|IH]; done.
  - by right.
  - by right.
Qed.

Lemma hb_step_UpdateUV_loop ysize flags buffer :
  ∀ cps i fm, hb_step never fm (UpdateUV_loop ysize flags buffer cps i fm).
Proof.
  induction cps as [|cp rest IH]; intros i fm; cbn [UpdateUV_loop]; [hb|].
  apply hb_step_bind_never; [apply hb_step_GetCachedEntry|].
  intros [cache|] fm1 _; [|hb].
  unfold update_buffer, deref. hb. apply IH.
Qed.

Lemma hb_step_UpdateUV ysize flags buffer fm :
  hb_step never fm (UpdateUV ysize flags buffer fm).
Proof.
  unfold UpdateUV, deref. hb; try apply hb_step_UpdateUV_loop; hb.
Qed.

Lemma hb_step_upload_slices count :
  ∀ i fm, hb_step never fm (upload_slices count i fm).
Proof.
  induction count as [|count IH]; intros i fm; cbn [upload_slices]; [hb|].
  hb. apply IH.
Qed.

Lemma hb_step_UpdatePass start_subpass fm :
  hb_step never fm (UpdatePass start_subpass fm).
Proof. unfold UpdatePass. hb; try apply hb_step_upload_slices; hb. Qed.

Lemma hb_step_deref buffer fm : hb_step never fm (deref buffer fm).
Proof. unfold deref. hb. Qed.

Lemma hb_step_update_buffer buffer f fm :
  hb_step never fm (update_buffer buffer f fm).
Proof. unfold update_buffer, deref. hb. Qed.

Lemma build_buffer_cleared text length parameters ysize converted_ysize
    scale fm :
  match build_buffer text length parameters ysize converted_ysize scale fm
  with
  | Ok _ fm' =>
      harfbuzz_buf_ fm' = harfbuzz_buf_ fm
      ∨ ∃ h, harfbuzz_buf_ fm' = hb_buffer_clear_contents h
  | Abort _ _ => True
  end.
Proof.
  unfold build_buffer, font. run.
  destruct (current_font_ fm) as [f|] eqn:Hf; run; [|done].
  destruct (bool_decide (length ≠ 0)); run; rewrite ?Hf; run.
  all: match goal with
  | |- context [layout_words ?F ?n ?L ?fm1] =>
      pose proof (layout_words_cleared F n L fm1) as Hwords;
      destruct (layout_words F n L fm1) as [[L'|] fm'|e fm']
  end; run; try done.
  all: cbn in Hwords.
  all: destruct (get_caret_info_flag parameters);
    [destruct (AddCaretPosition _ _) as [b0|]|]; run; try done.
  all: destruct (UpdateLine _ _ _ _ _) as [b1|]; run; try done.
  all: destruct (Verify _) eqn:Hv; run; done.
Qed.

Lemma CreateBuffer_cleared text length parameters fm :
  match CreateBuffer text length parameters fm with
  | Ok _ fm' =>
      harfbuzz_buf_ fm' = harfbuzz_buf_ fm
      ∨ ∃ h, harfbuzz_buf_ fm' = hb_buffer_clear_contents h
  | Abort _ _ => True
  end.
Proof.
  destruct (map_buffers_ fm !! parameters) as [p|] eqn:Hmap.
  - unfold CreateBuffer, ConvertSize. run. rewrite Hmap. run.
    set (fm0 := set_calls_ (calls_ fm ++ [CallCreateBuffer]) fm).
    match goal with
    | |- match match ?m fm0 with _ => _ end with _ => _ end =>
        assert (hb_step never fm0 (m fm0)) as Hpass
          by (destruct (bool_decide _);
              [apply hb_step_update_buffer|done]);
        destruct (m fm0) as [[] fm1|f fm1]; [|done]
    end.
    cbn in Hpass.
    match goal with
    | |- context [UpdateUV ?y ?g p fm1] =>
        pose proof (hb_step_UpdateUV y g p fm1) as Hrefresh;
        destruct (UpdateUV y g p fm1) as [r fm2|f fm2]; [|done]
    end.
    cbn in Hrefresh.
    match goal with
    | |- match match ?m fm2 with _ => _ end with _ => _ end =>
        assert (hb_step never fm2 (m fm2)) as Hcount;
        [|destruct (m fm2) as [[] fm3|f fm3]; [|done]]
    end.
    { destruct (get_ref_count_flag parameters); [|done].
      destruct r as [r|]; [|done].
      pose proof (hb_step_deref r fm2) as Hderef.
      destruct (deref r fm2) as [b fm3|f fm3]; [|done].
      pose proof (hb_step_update_buffer r
                    (set_ref_count (get_ref_count b + 1)) fm3) as Hupdate.
      unfold hb_step, never in *.
      destruct (update_buffer r _ fm3) as [[] fm4|f fm4]; [|done].
      by rewrite Hupdate. }
    cbn in Hcount. left. rewrite Hcount, Hrefresh, Hpass. reflexivity.
  - rewrite (CreateBuffer_miss _ _ _ _ Hmap).
    match goal with
    | |- match build_buffer ?t ?l ?p ?y ?c ?s ?m with _ => _ end =>
        exact (build_buffer_cleared t l p y c s m)
    end.
Qed.

(** [GetBuffer] leaves no shaped text behind: when it returns, a buffer or
    null, the shaping buffer is as it was before the call or has been
    cleared since it was last filled, so that the next layout starts from
    an empty buffer if this one did. *)
Theorem GetBuffer_shaping_buffer text length parameters fm r fm' :
  GetBuffer text length parameters fm = Ok r fm' →
  harfbuzz_buf_ fm' = harfbuzz_buf_ fm
  ∨ ∃ h, harfbuzz_buf_ fm' = hb_buffer_clear_contents h.
Proof.
  rewrite GetBuffer_unfold.
  pose proof (CreateBuffer_cleared text (to_uint32 length) parameters fm)
    as H1.
  destruct (CreateBuffer text (to_uint32 length) parameters fm)
    as [[p|] fm1|f fm1]; [by intros [= <- <-]| |done].
  pose proof (hb_step_UpdatePass true
                (set_calls_ (calls_ fm1 ++ [CallFlushAndUpdate]) fm1)) as H2.
  destruct (UpdatePass true _) as [[] fm2|f fm2]; [|done].
  cbn in H2.
  pose proof (CreateBuffer_cleared text (to_uint32 length) parameters fm2)
    as H3.
  destruct (CreateBuffer text (to_uint32 length) parameters fm2)
    as [[p|] fm3|f fm3]; [| |done].
  - intros [= <- <-]. destruct H3 as [H3|H3]; [|by right].
    rewrite H3, H2. exact H1.
  - intros [= <- <-]. cbn. destruct H3 as [H3|H3]; [|by right].
    rewrite H3, H2. exact H1.
Qed.

(** *** The text of a request that the map holds *)

Lemma CreateBuffer_hit_text text1 length1 text2 length2 parameters fm p :
  map_buffers_ fm !! parameters = Some p →
  CreateBuffer text1 length1 parameters fm
  = CreateBuffer text2 length2 parameters fm.
Proof. intros Hmap. unfold CreateBuffer, ConvertSize. run. by rewrite Hmap. Qed.

(** Requests are told apart by their parameters alone.  Once the map
    holds the parameters, [GetBuffer] neither reads the text nor its
    length: with any other text it does the same and returns the same
    buffer, also when it has to flush and try again. *)
Theorem GetBuffer_keyed_by_parameters text1 length1 text2 length2
    parameters fm p :
  map_buffers_ fm !! parameters = Some p →
  GetBuffer text1 length1 parameters fm
  = GetBuffer text2 length2 parameters fm.
Proof.
  intros Hmap. rewrite !GetBuffer_unfold.
  rewrite (CreateBuffer_hit_text text1 (to_uint32 length1)
             text2 (to_uint32 length2) parameters fm p Hmap).
  assert (map_buffers_
            (final (CreateBuffer text2 (to_uint32 length2) parameters fm))
          = map_buffers_ fm) as Hm.
  { destruct (buffers_ fm !! p) as [b|] eqn:Hb.
    - by destruct (CreateBuffer_hit text2 (to_uint32 length2) parameters
                     fm p b Hmap Hb) as (Hm & _).
    - destruct (CreateBuffer_dangling text2 (to_uint32 length2) parameters
                  fm p Hmap Hb) as (f & fm' & -> & [Hm _] & _).
      exact Hm. }
  destruct (CreateBuffer text2 (to_uint32 length2) parameters fm)
    as [[q|] fm1|f fm1]; [done| |done].
  cbn [final] in Hm.
  destruct (UpdatePass_true_calls
              (set_calls_ (calls_ fm1 ++ [CallFlushAndUpdate]) fm1))
    as [[Hm2 _] _].
  cbn zeta in Hm2.
  destruct (UpdatePass true _) as [[] fm2|f fm2]; [|done].
  cbn [final] in Hm2.
  assert (map_buffers_ fm2 !! parameters = Some p) as Hmap2
    by (rewrite Hm2; cbn [map_buffers_ set_calls_]; by rewrite Hm).
  by rewrite (CreateBuffer_hit_text text1 (to_uint32 length1)
                text2 (to_uint32 length2) parameters fm2 p Hmap2).
Qed.

End ManagerProps.

(** ** SetScript: the byte swap *)

Lemma testbit_mask_16_24 j :
  0 <= j → Z.testbit 16711680 j = bool_decide (16 <= j < 24).
Proof.
  intros Hj. change 16711680 with (Z.shiftl (Z.ones 8) 16).
  rewrite Z.shiftl_spec by lia.
  destruct (decide (16 <= j)) as [H16|H16].
  - rewrite Z.testbit_ones_nonneg by lia.
    case_bool_decide; [apply Z.ltb_lt|apply Z.ltb_ge]; lia.
  - rewrite Z.testbit_neg_r by lia. by rewrite bool_decide_eq_false_2 by lia.
Qed.

Lemma testbit_mask_8_16 j :
  0 <= j → Z.testbit 65280 j = bool_decide (8 <= j < 16).
Proof.
  intros Hj. change 65280 with (Z.shiftl (Z.ones 8) 8).
  rewrite Z.shiftl_spec by lia.
  destruct (decide (8 <= j)) as [H8|H8].
  - rewrite Z.testbit_ones_nonneg by lia.
    case_bool_decide; [apply Z.ltb_lt|apply Z.ltb_ge]; lia.
  - rewrite Z.testbit_neg_r by lia. by rewrite bool_decide_eq_false_2 by lia.
Qed.

Lemma testbit_to_uint32 x i :
  0 <= i → Z.testbit (to_uint32 x) i = bool_decide (i < 32) && Z.testbit x i.
Proof.
  intros Hi. unfold to_uint32. case_bool_decide.
  - by rewrite Z.mod_pow2_bits_low by lia.
  - by rewrite Z.mod_pow2_bits_high by lia.
Qed.

(** Bit [i] of the result is the bit of the same place in the mirrored
    byte. *)
Lemma swap_bytes_testbit s i :
  (∀ j, 32 <= j → Z.testbit s j = false) →
  0 <= i →
  Z.testbit (swap_bytes s) i
  = if bool_decide (i < 32)
    then Z.testbit s (24 - 8 * (i / 8) + i mod 8) else false.
Proof.
  intros Hhigh Hi. unfold swap_bytes.
  rewrite !Z.lor_spec, !testbit_to_uint32, !Z.shiftr_spec, !Z.shiftl_spec,
    !Z.land_spec by lia.
  rewrite testbit_mask_16_24 by lia.
  destruct (decide (i < 8)) as [H8|H8];
    [|destruct (decide (i < 16)) as [H16|H16];
      [|destruct (decide (i < 24)) as [H24|H24];
        [|destruct (decide (i < 32)) as [H32|H32]]]].
  - replace (24 - 8 * (i / 8) + i mod 8) with (i + 24)
      by (Z.div_mod_to_equations; lia).
    rewrite (Z.testbit_neg_r _ (i - 8)), (Z.testbit_neg_r s (i - 24)) by lia.
    rewrite (bool_decide_eq_false_2 (16 <= i + 8 < 24)) by lia.
    rewrite bool_decide_eq_true_2 by lia.
    cbn [andb]. by rewrite !andb_false_r, !orb_false_r.
  - replace (24 - 8 * (i / 8) + i mod 8) with (i + 8)
      by (Z.div_mod_to_equations; lia).
    rewrite (Hhigh (i + 24)), (Z.testbit_neg_r s (i - 24)) by lia.
    rewrite testbit_mask_8_16 by lia.
    rewrite (bool_decide_eq_true_2 (16 <= i + 8 < 24)) by lia.
    rewrite (bool_decide_eq_false_2 (8 <= i - 8 < 16)) by lia.
    rewrite bool_decide_eq_true_2 by lia.
    by rewrite !andb_false_r, !andb_true_r, !orb_false_r.
  - replace (24 - 8 * (i / 8) + i mod 8) with (i - 8)
      by (Z.div_mod_to_equations; lia).
    rewrite (Hhigh (i + 24)), (Z.testbit_neg_r s (i - 24)) by lia.
    rewrite testbit_mask_8_16 by lia.
    rewrite (bool_decide_eq_false_2 (16 <= i + 8 < 24)) by lia.
    rewrite (bool_decide_eq_true_2 (8 <= i - 8 < 16)) by lia.
    rewrite bool_decide_eq_true_2 by lia.
    by rewrite !andb_false_r, !andb_true_r, !orb_false_r.
  - replace (24 - 8 * (i / 8) + i mod 8) with (i - 24)
      by (Z.div_mod_to_equations; lia).
    rewrite (Hhigh (i + 24)) by lia.
    rewrite testbit_mask_8_16 by lia.
    rewrite (bool_decide_eq_false_2 (16 <= i + 8 < 24)) by lia.
    rewrite (bool_decide_eq_false_2 (8 <= i - 8 < 16)) by lia.
    rewrite bool_decide_eq_true_2 by lia.
    by rewrite !andb_false_r.
  - rewrite (Hhigh (i + 24)) by lia.
    rewrite (bool_decide_eq_false_2 (16 <= i + 8 < 24)) by lia.
    rewrite bool_decide_eq_false_2 by lia.
    by rewrite !andb_false_r.
Qed.

Lemma testbit_uint32_high s :
  0 <= s < 2 ^ 32 → ∀ j, 32 <= j → Z.testbit s j = false.
Proof.
  intros Hs j Hj. rewrite <- (Z.mod_small s (2 ^ 32)) by lia.
  apply Z.mod_pow2_bits_high. lia.
Qed.

Lemma testbit_high_uint32 s :
  0 <= s → (∀ j, 32 <= j → Z.testbit s j = false) → s < 2 ^ 32.
Proof.
  intros Hs Hhigh.
  assert (s = s mod 2 ^ 32) as ->; [|apply Z.mod_pos_bound; lia].
  apply Z.bits_inj'. intros i Hi.
  destruct (decide (i < 32)).
  - by rewrite Z.mod_pow2_bits_low by lia.
  - rewrite Z.mod_pow2_bits_high by lia. apply Hhigh. lia.
Qed.

Lemma swap_bytes_nonneg s : 0 <= s → 0 <= swap_bytes s.
Proof.
  intros Hs. unfold swap_bytes, to_uint32.
  rewrite !Z.lor_nonneg, !Z.shiftr_nonneg, Z.land_nonneg.
  repeat split; [done|by left|apply Z.mod_pos_bound..]; reflexivity.
Qed.

(** Swapping the bytes of a [uint32_t] twice gives the value back, and a
    swapped value is a [uint32_t]. *)
Theorem swap_bytes_involutive s :
  0 <= s < 2 ^ 32 →
  0 <= swap_bytes s < 2 ^ 32 ∧ swap_bytes (swap_bytes s) = s.
Proof.
  intros Hs. pose proof (testbit_uint32_high s Hs) as Hhigh.
  assert (∀ j, 32 <= j → Z.testbit (swap_bytes s) j = false) as Hhigh'.
  { intros j Hj. rewrite swap_bytes_testbit by (done || lia).
    by rewrite bool_decide_eq_false_2 by lia. }
  split.
  - split; [apply swap_bytes_nonneg; lia|].
    apply testbit_high_uint32; [apply swap_bytes_nonneg; lia|done].
  - apply Z.bits_inj'. intros i Hi.
    rewrite swap_bytes_testbit by done.
    case_bool_decide as H32.
    + rewrite swap_bytes_testbit
        by (done || (Z.div_mod_to_equations; lia)).
      rewrite bool_decide_eq_true_2 by (Z.div_mod_to_equations; lia).
      f_equal. Z.div_mod_to_equations. lia.
    + symmetry. apply Hhigh. lia.
Qed.

Lemma swap_bytes_involutive_witness :
  0 <= 1282372718 < 2 ^ 32
  ∧ swap_bytes (swap_bytes 1282372718) = 1282372718.
Proof.
  assert (0 <= 1282372718 < 2 ^ 32) as Hs by lia.
  split; [exact Hs|]. exact (proj2 (swap_bytes_involutive _ Hs)).
Defined.

Lemma testbit_byte c k : 0 <= c < 256 → 8 <= k → Z.testbit c k = false.
Proof.
  intros Hc Hk. rewrite <- (Z.mod_small c (2 ^ 8)) by lia.
  apply Z.mod_pow2_bits_high. lia.
Qed.

(** Four bytes read as a little-endian word and swapped: the first byte
    is the high byte. *)
Lemma swap_bytes_tag c0 c1 c2 c3 rest :
  0 <= c0 < 256 → 0 <= c1 < 256 → 0 <= c2 < 256 → 0 <= c3 < 256 →
  swap_bytes <$> read_uint32 (c0 :: c1 :: c2 :: c3 :: rest)
  = Some (Z.lor (Z.lor (Z.lor (Z.shiftl c0 24) (Z.shiftl c1 16))
                       (Z.shiftl c2 8)) c3).
Proof.
  intros H0 H1 H2 H3. cbn [read_uint32 fmap option_fmap option_map].
  f_equal.
  set (s := Z.lor (Z.lor (Z.lor c0 (Z.shiftl c1 8)) (Z.shiftl c2 16))
                  (Z.shiftl c3 24)).
  assert (∀ j, 0 <= j →
            Z.testbit s j
            = Z.testbit c0 j || Z.testbit c1 (j - 8) || Z.testbit c2 (j - 16)
              || Z.testbit c3 (j - 24)) as Hs.
  { intros j Hj. subst s. by rewrite !Z.lor_spec, !Z.shiftl_spec by lia. }
  assert (∀ j, 32 <= j → Z.testbit s j = false) as Hhigh.
  { intros j Hj. rewrite Hs by lia.
    by rewrite !testbit_byte by lia. }
  apply Z.bits_inj'. intros i Hi.
  rewrite swap_bytes_testbit by done.
  rewrite !Z.lor_spec, !Z.shiftl_spec by lia.
  case_bool_decide as H32.
  - rewrite Hs by (Z.div_mod_to_equations; lia).
    destruct (decide (i < 8)) as [H8|H8];
      [|destruct (decide (i < 16)) as [H16|H16];
        [|destruct (decide (i < 24)) as [H24|H24]]].
    + replace (24 - 8 * (i / 8) + i mod 8) with (i + 24)
        by (Z.div_mod_to_equations; lia).
      rewrite (testbit_byte c0), (testbit_byte c1), (testbit_byte c2)
        by lia.
      rewrite !(Z.testbit_neg_r _ (i - _)) by lia.
      simpl. f_equal. lia.
    + replace (24 - 8 * (i / 8) + i mod 8) with (i + 8)
        by (Z.div_mod_to_equations; lia).
      rewrite (testbit_byte c0 (i + 8)), (testbit_byte c1 (i + 8 - 8)),
        (testbit_byte c3 i), (Z.testbit_neg_r c3), (Z.testbit_neg_r c0),
        (Z.testbit_neg_r c1) by lia.
      simpl. rewrite !orb_false_r. f_equal. lia.
    + replace (24 - 8 * (i / 8) + i mod 8) with (i - 8)
        by (Z.div_mod_to_equations; lia).
      rewrite (testbit_byte c0 (i - 8)), (testbit_byte c2 (i - 8)),
        (testbit_byte c3 i), (Z.testbit_neg_r c3), (Z.testbit_neg_r c2),
        (Z.testbit_neg_r c0) by lia.
      simpl. rewrite !orb_false_r. f_equal. lia.
    + replace (24 - 8 * (i / 8) + i mod 8) with (i - 24)
        by (Z.div_mod_to_equations; lia).
      rewrite (testbit_byte c1 (i - 16)), (testbit_byte c2 (i - 8)),
        (testbit_byte c3 i), !(Z.testbit_neg_r _ (i - 24 - _)) by lia.
      simpl. by rewrite !orb_false_r.
  - by rewrite !testbit_byte by lia.
Qed.

Section SettingsProps.
Context `{Collaborators}.

(** [SetScript] stores the tag of the first four characters, the first
    one in the high byte, and changes nothing else.  A string of fewer
    than three characters, which with its terminator has fewer than four
    bytes, is read past its end. *)
Theorem SetScript_tag script fm :
  Forall (λ c, 0 <= c < 256) script →
  SetScript script fm
  = match script with
    | c0 :: c1 :: c2 :: c3 :: _ =>
        Ok tt
          (set_script_
             (Z.lor (Z.lor (Z.lor (Z.shiftl c0 24) (Z.shiftl c1 16))
                           (Z.shiftl c2 8)) c3) fm)
    | _ => Abort OutOfRange fm
    end.
Proof.
  intros Hbytes. unfold SetScript, mbind, M_bind, bind, lift, modify.
  destruct script as [|c0 [|c1 [|c2 [|c3 rest]]]]; try done.
  apply Forall_cons in Hbytes as [Hc0 Hbytes].
  apply Forall_cons in Hbytes as [Hc1 Hbytes].
  apply Forall_cons in Hbytes as [Hc2 Hbytes].
  apply Forall_cons in Hbytes as [Hc3 _].
  pose proof (swap_bytes_tag c0 c1 c2 c3 rest Hc0 Hc1 Hc2 Hc3) as Htag.
  cbn [read_uint32 fmap option_fmap option_map] in Htag.
  cbn [read_uint32 ret]. injection Htag as ->. reflexivity.
Qed.

End SettingsProps.

(** ** FontManager::ExpandBuffer *)

Section ImageProps.
Variable RoundUpToPowerOf2 : Z → Z.
Variable total : FontMetrics → Z.

Lemma memcpy_Some (dst src : list Z) (at_ n : Z) :
  0 <= at_ → 0 <= n → at_ + n <= vsize dst → n <= vsize src →
  memcpy dst at_ src n
  = Some (take (Z.to_nat at_) dst ++ take (Z.to_nat n) src
          ++ drop (Z.to_nat (at_ + n)) dst).
Proof.
  intros. unfold memcpy. by rewrite !bool_decide_eq_true_2 by done.
Qed.

Lemma memset0_Some (dst : list Z) (at_ n : Z) :
  0 <= at_ → 0 <= n → at_ + n <= vsize dst →
  memset0 dst at_ n
  = Some (take (Z.to_nat at_) dst ++ replicate (Z.to_nat n) 0
          ++ drop (Z.to_nat (at_ + n)) dst).
Proof.
  intros. unfold memset0. by rewrite !bool_decide_eq_true_2 by done.
Qed.

(** The array of [n] bytes that [new] returns, copied into at [a] and
    cleared before and after the copy. *)
Lemma fresh_image_layout (fresh old : list Z) (n a c : nat) :
  (a + c ≤ n)%nat → (c ≤ length old)%nat →
  let image := take n (fresh ++ replicate n 0) in
  let image := take a image ++ take c old ++ drop (a + c) image in
  let image := take 0 image ++ replicate a 0 ++ drop (0 + a) image in
  take (a + c) image ++ replicate (n - (a + c)) 0
    ++ drop (a + c + (n - (a + c))) image
  = replicate a 0 ++ take c old ++ replicate (n - (a + c)) 0.
Proof.
  intros Hn Hc. cbv zeta.
  set (image := take n (fresh ++ replicate n 0)).
  assert (length image = n) as Hlen.
  { subst image. rewrite length_take, length_app, length_replicate. lia. }
  assert (length (take a image) = a) as Ha by (rewrite length_take; lia).
  assert (length (take c old) = c) as Hc' by (rewrite length_take; lia).
  rewrite take_0, app_nil_l. cbn [Nat.add].
  rewrite (drop_app_length' (take a image)) by done.
  rewrite (app_assoc (replicate a 0)).
  rewrite (take_app_length' (replicate a 0 ++ take c old))
    by (rewrite length_app, length_replicate; lia).
  rewrite drop_ge.
  - by rewrite app_nil_r, <- app_assoc.
  - rewrite !length_app, length_replicate, Hc', length_drop. lia.
Qed.

(** When the rounded height changes, the image is reallocated and every
    byte of the new array is written: [width * internal_leading_change]
    zeros, the [width * total] bytes of the old image, and zeros up to
    [width * new_height].  Nothing of the fresh array's content is left. *)
Theorem ExpandBuffer_reallocates (width height : Z)
    (original_metrics new_metrics : FontMetrics) (fresh image : list Z) :
  let new_height := RoundUpToPowerOf2 (total new_metrics) in
  let change :=
    internal_leading new_metrics - internal_leading original_metrics in
  total original_metrics ≠ total new_metrics →
  height ≠ new_height →
  0 <= width → 0 <= total original_metrics → 0 <= change →
  total original_metrics + change <= new_height →
  width * new_height < 2 ^ 31 →
  new_height < 2 ^ 31 →
  width * total original_metrics <= vsize image →
  ExpandBuffer RoundUpToPowerOf2 total width height original_metrics
    new_metrics fresh image
  = inr (true,
         replicate (Z.to_nat (width * change)) 0
         ++ take (Z.to_nat (width * total original_metrics)) image
         ++ replicate
              (Z.to_nat (width * (new_height
                                  - (total original_metrics + change)))) 0).
Proof.
  intros new_height change Htotal Hheight Hw HT Hchange Hfit Hsize Hnh Himage.
  assert (int32_range new_height) as Hr1 by (unfold int32_range; lia).
  assert (int32_range change) as Hr2 by (unfold int32_range; lia).
  assert (int32_range (width * new_height)) as Hr3
    by (unfold int32_range; nia).
  assert (int32_range (width * change)) as Hr4 by (unfold int32_range; nia).
  assert (int32_range (width * total original_metrics)) as Hr5
    by (unfold int32_range; nia).
  assert (int32_range (total original_metrics + change)) as Hr6
    by (unfold int32_range; lia).
  assert (int32_range (new_height - (total original_metrics + change)))
    as Hr7 by (unfold int32_range; lia).
  assert (int32_range (width * (total original_metrics + change))) as Hr8
    by (unfold int32_range; nia).
  assert (int32_range
            (width * (new_height - (total original_metrics + change))))
    as Hr9 by (unfold int32_range; nia).
  unfold ExpandBuffer. fold new_height. fold change.
  rewrite (bool_decide_eq_false_2 (total original_metrics = _)) by done.
  rewrite (to_int32_small new_height), (to_int32_small change) by done.
  rewrite (bool_decide_eq_false_2 (change < 0)) by lia.
  rewrite (bool_decide_eq_true_2 (height ≠ new_height)) by done.
  rewrite (to_int32_small (width * new_height)) by done.
  rewrite (bool_decide_eq_false_2 (width * new_height < 0)) by nia.
  rewrite !(to_int32_small (width * change)) by done.
  rewrite (to_int32_small (width * total original_metrics)) by done.
  rewrite (to_int32_small (total original_metrics + change)) by done.
  rewrite (to_int32_small (new_height - _)) by done.
  rewrite (to_int32_small (width * (total original_metrics + change)))
    by done.
  rewrite (to_int32_small (width * (new_height - _))) by done.
  set (n := Z.to_nat (width * new_height)).
  set (a := Z.to_nat (width * change)).
  set (c := Z.to_nat (width * total original_metrics)).
  assert (a + c ≤ n)%nat as Hac by (subst a c n; nia).
  assert (c ≤ length image)%nat as Hc by (subst c; unfold vsize in *; lia).
  set (image0 := take n (fresh ++ replicate n 0)).
  assert (length image0 = n) as Hlen0.
  { subst image0. rewrite length_take, length_app, length_replicate. lia. }
  rewrite memcpy_Some;
    [|nia|nia|unfold vsize; rewrite Hlen0; subst n; nia|done].
  cbn [mbind option_bind].
  fold a c. replace (Z.to_nat (width * change + _)) with (a + c)%nat
    by (subst a c; nia).
  set (image1 := take a image0 ++ take c image ++ drop (a + c) image0).
  assert (length image1 = n) as Hlen1.
  { subst image1. rewrite !length_app, !length_take, length_drop. lia. }
  rewrite memset0_Some;
    [|lia|nia|unfold vsize; rewrite Hlen1; subst n; nia].
  cbn [mbind option_bind]. fold a.
  change (Z.to_nat 0) with 0%nat.
  replace (Z.to_nat (0 + width * change)) with (0 + a)%nat
    by (subst a; lia).
  set (image2 := take 0 image1 ++ replicate a 0 ++ drop (0 + a) image1).
  assert (length image2 = n) as Hlen2.
  { subst image2. rewrite take_0, app_nil_l, length_app, length_replicate,
      length_drop. lia. }
  rewrite memset0_Some;
    [|nia|nia|unfold vsize; rewrite Hlen2; subst n; nia].
  replace (Z.to_nat (width * (total original_metrics + change)))
    with (a + c)%nat by (subst a c; nia).
  replace (Z.to_nat (width * (new_height - (total original_metrics + change))))
    with (n - (a + c))%nat by (subst a c n; nia).
  replace (Z.to_nat (width * (total original_metrics + change)
                     + width * (new_height
                                - (total original_metrics + change))))
    with (a + c + (n - (a + c)))%nat by (subst a c n; nia).
  do 2 f_equal.
  exact (fresh_image_layout fresh image n a c Hac Hc).
Qed.

(** Without a reallocation the rows are moved down inside the array by
    [memcpy].  As soon as the added internal leading is smaller than the
    old glyph height, source and destination overlap, which [memcpy] does
    not allow. *)
Theorem ExpandBuffer_in_place_overlaps (width height : Z)
    (original_metrics new_metrics : FontMetrics) (fresh image : list Z) :
  let change :=
    internal_leading new_metrics - internal_leading original_metrics in
  total original_metrics ≠ total new_metrics →
  height = to_int32 (RoundUpToPowerOf2 (total new_metrics)) →
  0 < width →
  0 < change < total original_metrics →
  width * total original_metrics < 2 ^ 31 →
  ExpandBuffer RoundUpToPowerOf2 total width height original_metrics
    new_metrics fresh image
  = inl ImageOverlap.
Proof.
  intros change Htotal Hheight Hw Hchange Hsize.
  assert (int32_range change) as Hr2 by (unfold int32_range; nia).
  assert (int32_range (width * change)) as Hr4 by (unfold int32_range; nia).
  assert (int32_range (width * total original_metrics)) as Hr5
    by (unfold int32_range; nia).
  unfold ExpandBuffer. fold change.
  rewrite (bool_decide_eq_false_2 (total original_metrics = _)) by done.
  rewrite (to_int32_small change) by done.
  rewrite (bool_decide_eq_false_2 (change < 0)) by lia.
  rewrite (bool_decide_eq_false_2 (height ≠ _)) by (by intros []).
  rewrite (bool_decide_eq_true_2 (0 < change)) by lia.
  rewrite (to_int32_small (width * change)) by done.
  rewrite (to_int32_small (width * total original_metrics)) by done.
  unfold ranges_overlap.
  by rewrite !bool_decide_eq_true_2 by nia.
Qed.

(** [GetTexture] passes to [ExpandBuffer] the metrics that [UpdateMetrics]
    computed from the current ones (lines 646-654).  For such a pair the
    assertion of [ExpandBuffer] holds: the internal leading has not
    shrunk. *)
Theorem ExpandBuffer_after_UpdateMetrics g width height
    (current_metrics new_metrics : FontMetrics) (fresh image : list Z) :
  UpdateMetrics g current_metrics = Some new_metrics →
  internal_leading new_metrics - internal_leading current_metrics < 2 ^ 31 →
  0 <= internal_leading new_metrics - internal_leading current_metrics
  ∧ ExpandBuffer RoundUpToPowerOf2 total width height current_metrics
      new_metrics fresh image
    ≠ inl ImageAssertion.
Proof.
  intros Hupdate Hrange. unfold UpdateMetrics in Hupdate.
  destruct (_ || _); [|done]. injection Hupdate as <-.
  cbn [internal_leading] in *.
  split; [lia|]. unfold ExpandBuffer. cbn [internal_leading].
  case_bool_decide; [done|].
  rewrite (to_int32_small (Z.max _ _ - _)) by (unfold int32_range; lia).
  rewrite (bool_decide_eq_false_2 (Z.max _ _ - _ < 0)) by lia.
  repeat (case_bool_decide || case_match); done.
Qed.

End ImageProps.

(** A 4 x 4 image whose glyph height grows from 3 to 5 rows, one of them
    internal leading: the 4 x 8 image has one cleared row, the three old
    rows and four cleared rows. *)
Lemma ExpandBuffer_reallocates_witness :
  ExpandBuffer (λ x, 2 ^ Z.log2_up x)
    (λ m, ascender m - descender m - external_leading m + internal_leading m)
    4 4 (mkFontMetrics 3 0 3 0 0) (mkFontMetrics 4 1 3 (-1) 0)
    [9; 9; 9] (Z.of_nat <$> seq 1 16)
  = inr (true,
         replicate 4 0 ++ (Z.of_nat <$> seq 1 12) ++ replicate 16 0).
Proof.
  exact (ExpandBuffer_reallocates (λ x, 2 ^ Z.log2_up x)
           (λ m, ascender m - descender m - external_leading m
                 + internal_leading m)
           4 4 (mkFontMetrics 3 0 3 0 0) (mkFontMetrics 4 1 3 (-1) 0)
           [9; 9; 9] (Z.of_nat <$> seq 1 16)
           ltac:(compute_done) ltac:(compute_done) ltac:(compute_done)
           ltac:(compute_done) ltac:(compute_done) ltac:(compute_done)
           ltac:(compute_done) ltac:(compute_done) ltac:(compute_done)).
Defined.

(** A glyph that rises one row above the ascender and reaches one row
    below the descender. *)
Lemma ExpandBuffer_after_UpdateMetrics_witness :
  ExpandBuffer (λ x, 2 ^ Z.log2_up x)
    (λ m, ascender m - descender m - external_leading m + internal_leading m)
    4 4 (mkFontMetrics 3 0 3 0 0) (mkFontMetrics 4 1 3 0 (-1))
    [] (Z.of_nat <$> seq 1 16)
  ≠ inl ImageAssertion.
Proof.
  exact (proj2 (ExpandBuffer_after_UpdateMetrics (λ x, 2 ^ Z.log2_up x)
                  (λ m, ascender m - descender m - external_leading m
                        + internal_leading m)
                  (mk_FT_GlyphSlot 0 4 4 5 []) 4 4
                  (mkFontMetrics 3 0 3 0 0) (mkFontMetrics 4 1 3 0 (-1))
                  [] (Z.of_nat <$> seq 1 16)
                  ltac:(vm_compute; reflexivity) ltac:(compute_done))).
Defined.

(** A 4 x 8 image whose glyph height grows from 3 to 5 rows inside the
    same rounded height. *)
Lemma ExpandBuffer_in_place_overlaps_witness :
  ExpandBuffer (λ x, 2 ^ Z.log2_up x)
    (λ m, ascender m - descender m - external_leading m + internal_leading m)
    4 8 (mkFontMetrics 3 0 3 0 0) (mkFontMetrics 4 1 3 (-1) 0)
    [] (Z.of_nat <$> seq 1 32)
  = inl ImageOverlap.
Proof.
  exact (ExpandBuffer_in_place_overlaps (λ x, 2 ^ Z.log2_up x)
           (λ m, ascender m - descender m - external_leading m
                 + internal_leading m)
           4 8 (mkFontMetrics 3 0 3 0 0) (mkFontMetrics 4 1 3 (-1) 0)
           [] (Z.of_nat <$> seq 1 32)
           ltac:(compute_done) ltac:(compute_done) ltac:(compute_done)
           ltac:(compute_done) ltac:(compute_done)).
Defined.

(** ** The faces: Open, Close and SelectFont *)

Section FaceProps.
Context `{FaceCollaborators}.

Lemma map_faces_set_face font_name face s :
  map_faces_ (set_face font_name face s)
  = <[font_name := face]> (map_faces_ s).
Proof. done. Qed.

(** What [Open] of a new name leaves: the entry of the name; a font
    counted as initialised when it succeeds, and selected when it is the
    first; the manager untouched when a font was initialised already. *)
Lemma Open_effects files font_name s b s' :
  map_faces_ s !! font_name = None →
  Open files font_name s = inr (b, s') →
  (∃ face, map_faces_ s' = <[font_name := face]> (map_faces_ s))
  ∧ (b = true →
     face_initialized_ s' = true
     ∧ (face_initialized_ s = false →
        is_Some (current_font_ (manager_ s'))))
  ∧ (face_initialized_ s = true →
     face_initialized_ s' = true ∧ manager_ s' = manager_ s).
Proof.
  intros Hnew. unfold Open. rewrite Hnew.
  destruct (files font_name _) as [loaded data].
  destruct loaded; simpl.
  2:{ intros [= <- <-]. split; [|done].
      eexists. simpl. by rewrite insert_insert_eq. }
  destruct (ft_ s); simpl; [|done].
  destruct (FT_New_Memory_Face _ _) as [err f].
  case_bool_decide.
  { intros [= <- <-]. split; [|done].
    eexists. simpl. by rewrite !insert_insert_eq. }
  destruct (face_initialized_ s); simpl.
  { intros [= <- <-]. split; [|done].
    eexists. simpl. by rewrite !insert_insert_eq. }
  destruct (HbFont_Open _ _) as [[font|] fonts]; simpl.
  - intros [= <- <-]. split; [|split; [|done]].
    + eexists. simpl. by rewrite !insert_insert_eq.
    + intros _. split; [done|]. intros _. simpl. by eexists.
  - intros [= <- <-]. split; [|done].
    eexists. simpl. by rewrite !insert_insert_eq.
Qed.

Lemma Open_map_faces files font_name s b s' :
  map_faces_ s !! font_name = None →
  Open files font_name s = inr (b, s') →
  ∃ face, map_faces_ s' = <[font_name := face]> (map_faces_ s).
Proof. intros Hnew Hopen. by destruct (Open_effects _ _ _ _ _ Hnew Hopen). Qed.

(** Whatever [Open] returns, the name is registered afterwards: also when
    the file could not be loaded or the font could not be initialised.
    Every further [Open] of the name returns false and changes nothing,
    whatever the files hold by then. *)
Theorem Open_registers files font_name s b s' :
  Open files font_name s = inr (b, s') →
  is_Some (map_faces_ s' !! font_name)
  ∧ ∀ files', Open files' font_name s' = inr (false, s').
Proof.
  intros Hopen.
  assert (is_Some (map_faces_ s' !! font_name)) as Hreg.
  { destruct (map_faces_ s !! font_name) as [face|] eqn:Hface.
    - unfold Open in Hopen. rewrite Hface in Hopen.
      injection Hopen as <- <-. by rewrite Hface.
    - destruct (Open_map_faces _ _ _ _ _ Hface Hopen) as [face ->].
      rewrite lookup_insert_eq. by eexists. }
  split; [done|]. intros files'. unfold Open.
  by destruct Hreg as [face ->].
Qed.

(** [Close] of an open name drops every buffer and every texture of the
    manager, not only those of the closed font: a buffer obtained before
    is dangling afterwards.  The current font stays what it was. *)
Theorem Close_drops_all_buffers font_name s face :
  map_faces_ s !! font_name = Some face →
  ∃ s',
    Close font_name s = (true, s')
    ∧ map_faces_ s' = delete font_name (map_faces_ s)
    ∧ map_buffers_ (manager_ s') = ∅
    ∧ buffers_ (manager_ s') = ∅
    ∧ map_textures_ s' = ∅
    ∧ current_font_ (manager_ s') = current_font_ (manager_ s)
    ∧ ∀ buffer,
        ReleaseBuffer buffer (manager_ s')
        = Abort DanglingPointer (manager_ s').
Proof.
  intros Hface. unfold Close. rewrite Hface.
  eexists. split; [done|].
  assert (∀ (c : bool) (s1 : FontStore),
            let s2 := if c then set_face_initialized_ false s1 else s1 in
            map_faces_ s2 = map_faces_ s1
            ∧ manager_ s2 = manager_ s1
            ∧ map_textures_ s2 = map_textures_ s1) as Hif
    by (by intros []).
  match goal with
  | |- context [if ?c then set_face_initialized_ false ?s1 else ?s1] =>
      destruct (Hif c s1) as (-> & -> & ->)
  end.
  simpl. split.
  - unfold FaceData_Close. simpl. by rewrite delete_insert_eq.
  - do 4 (split; [done|]). intros buffer.
    unfold ReleaseBuffer, deref, mbind, M_bind, bind, get.
    cbn [buffers_ set_map_buffers_ set_buffers_]. by rewrite lookup_empty.
Qed.

(** Closing a name right after opening it restores the set of open names,
    also when the [Open] failed: [Close] succeeds on a font that could not
    be opened. *)
Theorem Open_Close files font_name s b s1 :
  map_faces_ s !! font_name = None →
  Open files font_name s = inr (b, s1) →
  ∃ s2,
    Close font_name s1 = (true, s2)
    ∧ map_faces_ s2 = map_faces_ s
    ∧ face_initialized_ s2
      = face_initialized_ s1 && bool_decide (map_faces_ s ≠ ∅).
Proof.
  intros Hnew Hopen.
  destruct (Open_map_faces _ _ _ _ _ Hnew Hopen) as [face Hfaces].
  unfold Close. rewrite Hfaces, lookup_insert_eq.
  eexists. split; [done|].
  unfold FaceData_Close. cbn [map_faces_ set_face set_map_faces_
    set_hb_fonts_ set_map_textures_ with_manager].
  rewrite !Hfaces, !insert_insert_eq, !delete_insert_eq,
    !(delete_id _ _ Hnew).
  case_bool_decide as Hsize.
  - apply map_size_empty_inv in Hsize. simpl. split; [done|].
    rewrite bool_decide_eq_false_2 by (by intros []).
    by rewrite andb_false_r.
  - simpl. split; [done|].
    rewrite bool_decide_eq_true_2; [by rewrite andb_true_r|].
    intros Hempty. apply Hsize. by rewrite Hempty, map_size_empty.
Qed.

Lemma collect_faces_missing (faces : gmap string (FaceData FT_Face))
    font_names font_name (i : nat) n (j : nat) v :
  (j + n ≤ length font_names)%nat →
  (j ≤ i < j + n)%nat →
  font_names !! i = Some font_name →
  faces !! font_name = None →
  collect_faces faces font_names n (Z.of_nat j) v = inr None.
Proof.
  revert j v. induction n as [|n IH]; intros j v Hlen Hi Hname Hface; [lia|].
  cbn [collect_faces]. unfold vget. rewrite decide_True by lia.
  rewrite Nat2Z.id.
  destruct (lookup_lt_is_Some_2 font_names j ltac:(lia)) as [name' Hj].
  rewrite Hj. destruct (decide (i = j)) as [->|Hne].
  - rewrite Hname in Hj. injection Hj as <-. by rewrite Hface.
  - destruct (faces !! name'); [|done].
    replace (Z.of_nat j + 1) with (Z.of_nat (S j)) by lia.
    apply IH; [lia|lia|done|done].
Qed.

(** [SelectFont] of several names, one of which is not open, when the
    combination is not registered yet: it returns false and leaves no font
    selected, whichever font was selected before. *)
Theorem SelectFont_names_missing font_names count s (i : nat) font_name :
  count ≠ 1 →
  count <= vsize font_names →
  (HbFont_Open_id (HashId_names font_names count) (hb_fonts_ s)).1 = None →
  Z.of_nat i < count →
  font_names !! i = Some font_name →
  map_faces_ s !! font_name = None →
  ∃ s',
    SelectFont_names font_names count s = inr (false, s')
    ∧ current_font_ (manager_ s') = None
    ∧ map_faces_ s' = map_faces_ s.
Proof.
  intros Hcount Hlen Hid Hi Hname Hface. unfold SelectFont_names.
  rewrite bool_decide_eq_false_2 by done. cbv zeta. rewrite Hid.
  change 0 with (Z.of_nat 0).
  rewrite (collect_faces_missing _ font_names font_name i);
    [|unfold vsize in Hlen; lia|lia|done|done].
  eexists. split; [done|]. by rewrite <- Hid.
Qed.

(** A failed [Open] leaves its entry behind, so [Close] of the only font
    that was opened does not reset the manager: it still counts a font as
    initialised and keeps as the current font the one that [Open] of the
    closed face selected. *)
Theorem Close_with_failed_entry files first second s s1 s2 :
  map_faces_ s = ∅ →
  face_initialized_ s = false →
  first ≠ second →
  Open files first s = inr (true, s1) →
  Open files second s1 = inr (false, s2) →
  ∃ s3 face,
    Close first s2 = (true, s3)
    ∧ map_faces_ s3 = {[second := face]}
    ∧ face_initialized_ s3 = true
    ∧ is_Some (current_font_ (manager_ s1))
    ∧ current_font_ (manager_ s3) = current_font_ (manager_ s1).
Proof.
  intros Hempty Hinit Hne Hfirst Hsecond.
  destruct (Open_effects _ _ _ _ _ ltac:(by rewrite Hempty) Hfirst)
    as ([face1 Hfaces1] & Hinit1 & _).
  destruct (Hinit1 eq_refl) as [Hinit1' Hfont]. clear Hinit1.
  specialize (Hfont Hinit). rename Hinit1' into Hinit1.
  rewrite Hempty in Hfaces1.
  assert (map_faces_ s1 !! second = None) as Hnew.
  { rewrite Hfaces1, lookup_insert_ne by done. apply lookup_empty. }
  destruct (Open_effects _ _ _ _ _ Hnew Hsecond)
    as ([face2 Hfaces2] & _ & Hkept).
  destruct (Hkept Hinit1) as [Hinit2 Hmanager].
  assert (map_faces_ s2 !! first = Some face1) as Hface.
  { rewrite Hfaces2, lookup_insert_ne by done.
    by rewrite Hfaces1, lookup_insert_eq. }
  unfold Close. rewrite Hface. eexists _, face2. split; [done|].
  unfold FaceData_Close. cbn [map_faces_ set_face set_map_faces_
    set_hb_fonts_ set_map_textures_ with_manager].
  assert (delete first
            (<[first := set_font_data_ []
                          (set_face_ (FT_Done_Face (face_ face1)) face1)]>
               (map_faces_ s2))
          = {[second := face2]}) as ->.
  { rewrite delete_insert_eq, Hfaces2, Hfaces1.
    rewrite delete_insert_ne by done.
    by rewrite delete_insert_eq, delete_empty. }
  rewrite map_size_singleton, bool_decide_eq_false_2 by done.
  simpl. by rewrite Hmanager.
Qed.

End FaceProps.

(** ** Runs on the sample data *)

Section Samples.
#[local] Existing Instance Z_float.
#[local] Existing Instance sample_collaborators.

Lemma Some_default {A} (d : A) (o : option A) :
  is_Some o → o = Some (default d o).
Proof. by intros [a ->]. Qed.

Lemma returned_Some {A} (r : Result A) a :
  returned r = Some a → r = Ok a (final r).
Proof. destruct r; simpl; congruence. Qed.

(** The theorem on the buffer of "Hi", which is stale before the first
    upload of the atlas: both glyphs are fetched again. *)
Lemma UpdateUV_refreshes_stale_buffer_witness :
  buffers_ sample_manager_texts !! 1%nat = Some sample_buffer_Hi
  ∧ get_revision sample_buffer_Hi
    ≠ current_atlas_revision_ sample_manager_texts
  ∧ code_points_ sample_buffer_Hi ≠ []
  ∧ ∃ b',
      let o := UpdateUV 16 0 1%nat sample_manager_texts in
      buffers_ (final o) = <[1%nat := b']> (buffers_ sample_manager_texts)
      ∧ only_uv_and_revision_changed sample_buffer_Hi b'
      ∧ match o with
        | Ok (Some r) fm' =>
            r = 1%nat
            ∧ recorded sample_manager_texts fm'
                (fetches_found (code_points_ sample_buffer_Hi))
            ∧ revision_ b' = gc_get_revision (glyph_cache_ fm')
        | _ => True
        end.
Proof.
  assert (buffers_ sample_manager_texts !! 1%nat = Some sample_buffer_Hi)
    as Hb by (apply Some_default; compute_done).
  assert (get_revision sample_buffer_Hi
          ≠ current_atlas_revision_ sample_manager_texts)
    as Hstale by compute_done.
  assert (code_points_ sample_buffer_Hi ≠ []) as Hcps by compute_done.
  split; [exact Hb|]. split; [exact Hstale|]. split; [exact Hcps|].
  destruct (UpdateUV_refreshes_stale_buffer 16 0 1%nat sample_manager_texts
              sample_buffer_Hi Hb ltac:(compute_done) ltac:(compute_done)
              ltac:(compute_done) Hstale Hcps)
    as (b' & Ho).
  exists b'. cbn zeta in Ho |- *.
  destruct Ho as (_ & Hbuf & Hchg & _ & Hres).
  split; [exact Hbuf|]. split; [exact Hchg|].
  destruct (UpdateUV 16 0 1%nat sample_manager_texts) as [[r|] fm'|];
    [|exact I|exact I].
  destruct Hres as (Hr & Hrec & Hrev & _).
  split; [exact Hr|]. split; [exact Hrec|exact Hrev].
Defined.

(** C6, the case the claim misses: the buffer of the empty text is stale
    once the atlas has been uploaded; [UpdateUV] returns it as it is, at the
    revision 0, while the cache and the atlas are at the revision 2.  The
    revision is set in the body of the loop over the code points (line 576),
    which does not run. *)
Lemma UpdateUV_revision_counterexample :
  ¬ (∀ (fm : FontManager) ysize flags buffer b,
       buffers_ fm !! buffer = Some b →
       Verify b = true →
       is_Some (current_font_ fm) →
       get_revision b ≠ current_atlas_revision_ fm →
       ∃ b' fm',
         UpdateUV ysize flags buffer fm = Ok (Some buffer) fm'
         ∧ buffers_ fm' !! buffer = Some b'
         ∧ revision_ b' = gc_get_revision (glyph_cache_ fm')).
Proof.
  intros Hclaim.
  destruct (Hclaim sample_manager_rendering 16 0 0%nat
              (default (FontBuffer_new 0 false)
                 (buffers_ sample_manager_rendering !! 0%nat)))
    as (b' & fm' & Hrun & Hb' & Hrev).
  - apply Some_default. compute_done.
  - compute_done.
  - compute_done.
  - compute_done.
  - assert (revision_
              <$> buffers_ (final (UpdateUV 16 0 0%nat
                                     sample_manager_rendering)) !! 0%nat
            = Some 0) as Hr by compute_done.
    assert (gc_get_revision
              (glyph_cache_ (final (UpdateUV 16 0 0%nat
                                      sample_manager_rendering)))
            = 2) as Hg by compute_done.
    rewrite Hrun in Hr, Hg. cbn [final] in Hr, Hg.
    unfold addr in Hb', Hr. rewrite Hb' in Hr. injection Hr as Hr.
    rewrite Hr, Hg in Hrev. discriminate Hrev.
Qed.

(** C5, the second subpass of a frame: the warning is logged and the atlas
    is flushed again (lines 874-882), here with the glyphs of "Hi" in it. *)
Lemma UpdatePass_second_subpass_counterexample :
  ¬ (∀ fm fm' : FontManager,
       0 < current_pass_ fm →
       UpdatePass true fm = Ok tt fm' →
       CallFlush ∉ calls_since fm fm').
Proof.
  intros Hclaim.
  apply (Hclaim sample_manager_subpass
           (final (UpdatePass true sample_manager_subpass))).
  - compute_done.
  - apply returned_Some. compute_done.
  - assert (calls_since sample_manager_subpass
              (final (UpdatePass true sample_manager_subpass))
            = [CallLogInfo MsgMultipleSubpasses; CallFlush]) as ->
      by compute_done.
    set_solver.
Qed.

(** The atlas before and after that second subpass. *)
Example second_subpass_run :
  current_pass_ sample_manager_subpass = 1
  ∧ sc_code_points (glyph_cache_ sample_manager_subpass) = [72; 105]
  ∧ sc_code_points
      (glyph_cache_ (final (UpdatePass true sample_manager_subpass))) = [].
Proof. split; [|split]; compute_done. Qed.

(** The theorem on the last reference to the buffer of "Hi": the buffer
    leaves the map and is destroyed. *)
Lemma ReleaseBuffer_ref_count_witness :
  buffers_ sample_manager_texts !! 1%nat = Some sample_buffer_Hi
  ∧ get_ref_count sample_buffer_Hi = 1
  ∧ ∃ fm',
      ReleaseBuffer 1%nat sample_manager_texts = Ok tt fm'
      ∧ map_buffers_ fm'
        = delete (sample_text_parameters 1) (map_buffers_ sample_manager_texts)
      ∧ buffers_ fm' = delete 1%nat (buffers_ sample_manager_texts).
Proof.
  assert (buffers_ sample_manager_texts !! 1%nat = Some sample_buffer_Hi)
    as Hb by (apply Some_default; compute_done).
  assert (get_ref_count sample_buffer_Hi = 1) as Hrc by compute_done.
  split; [exact Hb|]. split; [exact Hrc|].
  destruct (proj1 (proj2 (ReleaseBuffer_ref_count 1%nat sample_buffer_Hi
                            sample_manager_texts Hb))
              Hrc (sample_text_parameters 1)
              ltac:(compute_done) ltac:(compute_done))
    as (fm' & Hrun & Hmap & Hbuf & _).
  exists fm'. split; [exact Hrun|]. split; [exact Hmap|exact Hbuf].
Defined.

(** The theorem on a committed line that gets the glyph of a next line:
    committing that next line, right-aligned too, leaves the first line
    where it was. *)
Lemma UpdateLine_commits_line_witness :
  UpdateLine (sample_parameters kTextAlignmentRight 100)
    kTextLayoutDirectionLTR 90 false (sample_line 3 [])
  = Some sample_committed_line
  ∧ line_start_index_ sample_committed_line
    = vsize (code_points_ sample_committed_line)
  ∧ word_boundary_ sample_committed_line = []
  ∧ ∀ b3,
      UpdateLine (sample_parameters kTextAlignmentRight 100)
        kTextLayoutDirectionLTR 8 true sample_next_line = Some b3 →
      vertices_ sample_committed_line `prefix_of` vertices_ b3.
Proof.
  assert (UpdateLine (sample_parameters kTextAlignmentRight 100)
            kTextLayoutDirectionLTR 90 false (sample_line 3 [])
          = Some sample_committed_line)
    as Hu by (apply Some_default; compute_done).
  split; [exact Hu|].
  destruct (UpdateLine_commits_line _ _ _ _ _ _ Hu)
    as (Hstart & _ & Hwb & _ & Hlater).
  split; [exact Hstart|]. split; [exact Hwb|].
  intros b3 Hb3.
  refine (proj1 (Hlater sample_next_line _ _ _ _ b3 _ _ Hb3)).
  - compute_done.
  - eapply appended_since_trans;
      [apply AddCodepoint_appended|apply AddVertices_appended].
Defined.

(** The theorem on "ab" requested from the full cache: the first
    construction fails at "a". *)
Lemma CreateBuffer_cache_full_witness :
  map_buffers_ sample_manager_full !! sample_text_parameters 2 = None
  ∧ CallGetCachedEntry 97 false
    ∈ calls_since sample_manager_full
        (final (CreateBuffer sample_ab 2 (sample_text_parameters 2)
                  sample_manager_full))
  ∧ ∃ fm',
      CreateBuffer sample_ab 2 (sample_text_parameters 2) sample_manager_full
      = Ok None fm'
      ∧ same_buffers sample_manager_full fm'.
Proof.
  assert (map_buffers_ sample_manager_full !! sample_text_parameters 2 = None)
    as Hmap by compute_done.
  assert (CallGetCachedEntry 97 false
          ∈ calls_since sample_manager_full
              (final (CreateBuffer sample_ab 2 (sample_text_parameters 2)
                        sample_manager_full)))
    as Hin by compute_done.
  split; [exact Hmap|]. split; [exact Hin|].
  apply (proj1 (CreateBuffer_cache_full sample_ab 2 (sample_text_parameters 2)
                  sample_manager_full Hmap)).
  exists (CallGetCachedEntry 97 false). split; [exact Hin|reflexivity].
Defined.

(** The theorem on "ab" requested from the full cache: the atlas is flushed
    once and the second construction returns the buffer. *)
Lemma GetBuffer_single_retry_witness :
  returned (CreateBuffer sample_ab (to_uint32 2) (sample_text_parameters 2)
              sample_manager_full) = Some None
  ∧ returned (GetBuffer sample_ab 2 (sample_text_parameters 2)
                sample_manager_full) = Some (Some 1%nat)
  ∧ retry_calls
      (calls_since sample_manager_full
         (final (GetBuffer sample_ab 2 (sample_text_parameters 2)
                   sample_manager_full)))
    = [CallCreateBuffer; CallFlushAndUpdate; CallFlush; CallCreateBuffer].
Proof.
  assert (returned (CreateBuffer sample_ab (to_uint32 2)
                      (sample_text_parameters 2) sample_manager_full)
          = Some None) as Hfirst by compute_done.
  assert (returned (GetBuffer sample_ab 2 (sample_text_parameters 2)
                      sample_manager_full) = Some (Some 1%nat))
    as Hrun by compute_done.
  split; [exact Hfirst|]. split; [exact Hrun|].
  exact (proj1 (proj1 (GetBuffer_single_retry sample_ab 2
                         (sample_text_parameters 2) sample_manager_full _
                         (returned_Some _ _ Hfirst))
                  (Some 1%nat) _ (returned_Some _ _ Hrun))).
Defined.

(** The theorem on "Hi" requested twice: the second request returns the
    buffer of the first, with one more reference. *)
Lemma GetBuffer_deduplicates_witness :
  let fm1 := final (GetBuffer sample_Hi 2 (sample_text_parameters 1)
                      (sample_manager 20)) in
  returned (GetBuffer sample_Hi 2 (sample_text_parameters 1)
              (sample_manager 20)) = Some (Some 0%nat)
  ∧ ∃ b1,
      buffers_ fm1 !! 0%nat = Some b1
      ∧ get_revision b1 ≠ current_atlas_revision_ fm1
      ∧ code_points_ b1 = [72; 105]
      ∧ Forall (λ c, is_layout c = false)
          (calls_since fm1
             (final (GetBuffer sample_Hi 2 (sample_text_parameters 1) fm1)))
      ∧ (∀ q fm2,
          GetBuffer sample_Hi 2 (sample_text_parameters 1) fm1
          = Ok (Some q) fm2 →
          q = 0%nat
          ∧ ∃ b2,
              buffers_ fm2 !! 0%nat = Some b2
              ∧ layout_of b2 = layout_of b1
              ∧ get_ref_count b2
                = get_ref_count b1
                  + (if get_ref_count_flag (sample_text_parameters 1)
                     then 1 else 0))
      ∧ ∃ fm2 b2,
          GetBuffer sample_Hi 2 (sample_text_parameters 1) fm1
          = Ok (Some 0%nat) fm2
          ∧ recorded fm1 fm2
              [CallCreateBuffer; CallGetCachedEntry 72 true;
               CallGetCachedEntry 105 true]
          ∧ buffers_ fm2 !! 0%nat = Some b2
          ∧ layout_of b2 = layout_of b1
          ∧ get_ref_count b2 = get_ref_count b1 + 1.
Proof.
  intros fm1.
  set (b := default (FontBuffer_new 0 false) (buffers_ fm1 !! 0%nat)).
  set (f := default 0 (current_font_ fm1)).
  assert (returned (GetBuffer sample_Hi 2 (sample_text_parameters 1)
                      (sample_manager 20)) = Some (Some 0%nat))
    as Hfirst by compute_done.
  assert (buffers_ fm1 !! 0%nat = Some b) as Hb
    by (apply Some_default; compute_done).
  assert (current_font_ fm1 = Some f) as Hfont
    by (apply Some_default; compute_done).
  assert (get_revision b ≠ current_atlas_revision_ fm1) as Hstale
    by compute_done.
  assert (code_points_ b = [72; 105]) as Hcps by compute_done.
  assert (Verify b = true) as Hverify by compute_done.
  assert (vsize (code_points_ b) < 2 ^ 31) as Hsize by compute_done.
  assert (cache_holds
            (SetPixelSize (converted_size (sample_text_parameters 1) fm1) f)
            (converted_size (sample_text_parameters 1) fm1)
            (get_glyph_flags (sample_text_parameters 1))
            (code_points_ b) (glyph_cache_ fm1) = true)
    as Hholds by compute_done.
  assert (get_ref_count_flag (sample_text_parameters 1) = true) as Hflag
    by compute_done.
  split; [exact Hfirst|].
  destruct (GetBuffer_deduplicates sample_Hi 2 sample_Hi 2
              (sample_text_parameters 1) (sample_manager 20) 0%nat fm1
              (returned_Some _ _ Hfirst))
    as (b1 & _ & Hb1 & Hquiet & Hsame & _ & Hreturns).
  assert (b1 = b) as -> by (unfold addr in *; congruence).
  exists b. split; [exact Hb|]. split; [exact Hstale|].
  split; [exact Hcps|]. split; [exact Hquiet|]. split; [exact Hsame|].
  destruct (Hreturns f Hfont Hverify Hsize Hholds)
    as (fm2 & b2 & Hrun & Hrec & Hb2 & Hl & Hrc).
  rewrite (bool_decide_eq_false_2 _ Hstale), Hcps in Hrec.
  rewrite Hflag in Hrc.
  exists fm2, b2. split; [exact Hrun|]. split; [exact Hrec|].
  split; [exact Hb2|]. split; [exact Hl|exact Hrc].
Defined.

(** The second request of "Hi" as it runs: the buffer is stale, since the
    atlas was not uploaded in between, and its two glyphs are fetched
    again. *)
Example second_request_run :
  let fm1 := final (GetBuffer sample_Hi 2 (sample_text_parameters 1)
                      (sample_manager 20)) in
  let o := GetBuffer sample_Hi 2 (sample_text_parameters 1) fm1 in
  returned o = Some (Some 0%nat)
  ∧ calls_since fm1 (final o)
    = [CallCreateBuffer; CallGetCachedEntry 72 true;
       CallGetCachedEntry 105 true]
  ∧ get_ref_count <$> buffers_ (final o) !! 0%nat = Some 2.
Proof. cbn zeta. split; [|split]; compute_done. Qed.

(** The round trip on the buffer of "Hi" during rendering. *)
Lemma CreateBuffer_ReleaseBuffer_round_trip_witness :
  ∃ b fm1 fm2,
    buffers_ sample_manager_rendering !! 1%nat = Some b
    ∧ CreateBuffer sample_Hi 2 (sample_text_parameters 1)
        sample_manager_rendering
      = Ok (Some 1%nat) fm1
    ∧ (get_ref_count <$> buffers_ fm1 !! 1%nat) = Some (get_ref_count b + 1)
    ∧ ReleaseBuffer 1%nat fm1 = Ok tt fm2
    ∧ map_buffers_ fm2 = map_buffers_ sample_manager_rendering
    ∧ glyph_cache_ fm2 = glyph_cache_ sample_manager_rendering.
Proof.
  set (b := default (FontBuffer_new 0 false)
              (buffers_ sample_manager_rendering !! 1%nat)).
  assert (map_buffers_ sample_manager_rendering !! sample_text_parameters 1
          = Some 1%nat) as Hp by compute_done.
  assert (buffers_ sample_manager_rendering !! 1%nat = Some b) as Hb
    by (apply Some_default; compute_done).
  assert (get_ref_count_flag (sample_text_parameters 1) = true) as Hflag
    by compute_done.
  assert (get_revision b = current_atlas_revision_ sample_manager_rendering)
    as Hrev by compute_done.
  assert (1 <= get_ref_count b) as Hrc by compute_done.
  destruct (CreateBuffer_ReleaseBuffer_round_trip sample_Hi 2
              (sample_text_parameters 1) sample_manager_rendering 1%nat b
              Hp Hb Hflag Hrev Hrc)
    as (fm1 & fm2 & H1 & H2 & H3 & H4 & H5 & _).
  exists b, fm1, fm2. do 5 (split; [assumption|]). assumption.
Defined.

(** The last release of the buffer of "Hi", and a second release. *)
Lemma ReleaseBuffer_then_dangling_witness :
  ∃ fm',
    ReleaseBuffer 1%nat sample_manager_texts = Ok tt fm'
    ∧ buffers_ fm' !! 1%nat = None
    ∧ map_buffers_ fm' !! sample_text_parameters 1 = None
    ∧ ReleaseBuffer 1%nat fm' = Abort DanglingPointer fm'.
Proof.
  assert (buffers_ sample_manager_texts !! 1%nat = Some sample_buffer_Hi)
    as Hb by (apply Some_default; compute_done).
  assert (get_ref_count sample_buffer_Hi = 1) as Hrc by compute_done.
  assert (iterator_ sample_buffer_Hi = Some (sample_text_parameters 1))
    as Hit by compute_done.
  assert (map_buffers_ sample_manager_texts !! sample_text_parameters 1
          = Some 1%nat) as Hp by compute_done.
  exact (ReleaseBuffer_then_dangling 1%nat sample_buffer_Hi
           (sample_text_parameters 1) sample_manager_texts Hb Hrc Hit Hp).
Defined.

#[local] Existing Instance sample_face_collaborators.

Lemma inr_store_after {A}
    (r : A + bool * @FontStore Z_float sample_collaborators
                      sample_face_collaborators) b :
  match r with inr (b', _) => Some b' | inl _ => None end = Some b →
  r = inr (b, store_after r).
Proof. destruct r as [|[b' s]]; simpl; congruence. Qed.

(** "b.ttf" cannot be loaded: it is registered all the same, and is not
    opened later, when the file is there. *)
Lemma Open_registers_witness :
  Open sample_files "b.ttf" sample_store_a = inr (false, sample_store_a_b)
  ∧ is_Some (map_faces_ sample_store_a_b !! "b.ttf")
  ∧ Open sample_files_later "b.ttf" sample_store_a_b
    = inr (false, sample_store_a_b).
Proof.
  assert (Open sample_files "b.ttf" sample_store_a
          = inr (false, sample_store_a_b)) as Hopen
    by (apply inr_store_after; compute_done).
  split; [exact Hopen|].
  destruct (Open_registers sample_files "b.ttf" sample_store_a false
              sample_store_a_b Hopen) as [Hreg Hagain].
  split; [exact Hreg|exact (Hagain sample_files_later)].
Defined.

(** [Close] of "a.ttf" in the manager that holds the buffers of two
    texts. *)
Lemma Close_drops_all_buffers_witness :
  ∃ s',
    Close "a.ttf" sample_store_a = (true, s')
    ∧ map_buffers_ (manager_ s') = ∅
    ∧ buffers_ (manager_ s') = ∅
    ∧ ReleaseBuffer 1%nat (manager_ s')
      = Abort DanglingPointer (manager_ s').
Proof.
  assert (map_faces_ sample_store_a !! "a.ttf"
          = Some (default FaceData_new
                    (map_faces_ sample_store_a !! "a.ttf"))) as Hface
    by (apply Some_default; compute_done).
  destruct (Close_drops_all_buffers "a.ttf" sample_store_a _ Hface)
    as (s' & Hclose & _ & Hmap & Hbuf & _ & _ & Hdangling).
  exists s'. split; [exact Hclose|]. split; [exact Hmap|].
  split; [exact Hbuf|exact (Hdangling 1%nat)].
Defined.

(** "b.ttf", which cannot be loaded, opened and closed after "a.ttf". *)
Lemma Open_Close_witness :
  ∃ s2,
    Open sample_files "b.ttf" sample_store_a = inr (false, sample_store_a_b)
    ∧ Close "b.ttf" sample_store_a_b = (true, s2)
    ∧ map_faces_ s2 = map_faces_ sample_store_a.
Proof.
  assert (Open sample_files "b.ttf" sample_store_a
          = inr (false, sample_store_a_b)) as Hopen
    by (apply inr_store_after; compute_done).
  destruct (Open_Close sample_files "b.ttf" sample_store_a false
              sample_store_a_b ltac:(compute_done) Hopen)
    as (s2 & Hclose & Hfaces & _).
  exists s2. split; [exact Hopen|]. split; [exact Hclose|exact Hfaces].
Defined.

(** "a.ttf" and "c.ttf" selected together when only "a.ttf" is open. *)
Lemma SelectFont_names_missing_witness :
  ∃ s',
    SelectFont_names ["a.ttf"; "c.ttf"] 2 sample_store_a = inr (false, s')
    ∧ is_Some (current_font_ (manager_ sample_store_a))
    ∧ current_font_ (manager_ s') = None.
Proof.
  destruct (SelectFont_names_missing ["a.ttf"; "c.ttf"] 2 sample_store_a
              1%nat "c.ttf" ltac:(compute_done) ltac:(compute_done)
              ltac:(compute_done) ltac:(compute_done) ltac:(compute_done)
              ltac:(compute_done))
    as (s' & Hselect & Hfont & _).
  exists s'. split; [exact Hselect|]. split; [compute_done|exact Hfont].
Defined.

(** "a.ttf" opened, "b.ttf" not loaded, "a.ttf" closed. *)
Lemma Close_with_failed_entry_witness :
  ∃ s3 face,
    Close "a.ttf" sample_store_a_b = (true, s3)
    ∧ map_faces_ s3 = {[ "b.ttf" := face ]}
    ∧ face_initialized_ s3 = true
    ∧ is_Some (current_font_ (manager_ s3)).
Proof.
  assert (Open sample_files "a.ttf" sample_store
          = inr (true, sample_store_a)) as Ha
    by (apply inr_store_after; compute_done).
  assert (Open sample_files "b.ttf" sample_store_a
          = inr (false, sample_store_a_b)) as Hb
    by (apply inr_store_after; compute_done).
  destruct (Close_with_failed_entry sample_files "a.ttf" "b.ttf"
              sample_store sample_store_a sample_store_a_b
              ltac:(reflexivity) ltac:(reflexivity) ltac:(discriminate)
              Ha Hb)
    as (s3 & face & Hclose & Hfaces & Hinit & Hsome & Hfont).
  exists s3, face. split; [exact Hclose|]. split; [exact Hfaces|].
  split; [exact Hinit|]. rewrite Hfont. exact Hsome.
Defined.

(** "Hi" requested again after the cache of 2 glyphs was flushed for "ab":
    its buffer is stale, 'H' does not fit into the cache, and the call
    ends in the null dereference. *)
Lemma GetBuffer_refresh_failure_witness :
  ∃ calls fm',
    recorded sample_manager_flushed
      (final (GetBuffer sample_Hi 2 (sample_text_parameters 1)
                sample_manager_flushed))
      (CallCreateBuffer :: calls)
    ∧ last calls = Some (CallGetCachedEntry 72 false)
    ∧ GetBuffer sample_Hi 2 (sample_text_parameters 1) sample_manager_flushed
      = Abort NullPointer fm'.
Proof.
  assert (map_buffers_ sample_manager_flushed !! sample_text_parameters 1
          = Some 0%nat) as Hp by compute_done.
  assert (buffers_ sample_manager_flushed !! 0%nat
          = Some (default (FontBuffer_new 0 false)
                    (buffers_ sample_manager_flushed !! 0%nat))) as Hb
    by (apply Some_default; compute_done).
  assert (get_ref_count_flag (sample_text_parameters 1) = true) as Hflag
    by compute_done.
  destruct (GetBuffer_refresh_failure sample_Hi 2 (sample_text_parameters 1)
              sample_manager_flushed 0%nat _ Hp Hb Hflag)
    as (calls & Hrec & _ & _ & Hfault).
  assert (last calls = Some (CallGetCachedEntry 72 false)) as Hlast.
  { assert (last (calls_since sample_manager_flushed
                    (final (GetBuffer sample_Hi 2 (sample_text_parameters 1)
                              sample_manager_flushed)))
            = Some (CallGetCachedEntry 72 false)) as Hl by compute_done.
    rewrite (recorded_calls_since _ _ _ Hrec) in Hl.
    destruct calls as [|c calls]; [discriminate Hl|exact Hl]. }
  destruct (Hfault 72 Hlast) as [fm' Hrun].
  exists calls, fm'. split; [exact Hrec|]. split; [exact Hlast|exact Hrun].
Defined.

(** A request before any font is selected. *)
Lemma GetBuffer_without_font_witness :
  ∃ fm',
    GetBuffer sample_Hi 2 (sample_text_parameters 1)
      (set_current_font_ None (sample_manager 20))
    = Abort NullPointer fm'.
Proof.
  destruct (GetBuffer_without_font sample_Hi 2 (sample_text_parameters 1)
              (set_current_font_ None (sample_manager 20))
              eq_refl (lookup_empty _))
    as (fm' & Hrun & _).
  exists fm'. exact Hrun.
Defined.

(** The empty manager, and the manager after a request and the release
    of its buffer. *)
Lemma owned_buffers_kept_witness :
  owned_buffers (sample_manager 20)
  ∧ owned_buffers
      (final (GetBuffer sample_Hi 2 (sample_text_parameters 1)
                (sample_manager 20)))
  ∧ owned_buffers
      (final (ReleaseBuffer 0%nat
                (final (GetBuffer sample_Hi 2 (sample_text_parameters 1)
                          (sample_manager 20))))).
Proof.
  assert (owned_buffers (sample_manager 20)) as Hempty.
  { split.
    - intros key p Hp. unfold sample_manager in Hp. cbn [map_buffers_] in Hp.
      rewrite lookup_empty in Hp. discriminate Hp.
    - intros p b Hb. unfold sample_manager in Hb. cbn [buffers_] in Hb.
      rewrite lookup_empty in Hb. discriminate Hb. }
  split; [exact Hempty|].
  pose proof (proj1 (owned_buffers_kept _ Hempty) sample_Hi 2
                (sample_text_parameters 1)) as Hget.
  split; [exact Hget|].
  exact (proj1 (proj2 (owned_buffers_kept _ Hget)) 0%nat).
Defined.

(** "Latn": the tag of the Latin script. *)
Lemma SetScript_tag_witness :
  SetScript [76; 97; 116; 110; 0] (sample_manager 20)
  = Ok tt (set_script_ 1281455214 (sample_manager 20)).
Proof.
  exact (SetScript_tag [76; 97; 116; 110; 0] (sample_manager 20)
           ltac:(repeat constructor; lia)).
Defined.

(** The empty manager, and the manager after two requests. *)
Lemma verified_buffers_kept_witness :
  verified_buffers (sample_manager 20)
  ∧ verified_buffers sample_manager_texts.
Proof.
  assert (verified_buffers (sample_manager 20)) as Hempty.
  { intros p b Hb. unfold sample_manager in Hb. cbn [buffers_] in Hb.
    rewrite lookup_empty in Hb. discriminate Hb. }
  split; [exact Hempty|].
  pose proof (proj1 (verified_buffers_kept _ Hempty) [] 0
                (sample_text_parameters 2)) as Hfirst.
  exact (proj1 (verified_buffers_kept _ Hfirst) sample_Hi 2
           (sample_text_parameters 1)).
Defined.

(** The empty text requested with a multi-line layout after "Hi": two
    bytes are laid out. *)
Lemma CreateBuffer_empty_text_witness :
  ∃ calls,
    recorded sample_manager_texts
      (final (CreateBuffer [] 0
                (@mkFontBufferParameters Z_float 1 3 16 (100, 0)
                   kTextAlignmentLeft 0 false true true 0)
                sample_manager_texts))
      (CallCreateBuffer :: CallLayoutText [] 2 :: calls).
Proof.
  destruct (CreateBuffer_empty_text []
              (@mkFontBufferParameters Z_float 1 3 16 (100, 0)
                 kTextAlignmentLeft 0 false true true 0)
              sample_manager_texts
              ltac:(compute_done) ltac:(compute_done) ltac:(compute_done)
              ltac:(compute_done) ltac:(compute_done))
    as (n & calls & _ & Hn & Hrec).
  exists calls.
  assert (n = 2) as -> by (rewrite Hn; compute_done).
  exact Hrec.
Defined.

(** "Hello World" built after two other texts. *)
Lemma GetBuffer_shaping_buffer_witness :
  let o := GetBuffer sample_Hello_World 11 (sample_text_parameters 5)
             sample_manager_texts in
  returned o = Some (Some 2%nat)
  ∧ (harfbuzz_buf_ (final o) = harfbuzz_buf_ sample_manager_texts
     ∨ ∃ h, harfbuzz_buf_ (final o) = hb_buffer_clear_contents h).
Proof.
  intros o.
  assert (returned o = Some (Some 2%nat)) as Hr by compute_done.
  split; [exact Hr|].
  exact (GetBuffer_shaping_buffer sample_Hello_World 11
           (sample_text_parameters 5) sample_manager_texts (Some 2%nat)
           (final o) (returned_Some _ _ Hr)).
Defined.

(** "Hello World" requested with the parameters of "Hi". *)
Lemma GetBuffer_keyed_by_parameters_witness :
  GetBuffer sample_Hello_World 11 (sample_text_parameters 1)
    sample_manager_texts
  = GetBuffer sample_Hi 2 (sample_text_parameters 1) sample_manager_texts.
Proof.
  exact (GetBuffer_keyed_by_parameters sample_Hello_World 11 sample_Hi 2
           (sample_text_parameters 1) sample_manager_texts 1%nat
           ltac:(compute_done)).
Defined.

End Samples.
